(* ===== verification/_CoqProject ===== *)
-Q . S2P
Prelude.v
JsArray.v
Globals.v
Text.v
Bird.v
Binary64.v
Rounding.v
Arith64.v
Exact64.v
Scale64.v
Floor64.v
Drift64.v
Pipes.v
PipesOrder.v
Field.v
Collision.v
Session.v
Render.v
Picture.v
Host.v
Machine.v
Page.v
Game64.v
Run64.v
