(* ===== verification/Prelude.v ===== *)
(** * Flappy Bird clone ([src/src/Index.ts]): a verification development

    ** The program

    [Index.ts] is a single-file browser game.  It keeps its whole state in
    module-level variables ([birdY], [birdVelocity], [birdFlap], [score],
    [pipes], [lastTime]) and is driven by two host callbacks: the
    animation-frame callback [gameLoop] and a [keydown] listener.  One call
    of [gameLoop] clears the canvas, advances the bird ([bird.update]),
    draws it, scrolls and culls the pipes ([updatePipes], a [forEach] whose
    callback [splice]s the array it iterates), draws them, tests for a
    collision ([checkCollisions]) and on a hit alerts and resets
    ([resetGame]), draws the score, maybe spawns a pipe ([spawnPipe], two
    calls of [Math.random]) and asks for the next frame.

    ** The files and what they model

    - [Prelude] (this file): numbers, automation and list facts shared by
      every component.
    - [JsArray]: the three [Array.prototype] methods the program calls,
      [push], [splice] and [forEach], the last with ECMAScript's live
      semantics (the length is read once, every index is looked up in the
      array as the callback left it).
    - [Globals]: the constants of lines 8-12, the canvas the program reads
      its size from (a typeclass [Canvas], the host's side of the
      interface), the [bird] object's constant fields, the record [Game] of
      the module-level variables, the calls the program makes on the host
      ([HostCall]: canvas drawing, [alert], [requestAnimationFrame]), and
      the equivalence [game_eq] of states that agree up to the
      representation of their rational fields.
    - [Text]: the reading direction of the two texts that carry the
      score: [string_to_number], [strip_prefix], [read_after].
    - [Bird]: [bird.flap], [bird.update], [bird.draw] (lines 23-46).
    - [Binary64]: [bird.update] once more, on binary64 numbers
      ([update64] on the Standard Library's [spec_float], 53 bits,
      round to nearest even), with the constants [GRAVITY64] and
      [FLAP_STRENGTH64] and the conversion [of_Z] of integers; the class
      [Canvas64] is what its theorems ask of the canvas.
    - [Rounding], [Arith64], [Exact64], [Scale64]: what the operators of
      [Binary64] compute.  [Rounding] follows [binary_round] on integer
      mantissas; [Arith64] says of the rationals the numbers stand for
      ([Qval]) that a sum or a difference is the exact one [rounded] and
      that comparisons are exact; [Exact64] draws the consequences the
      program needs (integers of 53 bits are exact, rounding does not
      cross an integer, a rounded value is half a grid step away at
      most); [Scale64] adds the product of line 50 ([mul]) and the halving
      of lines 15 and 122.
    - [Floor64]: the bird of [Binary64] on every canvas of at least 20
      pixels whose height has 53 bits ([Tall]), with the invariants
      [canonical64], [steady64] and [flying64].
    - [Drift64]: the distance between the bird of [Binary64] and the
      bird of [Bird]: [follows ey ev] relates a binary64 bird and a state
      of [Game] whose positions and velocities are within [ey] and [ev];
      [drift_y] and [drift_v] are the bounds after [n] frames.
    - [Game64]: the whole program on numbers: the variables as the record
      [Game64], and [spawnPipe64], [updatePipes64], [checkCollisions64],
      [resetGame64], [keydown64], [gameLoop64] for lines 49-62, 75-88 and
      93-133, with [Math_floor] for [Math.floor]; [models] relates its
      pipes and score to those of [Game], [sane64] is its invariant, and
      [Event64], [handle64], [run64] are the host on numbers.
    - [Run64]: the program of [Game64] beside the program of [Session]:
      [tracks] relates a state of each (the pipes and the score by
      [models], the birds by [follows]), [exact_event] reads an event of
      the one as an event of the other, and [decisive] says of a
      schedule that no test of a frame falls inside the drift of the
      birds ([clear_collision]) and that the product of line 50 keeps
      its floor when it is rounded ([floor_exact]).
    - [Pipes]: [spawnPipe], [updatePipes], [drawPipes] (lines 49-72),
      with [updatePipes] written as the source writes it, through
      [JsArray.forEach] and [JsArray.splice], and [updatePipes_rec], its
      characterisation by structural recursion on the list.  [advance] is
      the operation the specification asks for instead (section 4.2).
    - [PipesOrder]: the order in which [pipes] holds its pipes
      ([pipes_ok]: left to right, consecutive pipes at least 3 apart, the
      first two possibly at the same place), what [updatePipes] does to an
      array in that order, and the number of frames a pipe lives
      ([frames_on_screen]).
    - [Field]: the obstacle field of the specification as a type class
      [ObstacleField], with two instances: [code_field], the program's
      [pipes] and [score] under [updatePipes] and [spawnPipe], and
      [spec_field], a sequence and a counter under [advance]; the relation
      [lag] between the two; the laws both obey ([FieldLaws]).
    - [Collision]: [checkCollisions] (lines 75-88).
    - [Session]: [resetGame], the [keydown] listener, [gameLoop] itself
      (lines 91-136), the host events that drive them ([Event], [handle],
      [run]), the step relation [step] and the states [reachable] from
      [initial]; [frame_state] is the state a call of [gameLoop] leaves,
      without its drawing.
    - [Render]: the calls of a frame, split at the collision test
      ([scene], [overlay]), the fill style the context is left with
      ([style_after]) and the rows of the canvas a rectangle covers
      ([call_in_rows]).
    - [Picture]: what the canvas shows after the calls.  The context is
      a [Bitmap]: its fill style, its font and the colour each [Point] of
      the plane shows; [paint] is one call on it ([clearRect] makes the
      points of its rectangle transparent, [fillRect] gives them the fill
      style, [fillText] gives it to the points the glyphs cover, which
      are the parameter [Glyphs]); a [Rect] with a side of negative
      length runs backwards ([spans]).  [bird_square], [pipe_top] and
      [pipe_bottom] are the rectangles of lines 44, 68 and 70, and
      [picture] is what a frame is to show.
    - [Host]: the script with its effects where the source has them, as
      an interaction tree over the events [HostE]: [Math_random] for
      [Math.random()] (lines 50 and 115), [Host c] for a call on the
      context, [alert] or [requestAnimationFrame], and [Await] for the
      script returning to the browser, which calls back with a
      [Callback].  [gameLoop_tree] and [spawnPipe_tree] are lines 93-118
      and 49-52, [on_callback] the two callbacks, [event_loop] the script
      between callbacks for ever, [script] the loaded page (line 136 and
      the loop).  [host_handler] is a browser: a schedule, a generator of
      random numbers, the frames it owes and the calls it received
      ([HostState]).  [always P Q] says of a tree, finite or not, that
      every call it makes satisfies [P] under every host; [host_ok] are
      the hosts it speaks of.
    - [Machine]: the session of the specification (section 4.4) as the
      per-frame transition [tick] on the program's variables, with the
      [Notification] its game-over handler receives; [notification] and
      [shown_score] read the alert and the score line of the program
      back into numbers.
    - [Page]: the script as the browser loads it (lines 4-5, 129-136):
      [load] looks the canvas up in a [Document], casts it and asks for
      its 2D context, any of which can fail; [frame] is [gameLoop] as the
      host calls it, with or without a context; [page_run] is the host
      that delivers a frame only when one was requested and counts the
      requests it still owes ([page_pending]).

    The components meet through type classes: [Canvas] is what the host
    gives the program (a width and a height), [CanvasSize], [Playable],
    [Canvas64], [Tall] and [Playable64] are what a theorem asks of the
    canvas (a size that is not negative; a height above [PIPE_GAP]; a
    height and a floor line that are finite numbers; a height of at
    least 20 and below 2^53; a height of at least [PIPE_GAP] and a width
    that leaves room for a pipe below 2^53), [ObstacleField] is what the
    specification asks of the pipes and [FieldLaws] what a client of the
    field may rely on.  [Tall] canvases are [Canvas64] and [Playable64]
    canvases are [Tall], by instances.

    ** Numbers

    A JavaScript [number] is an IEEE-754 double.  The development models
    the integer-valued quantities (canvas size, pipe coordinates, score) by
    [Z]: they start as integers, change by [+1] or [-3], and stay far inside
    the range where doubles are exact.  The bird's position, its velocity,
    the time stamps and the values of [Math.random] are modelled by exact
    rationals [Q]: [GRAVITY = 0.6] is the rational 6/10.  That model
    describes the program up to the rounding of double arithmetic on the
    bird's two variables; every comparison of the source is a comparison
    of rationals ([Qlt_decision], [Qle_decision]).  Rational results are
    stated up to [==] ([Qeq]), because [Qplus] does not normalise
    fractions; [game_eq] lifts [==] to states and the operations are
    [Proper] for it.

    [Binary64] and [Game64] are the second model, in the arithmetic the
    program runs in: a number is a [spec_float] with precision 53 and
    maximal exponent 1024, [+], [-], [*], [/], [<] and [>] are [SFadd],
    [SFsub], [SFmul], [SFdiv] and [SFltb], which round to nearest, ties
    to even.  The two models are compared through [Qval], the rational a
    finite number stands for: [denotes x q] says that [x] is a finite
    canonical number and stands for [q].  The second model says where the
    first is exact (the pipes and the score: [updatePipes64_refines]) and
    where it is not ([0.6] and its sums; the clamp at the floor, by half
    a grid step; the collision test, on one side; the gap of a new pipe,
    by one pixel).  The Standard Library specifies the operations and
    proves nothing of them, and no library of floating-point proofs is
    loaded: what rounding does is proved here, from [binary_round] up.

    ** Effects

    State is passed explicitly: an operation of the source that assigns
    module-level variables is a function [Game -> Game]; an operation that
    only calls the host returns the list of its calls; [gameLoop] returns
    both.  [Math.random] is an input of the frame: the first draw decides
    the spawn, the second (made only when a pipe is spawned) its height.
    [Host] has the same program as a tree of events, in which a draw is
    a question to the host and a call an event in the order of the
    source, and proves that the two agree ([script_runs]); the tree is
    the only place where the program does not end.
    Objects held in [pipes] are never shared between two slots (each
    [spawnPipe] pushes a fresh object literal), so the object a callback
    receives is the slot it was read from, and [pipe.x -= 3] is the update
    of that slot.

    ** What is proved

    - [Bird]: [update_unfold] collects the assignments of [update];
      [update_in_canvas] is the clamp invariant (the bird is inside the
      canvas after every frame when the canvas is at least as tall as the
      bird) and [update_low_canvas] what happens when it is not;
      [update_spec] is the whole frame field by field; [updates_velocity]
      the closed form of the velocity without key presses; [bird_lands]
      that a bird left alone reaches the floor and stays;
      [velocity_grows_on_floor] that the velocity keeps growing there.
    - [Binary64]: [updates64_wf]: the state stays well typed, the
      position a finite number and the velocity not a NaN (rounding
      never makes a NaN of non-negative mantissas: [binary_normalize_number]);
      [update64_clamped]: after [update] neither test of lines 39-40 is
      true; [update64_above_floor]: the bound of the specification fails
      all the same, by half a unit in the last place, on a canvas 512
      high; [velocity64_three_frames]: 0.6 + 0.6 + 0.6 is not 1.8.
    - [Rounding]: [shr_shifted] and [round_shifted]: the shift keeps the
      quotient and the location of the remainder, and rounding to nearest
      is at most half a step away; [binary_round_spec]: the result of
      [binary_round] is canonical, on the grid of the magnitude.
    - [Arith64]: [add_rounded] and [sub_rounded]: a sum of finite
      canonical numbers is the exact sum [rounded]; [SFcompare_Qval],
      [lt_Qval], [le_Qval]: comparisons are those of the rationals.
    - [Exact64]: [rounded_le] and [rounded_ge]: rounding does not cross
      an integer of 53 bits; [rounded_Z], [of_Z_denotes], [add_Z],
      [sub_Z]: integers are exact; [rounded_near], [rounded_below]: a
      rounded value is at most half a grid step from the exact one;
      [rounded_cap]: at 2^53 adding less than 1 changes nothing;
      [denotes_unique]: one number for a rational;
      [no_number_between]: no number lies between two neighbours of a
      grid.
    - [Scale64]: [mul_rounded]: a product is the exact product rounded;
      [half_Z]: half of an integer of 53 bits is exact.
    - [Floor64]: [tall_canvas64]: every [Tall] canvas is a [Canvas64];
      [update64_floor_bound]: the clamp as it holds on numbers, with the
      bound that [update64_above_floor] attains; [updates64_steady]: the
      velocity stays between -12 and 2^53; [update64_flying]: the
      invariant of the bird.
    - [Drift64]: [velocity64_follows] and [unclamped64_follows]: each of
      the sums of lines 37 and 38 adds half a step of the numbers of its
      magnitude to the distance between the two birds; [clamp64_follows]:
      the clamps of lines 39-40 add nothing; [update64_follows]: one
      frame; [updates64_follows]: after [n] frames without a key press
      the velocities are within [n * 2^(k-54)] and the positions within
      [n * (n + 3) * 2^(k-55)], on a canvas at most 2^(k-1) high.
    - [Game64]: [updatePipes64_refines]: the pipes and the score are
      computed exactly; [checkCollisions64_margin]: a collision reported
      on numbers is a collision of the exact position, and a collision
      of the exact position is reported when the bird is outside the gap
      by more than half a step of the numbers next to the canvas height
      ([clear_of_gap]); [checkCollisions64_misses]: closer to the gap it
      is not; [spawnPipe64_refines]:
      the gap of a new pipe is that of the exact product or one pixel
      lower, and [spawnPipe64_one_more]: a draw for which it is one
      lower; [spawn_test64_exact]: the test of line 115 against the
      rounded 1/90 answers as the test against 1/90, for every draw;
      [run64_sane]: no NaN, no infinity and no rounded integer in
      any state the program reaches in fewer than 2^53 events;
      [score64_saturates]: at 2^53 the score stops.
    - [Run64]: [checkCollisions64_agrees]: a collision test that is
      clear of the gaps by the distance of the birds and half a step has
      one answer in both programs; [scroll_tracks], [resetGame64_tracks],
      [spawn_tracks], [keydown64_tracks]: each step of a frame keeps
      [tracks], and a reset puts both birds at the same number;
      [gameLoop64_tracks]: a decisive frame; [run64_tracks]: on a
      decisive schedule the two programs take the same branches from the
      initial state, so the pipes, the score and the pending flap are
      the same and the birds are within [drift_y] and [drift_v].
    - [Text]: [string_to_number_to_string], [strip_prefix_iff],
      [read_after_concat]: a numeral behind a beginning reads back.
    - [JsArray], [Pipes]: [updatePipes_from] is the invariant of the index
      loop of [forEach] under [splice], and [updatePipes_is_rec] its
      consequence: the loop computes [updatePipes_rec] and counts the
      removals into [score].  [updatePipes_score_counts] is the score
      accounting, [spawnPipe_new_pipe] and [spawnPipe_low_canvas] where a
      new pipe's gap is, [drawPipes_concat] the calls of [drawPipes].
    - [PipesOrder]: [updatePipes_on_ordered]: on an array in frame order
      at most the first pipe is removed; [updatePipes_skips]: in that
      frame the second pipe stands still, where [advance] moves it;
      [updatePipes_advance]: in every other frame the program implements
      [advance]; [pipe_lifetime] and [pipe_at_left_edge]: the frame in
      which a pipe leaves, which is not the one the specification's
      scenario expects.
    - [Field]: [field_run_lag]: [lag] is kept by every frame, from any two
      related fields; [field_refines_with_lag] and [field_score_lag]: from
      the empty field, the program's pipes and score are the
      specification's up to one step of the first pipe and one point;
      [code_field_laws] and [spec_field_laws]: both fields obey
      [FieldLaws]; [field_run_census], proved against the class, and
      [field_run_conserves], its instance for the program: the score plus
      the pipes on screen grows by the pipes spawned.
    - [Collision]: [checkCollisions_spec]: the loop answers the existence
      of a pipe the bird hits; [checkCollisions_example]: the worked
      example of the specification.
    - [Session]: [reachable_ok]: the invariant [game_ok] of the states
      reachable under any interleaving of key events and frames;
      [frame_collision_resets] and [frame_no_collision]: the state after a
      frame, with and without collision (the spawn also runs in a frame
      that resets); [game_over_calls] and [gameLoop_requests_frame]: the
      calls of a frame; [flaps_collapse]: key presses before a frame are
      one flap; [frame_state_proper]: a frame respects [game_eq].
    - [Host]: [gameLoop_tree_run]: under the host a frame of the tree
      ends in the state and with the calls of [Session.gameLoop] on the
      next two numbers of the generator, of which it uses one, or two
      when it spawns; [event_loop_callbacks]: the loop is its first [n]
      callbacks and the loop again; [script_runs]: the script up to the
      last callback of a schedule is [Session.run] on the events of
      [feed], and one frame is owed at its end; [always_bind] and
      [always_iter]: the rules of sequencing and of a loop with an
      invariant for [always], by parameterized coinduction;
      [script_always_in_rows]: every rectangle the script ever clears or
      fills lies in the rows of the canvas, whatever the host does and
      for ever; [always_refutes]: the property fails of a script that
      draws above the canvas; [always_log]: what [always P Q] says of a
      tree holds of the log of [host_handler] whenever the tree runs to
      its end under a host whose generator answers in [0, 1)
      ([always_has_post], by coinduction up to bind), so that after
      every prefix of the script the log holds no rectangle outside the
      rows ([script_log_in_rows]); [script_shows]: when the host has
      made the callbacks of a schedule, the calls it received paint the
      picture of the last frame ([Picture]).
    - [Render]: [frame_draws_in_rows]: in a state that satisfies the
      invariant every rectangle a frame clears or fills lies between the
      top and the bottom edge of the canvas; [score_text_style]: the
      score is written in the style the pipes or the bird left.
    - [Picture]: [run_picture]: after any run every point of the canvas
      shows the picture of the last frame alone (score over pipes over
      bird), whatever was shown before; [collision_is_overlap]: in every
      frame [checkCollisions] is true exactly when the bird's square and
      a part of a pipe share a point as the frame draws them
      ([rect_meet], [spans_meet], [hits_overlap]); [collision_shows] and
      [clear_shows_bird]: a frame that collides shows green inside the
      bird's square, one that does not shows the whole bird but where
      the score covers it ([score_over_bird]).
    - [Machine]: [gameLoop_refines_tick]: in a frame in which
      [updatePipes] skips no pipe, [gameLoop] is the transition [tick] of
      the specification, on the variables and on the final score the
      handler receives, but for the pipe spawned after a reset;
      [score_text_roundtrip] and [shown_score_gameLoop]: the texts of a
      frame read back as the score; [run_refines_field]: a whole run
      without collision, key events included, stays within [lag] of the
      specification's field.
    - [Page]: [load_throws]: the script throws at line 5 exactly when the
      document has no canvas of that id; [contextless_page_is_dead]:
      without a 2D context the first frame throws and the loop ends, the
      variables untouched; [page_refines_session]: with a context the
      host can deliver every schedule, one request is owed after every
      event, and the page does what [Session.run] does.

    Every theorem with a hypothesis is applied to a concrete state in a
    lemma named after it ([..._witness]), on the canvases [portrait_canvas]
    (400 by 600), [default_canvas] (300 by 150), [strip_canvas] (300 by
    15) and [square_canvas] (512 by 512), the states [near_floor],
    [flapping], [resting], [leaving], [cruising], [lone_pipe],
    [below_gap], [doomed], [high_flier], [grazing], [leaving64], [below_gap64],
    [grazing_gap64], the schedules [short_schedule],
    [short_schedule64], [decisive_schedule64] and [two_frames] (with
    the generator [spawn_once]), and the documents [portrait_document] and
    [contextless_document].

    ** Bounds and recursion

    Every definition is a structural recursion or a composition of such, so
    every operation is total and evaluates: [forEach_from] recurses on the
    number of indices left, which [forEach] sets to the length the array had
    when the loop began (as ECMAScript does); no fuel is chosen by the
    development.  [flap_frames] is 21 because a launch velocity of at least
    -12 plus 21 times 0.6 is at least 0.6, after which the bird falls by at
    least one pixel a frame; [landing_frames] adds the height of the canvas
    less the bird, the longest fall at that speed. [frames_on_screen x] is
    [(x + 62) / 3], the first [n] with [x - 3n + 60 <= 0].  The trees of
    [Host] are built from the library's [ITree.iter] and run by the
    library's [interp_state]: the theorems on runs are stated of [callbacks
    n], the first [n] callbacks, which end, with [n] the length of the
    host's schedule, and of the whole loop through [always].  [page_run]
    answers [None] for a schedule the host cannot deliver (a frame that
    nobody requested); its theorems say which schedules it can.

    The bound 2^53 of [of_Z_denotes], [Tall] and [Playable64] is the
    number of integers a mantissa of 53 bits holds; [Playable64] asks
    the width to stay 60 below it because the program adds [PIPE_WIDTH]
    to the coordinate of a pipe.  [run64_sane] bounds the number of
    events by 2^53 because each frame spawns at most one pipe and the
    score counts pipes: below that bound [score++] is exact, and at 2^53
    it is not ([score64_saturates]).  [models n] carries that count.
    The bound 1023 of [rounded_finite] is the largest magnitude below
    which no sum overflows; the program stays below 2^53 + 1
    ([rounded_finite_53]).  [EMIN] is -1074, the exponent of the least
    positive number.  In [updates64_follows] the exponent [k] is at
    least 5, so that the launch velocity -12 is below 2^(k-1) in
    absolute value, and at most 52, so that a frame adds less than 1 to
    the velocity, rounding included; the velocity must stay 2 below
    2^(k-1) for the sum of line 38 to stay below 2^k.  On the portrait
    canvas [k] is 11 and a hundred frames drift by less than a billionth
    of a pixel ([drift_hundred_frames]).  [run64_tracks] takes a margin
    [e] for the whole schedule and asks that it cover the drift of as
    many frames as the schedule has events, plus the half step of
    [checkCollisions64_margin]; a reset sets the drift to 0, which the
    bound does not use.

    ** Not modelled

    The sampling of the picture into pixels and the shapes of the glyphs of
    a font ([Picture] gives the colour of every point of the plane, the
    points a text covers being a parameter), the timing of frames and key
    events (any interleaving is a list of [Event]s or of [Callback]s), the
    distribution of [Math.random] (the generator of the host is any sequence
    of numbers), the blocking of [alert].  On numbers the state and every
    function that assigns it are modelled; the calls on the canvas are not
    repeated there (their arguments are the variables).  A run on numbers is
    compared with the run on rationals on decisive schedules only
    ([run64_tracks]): the birds differ by the rounding of 0.6, so a
    collision that the exact bird has or misses by less than the drift can
    fall in different frames of the two programs
    ([checkCollisions64_misses]), and from such a frame on the development
    says of the binary64 program what [run64_sane] says. Division is proved
    exact for halving only; [0.6] and [1 / SPAWN_RATE] are evaluated.  Of
    lines 23-46 the two lines that open and close the object literal hold no
    code; the remaining lines of the file not covered by a definition are
    comments and blank lines.  Elements of the document other than the
    canvas, and properties of the canvas other than its size and its
    context, do not occur. *)

From Stdlib Require Export QArith Qround ZArith Lia Lqa.
From Stdlib Require Export String.
From stdpp Require Export base tactics list strings.

#[global] Open Scope Z_scope.

(** ** Numbers: integers inside rationals *)

(** An integer-valued [number] used where a rational one is expected. *)
#[global] Coercion inject_Z : Z >-> Q.

(** The source's [<] and [<=] on numbers, as decidable relations. *)
#[export] Instance Qlt_decision : RelDecision Qlt :=
  fun x y => match Qlt_le_dec x y with
             | left H => left H
             | right H => right (Qle_not_lt _ _ H)
             end.

#[export] Instance Qle_decision : RelDecision Qle :=
  fun x y => match Qlt_le_dec y x with
             | left H => right (Qlt_not_le _ _ H)
             | right H => left H
             end.

(** ** Notation *)

Declare Scope game_scope.
Delimit Scope game_scope with game.

(** [s |> f |> g]: run [f], then [g], on the state [s], in the order the
    source lists its statements. *)
Notation "s |> f" := (f s) (at level 62, left associativity, only parsing) : game_scope.

(** ** Automation for mixed integer/rational goals *)

Create HintDb game discriminated.
Create Rewrite HintDb zq.

Lemma inject_Z_minus (x y : Z) : inject_Z (x - y) = (inject_Z x - inject_Z y)%Q.
Proof. unfold Z.sub, Qminus. now rewrite inject_Z_plus, inject_Z_opp. Qed.

#[export] Hint Rewrite inject_Z_plus inject_Z_minus inject_Z_mult inject_Z_opp : zq.

(** Integer hypotheses become rational ones. *)
Ltac zq_hyps :=
  repeat match goal with
  | H : (_ <= _ <= _)%Z |- _ => destruct H
  | H : (_ <= _ < _)%Z |- _ => destruct H
  | H : (_ < _ <= _)%Z |- _ => destruct H
  | H : (_ < _ < _)%Z |- _ => destruct H
  | H : (_ <= _)%Z |- _ => rewrite Zle_Qle in H
  | H : (_ < _)%Z |- _ => rewrite Zlt_Qlt in H
  end.

(** [inject_Z] of a literal, and the inverse of a literal, are literals. *)
Ltac zq_consts :=
  unfold Qdiv in *;
  repeat match goal with
  | |- context [inject_Z ?z] =>
      lazymatch z with Z0 => idtac | Zpos _ => idtac | Zneg _ => idtac end;
      let v := eval compute in (inject_Z z) in change (inject_Z z) with v in *
  | H : context [inject_Z ?z] |- _ =>
      lazymatch z with Z0 => idtac | Zpos _ => idtac | Zneg _ => idtac end;
      let v := eval compute in (inject_Z z) in change (inject_Z z) with v in *
  | |- context [Qinv (Qmake ?n ?d)] =>
      let v := eval compute in (Qinv (Qmake n d)) in change (Qinv (Qmake n d)) with v in *
  | H : context [Qinv (Qmake ?n ?d)] |- _ =>
      let v := eval compute in (Qinv (Qmake n d)) in change (Qinv (Qmake n d)) with v in *
  end.

(** Linear arithmetic over [Q] with integer atoms. *)
Ltac qz := zq_hyps; autorewrite with zq in *; zq_consts; lra.

(** Linear integer arithmetic with division by a literal. *)
Ltac lia_div := Z.to_euclidean_division_equations; lia.

(** Case analysis on every comparison the code makes. *)
Ltac case_cmp := repeat (case_decide || case_bool_decide || case_match); simplify_eq.

(** ** Facts on numbers *)

Section Numbers.
Local Open Scope Q_scope.

(** [Math.floor(r * n)] for a draw [0 <= r < 1] and a positive integer [n]
    is one of [0 .. n-1]. *)
Lemma Qfloor_scale_bounds (r : Q) (n : Z) :
  0 <= r < 1 -> (0 < n)%Z -> (0 <= Qfloor (r * n) < n)%Z.
Proof.
  intros [Hr0 Hr1] Hn. split.
  - change 0%Z with (Qfloor 0). apply Qfloor_resp_le.
    apply Qmult_le_0_compat; [done | qz].
  - rewrite Zlt_Qlt. eapply Qle_lt_trans; [apply Qfloor_le |].
    rewrite Zlt_Qlt in Hn. change (inject_Z 0) with 0 in Hn. nra.
Qed.

(** With a non-positive factor the product is in the mirrored range. *)
Lemma Qfloor_scale_nonpos (r : Q) (n : Z) :
  0 <= r < 1 -> (n <= 0)%Z -> (n <= Qfloor (r * n) <= 0)%Z.
Proof.
  intros [Hr0 Hr1] Hn. rewrite Zle_Qle in Hn. change (inject_Z 0) with 0 in Hn.
  assert (Hlo : inject_Z n <= r * n) by nra.
  assert (Hhi : r * n <= 0) by nra.
  apply Qfloor_resp_le in Hlo, Hhi. rewrite Qfloor_Z in Hlo.
  change (Qfloor 0) with 0%Z in Hhi. done.
Qed.

End Numbers.

(** ** Facts on lists *)

Section Lists.
Context {A : Type}.
Implicit Types (l : list A) (i : nat).

Lemma drop_lookup_cons l i x : l !! i = Some x -> drop i l = x :: drop (S i) l.
Proof. intros. by apply drop_S. Qed.

(** A filter keeps everything that passes and nothing that fails. *)
Lemma filter_all (P : A -> Prop) `{!forall x, Decision (P x)} l :
  Forall P l -> filter P l = l.
Proof. induction 1; [done |]. rewrite filter_cons_True by done. by f_equal. Qed.

Lemma filter_none (P : A -> Prop) `{!forall x, Decision (P x)} l :
  Forall (fun x => ~ P x) l -> filter P l = [].
Proof. induction 1; [done |]. by rewrite filter_cons_False. Qed.

End Lists.
