(* ===== verification/JsArray.v ===== *)
(** * JsArray: the [Array.prototype] methods [Index.ts] calls

    [pipes.push(p)] (line 51), [pipes.splice(index, 1)] (line 58) and
    [pipes.forEach(callback)] (lines 55 and 65) on a dense array, which is
    a [list].  [forEach] follows ECMAScript: the length is read once before
    the loop, and at each index [k] below it the array is looked up as the
    earlier callbacks left it; an index that is no longer present is
    skipped.  The callback runs on a state of type [St] of which the array is
    one component ([arr]), so that it can change the array it is iterated
    over, as the callback of [updatePipes] does. *)

From S2P Require Import Prelude.

Section JsArray.
Context {A : Type}.
Implicit Types (l : list A) (x : A) (k n : nat).

(** [l.push(x)]. *)
Definition push (x : A) (l : list A) : list A := l ++ [x].

(** [l.splice(start, deleteCount)], for the non-negative arguments the
    program passes: the elements [start .. start+deleteCount-1] are removed
    and the rest closes up. *)
Definition splice (start deleteCount : nat) (l : list A) : list A :=
  take start l ++ drop (start + deleteCount) l.

Section ForEach.
Context {St : Type} (arr : St -> list A).
Implicit Types (s : St) (callbackfn : A -> nat -> St -> St).

(** The loop of [forEach] with [n] iterations left, at index [k]. *)
Fixpoint forEach_from (n k : nat) (callbackfn : A -> nat -> St -> St) (s : St) : St :=
  match n with
  | O => s
  | S n' =>
      let s' := match arr s !! k with
                | Some kValue => callbackfn kValue k s
                | None => s
                end in
      forEach_from n' (S k) callbackfn s'
  end.

(** [arr.forEach(callbackfn)]. *)
Definition forEach (callbackfn : A -> nat -> St -> St) (s : St) : St :=
  forEach_from (length (arr s)) 0 callbackfn s.

(** The left fold over the elements in order, each with its index: what
    [forEach] is when the callback leaves the array alone. *)
Fixpoint fold_indexed (callbackfn : A -> nat -> St -> St) (k : nat) (l : list A) (s : St) : St :=
  match l with
  | [] => s
  | x :: l' => fold_indexed callbackfn (S k) l' (callbackfn x k s)
  end.

(** ** The loop *)

Lemma forEach_from_present n k callbackfn s x :
  arr s !! k = Some x ->
  forEach_from (S n) k callbackfn s
  = forEach_from n (S k) callbackfn (callbackfn x k s).
Proof. intros H. simpl. by rewrite H. Qed.

(** Once the index is past the end of the array no callback runs. *)
Lemma forEach_from_past_end n k callbackfn s :
  (length (arr s) <= k)%nat -> forEach_from n k callbackfn s = s.
Proof.
  revert k. induction n as [|n IH]; intros k Hk; [done |].
  simpl. rewrite lookup_ge_None_2 by done. apply IH. lia.
Qed.

Lemma forEach_nil callbackfn s : arr s = [] -> forEach callbackfn s = s.
Proof. intros H. unfold forEach. by rewrite H. Qed.

(** A loop invariant: what every callback preserves, the loop preserves. *)
Lemma forEach_from_invariant (P : St -> Prop) n k callbackfn s :
  (forall x i s', P s' -> arr s' !! i = Some x -> P (callbackfn x i s')) ->
  P s -> P (forEach_from n k callbackfn s).
Proof.
  intros Hcb. revert k s. induction n as [|n IH]; intros k s Hs; [done |].
  simpl. apply IH. destruct (arr s !! k) eqn:E; eauto.
Qed.

Lemma forEach_invariant (P : St -> Prop) callbackfn s :
  (forall x i s', P s' -> arr s' !! i = Some x -> P (callbackfn x i s')) ->
  P s -> P (forEach callbackfn s).
Proof. apply forEach_from_invariant. Qed.

(** ** Callbacks that leave the array alone

    For such a callback [forEach] is [fold_indexed]: the textbook reading
    of [forEach]. *)

Lemma forEach_from_fold callbackfn n k s :
  (forall x i s', arr (callbackfn x i s') = arr s') ->
  (length (arr s) <= k + n)%nat ->
  forEach_from n k callbackfn s = fold_indexed callbackfn k (drop k (arr s)) s.
Proof.
  intros Hcb. revert k s. induction n as [|n IH]; intros k s Hlen.
  - simpl. rewrite drop_ge by lia. done.
  - destruct (arr s !! k) as [x|] eqn:E.
    + rewrite (forEach_from_present _ _ _ _ _ E), (drop_lookup_cons _ _ _ E). simpl.
      rewrite IH by (rewrite Hcb; lia). by rewrite Hcb.
    + rewrite forEach_from_past_end by (by apply lookup_ge_None).
      rewrite drop_ge by (by apply lookup_ge_None). done.
Qed.

Lemma forEach_fold callbackfn s :
  (forall x i s', arr (callbackfn x i s') = arr s') ->
  forEach callbackfn s = fold_indexed callbackfn 0 (arr s) s.
Proof. intros Hcb. unfold forEach. rewrite forEach_from_fold by (done || lia). done. Qed.

End ForEach.

(** ** [push] and [splice] *)

Lemma length_push x l : length (push x l) = S (length l).
Proof. unfold push. rewrite length_app. simpl. lia. Qed.

Lemma lookup_push_old x l k : (k < length l)%nat -> push x l !! k = l !! k.
Proof. intros. unfold push. by rewrite lookup_app_l. Qed.

Lemma lookup_push_new x l : push x l !! length l = Some x.
Proof. unfold push. by rewrite list_lookup_middle. Qed.

Lemma splice_one k l : splice k 1 l = delete k l.
Proof.
  unfold splice. revert k. induction l as [|y l IH]; intros [|k]; simpl; try done.
  f_equal. apply IH.
Qed.

Lemma splice_zero k l : splice k 0 l = l.
Proof. unfold splice. rewrite Nat.add_0_r. apply take_drop. Qed.

Lemma length_splice k n l :
  length (splice k n l) = (length l - Nat.min n (length l - k))%nat.
Proof. unfold splice. rewrite length_app, length_take, length_drop. lia. Qed.

(** Removing the slot just after a prefix. *)
Lemma splice_middle l1 x l2 : splice (length l1) 1 (l1 ++ x :: l2) = l1 ++ l2.
Proof.
  unfold splice. rewrite take_app_length.
  rewrite drop_app_ge by lia.
  replace (length l1 + 1 - length l1)%nat with 1%nat by lia. done.
Qed.

(** Past the end [splice] removes nothing. *)
Lemma splice_past_end k n l : (length l <= k)%nat -> splice k n l = l.
Proof.
  intros. unfold splice. rewrite take_ge by done. rewrite drop_ge by lia.
  apply app_nil_r.
Qed.

(** Overwriting the slot just after a prefix. *)
Lemma insert_middle l1 x y l2 : <[length l1 := y]> (l1 ++ x :: l2) = l1 ++ y :: l2.
Proof. rewrite insert_app_r_alt by lia. by rewrite Nat.sub_diag. Qed.

(** Removing a slot forgets what was written to it. *)
Lemma splice_insert k x l : splice k 1 (<[k := x]> l) = splice k 1 l.
Proof. unfold splice. rewrite take_insert_ge by lia. by rewrite drop_insert_lt by lia. Qed.

(** What holds of every element holds after a removal. *)
Lemma Forall_splice (P : A -> Prop) k n l : Forall P l -> Forall P (splice k n l).
Proof. intros H. apply Forall_app. split; [by apply Forall_take | by apply Forall_drop]. Qed.

End JsArray.

(** Two arrays related slot by slot stay so after the same removal. *)
Lemma Forall2_splice {A B} (R : A -> B -> Prop) k n l1 l2 :
  Forall2 R l1 l2 -> Forall2 R (splice k n l1) (splice k n l2).
Proof. intros H. apply Forall2_app; [by apply Forall2_take | by apply Forall2_drop]. Qed.

(** ** Two loops in step

    Two [forEach] loops, each over the array of its own state, stay
    related when related states have arrays of one length and the two
    callbacks, called at one index, take related states to related
    states. *)
Section Simulation.
Context {A B St Tt : Type} (arrS : St -> list A) (arrT : Tt -> list B).
Context (R : St -> Tt -> Prop).
Context (f : A -> nat -> St -> St) (g : B -> nat -> Tt -> Tt).
Hypothesis R_length : forall s t, R s t -> length (arrS s) = length (arrT t).
Hypothesis R_callback : forall s t i x y,
  R s t -> arrS s !! i = Some x -> arrT t !! i = Some y -> R (f x i s) (g y i t).

Lemma forEach_from_simulation n k s t :
  R s t -> R (forEach_from arrS n k f s) (forEach_from arrT n k g t).
Proof.
  revert k s t. induction n as [|n IH]; intros k s t HR; [done |]. simpl. apply IH.
  pose proof (R_length s t HR) as Hl.
  destruct (arrS s !! k) as [x|] eqn:Ex, (arrT t !! k) as [y|] eqn:Ey;
    [by eapply R_callback | | | done].
  - apply lookup_lt_Some in Ex. apply lookup_ge_None in Ey. lia.
  - apply lookup_ge_None in Ex. apply lookup_lt_Some in Ey. lia.
Qed.

Lemma forEach_simulation s t : R s t -> R (forEach arrS f s) (forEach arrT g t).
Proof.
  intros HR. unfold forEach. rewrite (R_length s t HR). by apply forEach_from_simulation.
Qed.

End Simulation.
