(* ===== verification/Globals.v ===== *)
(** * Globals: constants, the canvas, the module-level variables

    Lines 4-28 and 91 of [Index.ts]: the game constants, the size of the
    canvas (the only thing the program reads from it), the constant fields
    of the [bird] object, the variables every function reads and assigns
    (gathered in the record [Game]), and the calls the program makes on its
    host ([HostCall]).  Two states are [game_eq] when their integer and
    boolean fields are equal and their rational fields are [==]. *)

From Stdlib Require Import DecimalString.
From S2P Require Import Prelude.

Local Open Scope Q_scope.

(** ** The canvas (lines 4-5)

    [canvas.width] and [canvas.height] are unsigned integers of the DOM;
    the program never assigns them. *)
Class Canvas := {
  canvas_width : Z;
  canvas_height : Z;
}.

(** The DOM's promise on the two attributes. *)
Class CanvasSize (cv : Canvas) := {
  canvas_width_nonneg : (0 <= canvas_width)%Z;
  canvas_height_nonneg : (0 <= canvas_height)%Z;
}.

(** Canvases the examples run on: a portrait canvas of 400 by 600, the
    default size of an HTML canvas (300 by 150), and a strip lower than
    the bird. *)
Definition portrait_canvas : Canvas := {| canvas_width := 400; canvas_height := 600 |}.
Definition default_canvas : Canvas := {| canvas_width := 300; canvas_height := 150 |}.
Definition strip_canvas : Canvas := {| canvas_width := 300; canvas_height := 15 |}.

(** ** Game constants (lines 8-12) *)

Definition GRAVITY : Q := 0.6.
Definition FLAP_STRENGTH : Q := -12.
Definition SPAWN_RATE : Z := 90.
Definition PIPE_WIDTH : Z := 60.
Definition PIPE_GAP : Z := 100.

(** ** The constant fields of [bird] (lines 24-27) *)

Definition bird_width : Z := 20.
Definition bird_height : Z := 20.
Definition bird_color : string := "yellow".
Definition bird_x : Z := 50.

(** ** The module-level variables (lines 15-20, 91) *)

(** An element of [pipes]: [{ x: number, y: number }]. *)
Record Pipe := mkPipe {
  pipe_x : Z;
  pipe_y : Z;
}.

Record Game := mkGame {
  birdY : Q;
  birdVelocity : Q;
  birdFlap : bool;
  score : Z;
  pipes : list Pipe;
  lastTime : Q;
}.

(** Assignment to one variable. *)
Definition set_birdY (v : Q) (g : Game) : Game :=
  mkGame v (birdVelocity g) (birdFlap g) (score g) (pipes g) (lastTime g).
Definition set_birdVelocity (v : Q) (g : Game) : Game :=
  mkGame (birdY g) v (birdFlap g) (score g) (pipes g) (lastTime g).
Definition set_birdFlap (v : bool) (g : Game) : Game :=
  mkGame (birdY g) (birdVelocity g) v (score g) (pipes g) (lastTime g).
Definition set_score (v : Z) (g : Game) : Game :=
  mkGame (birdY g) (birdVelocity g) (birdFlap g) v (pipes g) (lastTime g).
Definition set_pipes (v : list Pipe) (g : Game) : Game :=
  mkGame (birdY g) (birdVelocity g) (birdFlap g) (score g) v (lastTime g).
Definition set_lastTime (v : Q) (g : Game) : Game :=
  mkGame (birdY g) (birdVelocity g) (birdFlap g) (score g) (pipes g) v.

(** Assignment to [pipe.x]. *)
Definition set_pipe_x (v : Z) (p : Pipe) : Pipe := mkPipe v (pipe_y p).

(** The variables as their initialisers leave them. *)
Definition initial `{Canvas} : Game := {|
  birdY := canvas_height / 2;
  birdVelocity := 0;
  birdFlap := false;
  score := 0;
  pipes := [];
  lastTime := 0;
|}.

(** The field [y] of [bird] (line 28): the value of [birdY] when the
    object literal is evaluated.  No line assigns it or reads it; the
    position of the bird is the variable [birdY]. *)
Definition bird_y `{Canvas} : Q := birdY initial.

(** ** Calls on the host

    The 2D context's methods and property assignments the program uses,
    [alert] and [requestAnimationFrame], in the order they are made. *)
Inductive HostCall :=
| clearRect (x y w h : Q)
| fillStyle (color : string)
| fillRect (x y w h : Q)
| font (value : string)
| fillText (text : string) (x y : Q)
| alert (message : string)
| requestAnimationFrame.

(** ['...' + n] for an integer-valued number [n]: its decimal digits. *)
Definition number_to_string (n : Z) : string := NilZero.string_of_int (Z.to_int n).

(** ** Equivalence of states up to the representation of rationals *)

Definition game_eq (g1 g2 : Game) : Prop :=
  birdY g1 == birdY g2 /\ birdVelocity g1 == birdVelocity g2 /\
  birdFlap g1 = birdFlap g2 /\ score g1 = score g2 /\ pipes g1 = pipes g2 /\
  lastTime g1 == lastTime g2.

Definition call_eq (c1 c2 : HostCall) : Prop :=
  match c1, c2 with
  | clearRect x1 y1 w1 h1, clearRect x2 y2 w2 h2
  | fillRect x1 y1 w1 h1, fillRect x2 y2 w2 h2 =>
      x1 == x2 /\ y1 == y2 /\ w1 == w2 /\ h1 == h2
  | fillText t1 x1 y1, fillText t2 x2 y2 => t1 = t2 /\ x1 == x2 /\ y1 == y2
  | fillStyle s1, fillStyle s2 | font s1, font s2 | alert s1, alert s2 => s1 = s2
  | requestAnimationFrame, requestAnimationFrame => True
  | _, _ => False
  end.

Infix "≡g" := game_eq (at level 70, no associativity) : game_scope.
Infix "≡c" := (Forall2 call_eq) (at level 70, no associativity) : game_scope.

#[global] Open Scope game_scope.

#[export] Instance game_eq_equivalence : Equivalence game_eq.
Proof.
  split.
  - intros g. unfold game_eq. by repeat split.
  - intros g1 g2 (? & ? & ? & ? & ? & ?). unfold game_eq. by repeat split.
  - intros g1 g2 g3 (? & ? & ? & ? & ? & ?) (? & ? & ? & ? & ? & ?).
    unfold game_eq. repeat split; by etrans.
Qed.

#[export] Instance call_eq_equivalence : Equivalence call_eq.
Proof.
  split.
  - intros []; simpl; by repeat split.
  - intros [] []; simpl; try done; intros; destruct_and?; by repeat split.
  - intros [] [] []; simpl; try done; intros; destruct_and?; repeat split; by etrans.
Qed.

(** The projections and the assignments respect the equivalence. *)

#[export] Instance birdY_proper : Proper (game_eq ==> Qeq) birdY.
Proof. by intros g1 g2 (? & _). Qed.
#[export] Instance birdVelocity_proper : Proper (game_eq ==> Qeq) birdVelocity.
Proof. by intros g1 g2 (_ & ? & _). Qed.
#[export] Instance birdFlap_proper : Proper (game_eq ==> eq) birdFlap.
Proof. by intros g1 g2 (_ & _ & ? & _). Qed.
#[export] Instance score_proper : Proper (game_eq ==> eq) score.
Proof. by intros g1 g2 (_ & _ & _ & ? & _). Qed.
#[export] Instance pipes_proper : Proper (game_eq ==> eq) pipes.
Proof. by intros g1 g2 (_ & _ & _ & _ & ? & _). Qed.
#[export] Instance lastTime_proper : Proper (game_eq ==> Qeq) lastTime.
Proof. by intros g1 g2 (_ & _ & _ & _ & _ & ?). Qed.

#[export] Instance mkGame_proper :
  Proper (Qeq ==> Qeq ==> eq ==> eq ==> eq ==> Qeq ==> game_eq) mkGame.
Proof. by repeat intro. Qed.

#[export] Instance set_birdY_proper : Proper (Qeq ==> game_eq ==> game_eq) set_birdY.
Proof. intros v1 v2 Hv g1 g2 (? & ? & ? & ? & ? & ?). by repeat split. Qed.
#[export] Instance set_birdVelocity_proper :
  Proper (Qeq ==> game_eq ==> game_eq) set_birdVelocity.
Proof. intros v1 v2 Hv g1 g2 (? & ? & ? & ? & ? & ?). by repeat split. Qed.
#[export] Instance set_birdFlap_proper : Proper (eq ==> game_eq ==> game_eq) set_birdFlap.
Proof. intros v1 v2 Hv g1 g2 (? & ? & ? & ? & ? & ?). by repeat split. Qed.
#[export] Instance set_score_proper : Proper (eq ==> game_eq ==> game_eq) set_score.
Proof. intros v1 v2 Hv g1 g2 (? & ? & ? & ? & ? & ?). by repeat split. Qed.
#[export] Instance set_pipes_proper : Proper (eq ==> game_eq ==> game_eq) set_pipes.
Proof. intros v1 v2 Hv g1 g2 (? & ? & ? & ? & ? & ?). by repeat split. Qed.
#[export] Instance set_lastTime_proper : Proper (Qeq ==> game_eq ==> game_eq) set_lastTime.
Proof. intros v1 v2 Hv g1 g2 (? & ? & ? & ? & ? & ?). by repeat split. Qed.

(** Unfold the assignments of a state and compute its fields. *)
Ltac game_simpl :=
  unfold set_birdY, set_birdVelocity, set_birdFlap, set_score, set_pipes,
    set_lastTime, set_pipe_x in *; simpl in *.

(** Leibniz-equal states are equivalent. *)
Lemma game_eq_refl_eq (g1 g2 : Game) : g1 = g2 -> g1 ≡g g2.
Proof. by intros ->. Qed.

#[export] Hint Resolve game_eq_refl_eq : game.

(** A state is its fields. *)
Lemma game_eta (g : Game) :
  mkGame (birdY g) (birdVelocity g) (birdFlap g) (score g) (pipes g) (lastTime g) = g.
Proof. by destruct g. Qed.

(** The decimal digits of small scores, as the alert and the score line
    show them. *)
Lemma number_to_string_examples :
  number_to_string 0 = "0"%string /\ number_to_string 7 = "7"%string /\
  number_to_string 12 = "12"%string /\ number_to_string (-3) = "-3"%string.
Proof. by vm_compute. Qed.

(** The portrait canvas has a size. *)
Lemma portrait_size : CanvasSize portrait_canvas.
Proof. by split. Qed.
