(* ===== verification/Text.v ===== *)
(** * Text: the score as text, and reading it back

    The program shows the score as text twice: in the score line,
    ['Score: ' + score] (line 112), and in the alert,
    ['Game Over! Your score: ' + score] (line 106).  The specification
    (section 6) has the game-over handler receive the final score as an
    integer.  This file holds the reading direction: [string_to_number]
    reads a decimal numeral, [strip_prefix] removes a known beginning,
    [read_after] does both.  What the program writes reads back as the
    number it wrote. *)

From Stdlib Require Import DecimalString DecimalZ DecimalPos.
From S2P Require Import Prelude Globals.

(** The number a decimal numeral denotes, if the string is one. *)
Definition string_to_number (s : string) : option Z :=
  Z.of_int <$> NilZero.int_of_string s.

(** The rest of [s] behind [prefix], if [s] begins with it. *)
Fixpoint strip_prefix (prefix s : string) : option string :=
  match prefix, s with
  | EmptyString, _ => Some s
  | String a prefix', String b s' =>
      if decide (a = b) then strip_prefix prefix' s' else None
  | String _ _, EmptyString => None
  end.

(** The number written behind [prefix]. *)
Definition read_after (prefix text : string) : option Z :=
  strip_prefix prefix text ≫= string_to_number.

Section TextFacts.
Implicit Types (n m : Z) (s prefix : string).

(** ** Numerals *)

(** The numeral of a number has a digit. *)
Lemma to_int_nonnil n :
  Z.to_int n <> Decimal.Pos Decimal.Nil /\ Z.to_int n <> Decimal.Neg Decimal.Nil.
Proof.
  destruct n as [|p|p]; split; try done; intros [= H];
    by apply Unsigned.to_uint_nonnil in H.
Qed.

Lemma string_to_number_to_string n : string_to_number (number_to_string n) = Some n.
Proof.
  unfold string_to_number, number_to_string.
  destruct (to_int_nonnil n) as [Hp Hn]. rewrite NilZero.isi by done.
  cbn. by rewrite DecimalZ.of_to.
Qed.

(** Two numbers with the same numeral are the same number. *)
Lemma number_to_string_inj n m : number_to_string n = number_to_string m -> n = m.
Proof.
  intros H. apply (f_equal string_to_number) in H.
  rewrite !string_to_number_to_string in H. by injection H.
Qed.

(** ** Prefixes *)

Lemma strip_prefix_app prefix s : strip_prefix prefix (prefix ++ s) = Some s.
Proof.
  induction prefix as [|a prefix IH]; [done |]. simpl. by case_decide.
Qed.

Lemma strip_prefix_Some prefix s rest :
  strip_prefix prefix s = Some rest -> s = (prefix ++ rest)%string.
Proof.
  revert s. induction prefix as [|a prefix IH]; intros s H; [by injection H |].
  destruct s as [|b s]; [done |]. simpl in H. case_decide as Hab; [|done].
  subst b. by rewrite (IH s H).
Qed.

Lemma strip_prefix_iff prefix s rest :
  strip_prefix prefix s = Some rest <-> s = (prefix ++ rest)%string.
Proof. split; [apply strip_prefix_Some | intros ->; apply strip_prefix_app]. Qed.

(** ** A text and a number *)

Lemma read_after_concat prefix n :
  read_after prefix (prefix ++ number_to_string n) = Some n.
Proof.
  unfold read_after. rewrite strip_prefix_app. cbn. apply string_to_number_to_string.
Qed.

(** A text with another beginning does not read. *)
Lemma read_after_other prefix s : strip_prefix prefix s = None -> read_after prefix s = None.
Proof. unfold read_after. by intros ->. Qed.

End TextFacts.
