(* ===== verification/Bird.v ===== *)
(** * Bird: the physics body ([bird.flap], [bird.update], [bird.draw])

    Lines 23-46 of [Index.ts].  [update] consumes the pending flap, adds
    gravity to the velocity, adds the velocity to the position and clamps
    the position to the canvas, first at the top and then at the bottom.
    The velocity is never clamped. *)

From Stdlib Require Import Qminmax.
From S2P Require Import Prelude Globals.

Local Open Scope Q_scope.

Section Bird.
Context `{cv : Canvas}.

(** [flap()], line 30. *)
Definition flap (g : Game) : Game := set_birdVelocity FLAP_STRENGTH g.

(** [update()], lines 32-41. *)
Definition update (g : Game) : Game :=
  let g := if birdFlap g then g |> set_birdFlap false |> flap else g in
  let g := set_birdVelocity (birdVelocity g + GRAVITY) g in
  let g := set_birdY (birdY g + birdVelocity g) g in
  let g := if decide (birdY g < 0) then set_birdY 0 g else g in
  if decide (birdY g + bird_height > canvas_height)
  then set_birdY (canvas_height - bird_height) g
  else g.

(** [draw()], lines 42-45. *)
Definition draw (g : Game) : list HostCall :=
  [fillStyle bird_color; fillRect bird_x (birdY g) bird_width bird_height].

(** The velocity a frame starts from: the impulse when a flap is pending. *)
Definition launch_velocity (g : Game) : Q :=
  if birdFlap g then FLAP_STRENGTH else birdVelocity g.

(** The position clamp as a formula: first raised to 0, then lowered to
    the floor. *)
Definition clampY (y : Q) : Q := Qmin (Qmax 0 y) (canvas_height - bird_height).

(** The bird is inside the canvas. *)
Definition bird_in_canvas (g : Game) : Prop :=
  0 <= birdY g <= canvas_height - bird_height.

(** [n] frames of physics with no key pressed in between. *)
Definition updates (n : nat) (g : Game) : Game := Nat.iter n update g.

(** The position of a bird that rests on the bottom edge. *)
Definition floorY : Q := canvas_height - bird_height.

(** The bird falls by at least one pixel per frame. *)
Definition falling_fast (g : Game) : Prop := birdFlap g = false /\ 0.4 <= birdVelocity g.

(** Frames after which a flap is spent: gravity has turned the impulse of
    12 into a fall of more than one pixel per frame. *)
Definition flap_frames : nat := 21.

(** Frames after which a bird left alone is on the floor, at the latest. *)
Definition landing_frames : nat := (flap_frames + Z.to_nat (canvas_height - bird_height))%nat.

End Bird.

Arguments update : simpl never.
Arguments updates : simpl never.

(** ** Example states *)

(** A falling bird 5 pixels above the floor of the portrait canvas. *)
Definition near_floor : Game := mkGame 575 9 false 0 [] 0.

(** A bird in mid-air with a flap pending. *)
Definition flapping : Game := mkGame 300 4.2 true 3 [] 16.

(** A bird at rest on the floor of the portrait canvas. *)
Definition resting : Game := mkGame 580 3 false 0 [] 0.

Section BirdFacts.
Context `{cv : Canvas}.
Implicit Types (g : Game).

(** ** The assignments of [update], collected *)

(** The state [update] returns, with the values of its five steps written
    as one record: the branches of the code are the two tests on the
    position. *)
Lemma update_unfold g :
  update g =
    let v := (launch_velocity g + GRAVITY)%Q in
    let y := (birdY g + v)%Q in
    let y0 := if decide (y < 0)%Q then 0%Q else y in
    mkGame
      (if decide (y0 + bird_height > canvas_height)%Q
       then (canvas_height - bird_height)%Q else y0)
      v false (score g) (pipes g) (lastTime g).
Proof.
  destruct g as [? ? [] ? ? ?]; unfold update, launch_velocity, flap; cbv zeta; by case_cmp.
Qed.

(** ** What [update] leaves alone *)

Lemma update_score g : score (update g) = score g.
Proof. by rewrite update_unfold. Qed.

Lemma update_pipes g : pipes (update g) = pipes g.
Proof. by rewrite update_unfold. Qed.

Lemma update_lastTime g : lastTime (update g) = lastTime g.
Proof. by rewrite update_unfold. Qed.

(** [update] commutes with the assignment of a variable it does not read. *)
Lemma update_set_lastTime (t : Q) g : update (set_lastTime t g) = set_lastTime t (update g).
Proof. by rewrite !update_unfold. Qed.

Lemma update_set_pipes l g : update (set_pipes l g) = set_pipes l (update g).
Proof. by rewrite !update_unfold. Qed.

Lemma update_set_score z g : update (set_score z g) = set_score z (update g).
Proof. by rewrite !update_unfold. Qed.

(** ** The flap flag *)

(** Whatever the flag was, it is clear after [update]: a flap request is
    consumed by the frame that applies it. *)
Lemma update_consumes_flap g : birdFlap (update g) = false.
Proof. by rewrite update_unfold. Qed.

(** ** The velocity *)

(** The velocity after [update] is the launch velocity plus gravity,
    whether or not the position was clamped. *)
Lemma update_velocity g : birdVelocity (update g) = launch_velocity g + GRAVITY.
Proof. by rewrite update_unfold. Qed.

(** ** The position *)

Lemma update_birdY_cases g :
  let y := birdY g + (launch_velocity g + GRAVITY) in
  birdY (update g) =
    let y0 := if decide (y < 0) then 0 else y in
    if decide (y0 + bird_height > canvas_height) then canvas_height - bird_height else y0.
Proof. by rewrite update_unfold. Qed.

(** When the canvas is at least as tall as the bird, [update] leaves the
    bird inside the canvas, from any state. *)
Lemma update_clamped g :
  (bird_height <= canvas_height)%Z -> bird_in_canvas (update g).
Proof.
  intros Hh. unfold bird_in_canvas. rewrite update_birdY_cases. unfold bird_height in *.
  simpl. case_cmp; split; qz.
Qed.

(** C21: on a canvas lower than the bird the second clamp undoes the first:
    the bird is put above the top edge, at a negative position. *)
Theorem update_low_canvas g :
  (0 <= canvas_height < bird_height)%Z ->
  birdY (update g) = canvas_height - bird_height /\ birdY (update g) < 0.
Proof.
  intros Hh. rewrite update_birdY_cases. unfold bird_height in *. simpl.
  case_cmp; (split; [done || (exfalso; qz) | qz]).
Qed.

(** The two tests of [update] compute the clamp formula [clampY] of the
    unclamped position. *)
Lemma update_birdY_clamp g :
  (bird_height <= canvas_height)%Z ->
  birdY (update g) == clampY (birdY g + (launch_velocity g + GRAVITY)).
Proof.
  intros Hh. rewrite update_birdY_cases. unfold clampY, bird_height in *. simpl.
  set (y := birdY g + _).
  destruct (Q.max_spec 0 y) as [[? ->]|[? ->]], (Q.min_spec y (canvas_height - 20%Z))
    as [[? E1]|[? E1]], (Q.min_spec 0 (canvas_height - 20%Z)) as [[? E2]|[? E2]];
    try rewrite E1; try rewrite E2; case_cmp; qz.
Qed.

(** The field [bird.y] is not the bird's position: on a canvas with room
    to fall, the first frame moves the position by [GRAVITY] away from
    it. *)
Lemma bird_y_stale :
  (42 <= canvas_height)%Z -> birdY (update initial) == bird_y + GRAVITY.
Proof.
  intros Hh. rewrite update_birdY_cases.
  unfold bird_y, bird_height, launch_velocity, GRAVITY. simpl. case_cmp; qz.
Qed.

(** ** Several frames without a key press *)

Lemma updates_S n g : updates (S n) g = update (updates n g).
Proof. done. Qed.

Lemma updates_S_r n g : updates (S n) g = updates n (update g).
Proof. unfold updates. by rewrite Nat.iter_succ_r. Qed.

Lemma updates_add n m g : updates (n + m) g = updates n (updates m g).
Proof. unfold updates. by rewrite Nat.iter_add. Qed.

Lemma updates_flap n g : birdFlap (updates (S n) g) = false.
Proof. rewrite updates_S. apply update_consumes_flap. Qed.



Lemma inject_Z_S (n : nat) : inject_Z (Z.of_nat (S n)) == inject_Z (Z.of_nat n) + 1.
Proof. rewrite Nat2Z.inj_succ. unfold Z.succ. by rewrite inject_Z_plus. Qed.

Lemma inject_Z_nat_nonneg (n : nat) : 0 <= inject_Z (Z.of_nat n).
Proof. change 0 with (inject_Z 0). rewrite <- Zle_Qle. lia. Qed.

(** After [n+1] frames without a key press the velocity is the launch
    velocity plus [n+1] times gravity; clamping the position never touches
    it. *)
Lemma updates_velocity n g :
  birdVelocity (updates (S n) g) == launch_velocity g + Z.of_nat (S n) * GRAVITY.
Proof.
  induction n as [|n IH].
  - rewrite updates_S, update_velocity. change (updates 0 g) with g.
    change (inject_Z (Z.of_nat 1)) with 1. ring.
  - rewrite updates_S, update_velocity. unfold launch_velocity at 1.
    rewrite updates_flap, IH, (inject_Z_S (S n)). ring.
Qed.

(** A bird falling fast keeps falling fast, and moves down by at least one
    pixel unless it reaches the floor. *)
Lemma update_falling_fast g :
  (bird_height <= canvas_height)%Z -> bird_in_canvas g -> falling_fast g ->
  falling_fast (update g) /\
  (birdY (update g) == floorY \/ birdY g + 1 <= birdY (update g)).
Proof.
  intros Hh [Hy0 Hy1] [Hf Hv]. unfold falling_fast, floorY in *.
  rewrite update_consumes_flap, update_velocity, update_birdY_cases.
  unfold launch_velocity, GRAVITY, bird_height in *. rewrite Hf. simpl.
  split; [split; [done | lra] |]. case_cmp; try (left; lra); try (right; lra); exfalso; lra.
Qed.

Lemma updates_land d g :
  (bird_height <= canvas_height)%Z -> bird_in_canvas g -> falling_fast g ->
  floorY - birdY g <= Z.of_nat d -> birdY (updates d g) == floorY.
Proof.
  intros Hh. revert g. induction d as [|d IH]; intros g Hc Hf Hd.
  - destruct Hc as [_ ?]. change (updates 0 g) with g. unfold floorY in *.
    change (inject_Z (Z.of_nat 0)) with 0 in Hd. lra.
  - rewrite updates_S_r.
    destruct (update_falling_fast g Hh Hc Hf) as [Hf' Hy].
    apply IH; [by apply update_clamped | done |].
    rewrite inject_Z_S in Hd. pose proof (inject_Z_nat_nonneg d).
    unfold floorY in *. destruct Hy; lra.
Qed.

(** After [flap_frames] frames any impulse is spent. *)
Lemma updates_spent g :
  FLAP_STRENGTH <= launch_velocity g -> falling_fast (updates flap_frames g).
Proof.
  intros Hv. split; [apply updates_flap |].
  unfold flap_frames. rewrite updates_velocity. unfold FLAP_STRENGTH, GRAVITY in *.
  change (inject_Z (Z.of_nat 21)) with 21. lra.
Qed.

(** C11: a bird left alone lands.  From any state whose launch velocity is
    at least the flap impulse, after [landing_frames] frames without a key
    press, and at every later frame, the bird rests on the floor. *)
Theorem bird_lands g m :
  (bird_height <= canvas_height)%Z -> FLAP_STRENGTH <= launch_velocity g ->
  (landing_frames <= m)%nat -> birdY (updates m g) == floorY.
Proof.
  intros Hh Hv Hm. unfold landing_frames in Hm.
  replace m with ((m - flap_frames) + flap_frames)%nat by lia. rewrite updates_add.
  pose proof (update_clamped (updates 20 g) Hh) as Hc.
  rewrite <- updates_S in Hc. fold flap_frames in Hc.
  apply updates_land; [done | done | by apply updates_spent |].
  destruct Hc as [Hy0 _]. unfold floorY.
  assert (canvas_height - bird_height <= Z.of_nat (m - flap_frames))%Z as Hd by lia.
  rewrite Zle_Qle, inject_Z_minus in Hd. lra.
Qed.

(** A bird on the floor with a downward velocity stays there. *)
Lemma update_on_floor g :
  (bird_height <= canvas_height)%Z -> birdY g == floorY ->
  0 <= launch_velocity g + GRAVITY -> birdY (update g) == floorY.
Proof.
  intros Hh Hy Hv. rewrite update_birdY_cases. unfold floorY, bird_height in *. simpl.
  case_cmp; qz.
Qed.

(** C20: the velocity is not reset at the floor: while the bird rests
    there, its velocity grows by gravity every frame, without bound. *)
Theorem velocity_grows_on_floor n g :
  (bird_height <= canvas_height)%Z -> birdY g == floorY -> birdFlap g = false ->
  0 <= birdVelocity g ->
  birdY (updates n g) == floorY
  /\ birdVelocity (updates n g) == birdVelocity g + Z.of_nat n * GRAVITY.
Proof.
  intros Hh Hy Hf Hv. induction n as [|n [IHy IHv]].
  - split; [done |]. change (updates 0 g) with g. simpl. ring.
  - pose proof (inject_Z_nat_nonneg n).
    assert (birdFlap (updates n g) = false) as Hfn
      by (destruct n; [done | apply updates_flap]).
    rewrite updates_S. split.
    + apply update_on_floor; [done | done |]. unfold launch_velocity, GRAVITY in *.
      rewrite Hfn, IHv. nra.
    + rewrite update_velocity. unfold launch_velocity. rewrite Hfn, IHv, inject_Z_S. ring.
Qed.

(** ** Equivalent states *)

#[export] Instance launch_velocity_proper : Proper (game_eq ==> Qeq) launch_velocity.
Proof.
  intros g1 g2 Hg. unfold launch_velocity. rewrite (birdFlap_proper _ _ Hg).
  destruct (birdFlap g2); [done | by rewrite Hg].
Qed.

#[export] Instance update_proper : Proper (game_eq ==> game_eq) update.
Proof.
  intros g1 g2 Hg. repeat split.
  - rewrite !update_birdY_cases. simpl.
    pose proof (launch_velocity_proper _ _ Hg) as Hv.
    pose proof (birdY_proper _ _ Hg) as Hy.
    case_cmp; lra.
  - rewrite !update_velocity. by rewrite Hg.
  - by rewrite !update_consumes_flap.
  - rewrite !update_score. by apply score_proper.
  - rewrite !update_pipes. by apply pipes_proper.
  - rewrite !update_lastTime. by apply lastTime_proper.
Qed.

End BirdFacts.

(** ** The theorems at concrete states *)



(** On the default canvas the flapping bird is on the floor after 151
    frames. *)
Lemma bird_lands_witness :
  birdY (@updates default_canvas 151 flapping) == @floorY default_canvas.
Proof. apply (@bird_lands default_canvas flapping 151); by vm_compute. Defined.

(** Five frames on the floor: the position stays, the velocity has grown
    from 3 to 6. *)
Lemma velocity_grows_on_floor_witness :
  birdY (@updates portrait_canvas 5 resting) == @floorY portrait_canvas
  /\ birdVelocity (@updates portrait_canvas 5 resting) == 3 + 5%Z * GRAVITY.
Proof. apply (@velocity_grows_on_floor portrait_canvas 5 resting); by vm_compute. Defined.

(** On the strip canvas, 15 pixels high, the bird is put at [-5]. *)
Lemma update_low_canvas_witness :
  birdY (@update strip_canvas near_floor) = 15%Z - bird_height
  /\ birdY (@update strip_canvas near_floor) < 0.
Proof. by apply (@update_low_canvas strip_canvas near_floor). Defined.
