(* ===== verification/Binary64.v ===== *)
(** * Binary64: the bird in the arithmetic JavaScript has

    A JavaScript [number] is an IEEE 754 binary64 value.  [Bird] models
    the bird's position and velocity by exact rationals; this file models
    them as they are, by [spec_float], the Standard Library's
    specification of binary64 (53 bits of precision, round to nearest,
    ties to even), and repeats [bird.update] of lines 32-41 on them.

    Three things are shown.  The state stays well typed: no update makes
    the position anything but a finite number, or the velocity a NaN.  The
    clamp holds in the form the code tests it: after an update neither of
    its two comparisons is true.  But it does not hold in the form the
    specification states it: the sum [birdY + 20] is rounded before it is
    compared, and on a canvas whose height is 512 a position just above
    the floor line passes the test.  And the rational model is not the
    floating-point one: three frames of gravity give 1.7999999999999998,
    not 1.8. *)

From Stdlib Require Import SpecFloat Qpower.
From S2P Require Import Prelude Globals Bird.

(** ** Numbers *)

Definition number := spec_float.

Definition prec : Z := 53.
Definition emax : Z := 1024.

(** An integer literal or an integer-valued property, as a number. *)
Definition of_Z (z : Z) : number := binary_normalize prec emax z 0 false.

(** [x + y], [x - y], [x / y], [x < y], [x > y]. *)
Definition add : number -> number -> number := SFadd prec emax.
Definition sub : number -> number -> number := SFsub prec emax.
Definition div : number -> number -> number := SFdiv prec emax.
Definition lt (x y : number) : bool := SFltb x y.
Definition gt (x y : number) : bool := SFltb y x.
Definition le (x y : number) : bool := SFleb x y.

(** The number is not a NaN; the number is finite. *)
Definition is_nan (x : number) : bool :=
  match x with S754_nan => true | _ => false end.

Definition finite (x : number) : bool :=
  match x with S754_zero _ | S754_finite _ _ _ => true | _ => false end.

(** The rational a finite number stands for. *)
Definition to_Q (x : number) : option Q :=
  match x with
  | S754_zero _ => Some 0%Q
  | S754_finite s m e => Some (inject_Z (cond_Zopp s (Zpos m)) * 2 ^ e)%Q
  | _ => None
  end.

(** ** Constants (lines 8-9) and the bird's variables (lines 15-17) *)

(** The literal [0.6]: the binary64 number nearest to 6/10. *)
Definition GRAVITY64 : number := div (of_Z 6) (of_Z 10).
Definition FLAP_STRENGTH64 : number := of_Z (-12).

Record Bird64 := mkBird64 {
  birdY64 : number;
  birdVelocity64 : number;
  birdFlap64 : bool;
}.

Section Bird64.
Context `{cv : Canvas}.

(** [canvas.height] and [canvas.height - this.height]. *)
Definition height64 : number := of_Z canvas_height.
Definition floor64 : number := sub height64 (of_Z bird_height).

Definition initial64 : Bird64 := mkBird64 (div height64 (of_Z 2)) (of_Z 0) false.

(** [update()], lines 32-41. *)
Definition update64 (b : Bird64) : Bird64 :=
  let v := if birdFlap64 b then FLAP_STRENGTH64 else birdVelocity64 b in
  let v := add v GRAVITY64 in
  let y := add (birdY64 b) v in
  let y := if lt y (of_Z 0) then of_Z 0 else y in
  let y := if gt (add y (of_Z bird_height)) height64 then floor64 else y in
  mkBird64 y v false.

(** The velocity and the position of lines 37-38, before the clamps. *)
Definition velocity64 (b : Bird64) : number :=
  add (if birdFlap64 b then FLAP_STRENGTH64 else birdVelocity64 b) GRAVITY64.

Definition unclamped64 (b : Bird64) : number := add (birdY64 b) (velocity64 b).

(** The two clamps of lines 39-40. *)
Definition clamp64 (y : number) : number :=
  let y := if lt y (of_Z 0) then of_Z 0 else y in
  if gt (add y (of_Z bird_height)) height64 then floor64 else y.

Definition updates64 (n : nat) (b : Bird64) : Bird64 := Nat.iter n update64 b.

(** The state is well typed: a position that is a finite number, a
    velocity that is a number. *)
Definition wf64 (b : Bird64) : Prop :=
  finite (birdY64 b) = true /\ is_nan (birdVelocity64 b) = false.

(** What the theorems ask of the canvas: its height and the floor line are
    finite numbers, the floor line is not negative, and the floor line
    plus the bird's height is not above the height.  The instances below
    are checked by evaluation. *)
Class Canvas64 : Prop := {
  height64_finite : finite height64 = true;
  floor64_finite : finite floor64 = true;
  floor64_nonneg : le (of_Z 0) floor64 = true;
  floor64_fits : gt (add floor64 (of_Z bird_height)) height64 = false;
}.

End Bird64.

(** ** Example canvases and states *)

(** A canvas 512 pixels high: 512 is a power of two, and the numbers just
    below it are twice as dense as those from it on. *)
Definition square_canvas : Canvas := {| canvas_width := 512; canvas_height := 512 |}.

(** The bird at 492 + 2^-44, the number next above the floor line of
    [square_canvas], falling at -0.6 so that gravity brings it to rest. *)
Definition grazing : Bird64 :=
  mkBird64 (S754_finite false 8655355533852673 (-44)) (SFopp GRAVITY64) false.

#[export] Instance portrait_canvas64 : @Canvas64 portrait_canvas.
Proof. by split; vm_compute. Qed.

#[export] Instance square_canvas64 : @Canvas64 square_canvas.
Proof. by split; vm_compute. Qed.

Section Binary64Facts.
Implicit Types (x y : number) (b : Bird64).

(** ** Rounding gives numbers *)

Lemma shr_1_nonneg mrs : 0 <= shr_m mrs -> 0 <= shr_m (shr_1 mrs).
Proof. destruct mrs as [[|[p|p|]|p] r s]; simpl; lia. Qed.

Lemma iter_pos_invariant {A} (P : A -> Prop) (f : A -> A) :
  (forall a, P a -> P (f a)) -> forall p a, P a -> P (SpecFloat.iter_pos f p a).
Proof. intros Hf. induction p; simpl; auto. Qed.

Lemma shr_nonneg mrs e n : 0 <= shr_m mrs -> 0 <= shr_m (shr mrs e n).1.
Proof.
  intros H. destruct n; simpl; try done.
  by apply (iter_pos_invariant (fun mrs => 0 <= shr_m mrs)); [apply shr_1_nonneg |].
Qed.

Lemma shr_fexp_nonneg m e l : 0 <= m -> 0 <= shr_m (shr_fexp prec emax m e l).1.
Proof. intros H. apply shr_nonneg. by destruct l as [|[]]. Qed.

Lemma round_nearest_even_nonneg m l : 0 <= m -> 0 <= round_nearest_even m l.
Proof. destruct l as [|[]]; simpl; try lia. destruct (Z.even m); lia. Qed.

Lemma binary_round_aux_number sx mx ex lx :
  0 <= mx -> is_nan (binary_round_aux prec emax sx mx ex lx) = false.
Proof.
  intros H. unfold binary_round_aux.
  pose proof (shr_fexp_nonneg mx ex lx H) as H1.
  destruct (shr_fexp prec emax mx ex lx) as [mrs1 e1]. cbn [fst] in H1.
  pose proof (shr_fexp_nonneg _ e1 loc_Exact
                (round_nearest_even_nonneg _ (loc_of_shr_record mrs1) H1)) as H2.
  destruct (shr_fexp prec emax _ e1 loc_Exact) as [mrs2 e2]. cbn [fst] in H2.
  destruct (shr_m mrs2); [done | by destruct (_ <=? _) | lia].
Qed.

Lemma binary_normalize_number m e s : is_nan (binary_normalize prec emax m e s) = false.
Proof.
  destruct m; cbn [binary_normalize]; [done | |];
    unfold binary_round; destruct (shl_align _ _ _); by apply binary_round_aux_number.
Qed.

(** A sum is a NaN only if a summand is, or if both are infinite. *)
Lemma add_number x y :
  is_nan x = false -> is_nan y = false -> finite x = true \/ finite y = true ->
  is_nan (add x y) = false.
Proof.
  destruct x as [sx|sx| |sx mx ex], y as [sy|sy| |sy my ey]; cbn; try done;
    intros _ _ Hf; try (by destruct sx, sy); try (by destruct Hf).
  apply binary_normalize_number.
Qed.

(** ** Comparisons with 0 and with infinity *)

Lemma not_lt_zero x : is_nan x = false -> lt x (of_Z 0) = false -> le (of_Z 0) x = true.
Proof. by destruct x as [|[]| |[]]. Qed.

Lemma lt_zero_cases x :
  is_nan x = false -> finite (if lt x (of_Z 0) then of_Z 0 else x) = true \/ x = S754_infinity false.
Proof. destruct x as [|[]| |[]]; cbn; auto. Qed.

Lemma finite_lt_infinity x : finite x = true -> lt x (S754_infinity false) = true.
Proof. by destruct x as [|[]| |[]]. Qed.

Lemma finite_number x : finite x = true -> is_nan x = false.
Proof. by destruct x. Qed.

(** ** The constants, bit by bit *)

(** [0.6] is 0x3FE3333333333333, a little below 6/10. *)
Lemma GRAVITY64_value :
  GRAVITY64 = S754_finite false 5404319552844595 (-53)
  /\ exists q, to_Q GRAVITY64 = Some q /\ (q < GRAVITY)%Q.
Proof. split; [by vm_compute | eexists; split; [done | by vm_compute]]. Qed.

(** [-12] is exact. *)
Lemma FLAP_STRENGTH64_value :
  exists q, to_Q FLAP_STRENGTH64 = Some q /\ (q == FLAP_STRENGTH)%Q.
Proof. eexists. split; [done | by vm_compute]. Qed.

End Binary64Facts.

Section Update64.
Context `{cv : Canvas} `{!Canvas64}.
Implicit Types (y : number) (b : Bird64).

Lemma update64_unfold b :
  update64 b = mkBird64 (clamp64 (unclamped64 b)) (velocity64 b) false.
Proof. done. Qed.

Lemma velocity64_number b : is_nan (birdVelocity64 b) = false -> is_nan (velocity64 b) = false.
Proof. intros Hv. apply add_number; [by destruct (birdFlap64 b) | done | by right]. Qed.

Lemma unclamped64_number b : wf64 b -> is_nan (unclamped64 b) = false.
Proof.
  intros [Hy Hv]. apply add_number; [by apply finite_number | by apply velocity64_number |].
  by left.
Qed.

(** The clamps make a finite number of any number. *)
Lemma clamp64_finite y : is_nan y = false -> finite (clamp64 y) = true.
Proof.
  intros Hy. unfold clamp64. cbv zeta. destruct (lt_zero_cases y Hy) as [Hf | ->].
  - destruct (gt _ _); [apply floor64_finite | done].
  - change (lt (S754_infinity false) (of_Z 0)) with false. cbv iota.
    change (add (S754_infinity false) (of_Z bird_height)) with (S754_infinity false).
    unfold gt. fold (lt height64 (S754_infinity false)).
    rewrite finite_lt_infinity by apply height64_finite. apply floor64_finite.
Qed.

(** After the clamps neither test of the code is true. *)
Lemma clamp64_tests y :
  is_nan y = false ->
  le (of_Z 0) (clamp64 y) = true
  /\ gt (add (clamp64 y) (of_Z bird_height)) height64 = false.
Proof.
  intros Hy. unfold clamp64. cbv zeta.
  set (y1 := if lt y (of_Z 0) then of_Z 0 else y).
  assert (le (of_Z 0) y1 = true) as H1.
  { subst y1. destruct (lt y (of_Z 0)) eqn:E; [done | by apply not_lt_zero]. }
  destruct (gt (add y1 _) height64) eqn:E2; [|done].
  split; [apply floor64_nonneg | apply floor64_fits].
Qed.

Lemma update64_wf b : wf64 b -> wf64 (update64 b).
Proof.
  intros Hb. rewrite update64_unfold. split; cbn [birdY64 birdVelocity64].
  - by apply clamp64_finite, unclamped64_number.
  - apply velocity64_number, Hb.
Qed.

(** The bird's state stays well typed: after any number of frames, with
    or without a flap pending at the start, the position is a finite
    number and the velocity is not a NaN, even from an infinite velocity
    (the clamp of the position absorbs it). *)
Lemma updates64_wf n b : wf64 b -> wf64 (updates64 n b).
Proof. intros Hb. induction n as [|n IH]; [done |]. by apply update64_wf. Qed.

(** C33: the clamp, as the code tests it: after [update] the position is
    not below 0 and the position plus the bird's height, as binary64
    computes that sum, is not above the canvas height. *)
Theorem update64_clamped b :
  wf64 b ->
  le (of_Z 0) (birdY64 (update64 b)) = true
  /\ gt (add (birdY64 (update64 b)) (of_Z bird_height)) height64 = false.
Proof. intros Hb. rewrite update64_unfold. by apply clamp64_tests, unclamped64_number. Qed.

End Update64.

(** C34: the clamp, as the specification states it, fails in binary64.  On
    a canvas 512 high, from the position next above the floor line 492,
    at rest, [update] leaves the bird where it is, above the floor line:
    492 + 2^-44 + 20 rounds to 512, which is not above 512.  The rational
    model puts the bird on the floor line. *)
Theorem update64_above_floor :
  let b := @update64 square_canvas grazing in
  birdY64 b = birdY64 grazing
  /\ gt (birdY64 b) (@floor64 square_canvas) = true
  /\ (exists q, to_Q (birdY64 b) = Some q /\ (492 < q)%Q
        /\ (birdY (@update square_canvas (mkGame q (-0.6) false 0 [] 0)) == 492)%Q).
Proof.
  split; [by vm_compute | split; [by vm_compute |]].
  exists (inject_Z 8655355533852673 * 2 ^ (-44))%Q. split; [by vm_compute |].
  split; [by vm_compute |]. rewrite update_birdY_cases. by vm_compute.
Qed.

(** The rational model is not the binary64 one: after three frames of
    free fall from rest the velocity is 0.6 + 0.6 + 0.6, which in binary64
    is 1.7999999999999998, the number next below the one nearest to 1.8;
    in the rational model it is 18/10.  [Drift64] bounds the difference
    after any number of frames. *)
Lemma velocity64_three_frames :
  let v := birdVelocity64 (@updates64 portrait_canvas 3 (@initial64 portrait_canvas)) in
  v = S754_finite false 8106479329266892 (-52)
  /\ div (of_Z 18) (of_Z 10) = S754_finite false 8106479329266893 (-52)
  /\ (exists q, to_Q v = Some q /\
        (q < birdVelocity (@updates portrait_canvas 3 (@initial portrait_canvas)))%Q)
  /\ (birdVelocity (@updates portrait_canvas 3 (@initial portrait_canvas)) == 18 / 10)%Q.
Proof.
  split; [by vm_compute | split; [by vm_compute | split]].
  - exists (inject_Z 8106479329266892 * 2 ^ (-52))%Q. split; [by vm_compute |].
    rewrite updates_velocity. by vm_compute.
  - rewrite updates_velocity. by vm_compute.
Qed.

(** ** The theorems at concrete states *)

(** The bird next above the floor line of the square canvas. *)
Lemma update64_clamped_witness :
  le (of_Z 0) (birdY64 (@update64 square_canvas grazing)) = true
  /\ gt (add (birdY64 (@update64 square_canvas grazing)) (of_Z bird_height))
        (@height64 square_canvas) = false.
Proof. by apply (@update64_clamped square_canvas square_canvas64 grazing). Defined.
