(* ===== verification/Rounding.v ===== *)
(** * Rounding: what [binary_round] does to a mantissa, on integers

    Every sum, difference and product of [Binary64] ends in
    [binary_round] or [binary_round_aux] of the Standard Library's
    [SpecFloat]: the exact mantissa is shifted right until it has 53 bits
    (or reaches the least exponent), the bits shifted out are summarised in
    a location, and the mantissa is rounded to nearest, ties to even.  This
    file follows that computation on integers: after a shift by [n] the
    record holds the quotient by [2 ^ n] and the location of the remainder
    ([shifted]); the rounded mantissa is at most half of [2 ^ n] away from
    the exact one, and equal to the quotient when the remainder is 0; and
    the result is a canonical number of the grid [F D], where [D] is the
    number of binary digits of the exact value ([represents]). *)

From Stdlib Require Import SpecFloat.
From S2P Require Import Prelude Binary64.

Local Open Scope Z_scope.

(** The exponent of the grid on which a value of [e] binary digits is
    rounded: 53 bits below its leading bit, but not below the least
    exponent [EMIN]. *)
Definition F (e : Z) : Z := fexp prec emax e.
Definition EMIN : Z := -1074.

(** The location of [a / 2 ^ n] between the integers next to it. *)
Definition rem_loc (a n : Z) : location :=
  if decide (a mod 2 ^ n = 0) then loc_Exact else loc_Inexact (2 * (a mod 2 ^ n) ?= 2 ^ n).

(** The record [mrs] is the mantissa [a] shifted right by [n] bits. *)
Definition shifted (a n : Z) (mrs : shr_record) : Prop :=
  shr_m mrs = a / 2 ^ n /\ loc_of_shr_record mrs = rem_loc a n.

(** [x] is the canonical number of sign [sx] and magnitude [k * 2 ^ g],
    or the infinity of that sign when the grid is beyond the range. *)
Definition represents (sx : bool) (k g : Z) (x : number) : Prop :=
  match x with
  | S754_zero s => s = sx /\ k = 0
  | S754_finite s m e =>
      s = sx /\ g <= e /\ Zpos m * 2 ^ (e - g) = k /\ bounded prec emax m e = true
  | S754_infinity s => s = sx /\ 971 <= g
  | S754_nan => False
  end.

(** ** Binary digits *)

Section Digits.
Implicit Types (m a d n : Z) (p : positive).

Lemma F_unfold e : F e = Z.max (e - 53) EMIN.
Proof. unfold F, fexp, emin, prec, emax, EMIN. lia. Qed.

Lemma Zdigits2_log2 m : 0 < m -> Zdigits2 m = Z.succ (Z.log2 m).
Proof.
  destruct m as [|p|p]; try lia. intros _. cbn [Zdigits2].
  induction p as [p IH|p IH|]; [| |done]; cbn [digits2_pos]; rewrite Pos2Z.inj_succ, IH;
    destruct p; simpl; lia.
Qed.

Lemma Zdigits2_bounds m : 0 < m -> 2 ^ (Zdigits2 m - 1) <= m < 2 ^ Zdigits2 m.
Proof.
  intros Hm. rewrite Zdigits2_log2 by done. replace (Z.succ (Z.log2 m) - 1) with (Z.log2 m) by lia.
  by apply Z.log2_spec.
Qed.

Lemma Zdigits2_unique m d : 0 < d -> 2 ^ (d - 1) <= m < 2 ^ d -> Zdigits2 m = d.
Proof.
  intros Hd Hm. assert (0 < m) by (pose proof (Z.pow_pos_nonneg 2 (d - 1)); lia).
  rewrite Zdigits2_log2 by done. rewrite (Z.log2_unique m (d - 1)); [lia | lia |].
  by replace (Z.succ (d - 1)) with d by lia.
Qed.

Lemma Zdigits2_pos m : 0 < m -> 0 < Zdigits2 m.
Proof. intros Hm. rewrite Zdigits2_log2 by done. pose proof (Z.log2_nonneg m). lia. Qed.

End Digits.

(** ** Shifting right *)

Section Shift.
Implicit Types (a m n e k : Z) (mrs : shr_record) (l : location).

Lemma div_mod_succ a n :
  0 <= n ->
  a / 2 ^ (n + 1) = a / 2 ^ n / 2
  /\ a mod 2 ^ (n + 1) = a mod 2 ^ n + 2 ^ n * ((a / 2 ^ n) mod 2).
Proof.
  intros Hn. pose proof (Z.pow_pos_nonneg 2 n). rewrite Z.pow_add_r, Z.pow_1_r by lia.
  split; [rewrite Z.div_div by lia; done | rewrite Z.rem_mul_r by lia; done].
Qed.

Lemma rem_loc_succ a n :
  0 <= n ->
  rem_loc a (n + 1)
  = match rem_loc a n, Z.odd (a / 2 ^ n) with
    | loc_Exact, false => loc_Exact
    | loc_Inexact _, false => loc_Inexact Lt
    | loc_Exact, true => loc_Inexact Eq
    | loc_Inexact _, true => loc_Inexact Gt
    end.
Proof.
  intros Hn. destruct (div_mod_succ a n Hn) as [_ Hr]. unfold rem_loc. rewrite Hr.
  pose proof (Z.pow_pos_nonneg 2 n). pose proof (Z.mod_pos_bound a (2 ^ n)).
  rewrite Z.pow_add_r, Z.pow_1_r by lia. rewrite <- Z.bit0_mod, Z.bit0_odd.
  destruct (Z.odd (a / 2 ^ n)); cbn [Z.b2z]; repeat case_decide; try lia; f_equal;
    first [apply Z.compare_lt_iff | apply Z.compare_eq_iff | apply Z.compare_gt_iff]; lia.
Qed.

Lemma shr_1_shifted a n mrs :
  0 <= a -> 0 <= n -> shifted a n mrs -> shifted a (n + 1) (shr_1 mrs).
Proof.
  intros Ha Hn [Hm Hl]. unfold shifted. rewrite rem_loc_succ by done. rewrite <- Hl.
  destruct (div_mod_succ a n Hn) as [-> _]. rewrite <- Hm.
  assert (0 <= shr_m mrs) by (rewrite Hm; apply Z.div_pos; [done | by apply Z.pow_pos_nonneg]).
  destruct mrs as [[|[p|p|]|p] [] []]; cbn in *; try lia; split; try done;
    rewrite ?Z.div_small by lia; try done; lia_div.
Qed.

Lemma iter_pos_counted {A} (P : Z -> A -> Prop) (f : A -> A) :
  (forall k x, 0 <= k -> P k x -> P (k + 1) (f x)) ->
  forall p k x, 0 <= k -> P k x -> P (k + Zpos p) (SpecFloat.iter_pos f p x).
Proof.
  intros Hf. induction p as [p IH|p IH|]; intros k x Hk Hx; cbn [SpecFloat.iter_pos].
  - replace (k + Zpos p~1) with (k + 1 + Zpos p + Zpos p) by lia.
    apply IH; [lia |]. apply IH; [lia |]. by apply Hf.
  - replace (k + Zpos p~0) with (k + Zpos p + Zpos p) by lia.
    apply IH; [lia |]. by apply IH.
  - by apply Hf.
Qed.

Lemma shifted_0 a : shifted a 0 (shr_record_of_loc a loc_Exact).
Proof.
  split; cbn; [by rewrite Z.div_1_r |]. unfold rem_loc. rewrite Z.pow_0_r, Z.mod_1_r.
  by rewrite decide_True.
Qed.

Lemma shr_shifted a e n :
  0 <= a -> 0 <= n ->
  exists mrs, shr (shr_record_of_loc a loc_Exact) e n = (mrs, e + n) /\ shifted a n mrs.
Proof.
  intros Ha Hn. destruct n as [|p|p]; [| |lia]; cbn [shr].
  - eexists. rewrite Z.add_0_r. split; [done | apply shifted_0].
  - eexists. split; [done |].
    apply (iter_pos_counted (shifted a) shr_1 (fun k x Hk => shr_1_shifted a k x Ha Hk) p 0);
      [done | apply shifted_0].
Qed.

(** Rounding the shifted record to nearest: at most half a step away. *)
Lemma round_shifted a n mrs :
  0 <= a -> 0 <= n -> shifted a n mrs ->
  let k := round_nearest_even (shr_m mrs) (loc_of_shr_record mrs) in
  2 * Z.abs (k * 2 ^ n - a) <= 2 ^ n
  /\ a / 2 ^ n <= k <= a / 2 ^ n + 1
  /\ (a mod 2 ^ n = 0 -> k = a / 2 ^ n).
Proof.
  intros Ha Hn [-> ->]. unfold rem_loc. pose proof (Z.pow_pos_nonneg 2 n).
  pose proof (Z.div_mod a (2 ^ n)). pose proof (Z.mod_pos_bound a (2 ^ n)).
  set (q := a / 2 ^ n) in *. set (r := a mod 2 ^ n) in *. set (T := 2 ^ n) in *.
  case_decide as Hr; cbn [round_nearest_even]; [split_and!; nia |].
  destruct (Z.compare_spec (2 * r) T); cbn [round_nearest_even];
    try destruct (Z.even q); split_and!; nia.
Qed.

End Shift.

(** ** Rounding to nearest, ties to even *)

Section Round.
Implicit Types (a m n e k g c d : Z) (mrs : shr_record) (sx : bool).

(** The rounded mantissa has the digits of the quotient, or is the next
    power of two. *)
Lemma round_digits a n k :
  0 < a -> 0 <= n -> 2 * Z.abs (k * 2 ^ n - a) <= 2 ^ n -> 0 < k ->
  let c := Zdigits2 a - n in
  0 <= c /\ (Zdigits2 k = c \/ k = 2 ^ c).
Proof.
  intros Ha Hn Hk Hk0 c. pose proof (Zdigits2_bounds a Ha) as [Hlo Hhi].
  pose proof (Zdigits2_pos a Ha) as Hd. pose proof (Z.pow_pos_nonneg 2 n) as HT.
  assert (0 <= c) as Hc.
  { destruct (Z_le_gt_dec 0 c) as [|Hneg]; [done | exfalso].
    assert (2 ^ Zdigits2 a <= 2 ^ (n - 1)) by (apply Z.pow_le_mono_r; lia).
    assert (2 ^ n = 2 * 2 ^ (n - 1)) by (rewrite <- Z.pow_succ_r by lia; f_equal; lia). nia. }
  split; [done |].
  assert (2 ^ Zdigits2 a = 2 ^ c * 2 ^ n) as Ed by (rewrite <- Z.pow_add_r by lia; f_equal; lia).
  pose proof (Z.pow_pos_nonneg 2 c) as HC.
  assert (k <= 2 ^ c) as Hup by nia.
  destruct (Z.eq_dec k (2 ^ c)) as [|Hne]; [by right | left].
  destruct (Z.eq_dec c 0) as [Hc0|Hc0]; [rewrite Hc0 in *; simpl in *; lia |].
  apply Zdigits2_unique; [lia |]. split; [|lia].
  assert (2 ^ c = 2 * 2 ^ (c - 1)) as Ec by (rewrite <- Z.pow_succ_r by lia; f_equal; lia).
  assert (2 ^ (Zdigits2 a - 1) = 2 ^ (c - 1) * 2 ^ n) as Ed'
    by (rewrite <- Z.pow_add_r by lia; f_equal; lia).
  pose proof (Z.pow_pos_nonneg 2 (c - 1)). nia.
Qed.

(** The second shift: a mantissa with the digits of the grid, or the next
    power of two, is made canonical without loss. *)
Lemma shr_fexp_canonical k g c :
  0 < k -> 0 <= c -> g = F (c + g) -> Zdigits2 k = c \/ k = 2 ^ c ->
  exists mrs e', shr_fexp prec emax k g loc_Exact = (mrs, e')
    /\ 0 < shr_m mrs /\ shr_m mrs * 2 ^ (e' - g) = k /\ g <= e' <= g + 1
    /\ F (Zdigits2 (shr_m mrs) + e') = e'.
Proof.
  intros Hk Hc Hg Hd. unfold shr_fexp. fold (F (Zdigits2 k + g)).
  assert (Zdigits2 k = c \/ k = 2 ^ c /\ Zdigits2 k = c + 1) as [Ed | [Ek Ed]].
  { destruct Hd as [|Ek]; [by left | right]. split; [done |].
    apply Zdigits2_unique; [lia |]. rewrite Ek, Z.add_simpl_r.
    split; [lia | apply Z.pow_lt_mono_r; lia]. }
  - rewrite Ed, <- Hg, Z.sub_diag. cbn [shr]. eexists _, _. split; [done |].
    cbn [shr_m shr_record_of_loc]. rewrite Z.sub_diag, Z.mul_1_r, Ed. split_and!; try done; lia.
  - rewrite Ed. rewrite F_unfold in Hg. destruct (Z.eq_dec (F (c + 1 + g)) g) as [Ef|Ef].
    + rewrite Ef, Z.sub_diag. cbn [shr]. eexists _, _. split; [done |].
      cbn [shr_m shr_record_of_loc]. rewrite Z.sub_diag, Z.mul_1_r, Ed.
      split_and!; try done; lia.
    + assert (F (c + 1 + g) - g = 1 /\ c = 53) as [E1 ->] by (rewrite F_unfold in *; lia).
      rewrite E1. destruct (shr_shifted k g 1) as (mrs & -> & Hm & _); [lia | lia |].
      eexists _, _. split; [done |]. rewrite Hm, Ek. change (2 ^ 53 / 2 ^ 1) with (2 ^ 52).
      replace (g + 1 - g) with 1 by lia. split_and!; try done; try lia.
      change (Zdigits2 (2 ^ 52)) with 53. rewrite F_unfold in *. lia.
Qed.

Lemma shr_fexp_zero g :
  EMIN <= g -> shr_fexp prec emax 0 g loc_Exact = (shr_record_of_loc 0 loc_Exact, g).
Proof.
  intros Hg. unfold shr_fexp. cbn [Zdigits2]. fold (F (0 + g)).
  destruct (F (0 + g) - g) eqn:E; try done. rewrite F_unfold in E. lia.
Qed.

(** [binary_round_aux] on an exact mantissa that is not shorter than its
    grid allows: the result is on the grid, at most half a step from the
    argument, and equal to it when the argument is on the grid. *)
Lemma binary_round_aux_spec sx a e :
  0 < a -> e <= F (Zdigits2 a + e) ->
  let g := F (Zdigits2 a + e) in
  exists k, 0 <= k /\ 2 * Z.abs (k * 2 ^ (g - e) - a) <= 2 ^ (g - e)
    /\ (a mod 2 ^ (g - e) = 0 -> k = a / 2 ^ (g - e))
    /\ (0 < k -> Zdigits2 k = Zdigits2 a + e - g \/ k = 2 ^ (Zdigits2 a + e - g))
    /\ represents sx k g (binary_round_aux prec emax sx a e loc_Exact).
Proof.
  intros Ha He g. unfold binary_round_aux.
  destruct (shr_shifted a e (g - e)) as (mrs & Hshr & Hsh); [lia | lia |].
  unfold shr_fexp at 1. fold (F (Zdigits2 a + e)). fold g. rewrite Hshr.
  replace (e + (g - e)) with g by lia.
  destruct (round_shifted a (g - e) mrs) as (Hhalf & Hbr & Hex); [lia | lia | done |].
  set (k := round_nearest_even _ _) in *.
  assert (0 <= a / 2 ^ (g - e)) by (apply Z.div_pos; [lia | apply Z.pow_pos_nonneg; lia]).
  assert (EMIN <= g) by (unfold g; rewrite F_unfold; lia).
  assert (0 < k -> 0 <= Zdigits2 a - (g - e)
                   /\ (Zdigits2 k = Zdigits2 a - (g - e) \/ k = 2 ^ (Zdigits2 a - (g - e))))
    as Hdig by (intros Hk; apply round_digits; (done || lia)).
  replace (Zdigits2 a + e - g) with (Zdigits2 a - (g - e)) by lia.
  exists k. split_and!; [lia | done | done | by intros Hk; apply Hdig |].
  destruct (Z.eq_dec k 0) as [-> | Hk]; [by rewrite shr_fexp_zero |].
  destruct Hdig as [Hc Hd]; [lia |].
  destruct (shr_fexp_canonical k g (Zdigits2 a - (g - e))) as (m & e' & -> & Hm & Hv & He' & Hcan);
    [lia | done | unfold g at 1; f_equal; lia | done |].
  destruct (shr_m m) as [|p|p] eqn:Ep; [lia | | lia].
  destruct (Z.leb_spec e' (emax - prec)) as [Hle | Hgt]; cbn.
  - split_and!; try done; [lia |]. unfold bounded, canonical_mantissa.
    fold (F (Zpos (digits2_pos p) + e')). cbn [Zdigits2] in Hcan. rewrite Hcan, Z.eqb_refl.
    by apply Z.leb_le in Hle as ->.
  - unfold emax, prec in Hgt. split; [done | lia].
Qed.

Lemma iter_xO_value (p k : positive) : Zpos (Pos.iter xO p k) = Zpos p * 2 ^ Zpos k.
Proof.
  induction k as [|k IH] using Pos.peano_ind; [simpl; lia |].
  rewrite Pos.iter_succ, Pos2Z.inj_xO, IH, Pos2Z.inj_succ, Z.pow_succ_r by lia. lia.
Qed.

(** Aligning a mantissa to a lower exponent. *)
Lemma shl_align_spec p e e' :
  (shl_align p e e').2 = Z.min e e'
  /\ Zpos (shl_align p e e').1 = Zpos p * 2 ^ (e - Z.min e e').
Proof.
  unfold shl_align. destruct (e' - e) as [|d|d] eqn:E; cbn [fst snd].
  - rewrite Z.min_l by lia. rewrite Z.sub_diag. lia.
  - rewrite Z.min_l by lia. rewrite Z.sub_diag. lia.
  - rewrite Z.min_r by lia. split; [done |]. rewrite iter_xO_value. f_equal. f_equal. lia.
Qed.

Lemma digits2_pos_shift (p q : positive) n :
  0 <= n -> Zpos q = Zpos p * 2 ^ n -> Zpos (digits2_pos q) = Zpos (digits2_pos p) + n.
Proof.
  intros Hn Hm. change (Zdigits2 (Zpos q) = Zdigits2 (Zpos p) + n).
  rewrite !Zdigits2_log2, Hm, Z.log2_mul_pow2 by lia. lia.
Qed.

(** [binary_round]: the mantissa is brought to its grid first, by an exact
    shift left if it is too short, and rounded if it is too long. *)
Lemma binary_round_spec sx p e :
  let g := F (Zpos (digits2_pos p) + e) in
  exists k, 0 <= k
    /\ (g <= e -> k = Zpos p * 2 ^ (e - g))
    /\ (e <= g -> 2 * Z.abs (k * 2 ^ (g - e) - Zpos p) <= 2 ^ (g - e)
                  /\ (Zpos p mod 2 ^ (g - e) = 0 -> k = Zpos p / 2 ^ (g - e)))
    /\ (0 < k -> Zdigits2 k = Zpos (digits2_pos p) + e - g
                  \/ k = 2 ^ (Zpos (digits2_pos p) + e - g))
    /\ represents sx k g (binary_round prec emax sx p e).
Proof.
  intros g. unfold binary_round. fold (F (Zpos (digits2_pos p) + e)). fold g.
  destruct (shl_align_spec p e g) as [He Hm].
  destruct (shl_align p e g) as [m ez]. cbn [fst snd] in *. subst ez.
  pose proof (digits2_pos_shift p m (e - Z.min e g) ltac:(lia) Hm) as Hd.
  assert (Zpos (digits2_pos p) + (e - Z.min e g) + Z.min e g = Zpos (digits2_pos p) + e)
    as Hsum by lia.
  destruct (binary_round_aux_spec sx (Zpos m) (Z.min e g)) as (k & Hk & Hhalf & Hex & Hdig & Hrep);
    [done | cbn [Zdigits2]; rewrite Hd, Hsum; fold g; lia |].
  cbn [Zdigits2] in *. rewrite Hd, Hsum in *. fold g in Hhalf, Hex, Hdig, Hrep.
  exists k. split_and!; [done | | | done | done].
  - intros Hge. rewrite Z.min_r in * by done. rewrite Z.sub_diag, Z.pow_0_r in *. lia.
  - intros Hle. rewrite Z.min_l in * by done. rewrite Z.sub_diag, Z.pow_0_r, Z.mul_1_r in Hm.
    by rewrite Hm in *.
Qed.

End Round.
