(* ===== verification/Arith64.v ===== *)
(** * Arith64: sums and comparisons of binary64 numbers, on rationals

    What [add], [sub] and the comparisons of [Binary64] compute, said of
    the rationals the numbers stand for ([Qval]).  A sum of two finite
    canonical numbers is the exact sum [rounded]: a canonical number (or
    an infinity beyond the range) on the grid of the magnitude of the
    exact sum, at most half a step of that grid away from it, equal to it
    when it is on the grid, of its sign.  The comparisons of canonical
    numbers are the comparisons of their rationals. *)

From Stdlib Require Import SpecFloat Qpower Qfield.
From S2P Require Import Prelude Binary64 Rounding.

Local Open Scope Q_scope.

(** [2 ^ e], for every integer [e]. *)
Definition pow2 (e : Z) : Q := 2 ^ e.

(** The rational a number stands for; 0 for what is not finite. *)
Definition Qval (x : number) : Q :=
  match x with
  | S754_finite s m e => inject_Z (cond_Zopp s (Zpos m)) * pow2 e
  | _ => 0
  end.

(** [r] is at most half of [step] away from [v]. *)
Definition near (v r step : Q) : Prop := 2 * (r - v) <= step /\ 2 * (v - r) <= step.

(** [x] is the canonical number that stands for [K * 2 ^ g], or the
    infinity of the sign of [K] when that grid is beyond the range. *)
Definition stands (x : number) (K g : Z) : Prop :=
  match x with
  | S754_zero _ => K = 0%Z
  | S754_finite s m e =>
      (g <= e)%Z /\ cond_Zopp s (Zpos m * 2 ^ (e - g)) = K /\ bounded prec emax m e = true
  | S754_infinity s => (971 <= g)%Z /\ (0 < K -> s = false)%Z /\ (K < 0 -> s = true)%Z
  | S754_nan => False
  end.

(** [x] is [v], not 0, rounded to nearest: [x] stands for [K * 2 ^ (F D)]
    where [D] is the binary magnitude of [v]; it is at most half a step
    of its grid from [v], equal to [v] when [v] is on the grid, of the
    sign of [v], and not beyond the powers of two around [v]. *)
Record rounding (v : Q) (x : number) (K D : Z) : Prop := {
  r_stands : stands x K (F D);
  r_near : near v (inject_Z K * pow2 (F D)) (pow2 (F D));
  r_exact : forall j : Z, v == inject_Z j * pow2 (F D) -> K = j;
  r_mag : pow2 (D - 1) <= v < pow2 D \/ pow2 (D - 1) <= - v < pow2 D;
  r_range : K <> 0%Z -> pow2 (D - 1) <= inject_Z (Z.abs K) * pow2 (F D) <= pow2 D;
  r_sign : (0 < v -> (0 <= K)%Z) /\ (v < 0 -> (K <= 0)%Z);
}.

(** [x] is [v] rounded: a zero when [v] is 0. *)
Inductive rounded (v : Q) (x : number) : Prop :=
| rounded_zero s : v == 0 -> x = S754_zero s -> rounded v x
| rounded_value K D : ~ v == 0 -> rounding v x K D -> rounded v x.

(** The number is canonical: its mantissa has 53 bits, or fewer at the
    least exponent, and its exponent is in range. *)
Definition valid (x : number) : Prop := valid_binary prec emax x = true.

(** ** Powers of two *)

#[export] Instance near_proper : Proper (Qeq ==> Qeq ==> Qeq ==> iff) near.
Proof. intros v v' Hv r r' Hr s s' Hs. unfold near. by rewrite Hv, Hr, Hs. Qed.

Section Pow2.
Implicit Types (a b e n M N k p g : Z).

Lemma pow2_pos e : 0 < pow2 e.
Proof. by apply Qpower_0_lt. Qed.

Lemma pow2_add a b : pow2 (a + b) == pow2 a * pow2 b.
Proof. by apply Qpower_plus. Qed.

Lemma pow2_Z n : (0 <= n)%Z -> pow2 n == inject_Z (2 ^ n).
Proof. intros Hn. unfold pow2. by rewrite Zpower_Qpower. Qed.

Lemma pow2_le a b : (a <= b)%Z -> pow2 a <= pow2 b.
Proof. intros H. by apply Qpower_le_compat_l. Qed.

Lemma pow2_lt a b : (a < b)%Z -> pow2 a < pow2 b.
Proof. intros H. by apply Qpower_lt_compat_l. Qed.

(** A mantissa at a lower exponent. *)
Lemma scale_Z M n e : (0 <= n)%Z -> inject_Z (M * 2 ^ n) * pow2 e == inject_Z M * pow2 (n + e).
Proof. intros Hn. rewrite inject_Z_mult, pow2_add, <- pow2_Z by done. ring. Qed.

Lemma scaled_le M N e : inject_Z M * pow2 e <= inject_Z N * pow2 e <-> (M <= N)%Z.
Proof. rewrite Qmult_le_r by apply pow2_pos. by rewrite Zle_Qle. Qed.

Lemma scaled_lt M N e : inject_Z M * pow2 e < inject_Z N * pow2 e <-> (M < N)%Z.
Proof. rewrite Qmult_lt_r by apply pow2_pos. by rewrite Zlt_Qlt. Qed.

Lemma scaled_eq M N e : inject_Z M * pow2 e == inject_Z N * pow2 e <-> M = N.
Proof.
  split; [|by intros ->]. intros H. apply Qmult_inj_r in H; [by apply inject_Z_injective |].
  pose proof (pow2_pos e). lra.
Qed.

(** Half a step on the integers is half a step on the rationals. *)
Lemma near_scaled k p n e :
  (0 <= n)%Z -> (2 * Z.abs (k * 2 ^ n - p) <= 2 ^ n)%Z ->
  near (inject_Z p * pow2 e) (inject_Z k * pow2 (n + e)) (pow2 (n + e)).
Proof.
  intros Hn Hk. unfold near. rewrite pow2_add, pow2_Z by done. pose proof (pow2_pos e) as He.
  assert (2 * (k * 2 ^ n - p) <= 2 ^ n /\ 2 * (p - k * 2 ^ n) <= 2 ^ n)%Z as [H1 H2] by lia.
  revert H1 H2. generalize (2 ^ n)%Z. intros T H1 H2.
  rewrite Zle_Qle in H1, H2. autorewrite with zq in H1, H2.
  change (inject_Z 2) with 2 in *. split; nra.
Qed.

Lemma near_exact v step : 0 <= step -> near v v step.
Proof. intros H. split; lra. Qed.

End Pow2.

(** ** What a number stands for *)

Section Stands.
Implicit Types (x y : number) (K M N k g e j c D : Z) (p : positive) (sx : bool).

Lemma cond_Zopp_mul sx M N : cond_Zopp sx (M * N) = (cond_Zopp sx M * N)%Z.
Proof. destruct sx; simpl; lia. Qed.

Lemma represents_stands sx k g x :
  (0 <= k)%Z -> represents sx k g x -> stands x (cond_Zopp sx k) g.
Proof.
  intros Hk. destruct x as [s|s| |s m e]; cbn; try done.
  - by intros [_ ->]; destruct sx.
  - intros [-> ?]. destruct sx; cbn; split_and!; (done || lia).
  - by intros (-> & ? & <- & ?).
Qed.

Lemma stands_Qval x K g :
  stands x K g -> (g < 971)%Z ->
  finite x = true /\ Qval x == inject_Z K * pow2 g /\ valid_binary prec emax x = true.
Proof.
  destruct x as [s|s| |s m e]; cbn; try done; try lia.
  - intros -> _. split_and!; try done; ring.
  - intros (Hg & <- & Hb) _. split_and!; try done.
    rewrite cond_Zopp_mul, scale_Z by lia. by replace (e - g + g)%Z with e by lia.
Qed.

(** The range of a mantissa of [c] digits, or the next power of two, on the
    grid [g]. *)
Lemma digits_range k c g :
  (0 < k)%Z -> Zdigits2 k = c \/ k = (2 ^ c)%Z ->
  pow2 (c + g - 1) <= inject_Z k * pow2 g <= pow2 (c + g).
Proof.
  intros Hk [Hd | Hp].
  - pose proof (Zdigits2_bounds k Hk) as [Hlo Hhi]. pose proof (Zdigits2_pos k Hk).
    rewrite Hd in *. replace (c + g - 1)%Z with (c - 1 + g)%Z by lia.
    rewrite !pow2_add, (pow2_Z (c - 1)), (pow2_Z c) by lia. rewrite !scaled_le. lia.
  - assert (0 <= c)%Z by (destruct (Z_le_gt_dec 0 c); [done | rewrite Z.pow_neg_r in Hp; lia]).
    subst k. rewrite <- pow2_Z, <- pow2_add by done. split; [apply pow2_le; lia | lra].
Qed.

Lemma binary_round_Q sx p e :
  let D := (Zpos (digits2_pos p) + e)%Z in
  let g := F D in
  exists k, (0 <= k)%Z /\ represents sx k g (binary_round prec emax sx p e)
    /\ near (inject_Z (Zpos p) * pow2 e) (inject_Z k * pow2 g) (pow2 g)
    /\ (forall j, inject_Z (Zpos p) * pow2 e == inject_Z j * pow2 g -> k = j)
    /\ ((0 < k)%Z -> pow2 (D - 1) <= inject_Z k * pow2 g <= pow2 D).
Proof.
  intros D g. destruct (binary_round_spec sx p e) as (k & Hk & Hge & Hle & Hdig & Hrep).
  change (F (Zpos (digits2_pos p) + e)) with g in Hge, Hle, Hdig, Hrep.
  change (Zpos (digits2_pos p) + e)%Z with D in Hdig. clearbody g D.
  exists k. split_and!; [done | done | | |].
  - destruct (Z_le_gt_dec g e) as [Hg | Hg].
    + rewrite (Hge Hg), scale_Z by lia. replace (e - g + g)%Z with e by lia.
      apply near_exact. pose proof (pow2_pos g). lra.
    + destruct Hle as [Hhalf _]; [lia |]. replace g with (g - e + e)%Z at 1 2 by lia.
      apply near_scaled; [lia | done].
  - intros j Hj. destruct (Z_le_gt_dec g e) as [Hg | Hg].
    + assert (inject_Z k * pow2 g == inject_Z (Zpos p) * pow2 e) as Hv
        by (rewrite (Hge Hg), scale_Z by lia; by replace (e - g + g)%Z with e by lia).
      rewrite <- Hv in Hj. by apply scaled_eq in Hj.
    + destruct Hle as [_ Hex]; [lia |]. replace g with (g - e + e)%Z in Hj at 1 by lia.
      rewrite <- scale_Z in Hj by lia. apply scaled_eq in Hj.
      rewrite Hj, Z.mod_mul, Z.div_mul in Hex by (apply Z.pow_nonzero; lia). by apply Hex.
  - intros Hk0. pose proof (digits_range k (D - g) g Hk0 (Hdig Hk0)) as Hr.
    replace (D - g + g - 1)%Z with (D - 1)%Z in Hr by lia.
    by replace (D - g + g)%Z with D in Hr by lia.
Qed.

End Stands.

(** ** Rounded values *)

Section Rounded.
Implicit Types (x y : number) (v r : Q) (K M N k g e j c D : Z) (p : positive) (sx : bool).

Lemma near_opp v r step : near v r step -> near (- v) (- r) step.
Proof. unfold near. lra. Qed.

Lemma mantissa_mag p e :
  pow2 (Zpos (digits2_pos p) + e - 1) <= inject_Z (Zpos p) * pow2 e
  < pow2 (Zpos (digits2_pos p) + e).
Proof.
  pose proof (Zdigits2_bounds (Zpos p) ltac:(done)) as [Hlo Hhi]. cbn [Zdigits2] in *.
  replace (Zpos (digits2_pos p) + e - 1)%Z with (Zpos (digits2_pos p) - 1 + e)%Z by lia.
  rewrite !pow2_add, (pow2_Z (_ - 1)), (pow2_Z (Zpos _)) by lia.
  by rewrite scaled_le, scaled_lt.
Qed.

Lemma binary_round_rounding sx p e :
  exists K, rounding (inject_Z (cond_Zopp sx (Zpos p)) * pow2 e)
              (binary_round prec emax sx p e) K (Zpos (digits2_pos p) + e).
Proof.
  destruct (binary_round_Q sx p e) as (k & Hk & Hrep & Hnear & Hex & Hrange).
  pose proof (mantissa_mag p e) as Hmag. pose proof (pow2_pos (Zpos (digits2_pos p) + e - 1)).
  apply represents_stands in Hrep; [| done]. exists (cond_Zopp sx k).
  destruct sx; cbn [cond_Zopp] in *; (split; [done | ..]);
    rewrite ?inject_Z_opp; change (inject_Z (Zneg p)) with (- inject_Z (Zpos p));
    rewrite ?Z.abs_opp, ?(Z.abs_eq k) by done; unfold near in *.
  - nra.
  - intros j Hj. enough (k = (- j)%Z) by lia. apply Hex. rewrite inject_Z_opp. nra.
  - right. nra.
  - intros HK. apply Hrange. lia.
  - split; [nra | lia].
  - done.
  - done.
  - by left.
  - intros HK. apply Hrange. lia.
  - split; [done | nra].
Qed.

(** [binary_normalize] of a mantissa that is not 0. *)
Lemma binary_normalize_rounding M e szero :
  M <> 0%Z ->
  exists K, rounding (inject_Z M * pow2 e) (binary_normalize prec emax M e szero) K
              (Zdigits2 M + e).
Proof.
  intros HM. destruct M as [|p|p]; [done | |]; cbn [binary_normalize Zdigits2].
  - apply (binary_round_rounding false).
  - apply (binary_round_rounding true).
Qed.

End Rounded.

(** ** Sums and differences *)

Section Sums.
Implicit Types (x y : number) (v r : Q) (K M N k g e j c D : Z) (p m : positive) (s : bool).

Lemma rounding_proper v v' x K D : v == v' -> rounding v x K D -> rounding v' x K D.
Proof.
  intros Hv [H1 H2 H3 H4 H5 H6]. split; try done.
  - by rewrite <- Hv.
  - intros j Hj. apply H3. by rewrite Hv.
  - by rewrite <- Hv.
  - by rewrite <- Hv.
Qed.

Lemma rounded_proper v v' x : v == v' -> rounded v x -> rounded v' x.
Proof.
  intros Hv [s H0 Hx | K D H0 Hr].
  - apply (rounded_zero _ _ s); [by rewrite <- Hv | done].
  - apply (rounded_value _ _ K D); [by rewrite <- Hv | by apply (rounding_proper v)].
Qed.

Lemma Qval_nonzero s m e : ~ Qval (S754_finite s m e) == 0.
Proof.
  cbn [Qval]. pose proof (pow2_pos e) as He.
  assert (0 < inject_Z (Zpos m)) as Hm by (unfold Qlt; simpl; lia).
  destruct s; cbn [cond_Zopp]; rewrite ?inject_Z_opp; intros Hzero; nra.
Qed.

(** A canonical number is its own rounding. *)
Lemma valid_rounded s m e :
  valid (S754_finite s m e) -> rounded (Qval (S754_finite s m e)) (S754_finite s m e).
Proof.
  unfold valid. cbn [valid_binary]. intros Hb.
  destruct (binary_round_rounding s m e) as [K0 _].
  pose proof Hb as [Hcan _]%andb_true_iff. unfold canonical_mantissa in Hcan.
  apply Z.eqb_eq in Hcan. fold (F (Zpos (digits2_pos m) + e)) in Hcan.
  pose proof (mantissa_mag m e) as Hmag. pose proof (pow2_pos (Zpos (digits2_pos m) + e - 1)).
  apply (rounded_value _ _ (cond_Zopp s (Zpos m)) (Zpos (digits2_pos m) + e));
    [apply Qval_nonzero |]. cbn [Qval]. split; rewrite ?Hcan.
  - cbn [stands]. rewrite Z.sub_diag, Z.mul_1_r. by split_and!.
  - apply near_exact. pose proof (pow2_pos e). lra.
  - intros j Hj. by apply scaled_eq in Hj.
  - destruct s; cbn [cond_Zopp]; [right | by left]. rewrite inject_Z_opp.
    destruct Hmag. split; nra.
  - intros _. destruct Hmag as [Hlo Hhi].
    assert (Z.abs (cond_Zopp s (Zpos m)) = Zpos m) as -> by (by destruct s). split; [done | lra].
  - destruct Hmag. destruct s; cbn [cond_Zopp]; rewrite ?inject_Z_opp; split; intros; (nra || lia).
Qed.

Lemma aligned_value s m e ez :
  (ez <= e)%Z ->
  inject_Z (cond_Zopp s (Zpos (shl_align m e ez).1)) * pow2 ez == Qval (S754_finite s m e).
Proof.
  intros He. destruct (shl_align_spec m e ez) as [_ ->]. rewrite Z.min_r by done.
  rewrite cond_Zopp_mul, scale_Z by lia. cbn [Qval]. by replace (e - ez + ez)%Z with e by lia.
Qed.

(** The sum of two finite numbers, as [SFadd] and [SFsub] compute it, is
    the rounding of the exact sum of their mantissas. *)
Lemma normalize_sum_rounded M e v :
  inject_Z M * pow2 e == v -> rounded v (binary_normalize prec emax M e false).
Proof.
  intros Hv. destruct (Z.eq_dec M 0%Z) as [-> | HM].
  - apply (rounded_zero _ _ false); [rewrite <- Hv; ring | done].
  - destruct (binary_normalize_rounding M e false HM) as [K HK].
    apply (rounded_value _ _ K (Zdigits2 M + e)); [| by apply (rounding_proper _ _ _ _ _ Hv)].
    rewrite <- Hv. intros H0. apply HM. pose proof (pow2_pos e).
    apply (scaled_eq M 0%Z e). rewrite H0. ring.
Qed.

Lemma add_rounded x y :
  valid x -> valid y -> finite x = true -> finite y = true ->
  rounded (Qval x + Qval y) (add x y).
Proof.
  destruct x as [sx|sx| |sx mx ex], y as [sy|sy| |sy my ey]; try done; intros Hx Hy _ _.
  - apply (rounded_zero _ _ (sx && sy)); [cbn; ring | by destruct sx, sy].
  - apply (rounded_proper (Qval (S754_finite sy my ey))); [cbn [Qval]; ring |].
    by apply valid_rounded.
  - apply (rounded_proper (Qval (S754_finite sx mx ex))); [cbn [Qval]; ring |].
    by apply valid_rounded.
  - unfold add, SFadd. apply normalize_sum_rounded.
    rewrite inject_Z_plus, Qmult_plus_distr_l, !aligned_value by lia. done.
Qed.

Lemma sub_rounded x y :
  valid x -> valid y -> finite x = true -> finite y = true ->
  rounded (Qval x - Qval y) (sub x y).
Proof.
  destruct x as [sx|sx| |sx mx ex], y as [sy|sy| |sy my ey]; try done; intros Hx Hy _ _.
  - apply (rounded_zero _ _ (sx && negb sy)); [cbn; ring | by destruct sx, sy].
  - apply (rounded_proper (Qval (S754_finite (negb sy) my ey))).
    + cbn [Qval]. destruct sy; cbn [negb cond_Zopp]; rewrite ?inject_Z_opp; ring.
    + by apply valid_rounded.
  - apply (rounded_proper (Qval (S754_finite sx mx ex))); [cbn [Qval]; ring |].
    by apply valid_rounded.
  - unfold sub, SFsub. apply normalize_sum_rounded.
    rewrite inject_Z_minus. unfold Qminus. rewrite Qmult_plus_distr_l.
    setoid_replace (- inject_Z (cond_Zopp sy (Zpos (shl_align my ey (Z.min ex ey)).1))
                    * pow2 (Z.min ex ey))
      with (- (inject_Z (cond_Zopp sy (Zpos (shl_align my ey (Z.min ex ey)).1))
               * pow2 (Z.min ex ey))) using relation Qeq by ring.
    rewrite !aligned_value by lia. done.
Qed.

End Sums.

(** ** Comparisons *)

Section Compare.
Implicit Types (x y : number) (v r : Q) (K M N k g e j c D : Z) (p m : positive) (s : bool).

Lemma bounded_canonical m e :
  bounded prec emax m e = true -> F (Zpos (digits2_pos m) + e) = e /\ (e <= 971)%Z.
Proof.
  unfold bounded, canonical_mantissa. intros [Hc He]%andb_true_iff.
  apply Z.eqb_eq in Hc. apply Z.leb_le in He. by split.
Qed.

(** Of two canonical numbers the one with the higher exponent is the
    greater. *)
Lemma canonical_lt m1 e1 m2 e2 :
  bounded prec emax m1 e1 = true -> bounded prec emax m2 e2 = true -> (e1 < e2)%Z ->
  inject_Z (Zpos m1) * pow2 e1 < inject_Z (Zpos m2) * pow2 e2.
Proof.
  intros [H1 _]%bounded_canonical [H2 _]%bounded_canonical He. rewrite F_unfold in H1, H2.
  pose proof (mantissa_mag m1 e1) as [_ Hhi]. pose proof (mantissa_mag m2 e2) as [Hlo _].
  eapply Qlt_le_trans; [exact Hhi |]. eapply Qle_trans; [| exact Hlo]. apply pow2_le.
  unfold EMIN in *. lia.
Qed.

Lemma Qcompare_scaled M N e : (inject_Z M * pow2 e ?= inject_Z N * pow2 e) = (M ?= N)%Z.
Proof.
  destruct (Z.compare_spec M N) as [-> | H | H].
  - apply Qeq_alt. reflexivity.
  - apply Qlt_alt. by apply scaled_lt.
  - apply Qgt_alt. by apply scaled_lt.
Qed.

Lemma compare_magnitudes m1 e1 m2 e2 :
  bounded prec emax m1 e1 = true -> bounded prec emax m2 e2 = true ->
  match (e1 ?= e2)%Z with
  | Lt => Lt
  | Gt => Gt
  | Eq => Pos.compare_cont Eq m1 m2
  end = (inject_Z (Zpos m1) * pow2 e1 ?= inject_Z (Zpos m2) * pow2 e2).
Proof.
  intros H1 H2. symmetry. destruct (Z.compare_spec e1 e2) as [-> | H | H].
  - by rewrite Qcompare_scaled.
  - by apply Qlt_alt, canonical_lt.
  - by apply Qgt_alt, canonical_lt.
Qed.

Lemma Qcompare_opp v r : (- v ?= - r) = CompOpp (v ?= r).
Proof.
  destruct (Qcompare_spec v r) as [H | H | H]; cbn [CompOpp].
  - apply Qeq_alt. by rewrite H.
  - apply Qgt_alt. by apply Qopp_lt_compat.
  - apply Qlt_alt. by apply Qopp_lt_compat.
Qed.

Lemma Qval_pos m e : 0 < Qval (S754_finite false m e).
Proof.
  cbn [Qval cond_Zopp]. pose proof (pow2_pos e) as He.
  assert (0 < inject_Z (Zpos m)) as Hm by (unfold Qlt; simpl; lia).
  revert Hm. generalize (inject_Z (Zpos m)). intros P HP. nra.
Qed.

Lemma Qval_opp m e : Qval (S754_finite true m e) == - Qval (S754_finite false m e).
Proof. cbn [Qval cond_Zopp]. rewrite inject_Z_opp. ring. Qed.

Lemma Qval_neg m e : Qval (S754_finite true m e) < 0.
Proof.
  rewrite Qval_opp. pose proof (Qval_pos m e) as H. revert H.
  generalize (Qval (S754_finite false m e)). intros; lra.
Qed.

(** On canonical numbers [SFcompare] is the comparison of the rationals
    they stand for. *)
Lemma SFcompare_Qval x y :
  valid x -> valid y -> finite x = true -> finite y = true ->
  SFcompare x y = Some (Qval x ?= Qval y).
Proof.
  destruct x as [sx|sx| |sx mx ex], y as [sy|sy| |sy my ey]; try done; intros Hx Hy _ _;
    cbn [SFcompare]; f_equal; symmetry.
  - change (Qval (S754_zero sx)) with 0.
    destruct sy; [apply Qgt_alt, Qval_neg | apply Qlt_alt, Qval_pos].
  - change (Qval (S754_zero sy)) with 0.
    destruct sx; [apply Qlt_alt, Qval_neg | apply Qgt_alt, Qval_pos].
  - pose proof (compare_magnitudes mx ex my ey Hx Hy) as Hc.
    destruct sx, sy.
    + rewrite !Qval_opp, Qcompare_opp. cbn [Qval cond_Zopp]. rewrite <- Hc.
      by destruct (ex ?= ey)%Z.
    + apply Qlt_alt. eapply Qlt_trans; [apply Qval_neg | apply Qval_pos].
    + apply Qgt_alt. eapply Qlt_trans; [apply Qval_neg | apply Qval_pos].
    + done.
Qed.

Lemma lt_Qval x y :
  valid x -> valid y -> finite x = true -> finite y = true ->
  lt x y = true <-> Qval x < Qval y.
Proof.
  intros. unfold lt, SFltb. rewrite SFcompare_Qval by done. rewrite Qlt_alt.
  by destruct (Qval x ?= Qval y).
Qed.

Lemma gt_Qval x y :
  valid x -> valid y -> finite x = true -> finite y = true ->
  gt x y = true <-> Qval y < Qval x.
Proof. intros. by apply lt_Qval. Qed.

Lemma le_Qval x y :
  valid x -> valid y -> finite x = true -> finite y = true ->
  le x y = true <-> Qval x <= Qval y.
Proof.
  intros. unfold le, SFleb. rewrite SFcompare_Qval by done. rewrite Qle_alt.
  by destruct (Qval x ?= Qval y).
Qed.

End Compare.
