(* ===== verification/Exact64.v ===== *)
(** * Exact64: where binary64 does not round, and by how much it does

    Consequences of [Arith64] for the numbers the program computes with.
    Integers of 53 bits are numbers, and sums and differences of such
    integers are exact while they have 53 bits: the arithmetic of the
    pipes and of the score never rounds.  Rounding does not cross an
    integer of 53 bits nor a power of two, so a comparison of a rounded
    sum with an integer tells of the exact sum; and a rounded value is at
    most half a step of the grid of its magnitude from the exact one.  A
    rational is denoted by one canonical number at most. *)

From Stdlib Require Import SpecFloat Qpower Qfield.
From S2P Require Import Prelude Binary64 Rounding Arith64.

Local Open Scope Q_scope.

(** [x] is a canonical finite number that stands for the rational [q]. *)
Definition denotes (x : number) (q : Q) : Prop :=
  finite x = true /\ valid x /\ Qval x == q.

Section Thresholds.
Implicit Types (x y : number) (v r q : Q) (K P J j h D g : Z).

Lemma stands_value x K g : stands x K g -> finite x = true -> Qval x == inject_Z K * pow2 g.
Proof.
  destruct x as [s|s| |s m e]; cbn; try done.
  - intros -> _. ring.
  - intros (Hg & <- & Hb) _. rewrite cond_Zopp_mul, scale_Z by lia.
    by replace (e - g + g)%Z with e by lia.
Qed.

Lemma stands_valid x K g : stands x K g -> valid x.
Proof. destruct x; cbn; try done. by intros (_ & _ & ?). Qed.

Lemma rounded_valid v x : rounded v x -> valid x.
Proof. intros [s _ -> | K D _ [H _ _ _ _ _]]; [done | by apply (stands_valid _ K (F D))]. Qed.

Lemma F_mono D h : (D <= h)%Z -> (F D <= F h)%Z.
Proof. rewrite !F_unfold. lia. Qed.

Lemma pow2_lt_inv a b : pow2 a < pow2 b -> (a < b)%Z.
Proof.
  intros H. destruct (Z_lt_ge_dec a b) as [|Hge]; [done |].
  pose proof (pow2_le b a ltac:(lia)). lra.
Qed.

Lemma pow2_double a : pow2 (a + 1) == 2 * pow2 a.
Proof. rewrite pow2_add. change (pow2 1) with 2. ring. Qed.

(** The magnitude of a value bounds its number of digits. *)
Lemma rounding_digits v x K D h :
  rounding v x K D -> - pow2 h < v < pow2 h -> (D <= h)%Z.
Proof.
  intros Hr Hv. assert (pow2 (D - 1) < pow2 h) as H%pow2_lt_inv; [| lia].
  destruct (r_mag _ _ _ _ Hr); lra.
Qed.

(** Above the subnormal range nothing rounds to 0. *)
Lemma rounding_nonzero v x K D : rounding v x K D -> (EMIN < D)%Z -> K <> 0%Z.
Proof.
  intros Hr HD ->. destruct (r_near _ _ _ _ Hr) as [H1 H2].
  assert (pow2 (F D) <= pow2 (D - 1)) as Hle by (apply pow2_le; rewrite F_unfold; lia).
  pose proof (pow2_pos (D - 1)). change (inject_Z 0) with 0 in H1, H2.
  destruct (r_mag _ _ _ _ Hr); lra.
Qed.

Lemma rounded_finite v x : rounded v x -> - pow2 1023 < v < pow2 1023 -> finite x = true.
Proof.
  intros [s _ -> | K D _ Hr] Hv; [done |].
  pose proof (rounding_digits v x K D 1023 Hr Hv).
  apply (stands_Qval x K (F D)); [apply Hr | rewrite F_unfold; unfold EMIN; lia].
Qed.

(** A value above 0 does not overflow to the negative infinity. *)
Lemma rounded_positive v x : rounded v x -> 0 < v -> finite x = true \/ x = S754_infinity false.
Proof.
  intros [s _ -> | K D _ Hr] Hv; [by left |].
  pose proof (r_stands _ _ _ _ Hr) as Hs. destruct x as [s|s| |s m e]; [by left | | done | by left].
  destruct Hs as (Hg & Hp & _). rewrite F_unfold in Hg. unfold EMIN in Hg.
  assert (K <> 0%Z) by (apply (rounding_nonzero v _ K D Hr); unfold EMIN; lia).
  destruct (r_sign _ _ _ _ Hr) as [Hpos _]. right. rewrite Hp; [done |]. specialize (Hpos Hv). lia.
Qed.

(** The values the program rounds are below 2^53 + 1. *)
Lemma rounded_finite_53 v x :
  rounded v x -> - (pow2 53 + 1) < v < pow2 53 + 1 -> finite x = true.
Proof.
  intros Hr Hv. apply (rounded_finite v x Hr). pose proof (pow2_lt 54 1023 eq_refl).
  pose proof (pow2_double 53) as H54. change (53 + 1)%Z with 54%Z in H54.
  pose proof (pow2_le 0 53 ltac:(done)) as H1. change (pow2 0) with 1 in H1. lra.
Qed.

(** ** Integer thresholds *)

(** On a grid of integers or finer, rounding does not cross an integer. *)
Lemma rounding_le_fine v x K D P :
  rounding v x K D -> (F D <= 0)%Z -> v <= inject_Z P ->
  inject_Z K * pow2 (F D) <= inject_Z P.
Proof.
  intros Hr Hg Hv. destruct (r_near _ _ _ _ Hr) as [H1 _].
  assert (inject_Z P == inject_Z (P * 2 ^ (- F D)) * pow2 (F D)) as HP.
  { rewrite scale_Z by lia. replace (- F D + F D)%Z with 0%Z by lia.
    change (pow2 0) with 1. ring. }
  rewrite HP in Hv |- *. apply scaled_le. revert Hv. generalize (P * 2 ^ (- F D))%Z.
  intros J Hv.
  assert (inject_Z (2 * K) * pow2 (F D) <= inject_Z (2 * J + 1) * pow2 (F D))
    as Hle%scaled_le; [| lia].
  rewrite inject_Z_plus, !inject_Z_mult. change (inject_Z 2) with 2. change (inject_Z 1) with 1.
  revert H1 Hv. generalize (inject_Z K), (inject_Z J), (pow2 (F D)). intros; lra.
Qed.

(** On a coarser grid the value is beyond every integer of 53 bits. *)
Lemma rounding_le_coarse v x K D P :
  rounding v x K D -> (0 < F D)%Z -> (- 2 ^ 53 <= P < 2 ^ 53)%Z -> v <= inject_Z P ->
  inject_Z K * pow2 (F D) <= inject_Z P.
Proof.
  intros Hr Hg HP Hv. rewrite F_unfold in Hg. unfold EMIN in Hg.
  assert (- pow2 53 <= inject_Z P < pow2 53) as [HP1 HP2].
  { rewrite (pow2_Z 53), <- inject_Z_opp by lia. rewrite <- Zle_Qle, <- Zlt_Qlt. lia. }
  assert (pow2 53 <= pow2 (D - 1)) as H53 by (apply pow2_le; lia).
  assert (K <> 0%Z) as HK by (apply (rounding_nonzero v x K D Hr); unfold EMIN; lia).
  destruct (r_mag _ _ _ _ Hr) as [[Hlo _] | [Hlo _]]; [lra |].
  destruct (r_sign _ _ _ _ Hr) as [_ Hneg]. pose proof (pow2_pos 53).
  destruct (r_range _ _ _ _ Hr HK) as [Hr1 _].
  rewrite Z.abs_neq, inject_Z_opp in Hr1 by (apply Hneg; lra).
  lra.
Qed.

Lemma rounding_le v x K D P :
  rounding v x K D -> (- 2 ^ 53 <= P < 2 ^ 53)%Z -> v <= inject_Z P ->
  inject_Z K * pow2 (F D) <= inject_Z P.
Proof.
  intros. destruct (Z_le_gt_dec (F D) 0);
    [by apply (rounding_le_fine v x) | apply (rounding_le_coarse v x); (done || lia)].
Qed.

(** ** The opposite *)

Lemma Qval_SFopp x : Qval (SFopp x) == - Qval x.
Proof.
  destruct x as [s|s| |s m e]; cbn [SFopp Qval]; try ring.
  destruct s; cbn [negb cond_Zopp]; rewrite ?inject_Z_opp; ring.
Qed.

Lemma finite_SFopp x : finite (SFopp x) = finite x.
Proof. by destruct x. Qed.

Lemma stands_SFopp x K g : stands x K g -> stands (SFopp x) (- K) g.
Proof.
  destruct x as [s|s| |s m e]; cbn; try done; [lia | |].
  - intros (? & Hp & Hn).
    split_and!; [done | |]; intros ?; [rewrite Hn | rewrite Hp]; (done || lia).
  - intros (? & <- & ?). split_and!; try done. destruct s; cbn; lia.
Qed.

Lemma rounding_opp v x K D : rounding v x K D -> rounding (- v) (SFopp x) (- K) D.
Proof.
  intros [H1 H2 H3 H4 H5 H6]. split.
  - by apply stands_SFopp.
  - apply near_opp in H2. rewrite inject_Z_opp.
    by setoid_replace (- inject_Z K * pow2 (F D)) with (- (inject_Z K * pow2 (F D)))
      using relation Qeq by ring.
  - intros j Hj. rewrite (H3 (- j)%Z); [lia |]. rewrite inject_Z_opp.
    revert Hj. generalize (inject_Z j), (pow2 (F D)). intros; nra.
  - rewrite Qopp_opp. tauto.
  - rewrite Z.abs_opp. intros ?. apply H5. lia.
  - destruct H6 as [Hp Hn]. split; intros ?; [assert (K <= 0)%Z by (apply Hn; lra)
                                               | assert (0 <= K)%Z by (apply Hp; lra)]; lia.
Qed.

Lemma rounded_opp v x : rounded v x -> rounded (- v) (SFopp x).
Proof.
  intros [s H0 -> | K D H0 Hr].
  - apply (rounded_zero _ _ (negb s)); [lra | done].
  - apply (rounded_value _ _ (- K)%Z D); [lra | by apply rounding_opp].
Qed.

(** ** Rounding against an integer of 53 bits *)

Lemma rounded_le v x P :
  rounded v x -> finite x = true -> (- 2 ^ 53 <= P < 2 ^ 53)%Z ->
  v <= inject_Z P -> Qval x <= inject_Z P.
Proof.
  intros [s H0 -> | K D H0 Hr] Hx HP Hv; [cbn [Qval]; lra |].
  rewrite (stands_value x K (F D)) by (done || apply Hr). by apply (rounding_le v x).
Qed.

Lemma rounded_ge v x P :
  rounded v x -> finite x = true -> (- 2 ^ 53 < P <= 2 ^ 53)%Z ->
  inject_Z P <= v -> inject_Z P <= Qval x.
Proof.
  intros Hr Hx HP Hv. apply rounded_opp in Hr.
  pose proof (rounded_le (- v) (SFopp x) (- P)%Z Hr) as H.
  rewrite finite_SFopp, Qval_SFopp, inject_Z_opp in H.
  assert (- Qval x <= - inject_Z P); [apply H; (done || lia || lra) | lra].
Qed.

(** What the tests of the code tell of the exact value. *)
Lemma rounded_gt_inv v x P :
  rounded v x -> finite x = true -> (- 2 ^ 53 <= P < 2 ^ 53)%Z ->
  inject_Z P < Qval x -> inject_Z P < v.
Proof.
  intros Hr Hx HP Hlt. destruct (Qlt_le_dec (inject_Z P) v) as [|Hle]; [done |].
  pose proof (rounded_le v x P Hr Hx HP Hle). lra.
Qed.

Lemma rounded_lt_inv v x P :
  rounded v x -> finite x = true -> (- 2 ^ 53 < P <= 2 ^ 53)%Z ->
  Qval x < inject_Z P -> v < inject_Z P.
Proof.
  intros Hr Hx HP Hlt. destruct (Qlt_le_dec v (inject_Z P)) as [|Hle]; [done |].
  pose proof (rounded_ge v x P Hr Hx HP Hle). lra.
Qed.

(** ** Integers are exact *)

Lemma inject_Z_53 P : (- 2 ^ 53 <= P <= 2 ^ 53)%Z -> - pow2 53 <= inject_Z P <= pow2 53.
Proof. intros. rewrite (pow2_Z 53), <- inject_Z_opp, <- !Zle_Qle by lia. lia. Qed.

(** A rounding of an integer of 53 bits is that integer. *)
Lemma rounded_Z v x P :
  rounded v x -> (- 2 ^ 53 < P < 2 ^ 53)%Z -> v == inject_Z P -> denotes x (inject_Z P).
Proof.
  intros Hr HP Hv. pose proof (inject_Z_53 P ltac:(lia)). pose proof (pow2_lt 53 1023 eq_refl).
  assert (finite x = true) as Hx by (apply (rounded_finite v); [done | lra]).
  split_and!; [done | by apply (rounded_valid v) |].
  apply Qle_antisym; [apply (rounded_le v) | apply (rounded_ge v)]; (done || lia || lra).
Qed.

Lemma of_Z_denotes z : (- 2 ^ 53 < z < 2 ^ 53)%Z -> denotes (of_Z z) (inject_Z z).
Proof.
  intros. apply (rounded_Z (inject_Z z)); [| done | done].
  apply normalize_sum_rounded. change (pow2 0) with 1. ring.
Qed.

Lemma add_denotes x y q r : denotes x q -> denotes y r -> rounded (q + r) (add x y).
Proof.
  intros (? & ? & Hq) (? & ? & Hr). apply (rounded_proper (Qval x + Qval y)); [by rewrite Hq, Hr |].
  by apply add_rounded.
Qed.

Lemma sub_denotes x y q r : denotes x q -> denotes y r -> rounded (q - r) (sub x y).
Proof.
  intros (? & ? & Hq) (? & ? & Hr). apply (rounded_proper (Qval x - Qval y)); [by rewrite Hq, Hr |].
  by apply sub_rounded.
Qed.

(** Sums and differences of integers, while they have 53 bits. *)
Lemma add_Z x y a b :
  denotes x (inject_Z a) -> denotes y (inject_Z b) -> (- 2 ^ 53 < a + b < 2 ^ 53)%Z ->
  denotes (add x y) (inject_Z (a + b)).
Proof.
  intros Hx Hy Hab. apply (rounded_Z (inject_Z a + inject_Z b)); [| done |].
  - by apply add_denotes.
  - by rewrite inject_Z_plus.
Qed.

Lemma sub_Z x y a b :
  denotes x (inject_Z a) -> denotes y (inject_Z b) -> (- 2 ^ 53 < a - b < 2 ^ 53)%Z ->
  denotes (sub x y) (inject_Z (a - b)).
Proof.
  intros Hx Hy Hab. apply (rounded_Z (inject_Z a - inject_Z b)); [| done |].
  - by apply sub_denotes.
  - by rewrite inject_Z_minus.
Qed.

(** A multiple of a power of two by an integer of 53 bits is a number:
    rounding leaves it as it is. *)
Lemma dyadic_bounds P n :
  (- 2 ^ 53 < P < 2 ^ 53)%Z -> - pow2 (53 + n) < inject_Z P * pow2 n < pow2 (53 + n).
Proof.
  intros HP. assert (pow2 (53 + n) == inject_Z (2 ^ 53) * pow2 n) as ->
    by (rewrite <- (Z.mul_1_l (2 ^ 53)), scale_Z by done; change (inject_Z 1) with 1; ring).
  setoid_replace (- (inject_Z (2 ^ 53) * pow2 n)) with (inject_Z (- 2 ^ 53) * pow2 n)
    using relation Qeq by (rewrite inject_Z_opp; ring).
  rewrite !scaled_lt. lia.
Qed.

Lemma rounded_dyadic v x P n :
  rounded v x -> v == inject_Z P * pow2 n -> (- 2 ^ 53 < P < 2 ^ 53)%Z ->
  (EMIN <= n <= 970)%Z -> denotes x v.
Proof.
  intros Hr Hv HP Hn. pose proof (dyadic_bounds P n HP) as Hb. rewrite <- Hv in Hb.
  pose proof (pow2_le (53 + n) 1023 ltac:(lia)).
  assert (finite x = true) as Hx by (apply (rounded_finite v); [done | lra]).
  split_and!; [done | by apply (rounded_valid v) |].
  destruct Hr as [s H0 -> | K D H0 Hr]; [by rewrite H0 |].
  rewrite (stands_value x K (F D)) by (done || apply Hr).
  pose proof (rounding_digits v x K D (53 + n) Hr Hb) as HD%F_mono.
  assert (F D <= n)%Z as Hg by (rewrite !F_unfold in *; lia).
  assert (v == inject_Z (P * 2 ^ (n - F D)) * pow2 (F D)) as Hgrid
    by (rewrite scale_Z by lia; by replace (n - F D + F D)%Z with n by lia).
  by rewrite (r_exact _ _ _ _ Hr _ Hgrid).
Qed.

(** ** A rational is denoted by one number at most *)

Lemma magnitude_unique m1 e1 m2 e2 :
  bounded prec emax m1 e1 = true -> bounded prec emax m2 e2 = true ->
  inject_Z (Zpos m1) * pow2 e1 == inject_Z (Zpos m2) * pow2 e2 -> m1 = m2 /\ e1 = e2.
Proof.
  intros H1 H2 Hv. destruct (Z.lt_total e1 e2) as [Hl | [-> | Hl]].
  - pose proof (canonical_lt _ _ _ _ H1 H2 Hl) as Hlt. rewrite Hv in Hlt.
    by apply Qlt_irrefl in Hlt.
  - apply scaled_eq in Hv. by injection Hv as ->.
  - pose proof (canonical_lt _ _ _ _ H2 H1 Hl) as Hlt. rewrite Hv in Hlt.
    by apply Qlt_irrefl in Hlt.
Qed.

Lemma denotes_unique x y q : denotes x q -> denotes y q -> ~ q == 0 -> x = y.
Proof.
  intros (Fx & Vx & Hx) (Fy & Vy & Hy) Hq.
  destruct x as [s1|s1| |s1 m1 e1]; [by destruct Hq | done | done |].
  destruct y as [s2|s2| |s2 m2 e2]; [by destruct Hq | done | done |].
  pose proof (Qval_pos m1 e1) as P1. pose proof (Qval_pos m2 e2) as P2.
  assert (s1 = s2) as ->.
  { destruct s1, s2; try rewrite Qval_opp in Hx; try rewrite Qval_opp in Hy; try done;
      exfalso; revert P1 P2 Hx Hy;
      generalize (Qval (S754_finite false m1 e1)), (Qval (S754_finite false m2 e2));
      intros; lra. }
  destruct (magnitude_unique m1 e1 m2 e2 Vx Vy) as [-> ->]; [| done].
  destruct s2; try rewrite Qval_opp in Hx; try rewrite Qval_opp in Hy; revert Hx Hy;
    cbn [Qval cond_Zopp];
    generalize (inject_Z (Zpos m1) * pow2 e1), (inject_Z (Zpos m2) * pow2 e2); intros; lra.
Qed.

(** A number of magnitude 1 or more is normal: its mantissa has 53 bits. *)
Lemma normal_digits s m e :
  valid (S754_finite s m e) -> 1 <= inject_Z (Zpos m) * pow2 e ->
  Zpos (digits2_pos m) = 53%Z /\ (-52 <= e)%Z.
Proof.
  intros [Hc _]%bounded_canonical Hv. pose proof (mantissa_mag m e) as [_ Hhi].
  assert (pow2 0 < pow2 (Zpos (digits2_pos m) + e)) as H0%pow2_lt_inv
    by (change (pow2 0) with 1; lra).
  rewrite F_unfold in Hc. unfold EMIN in Hc. lia.
Qed.

(** ** Comparisons of what numbers denote *)

Lemma lt_denotes x y q r : denotes x q -> denotes y r -> lt x y = true <-> q < r.
Proof. intros (? & ? & Hq) (? & ? & Hr). rewrite lt_Qval by done. by rewrite Hq, Hr. Qed.

Lemma gt_denotes x y q r : denotes x q -> denotes y r -> gt x y = true <-> r < q.
Proof. intros. by apply lt_denotes. Qed.

Lemma le_denotes x y q r : denotes x q -> denotes y r -> le x y = true <-> q <= r.
Proof. intros (? & ? & Hq) (? & ? & Hr). rewrite le_Qval by done. by rewrite Hq, Hr. Qed.

Lemma denotes_Qval x : finite x = true -> valid x -> denotes x (Qval x).
Proof. by intros. Qed.

Lemma to_Q_Qval x : finite x = true -> to_Q x = Some (Qval x).
Proof. by destruct x. Qed.

(** ** Results are canonical *)

Lemma add_valid x y : valid x -> valid y -> valid (add x y).
Proof.
  intros Hx Hy. destruct (finite x) eqn:Fx, (finite y) eqn:Fy;
    [by apply (rounded_valid _ _ (add_rounded x y Hx Hy Fx Fy)) | ..];
    by destruct x as [|[]| |], y as [|[]| |].
Qed.

Lemma sub_valid x y : valid x -> valid y -> valid (sub x y).
Proof.
  intros Hx Hy. destruct (finite x) eqn:Fx, (finite y) eqn:Fy;
    [by apply (rounded_valid _ _ (sub_rounded x y Hx Hy Fx Fy)) | ..];
    by destruct x as [|[]| |], y as [|[]| |].
Qed.

Lemma of_Z_valid z : valid (of_Z z).
Proof.
  apply (rounded_valid (inject_Z z)), normalize_sum_rounded. change (pow2 0) with 1. ring.
Qed.

(** ** Half a step *)

Lemma near_weaken v r step step' : near v r step -> step <= step' -> near v r step'.
Proof. unfold near. intros [? ?] ?. split; lra. Qed.

(** A value below [2 ^ h] in absolute value rounds to a number at most
    half a step of the grid of [h] away. *)
Lemma rounded_near v x h :
  rounded v x -> finite x = true -> - pow2 h < v < pow2 h -> near v (Qval x) (pow2 (F h)).
Proof.
  intros [s H0 -> | K D H0 Hr] Hx Hv; pose proof (pow2_pos (F h)).
  - cbn [Qval]. unfold near. lra.
  - rewrite (stands_value x K (F D)) by (done || apply Hr).
    apply (near_weaken _ _ (pow2 (F D))); [apply Hr |].
    by apply pow2_le, F_mono, (rounding_digits v x K).
Qed.

(** Rounding does not cross a power of two of the normal range. *)
Lemma rounded_pow2 v x h :
  rounded v x -> finite x = true -> (EMIN <= h)%Z -> pow2 h <= v -> pow2 h <= Qval x.
Proof.
  intros [s H0 -> | K D H0 Hr] Hx Hh Hv; pose proof (pow2_pos h); [lra |].
  rewrite (stands_value x K (F D)) by (done || apply Hr).
  destruct (r_mag _ _ _ _ Hr) as [[_ Hhi] | [Hlo _]]; [| pose proof (pow2_pos (D - 1)); lra].
  assert (h < D)%Z by (apply pow2_lt_inv; lra).
  assert (K <> 0%Z) as HK by (apply (rounding_nonzero v x K D Hr); lia).
  destruct (r_range _ _ _ _ Hr HK) as [Hr1 _]. destruct (r_sign _ _ _ _ Hr) as [Hpos _].
  rewrite Z.abs_eq in Hr1 by (apply Hpos; lra). pose proof (pow2_le h (D - 1) ltac:(lia)). lra.
Qed.

(** The value a rounding stands for, against the magnitude and the sign of
    what was rounded. *)
Lemma rounding_abs v x K D : rounding v x K D -> inject_Z K * pow2 (F D) <= pow2 D.
Proof.
  intros Hr. destruct (Z.eq_dec K 0%Z) as [-> | HK].
  - pose proof (pow2_pos D). change (inject_Z 0) with 0. lra.
  - destruct (r_range _ _ _ _ Hr HK) as [_ Hhi]. eapply Qle_trans; [| exact Hhi].
    apply scaled_le. lia.
Qed.

Lemma rounding_nonpos v x K D : rounding v x K D -> v < 0 -> inject_Z K * pow2 (F D) <= 0.
Proof.
  intros Hr Hv. destruct (r_sign _ _ _ _ Hr) as [_ Hneg].
  setoid_replace 0 with (inject_Z 0 * pow2 (F D)) using relation Qeq
    by (change (inject_Z 0) with 0; ring).
  apply scaled_le. by apply Hneg.
Qed.

(** Adding less than 1 to a number of at most 2^53 gives at most 2^53:
    from there on the numbers are the even integers. *)
Lemma rounded_cap v x : rounded v x -> finite x = true -> v < pow2 53 + 1 -> Qval x <= pow2 53.
Proof.
  intros [s H0 -> | K D H0 Hr] Hx Hv; pose proof (pow2_pos 53); [cbn [Qval]; lra |].
  rewrite (stands_value x K (F D)) by (done || apply Hr).
  destruct (Z_le_gt_dec D 53) as [HD | HD].
  { eapply Qle_trans; [apply (rounding_abs v x K D Hr) | by apply pow2_le]. }
  destruct (r_mag _ _ _ _ Hr) as [[Hlo _] | [Hlo _]];
    [| pose proof (pow2_pos (D - 1)); assert (v < 0) as Hneg by lra;
       pose proof (rounding_nonpos v x K D Hr Hneg); lra].
  assert (pow2 53 == 9007199254740992 /\ pow2 54 == 18014398509481984) as [H53 H54]
    by (by vm_compute).
  assert (D = 54)%Z as -> by (assert (pow2 (D - 1) < pow2 54) as ?%pow2_lt_inv; [lra | lia]).
  destruct (r_near _ _ _ _ Hr) as [H1 _]. change (F 54) with 1%Z in *.
  change (pow2 53) with (inject_Z (2 ^ 52) * pow2 1). apply scaled_le.
  assert (inject_Z K * pow2 1 < inject_Z (2 ^ 52 + 1) * pow2 1) as HK%scaled_lt; [| lia].
  change (inject_Z (2 ^ 52 + 1)) with 4503599627370497. change (pow2 1) with 2 in *. lra.
Qed.

(** What [x <= q] tells of the value [v] that [x] is the rounding of:
    [v] is above [q] by at most half a step of the grid of [q]. *)
Lemma rounded_below v x q h :
  rounded v x -> finite x = true -> (EMIN <= h)%Z -> 0 <= v ->
  Qval x <= q -> q < pow2 h -> 2 * (v - q) <= pow2 (F h).
Proof.
  intros Hr Hx Hh H0 Hq Hqh. destruct (Qlt_le_dec v (pow2 h)) as [Hv | Hv].
  - pose proof (pow2_pos h). destruct (rounded_near v x h Hr Hx) as [_ H2]; lra.
  - pose proof (rounded_pow2 v x h Hr Hx Hh Hv). lra.
Qed.

End Thresholds.

(** ** Numbers are discrete *)

(** Below a number [m * 2 ^ e] whose mantissa has a predecessor on the
    same grid, the next number is [(m - 1) * 2 ^ e]. *)
Lemma no_number_between m e x :
  bounded prec emax m e = true -> bounded prec emax (Pos.pred m) e = true -> (1 < m)%positive ->
  valid x -> Qval x < inject_Z (Zpos m) * pow2 e ->
  Qval x <= inject_Z (Zpos (Pos.pred m)) * pow2 e.
Proof.
  intros Hm Hp H1 Hx Hlt. pose proof (pow2_pos e) as He.
  pose proof (Qval_pos (Pos.pred m) e) as Hpos. cbn [Qval cond_Zopp] in Hpos.
  destruct x as [s|s| |[] mx ex]; try (cbn [Qval]; lra).
  { pose proof (Qval_neg mx ex). lra. }
  change (bounded prec emax mx ex = true) in Hx. cbn [Qval cond_Zopp] in *.
  destruct (Z.compare_spec ex e) as [-> | Hex | Hex].
  - rewrite Qlt_alt, Qcompare_scaled, Z.compare_lt_iff in Hlt.
    rewrite Qle_alt, Qcompare_scaled, Z.compare_gt_iff. lia.
  - apply Qlt_le_weak. by apply canonical_lt.
  - pose proof (canonical_lt m e mx ex Hm Hx Hex). lra.
Qed.
