(* ===== verification/Scale64.v ===== *)
(** * Scale64: products and halves of binary64 numbers

    The product of line 50 ([Math.random() * (canvas.height - PIPE_GAP)])
    and the quotient of lines 15 and 122 ([canvas.height / 2]).  A product
    of finite canonical numbers is the exact product [rounded].  Halving a
    normal number is exact before it is rounded, so half of an integer of
    53 bits is a number. *)

From Stdlib Require Import SpecFloat Qpower Qfield.
From S2P Require Import Prelude Binary64 Rounding Arith64 Exact64.

Local Open Scope Q_scope.

(** [x * y]. *)
Definition mul : number -> number -> number := SFmul prec emax.

Section Products.
Implicit Types (x y : number) (v r q : Q) (K P J j h D g e : Z) (m p : positive) (s : bool).

Lemma binary_round_no_shift s p e :
  (e <= F (Zpos (digits2_pos p) + e))%Z ->
  binary_round prec emax s p e = binary_round_aux prec emax s (Zpos p) e loc_Exact.
Proof.
  intros He. unfold binary_round, shl_align. fold (F (Zpos (digits2_pos p) + e)).
  destruct (F _ - e)%Z eqn:E; try done. lia.
Qed.

Lemma digits2_pos_mul p m :
  (Zpos (digits2_pos p) + Zpos (digits2_pos m) - 1 <= Zpos (digits2_pos (p * m)))%Z.
Proof.
  pose proof (Zdigits2_log2 (Zpos p) eq_refl) as Hp.
  pose proof (Zdigits2_log2 (Zpos m) eq_refl) as Hm.
  pose proof (Zdigits2_log2 (Zpos (p * m)) eq_refl) as Hpm. cbn [Zdigits2] in *.
  pose proof (Z.log2_mul_below (Zpos p) (Zpos m) eq_refl eq_refl).
  rewrite Pos2Z.inj_mul in Hpm. lia.
Qed.

Lemma mul_rounded x y :
  valid x -> valid y -> finite x = true -> finite y = true ->
  rounded (Qval x * Qval y) (mul x y).
Proof.
  destruct x as [sx|sx| |sx mx ex], y as [sy|sy| |sy my ey]; try done; intros Hx Hy _ _;
    try (apply (rounded_zero _ _ (xorb sx sy)); [cbn [Qval]; ring | done]).
  pose proof (bounded_canonical _ _ Hx) as [Hcx _].
  pose proof (bounded_canonical _ _ Hy) as [Hcy _].
  pose proof (digits2_pos_mul mx my) as Hd. unfold mul, SFmul.
  rewrite <- binary_round_no_shift by (rewrite F_unfold in *; unfold EMIN in *; lia).
  destruct (binary_round_rounding (xorb sx sy) (mx * my) (ex + ey)) as [K HK].
  assert (inject_Z (cond_Zopp (xorb sx sy) (Zpos (mx * my))) * pow2 (ex + ey)
          == Qval (S754_finite sx mx ex) * Qval (S754_finite sy my ey)) as Hv.
  { cbn [Qval]. rewrite pow2_add, Pos2Z.inj_mul.
    destruct sx, sy; cbn [xorb cond_Zopp]; rewrite ?inject_Z_opp, inject_Z_mult; ring. }
  apply (rounded_value _ _ K (Zpos (digits2_pos (mx * my)) + (ex + ey))).
  - intros H0. pose proof (Qval_nonzero sx mx ex). pose proof (Qval_nonzero sy my ey).
    apply Qmult_integral in H0. tauto.
  - by apply (rounding_proper _ _ _ _ _ Hv).
Qed.

Lemma div_eucl_mul a b : (b <> 0)%Z -> Z.div_eucl (a * b) b = (a, 0%Z).
Proof.
  intros Hb. pose proof (Z.div_mul a b Hb) as Hq. pose proof (Z.mod_mul a b Hb) as Hr.
  unfold Z.div, Z.modulo in *. destruct (Z.div_eucl (a * b) b). cbn in *. by subst.
Qed.

(** Halving a normal number: the quotient is exact before it is rounded. *)
Lemma SFdiv_core_two m e :
  Zpos (digits2_pos m) = 53%Z -> (EMIN + 2 <= e)%Z ->
  SFdiv_core_binary prec emax (Zpos m) e 4503599627370496 (-51) = (Zpos m~0, (e - 2)%Z, loc_Exact).
Proof.
  intros Hd He. unfold SFdiv_core_binary. cbn [Zdigits2]. rewrite Hd.
  change (Zpos (digits2_pos 4503599627370496)) with 53%Z. cbv zeta.
  assert (fexp prec emax (53 + e - (53 + -51)) `min` (e - -51) = e - 2)%Z as ->
    by (unfold fexp, emin, prec, emax, EMIN in *; lia).
  replace (e - -51 - (e - 2))%Z with 53%Z by lia. rewrite Z.shiftl_mul_pow2 by done.
  replace (Zpos m * 2 ^ 53)%Z with (Zpos m~0 * 4503599627370496)%Z by lia.
  change IntDef.Z.div_eucl with Z.div_eucl. by rewrite div_eucl_mul.
Qed.

Lemma div_two_rounded s m e :
  valid (S754_finite s m e) -> Zpos (digits2_pos m) = 53%Z -> (EMIN + 2 <= e)%Z ->
  rounded (Qval (S754_finite s m e) / 2) (div (S754_finite s m e) (of_Z 2)).
Proof.
  intros Hx Hd He. change (of_Z 2) with (S754_finite false 4503599627370496 (-51)).
  unfold div, SFdiv. rewrite (SFdiv_core_two m e Hd He). rewrite xorb_false_r.
  rewrite <- binary_round_no_shift
    by (cbn [digits2_pos]; rewrite F_unfold, Pos2Z.inj_succ, Hd; unfold EMIN in *; lia).
  destruct (binary_round_rounding s m~0 (e - 2)) as [K HK].
  assert (inject_Z (cond_Zopp s (Zpos m~0)) * pow2 (e - 2) == Qval (S754_finite s m e) / 2) as Hv.
  { cbn [Qval]. replace (cond_Zopp s (Zpos m~0)) with (cond_Zopp s (Zpos m) * 2 ^ 1)%Z
      by (destruct s; cbn; lia).
    rewrite scale_Z by done. replace e with (1 + (e - 2) + 1)%Z at 2 by lia.
    rewrite (pow2_add _ 1). change (pow2 1) with 2. field. }
  apply (rounded_value _ _ K (Zpos (digits2_pos m~0) + (e - 2))).
  - pose proof (Qval_nonzero s m e) as Hn. revert Hn.
    generalize (Qval (S754_finite s m e)). intros q Hn H0. apply Hn.
    unfold Qdiv in H0. change (/ 2) with (1 # 2) in H0. lra.
  - by apply (rounding_proper _ _ _ _ _ Hv).
Qed.

(** Half of an integer of 53 bits, as [canvas.height / 2] computes it. *)
Lemma half_Z z : (1 <= z < 2 ^ 53)%Z -> denotes (div (of_Z z) (of_Z 2)) (inject_Z z / 2).
Proof.
  intros Hz. destruct (of_Z_denotes z ltac:(lia)) as (Hf & Hv & Hq).
  assert (1 <= inject_Z z) as H1 by (change 1 with (inject_Z 1); rewrite <- Zle_Qle; lia).
  destruct (of_Z z) as [|s| |s m e] eqn:E; [cbn [Qval] in Hq; lra | done | done |].
  assert (s = false) as ->.
  { destruct s; [| done]. pose proof (Qval_neg m e) as Hn. rewrite Hq in Hn. lra. }
  destruct (normal_digits false m e Hv) as [Hd He]; [cbn [Qval cond_Zopp] in Hq; by rewrite Hq |].
  pose proof (div_two_rounded false m e Hv Hd ltac:(unfold EMIN; lia)) as Hr.
  apply (rounded_proper _ (inject_Z z / 2)) in Hr; [| by rewrite Hq].
  apply (rounded_dyadic _ _ z (-1)); [done | | lia | unfold EMIN; lia].
  unfold Qdiv. change (/ 2) with (pow2 (-1)). done.
Qed.

End Products.
