(* ===== verification/Floor64.v ===== *)
(** * Floor64: the binary64 bird on every canvas

    [Binary64] proves its theorems of canvases that satisfy [Canvas64] and
    checks the class on two canvases by evaluation.  Here the class is
    proved of every canvas at least as high as the bird whose height has
    53 bits ([Tall]), and the clamp of lines 39-40 is given the form it
    has in binary64: the position after [update] is at most half a step
    of the numbers next to the canvas height above the floor line, and
    [Binary64.update64_above_floor] shows a bird that rests exactly
    there.  The velocity stays between -12 and 2^53, where adding 0.6
    changes nothing any more. *)

From Stdlib Require Import SpecFloat Qpower Qfield.
From S2P Require Import Prelude Globals Bird Binary64 Rounding Arith64 Exact64 Scale64.

Local Open Scope Q_scope.

(** A canvas at least as high as the bird, whose height has 53 bits. *)
Class Tall (cv : Canvas) : Prop := {
  canvas_tall : (bird_height <= canvas_height)%Z;
  canvas_53 : (canvas_height < 2 ^ 53)%Z;
}.

(** The position and the velocity are canonical numbers. *)
Definition canonical64 (b : Bird64) : Prop :=
  wf64 b /\ valid (birdY64 b) /\ valid (birdVelocity64 b).

(** The velocity is a finite canonical number between -12 and 2^53. *)
Definition steady64 (b : Bird64) : Prop :=
  finite (birdVelocity64 b) = true /\ valid (birdVelocity64 b)
  /\ -12 <= Qval (birdVelocity64 b) <= pow2 53.

(** What holds of the bird between two frames: canonical numbers, the
    velocity in range, the position not above the canvas and below the
    floor line by at most a half. *)
Definition flying64 `{Canvas} (b : Bird64) : Prop :=
  canonical64 b /\ steady64 b
  /\ 0 <= Qval (birdY64 b) /\ 2 * (Qval (birdY64 b) + 20 - inject_Z canvas_height) <= 1.

#[export] Instance square_tall : Tall square_canvas.
Proof. by split. Qed.

#[export] Instance portrait_tall : Tall portrait_canvas.
Proof. by split. Qed.

Section Floor.
Context `{cv : Canvas} `{!Tall cv}.
Implicit Types (x y : number) (b : Bird64) (h : Z).

Lemma height64_denotes : denotes height64 (inject_Z canvas_height).
Proof.
  apply of_Z_denotes. pose proof canvas_tall. pose proof canvas_53. unfold bird_height in *. lia.
Qed.

Lemma floor64_denotes : denotes floor64 (inject_Z (canvas_height - bird_height)).
Proof.
  pose proof canvas_tall. pose proof canvas_53. unfold bird_height in *.
  apply sub_Z; [apply height64_denotes | by apply of_Z_denotes | lia].
Qed.

(** Every such canvas is one the binary64 bird can live on. *)
#[export] Instance tall_canvas64 : Canvas64.
Proof.
  pose proof height64_denotes as Hh. pose proof floor64_denotes as Hf.
  pose proof (of_Z_denotes 0 ltac:(done)) as H0.
  pose proof (of_Z_denotes bird_height ltac:(done)) as H20.
  pose proof canvas_tall. pose proof canvas_53. unfold bird_height in *. split.
  - apply Hh.
  - apply Hf.
  - apply (le_denotes _ _ _ _ H0 Hf). rewrite <- Zle_Qle. lia.
  - destruct (gt _ _) eqn:E; [| done].
    apply (gt_denotes _ _ _ _ (add_Z _ _ _ _ Hf H20 ltac:(lia)) Hh) in E.
    rewrite <- Zlt_Qlt in E. lia.
Qed.

(** ** The position stays canonical *)

Lemma GRAVITY64_denotes : denotes GRAVITY64 (Qval GRAVITY64) /\ 0 < Qval GRAVITY64 < 1.
Proof. by vm_compute. Qed.

Lemma velocity64_valid b : valid (birdVelocity64 b) -> valid (velocity64 b).
Proof.
  intros Hv. apply add_valid; [| apply GRAVITY64_denotes].
  destruct (birdFlap64 b); [apply of_Z_valid | done].
Qed.

Lemma clamp64_valid y : valid y -> valid (clamp64 y).
Proof.
  intros Hy. unfold clamp64. cbv zeta. destruct (gt _ _); [apply floor64_denotes |].
  destruct (lt _ _); [apply of_Z_valid | done].
Qed.

Lemma update64_canonical b : canonical64 b -> canonical64 (update64 b).
Proof.
  intros (Hwf & Hy & Hv). split_and!; [by apply update64_wf | |].
  - rewrite update64_unfold. apply clamp64_valid, add_valid; [done | by apply velocity64_valid].
  - by apply velocity64_valid.
Qed.

(** ** The floor, as near as the test of line 40 sees it *)

(** A position that passes the test of line 40 is above the floor line by
    at most half a step of the grid of the canvas height. *)
Lemma passes_floor y h :
  (canvas_height < 2 ^ h)%Z -> denotes y (Qval y) -> 0 <= Qval y ->
  gt (add y (of_Z bird_height)) height64 = false ->
  2 * (Qval y + 20 - inject_Z canvas_height) <= pow2 (h - 53).
Proof.
  intros Hh Hy H0 Htest. pose proof height64_denotes as HH.
  pose proof canvas_tall as Ht. unfold bird_height in Ht.
  assert (0 <= h)%Z as Hh0 by (destruct (Z_le_gt_dec 0 h); [done | rewrite Z.pow_neg_r in Hh; lia]).
  pose proof (add_denotes _ _ _ _ Hy (of_Z_denotes bird_height ltac:(done))) as Hr.
  change (inject_Z bird_height) with 20 in Hr.
  destruct (rounded_positive _ _ Hr ltac:(lra)) as [Hfin | Hinf].
  - assert (Qval (add y (of_Z bird_height)) <= inject_Z canvas_height) as Hle.
    { apply Qnot_lt_le. intros Hlt.
      apply (gt_denotes _ _ _ _ (denotes_Qval _ Hfin (rounded_valid _ _ Hr)) HH) in Hlt.
      by rewrite Htest in Hlt. }
    replace (h - 53)%Z with (F h) by (rewrite F_unfold; unfold EMIN; lia).
    apply (rounded_below _ _ _ h Hr Hfin); [unfold EMIN; lia | lra | done |].
    rewrite pow2_Z by done. by rewrite <- Zlt_Qlt.
  - rewrite Hinf in Htest. change (lt height64 (S754_infinity false) = false) in Htest.
    by rewrite (finite_lt_infinity height64 (proj1 HH)) in Htest.
Qed.

Lemma clamp64_denotes y : is_nan y = false -> valid y -> denotes (clamp64 y) (Qval (clamp64 y)).
Proof. intros Hn Hy. split_and!; [by apply clamp64_finite | by apply clamp64_valid | done]. Qed.

Lemma clamp64_nonneg y : is_nan y = false -> valid y -> 0 <= Qval (clamp64 y).
Proof.
  intros Hn Hy. destruct (clamp64_tests y Hn) as [H0 _].
  by apply (le_denotes _ _ _ _ (of_Z_denotes 0 ltac:(done)) (clamp64_denotes y Hn Hy)) in H0.
Qed.

(** ** The velocity stays in range *)

Lemma FLAP_STRENGTH64_denotes : denotes FLAP_STRENGTH64 (-12).
Proof. by vm_compute. Qed.

(** The velocity gravity is added to: the launch velocity of a flap, or
    the velocity of the frame before. *)
Lemma launch64_steady b :
  steady64 b ->
  let v0 := if birdFlap64 b then FLAP_STRENGTH64 else birdVelocity64 b in
  denotes v0 (Qval v0) /\ -12 <= Qval v0 <= pow2 53.
Proof.
  intros (Hf & Hv & Hr). cbv zeta.
  destruct (birdFlap64 b); [| exact (conj (conj Hf (conj Hv (Qeq_refl _))) Hr)].
  destruct FLAP_STRENGTH64_denotes as (Hf' & Hv' & Hq).
  split; [exact (conj Hf' (conj Hv' (Qeq_refl _))) |]. rewrite Hq.
  assert (12 < pow2 53) by (by vm_compute). lra.
Qed.

Lemma velocity64_steady b : steady64 b -> steady64 (update64 b).
Proof.
  intros [Hv0 Hr0]%launch64_steady. destruct GRAVITY64_denotes as [HG [HG0 HG1]].
  pose proof (add_denotes _ _ _ _ Hv0 HG) as Hr. fold (velocity64 b) in Hr.
  unfold steady64. change (birdVelocity64 (update64 b)) with (velocity64 b).
  revert Hr Hr0 HG0 HG1. clear.
  generalize (Qval (if birdFlap64 b then FLAP_STRENGTH64 else birdVelocity64 b)),
    (Qval GRAVITY64), (velocity64 b).
  intros q g x Hr Hq Hg0 Hg1. assert (12 < pow2 53) as H12 by (by vm_compute).
  assert (finite x = true) as Hx by (apply (rounded_finite_53 _ _ Hr); lra).
  split; [done |]. split; [by apply (rounded_valid _ _ Hr) |].
  split; [| by apply (rounded_cap _ _ Hr Hx); lra].
  change (-12) with (inject_Z (-12)). apply (rounded_ge _ _ _ Hr Hx); [lia |].
  change (inject_Z (-12)) with (-12). lra.
Qed.

(** ** The bird between two frames *)

Lemma update64_position b h :
  (canvas_height < 2 ^ h)%Z -> canonical64 b ->
  denotes (birdY64 (update64 b)) (Qval (birdY64 (update64 b)))
  /\ 0 <= Qval (birdY64 (update64 b))
  /\ 2 * (Qval (birdY64 (update64 b)) + 20 - inject_Z canvas_height) <= pow2 (h - 53).
Proof.
  intros Hh (Hwf & Hy & Hv). rewrite update64_unfold. cbn [birdY64].
  pose proof (unclamped64_number b Hwf) as Hn.
  assert (valid (unclamped64 b)) as Hu by (apply add_valid; [done | by apply velocity64_valid]).
  pose proof (clamp64_denotes _ Hn Hu) as Hd. pose proof (clamp64_nonneg _ Hn Hu) as H0.
  destruct (clamp64_tests _ Hn) as [_ Ht]. split_and!; [done | done |].
  by apply passes_floor.
Qed.

(** The bird starts in the middle of the canvas, which is above the floor
    line when the canvas is twice as high as the bird. *)
Lemma initial64_flying : (2 * bird_height <= canvas_height)%Z -> flying64 initial64.
Proof.
  intros Ht. pose proof canvas_53 as H53. unfold bird_height in Ht.
  assert (1 <= canvas_height < 2 ^ 53)%Z as Hz by lia.
  destruct (half_Z canvas_height Hz) as (Hf & Hv & Hq).
  pose proof (of_Z_denotes 0 ltac:(done)) as (Hf0 & Hv0 & Hq0).
  assert (12 < pow2 53) as H12 by (by vm_compute).
  assert (40 <= inject_Z canvas_height) as HH
    by (change 40 with (inject_Z 40); rewrite <- Zle_Qle; lia).
  unfold flying64, canonical64, steady64, wf64, initial64. cbn [birdY64 birdVelocity64].
  fold height64 in Hf, Hv, Hq. rewrite Hq, Hq0. change (inject_Z 0) with 0.
  unfold Qdiv. change (/ 2) with (1 # 2).
  split_and!; try done; lra.
Qed.

Lemma update64_flying b : flying64 b -> flying64 (update64 b).
Proof.
  intros (Hc & Hs & _ & _).
  destruct (update64_position b 53 canvas_53 Hc) as (_ & H0 & Hb).
  split_and!; [by apply update64_canonical | by apply velocity64_steady | done | done].
Qed.

(** C39: the clamp, as it holds in binary64: on a canvas at least as high
    as the bird and lower than 2^h, with h at most 53, the position after
    [update] is a finite number, not below 0, and above the floor line
    [canvas.height - 20] by at most 2^(h-54), half a step of the numbers
    next to the canvas height.  On a canvas 512 high the bound is 2^-44,
    and the bird of [update64_above_floor] rests exactly there. *)
Theorem update64_floor_bound b h :
  (canvas_height < 2 ^ h)%Z -> canonical64 b ->
  exists q, to_Q (birdY64 (update64 b)) = Some q
            /\ 0 <= q <= inject_Z (canvas_height - bird_height) + pow2 (h - 54).
Proof.
  intros Hh Hc. destruct (update64_position b h Hh Hc) as (Hd & H0 & Hb).
  exists (Qval (birdY64 (update64 b))). split; [apply to_Q_Qval, Hd |]. split; [done |].
  rewrite inject_Z_minus. change (inject_Z bird_height) with 20.
  pose proof (pow2_double (h - 54)) as H2. replace (h - 54 + 1)%Z with (h - 53)%Z in H2 by lia.
  revert Hb H2. generalize (Qval (birdY64 (update64 b))), (pow2 (h - 53)), (pow2 (h - 54)).
  intros; lra.
Qed.

(** The velocity never overflows: from a finite velocity between -12 and
    2^53, after any number of frames, with or without flaps, the velocity
    is again a finite canonical number between -12 and 2^53.  From 2^53
    on the numbers are the even integers, and adding 0.6 to 2^53 gives
    2^53 again: a bird at rest on the floor stops accelerating there. *)
Lemma updates64_steady n b : steady64 b -> steady64 (updates64 n b).
Proof. intros Hb. induction n as [|n IH]; [done |]. by apply velocity64_steady. Qed.

End Floor.

(** ** The theorems at concrete states *)

Lemma grazing_canonical : canonical64 grazing /\ steady64 grazing.
Proof. by vm_compute. Qed.

(** The bird that rests above the floor line of the square canvas:
    512 is below 2^10, and the bound 492 + 2^-44 is where it rests. *)
Lemma update64_floor_bound_witness :
  exists q, to_Q (birdY64 (@update64 square_canvas grazing)) = Some q
            /\ 0 <= q <= inject_Z (@canvas_height square_canvas - bird_height) + pow2 (10 - 54).
Proof.
  apply (@update64_floor_bound square_canvas square_tall grazing 10); [done |].
  apply grazing_canonical.
Defined.

(** Five frames from [grazing]: the velocity is in range. *)
Lemma updates64_steady_example : steady64 (@updates64 square_canvas 5 grazing).
Proof. apply (@updates64_steady square_canvas 5 grazing), grazing_canonical. Qed.
