(* ===== verification/Drift64.v ===== *)
(** * Drift64: the binary64 bird against the rational bird

    [Bird] models [bird.update] (lines 32-41) on rationals and [Binary64]
    models it on binary64 numbers.  This file bounds how far the two are
    apart.  Each frame rounds twice: the sum of line 37, where [0.6] is
    itself a rounded 6/10, and the sum of line 38.  A sum below [2 ^ k]
    in absolute value is rounded by at most [2 ^ (k - 54)], half a step of
    the numbers there ([Exact64.rounded_near]), and the clamps of lines
    39-40 map positions that are [e] apart to positions that are [e]
    apart, as long as [e] covers the half step by which a binary64 bird
    can rest above the floor line ([Floor64.passes_floor]).  So the
    velocities drift apart linearly in the number of frames and the
    positions quadratically. *)

From Stdlib Require Import SpecFloat Qpower.
From S2P Require Import Prelude Globals Bird Binary64 Rounding Arith64 Exact64 Scale64 Floor64.

Local Open Scope Q_scope.

(** [a] and [b] differ by [e] at most. *)
Definition within (e a b : Q) : Prop := a - b <= e /\ b - a <= e.

(** The binary64 bird [b] follows the rational bird of [g]: the same flap
    pending, the position within [ey] and the velocity within [ev]. *)
Definition follows (ey ev : Q) (b : Bird64) (g : Game) : Prop :=
  birdFlap64 b = birdFlap g
  /\ within ey (Qval (birdY64 b)) (birdY g)
  /\ within ev (Qval (birdVelocity64 b)) (birdVelocity g).

(** The unit of drift: half a step of the numbers from [2 ^ (k - 1)] to
    [2 ^ k]. *)
Definition drift_unit (k : Z) : Q := pow2 (k - 54).

(** The drift of the position and of the velocity after [n] frames. *)
Definition drift_y (k : Z) (n : nat) : Q :=
  inject_Z (Z.of_nat n) * (inject_Z (Z.of_nat n) + 3) * pow2 (k - 55).
Definition drift_v (k : Z) (n : nat) : Q := inject_Z (Z.of_nat n) * drift_unit k.

(** What [0.6] as a number lacks to 6/10. *)
Definition gravity_gap : Q := GRAVITY - Qval GRAVITY64.

(** Names the values of the numbers and the powers of two, for [lra]. *)
Ltac name_values :=
  repeat match goal with
  | |- context [Qval ?x] => let q := fresh "q" in generalize (Qval x); intros q
  | |- context [pow2 ?e] => let p := fresh "p" in generalize (pow2 e); intros p
  end.

#[export] Instance within_proper : Proper (Qeq ==> Qeq ==> Qeq ==> iff) within.
Proof. intros e e' He a a' Ha b b' Hb. unfold within. by rewrite He, Ha, Hb. Qed.

Section Drift.
Context `{cv : Canvas} `{!Tall cv}.
Implicit Types (x y : number) (b : Bird64) (g : Game) (e ey ev a c q : Q) (k : Z).

Lemma gravity_gap_small k : (0 <= k)%Z -> 0 <= gravity_gap /\ 2 * gravity_gap <= drift_unit k.
Proof.
  intros Hk. assert (0 <= gravity_gap /\ gravity_gap <= pow2 (-55)) as [H0 H1] by (by vm_compute).
  pose proof (pow2_le (-55) (k - 55) ltac:(lia)) as Hle.
  pose proof (pow2_double (k - 55)) as Hd. replace (k - 55 + 1)%Z with (k - 54)%Z in Hd by lia.
  unfold drift_unit. split; [done |]. revert H1 Hle Hd. generalize gravity_gap.
  name_values. intros; lra.
Qed.

Lemma drift_unit_half k : (k <= 53)%Z -> 0 < drift_unit k /\ 2 * drift_unit k <= 1.
Proof.
  intros Hk. pose proof (pow2_le (k - 54) (-1) ltac:(lia)) as Hle.
  change (pow2 (-1)) with (1 # 2) in Hle. pose proof (pow2_pos (k - 54)).
  unfold drift_unit. split; [done | lra].
Qed.

(** ** One frame *)

(** The velocity gravity is added to follows the rational one. *)
Lemma launch64_follows ev b g :
  0 <= ev -> birdFlap64 b = birdFlap g ->
  within ev (Qval (birdVelocity64 b)) (birdVelocity g) ->
  within ev (Qval (if birdFlap64 b then FLAP_STRENGTH64 else birdVelocity64 b))
    (launch_velocity g).
Proof.
  intros He Hflap Hv. unfold launch_velocity. rewrite <- Hflap.
  destruct (birdFlap64 b); [| done].
  destruct FLAP_STRENGTH64_denotes as (_ & _ & ->). unfold within, FLAP_STRENGTH. lra.
Qed.

(** Line 37: one rounding, and what [0.6] lacks to 6/10. *)
Lemma velocity64_follows ev b g k :
  (5 <= k <= 53)%Z -> 0 <= ev -> steady64 b -> birdFlap64 b = birdFlap g ->
  within ev (Qval (birdVelocity64 b)) (birdVelocity g) ->
  launch_velocity g + ev + 2 <= pow2 (k - 1) ->
  denotes (velocity64 b) (Qval (velocity64 b))
  /\ within (ev + drift_unit k) (Qval (velocity64 b)) (launch_velocity g + GRAVITY)
  /\ -12 <= Qval (velocity64 b) <= pow2 (k - 1).
Proof.
  intros Hk He Hs Hflap Hv Hroom.
  pose proof (launch64_follows ev b g He Hflap Hv) as Hw.
  destruct (launch64_steady b Hs) as [Hv0 [Hlow _]]. cbv zeta in Hv0, Hlow.
  destruct GRAVITY64_denotes as [HG [HG0 HG1]].
  pose proof (add_denotes _ _ _ _ Hv0 HG) as Hr. fold (velocity64 b) in Hr.
  destruct (gravity_gap_small k ltac:(lia)) as [Hg0 Hg1]. unfold gravity_gap in Hg0, Hg1.
  destruct (drift_unit_half k ltac:(lia)) as [Hu0 Hu1].
  pose proof (pow2_le 4 (k - 1) ltac:(lia)) as H16. change (pow2 4) with 16 in H16.
  pose proof (pow2_le (k - 1) 53 ltac:(lia)) as H53.
  assert (finite (velocity64 b) = true) as Hx
    by (apply (rounded_finite_53 _ _ Hr); unfold within in Hw; lra).
  assert (-12 <= Qval (velocity64 b)) as H12.
  { change (-12) with (inject_Z (-12)). apply (rounded_ge _ _ _ Hr Hx); [lia |].
    change (inject_Z (-12)) with (-12). lra. }
  pose proof (rounded_near _ _ (k - 1) Hr Hx) as Hnear.
  replace (F (k - 1)) with (k - 54)%Z in Hnear by (rewrite F_unfold; unfold EMIN; lia).
  fold (drift_unit k) in Hnear. split; [by apply denotes_Qval, (rounded_valid _ _ Hr) |].
  revert Hw Hlow HG0 HG1 Hg0 Hg1 Hu0 Hu1 H16 H12 Hnear Hroom. clear. unfold within, near.
  generalize (launch_velocity g), (drift_unit k), GRAVITY. name_values. intros. lra.
Qed.

(** Line 38: one rounding more, of a sum below [2 ^ k]. *)
Lemma unclamped64_follows ey ev b g k V :
  (5 <= k <= 53)%Z -> (canvas_height <= 2 ^ (k - 1))%Z -> flying64 b ->
  within ey (Qval (birdY64 b)) (birdY g) ->
  denotes (velocity64 b) (Qval (velocity64 b)) ->
  within ev (Qval (velocity64 b)) V -> -12 <= Qval (velocity64 b) <= pow2 (k - 1) ->
  denotes (unclamped64 b) (Qval (unclamped64 b))
  /\ Qval (unclamped64 b) <= pow2 53
  /\ within (ey + ev + drift_unit k) (Qval (unclamped64 b)) (birdY g + V).
Proof.
  intros Hk HH (((Hfy & _) & Hvy & _) & _ & Hy0 & Hy1) Hwy Hv Hwv Hvr.
  pose proof (add_denotes _ _ _ _ (denotes_Qval _ Hfy Hvy) Hv) as Hr.
  fold (unclamped64 b) in Hr.
  assert (inject_Z canvas_height <= pow2 (k - 1)) as HQ
    by (rewrite pow2_Z by lia; by rewrite <- Zle_Qle).
  pose proof (pow2_double (k - 1)) as Hd. replace (k - 1 + 1)%Z with k in Hd by lia.
  pose proof (pow2_le 4 (k - 1) ltac:(lia)) as H16. change (pow2 4) with 16 in H16.
  pose proof (pow2_le k 53 ltac:(lia)) as H53.
  assert (finite (unclamped64 b) = true) as Hx by (apply (rounded_finite_53 _ _ Hr); lra).
  pose proof (rounded_near _ _ k Hr Hx) as Hnear.
  replace (F k) with (k - 54 + 1)%Z in Hnear by (rewrite F_unfold; unfold EMIN; lia).
  rewrite pow2_double in Hnear. fold (drift_unit k) in Hnear.
  split; [by apply denotes_Qval, (rounded_valid _ _ Hr) |].
  split; [apply (rounded_cap _ _ Hr Hx); lra |].
  revert Hwy Hwv Hvr Hy0 Hy1 HQ Hd H16 Hnear. clear. unfold within, near.
  generalize (birdY g), (drift_unit k), (inject_Z canvas_height). name_values. intros. lra.
Qed.

(** Line 39: raising a negative position to 0 adds nothing. *)
Lemma raise64_follows e y Y :
  denotes y (Qval y) -> within e (Qval y) Y -> 0 <= e ->
  let y1 := if lt y (of_Z 0) then of_Z 0 else y in
  denotes y1 (Qval y1) /\ (0 <= Qval y1 /\ (Qval y <= pow2 53 -> Qval y1 <= pow2 53))
  /\ within e (Qval y1) (if decide (Y < 0) then 0 else Y).
Proof.
  intros Hy Hw He. cbv zeta. pose proof (of_Z_denotes 0 ltac:(done)) as H0.
  pose proof (lt_denotes _ _ _ _ Hy H0) as Hlt. change (inject_Z 0) with 0 in Hlt.
  pose proof (pow2_pos 53). destruct (lt y (of_Z 0)).
  - split; [exact (denotes_Qval _ (proj1 H0) (proj1 (proj2 H0))) |].
    change (Qval (of_Z 0)) with 0. destruct Hlt as [Hlt _]. specialize (Hlt eq_refl).
    unfold within in *. case_decide; repeat split; lra.
  - split; [done |]. assert (~ Qval y < 0) by (intros ?%Hlt; done).
    unfold within in *. case_decide; repeat split; lra.
Qed.

(** Lines 39-40: the clamps add nothing, as long as the allowance is the
    half step by which a binary64 bird may rest above the floor line. *)
Lemma clamp64_follows e y Y k :
  (0 <= k <= 53)%Z -> (canvas_height < 2 ^ k)%Z -> 2 * e >= pow2 (k - 53) ->
  denotes y (Qval y) -> Qval y <= pow2 53 -> within e (Qval y) Y ->
  within e (Qval (clamp64 y))
    (let y0 := if decide (Y < 0) then 0 else Y in
     if decide (y0 + bird_height > canvas_height) then canvas_height - bird_height else y0).
Proof.
  intros Hk HH He Hy Hcap Hw. pose proof (pow2_pos (k - 53)) as Hu.
  destruct (raise64_follows e y Y Hy Hw ltac:(lra)) as (Hy1 & [H0 Hmax] & Hw1).
  unfold clamp64. cbv zeta in *. revert Hy1 H0 Hmax Hw1.
  generalize (if lt y (of_Z 0) then of_Z 0 else y), (if decide (Y < 0) then 0 else Y).
  intros y1 Y1 Hy1 H0 Hmax Hw1. pose proof height64_denotes as HHd.
  pose proof canvas_tall as Ht. pose proof canvas_53 as Hc. unfold bird_height in *.
  destruct (gt _ _) eqn:E.
  - destruct floor64_denotes as (_ & _ & ->). rewrite inject_Z_minus.
    change (inject_Z bird_height) with 20.
    pose proof (add_denotes _ _ _ _ Hy1 (of_Z_denotes 20 ltac:(done))) as Hr.
    specialize (Hmax Hcap).
    assert (finite (add y1 (of_Z 20)) = true) as Hx.
    { apply (rounded_finite _ _ Hr). pose proof (pow2_lt 54 1023 eq_refl).
      pose proof (pow2_double 53) as H54. change (53 + 1)%Z with 54%Z in H54.
      assert (20 < pow2 53) by (by vm_compute). change (inject_Z 20) with 20. lra. }
    apply (gt_denotes _ _ _ _ (denotes_Qval _ Hx (rounded_valid _ _ Hr)) HHd) in E.
    apply (rounded_gt_inv _ _ _ Hr Hx) in E; [| lia]. change (inject_Z 20) with 20 in *.
    unfold within in *. case_decide; split; lra.
  - pose proof (passes_floor y1 k HH Hy1 H0 E) as Hp. change (inject_Z 20) with 20.
    unfold within in *. case_decide; split; lra.
Qed.

Lemma follows_mono ey ev ey' ev' b g :
  ey <= ey' -> ev <= ev' -> follows ey ev b g -> follows ey' ev' b g.
Proof. unfold follows, within. intros ? ? (? & ? & ?). split_and!; [done | lra..]. Qed.

Lemma update64_follows ey ev b g k :
  (5 <= k <= 53)%Z -> (canvas_height <= 2 ^ (k - 1))%Z -> 0 <= ey -> 0 <= ev ->
  flying64 b -> follows ey ev b g -> launch_velocity g + ev + 2 <= pow2 (k - 1) ->
  follows (ey + ev + 2 * drift_unit k) (ev + drift_unit k) (update64 b) (update g).
Proof.
  intros Hk HH Hey Hev Hfly (Hflap & Hwy & Hwv) Hroom.
  destruct (velocity64_follows ev b g k Hk Hev (proj1 (proj2 Hfly)) Hflap Hwv Hroom)
    as (Hv & Hwv' & Hvr).
  destruct (unclamped64_follows ey _ b g k _ Hk HH Hfly Hwy Hv Hwv' Hvr) as (Hu & Hcap & Hwu).
  assert (canvas_height < 2 ^ k)%Z as HH'.
  { pose proof (Z.pow_lt_mono_r 2 (k - 1) k). lia. }
  pose proof (pow2_double (k - 54)) as Hd. replace (k - 54 + 1)%Z with (k - 53)%Z in Hd by lia.
  fold (drift_unit k) in Hd. destruct (drift_unit_half k ltac:(lia)) as [Hu0 _].
  rewrite update64_unfold. split_and!; cbn [birdFlap64 birdY64 birdVelocity64].
  - by rewrite update_consumes_flap.
  - rewrite update_birdY_cases. cbv zeta.
    assert (ey + ev + 2 * drift_unit k == ey + (ev + drift_unit k) + drift_unit k) as -> by ring.
    apply (clamp64_follows _ _ _ k); [lia | done | lra | done..].
  - by rewrite update_velocity.
Qed.

(** ** Any number of frames *)

Lemma updates64_S_r n b : updates64 (S n) b = updates64 n (update64 b).
Proof. unfold updates64. by rewrite Nat.iter_succ_r. Qed.

Lemma launch_velocity_update g : launch_velocity (update g) = launch_velocity g + GRAVITY.
Proof. unfold launch_velocity at 1. by rewrite update_consumes_flap, update_velocity. Qed.

Lemma drift_S k n :
  drift_y k (S n) == 2 * drift_unit k + inject_Z (Z.of_nat n) * drift_unit k + drift_y k n
  /\ drift_v k (S n) == drift_unit k + drift_v k n.
Proof.
  unfold drift_y, drift_v, drift_unit. rewrite inject_Z_S.
  replace (k - 54)%Z with (k - 55 + 1)%Z by lia. rewrite pow2_double. split; ring.
Qed.

(** C35: the binary64 bird follows the rational bird.  On a canvas at most
    2^(k-1) high, with k from 5 to 52, from a binary64 bird between two
    frames and a rational bird with the same flap pending whose position
    and velocity are within [ey] and [ev] of it, after [n] frames with no
    key pressed the velocities differ by [ev + n * 2^(k-54)] at most and
    the positions by [ey + n * ev + n * (n + 3) * 2^(k-55)], as long as the
    velocity stays below 2^(k-1): the roundings of lines 37 and 38 add a
    half step each per frame and the clamps of lines 39-40 add nothing. *)
Theorem updates64_follows n b g k ey ev :
  (5 <= k <= 52)%Z -> (canvas_height <= 2 ^ (k - 1))%Z -> 0 <= ey -> 0 <= ev ->
  flying64 b -> follows ey ev b g ->
  launch_velocity g + ev + inject_Z (Z.of_nat n) + 2 <= pow2 (k - 1) ->
  follows (ey + inject_Z (Z.of_nat n) * ev + drift_y k n) (ev + drift_v k n)
    (updates64 n b) (updates n g).
Proof.
  intros Hk HH. revert b g ey ev. induction n as [|n IH]; intros b g ey ev Hey Hev Hfly Hf Hroom.
  { revert Hf. apply follows_mono; unfold drift_y, drift_v;
      change (inject_Z (Z.of_nat 0)) with 0; lra. }
  rewrite updates64_S_r, updates_S_r. destruct (drift_S k n) as [Ey Ev].
  destruct (drift_unit_half k ltac:(lia)) as [Hu0 _].
  pose proof (pow2_le (k - 54) (-2) ltac:(lia)) as Hu1. fold (drift_unit k) in Hu1.
  change (pow2 (-2)) with (1 # 4) in Hu1. rewrite inject_Z_S in Hroom.
  pose proof (inject_Z_nat_nonneg n) as Hn.
  assert (follows (ey + ev + 2 * drift_unit k) (ev + drift_unit k) (update64 b) (update g))
    as Hstep by (apply (update64_follows ey ev b g k); [lia | done.. | lra]).
  apply IH in Hstep; [| lra | lra | by apply update64_flying |
    rewrite launch_velocity_update; unfold GRAVITY; lra].
  revert Hstep. apply follows_mono; [| rewrite Ev; lra].
  rewrite inject_Z_S, Ey. apply Qle_lteq; right. ring.
Qed.

End Drift.

(** ** The theorems at concrete states *)

Lemma initial64_follows : follows 0 0 (@initial64 portrait_canvas) (@initial portrait_canvas).
Proof. by vm_compute. Qed.

(** A hundred frames from the start on the portrait canvas, 600 high and
    so below 2^10: the position of the binary64 bird is within
    10300 * 2^-44 of the rational bird's, less than a billionth of a
    pixel. *)
Lemma updates64_follows_witness :
  follows (0 + inject_Z (Z.of_nat 100) * 0 + drift_y 11 100) (0 + drift_v 11 100)
    (@updates64 portrait_canvas 100 (@initial64 portrait_canvas))
    (@updates portrait_canvas 100 (@initial portrait_canvas)).
Proof.
  apply (@updates64_follows portrait_canvas portrait_tall 100 _ _ 11 0 0);
    [done | done | done | done | | apply initial64_follows | by vm_compute].
  by apply (@initial64_flying portrait_canvas portrait_tall).
Defined.

Lemma drift_hundred_frames : drift_y 11 100 < 1 # 1000000000.
Proof. by vm_compute. Qed.
