(* ===== verification/Pipes.v ===== *)
(** * Pipes: the obstacle field ([spawnPipe], [updatePipes], [drawPipes])

    Lines 49-72 of [Index.ts].  [updatePipes] is written as the source
    writes it: a [forEach] over [pipes] whose callback moves the pipe in
    its slot and, when the pipe has left the canvas, [splice]s that slot out
    of the array being iterated and increments [score].  Because the
    later pipes close up while the index moves on, the pipe that follows a
    removed one is not visited in that call.  [updatePipes_rec] says the
    same by recursion on the list, and [advance] is the operation the
    specification describes (move every pipe, then remove the ones that
    left). *)

From S2P Require Import Prelude JsArray Globals.

Section Pipes.
Context `{cv : Canvas}.

(** ** The operations *)

(** [spawnPipe()], lines 49-52; [rnd] is the value of [Math.random()]. *)
Definition spawnPipe (rnd : Q) (g : Game) : Game :=
  let pipeHeight := Qfloor (rnd * (canvas_height - PIPE_GAP)) in
  set_pipes (push (mkPipe canvas_width pipeHeight) (pipes g)) g.

(** The test of line 57 on a pipe: its right edge is at or left of 0. *)
Definition off_screen (pipe : Pipe) : Prop := pipe_x pipe + PIPE_WIDTH <= 0.

#[export] Instance off_screen_decision pipe : Decision (off_screen pipe).
Proof. unfold off_screen. apply _. Defined.

(** [pipe.x -= 3], line 56. *)
Definition move (pipe : Pipe) : Pipe := set_pipe_x (pipe_x pipe - 3) pipe.

(** The callback of line 55-61, called with the object in slot [index]. *)
Definition updatePipes_callback (pipe : Pipe) (index : nat) (g : Game) : Game :=
  let pipe := move pipe in
  let g := set_pipes (<[index := pipe]> (pipes g)) g in
  if decide (off_screen pipe)
  then g |> set_pipes (splice index 1 (pipes g)) |> set_score (score g + 1)
  else g.

(** [updatePipes()], lines 54-62. *)
Definition updatePipes (g : Game) : Game := forEach pipes updatePipes_callback g.

(** What the callback of lines 65-71 draws for one pipe. *)
Definition drawPipes_callback (pipe : Pipe) : list HostCall :=
  [fillStyle "green";
   fillRect (pipe_x pipe) 0 PIPE_WIDTH (pipe_y pipe);
   fillRect (pipe_x pipe) (pipe_y pipe + PIPE_GAP)%Q PIPE_WIDTH
     (canvas_height - pipe_y pipe - PIPE_GAP)%Q].

(** [drawPipes()], lines 64-72: the state of the loop is the game and the
    calls made so far. *)
Definition drawPipes (g : Game) : list HostCall :=
  snd (forEach (fun s : Game * list HostCall => pipes (fst s))
         (fun pipe _ s => (fst s, snd s ++ drawPipes_callback pipe)) (g, [])).

(** ** [updatePipes] by recursion on the list

    The new array and the number of pipes removed.  After a removal the
    next pipe is kept as it is and the recursion resumes behind it. *)
Fixpoint updatePipes_rec (l : list Pipe) : list Pipe * Z :=
  match l with
  | [] => ([], 0)
  | pipe :: rest =>
      if decide (off_screen (move pipe)) then
        match rest with
        | [] => ([], 1)
        | skipped :: rest' =>
            let '(l', n) := updatePipes_rec rest' in (skipped :: l', n + 1)
        end
      else
        let '(l', n) := updatePipes_rec rest in (move pipe :: l', n)
  end.

(** ** The operation of the specification (spec 4.2, [advance])

    Every pipe moves; the pipes whose right edge is at or left of 0 are
    removed; the score delta is their number. *)
Definition advance (l : list Pipe) : list Pipe * Z :=
  let moved := map move l in
  (filter (fun pipe => ~ off_screen pipe) moved,
   Z.of_nat (length (filter off_screen moved))).

(** The gap of a pipe lies inside the canvas. *)
Definition gap_in_canvas (pipe : Pipe) : Prop :=
  0 <= pipe_y pipe <= canvas_height - PIPE_GAP.

End Pipes.

Arguments updatePipes : simpl never.
Arguments drawPipes : simpl never.

(** ** Example states, on the portrait canvas *)

(** Three pipes in frame order; the first leaves in the next frame. *)
Definition leaving : Game :=
  mkGame 300 0 false 2 [mkPipe (-58) 120; mkPipe 140 200; mkPipe 338 90] 0.

(** Two pipes in frame order, none about to leave. *)
Definition cruising : Game := mkGame 300 0 false 2 [mkPipe 40 200; mkPipe 250 100] 0.

(** A pipe alone, as [spawnPipe] made it. *)
Definition lone_pipe : Game := mkGame 300 0 false 0 [mkPipe 400 250] 0.

Section UpdatePipes.
Context `{cv : Canvas}.
Implicit Types (g : Game) (l done todo : list Pipe) (p q : Pipe).

(** ** The index loop is the recursion *)

Lemma set_state_id g l z :
  l = pipes g -> z = score g -> g |> set_pipes l |> set_score z = g.
Proof. intros -> ->. by destruct g. Qed.

Lemma updatePipes_callback_removes done p rest g :
  pipes g = done ++ p :: rest -> off_screen (move p) ->
  updatePipes_callback p (length done) g
  = g |> set_pipes (done ++ rest) |> set_score (score g + 1).
Proof.
  intros Hg Hoff. unfold updatePipes_callback. rewrite decide_True by done.
  game_simpl. rewrite Hg, insert_middle, splice_middle. done.
Qed.

Lemma updatePipes_callback_keeps done p rest g :
  pipes g = done ++ p :: rest -> ~ off_screen (move p) ->
  updatePipes_callback p (length done) g = set_pipes (done ++ move p :: rest) g.
Proof.
  intros Hg Hoff. unfold updatePipes_callback. rewrite decide_False by done.
  by rewrite Hg, insert_middle.
Qed.

(** The loop at index [length done], with the array split into the slots
    behind the index and the slots from it on. *)
Lemma updatePipes_from n done todo g :
  pipes g = done ++ todo -> (length todo <= n)%nat ->
  forEach_from pipes n (length done) updatePipes_callback g
  = g |> set_pipes (done ++ (updatePipes_rec todo).1)
      |> set_score (score g + (updatePipes_rec todo).2).
Proof.
  revert done todo g. induction n as [|n IH]; intros done todo g Hg Hn.
  { destruct todo; [|simpl in Hn; lia]. cbn [forEach_from updatePipes_rec fst snd].
    symmetry. apply set_state_id; [by rewrite Hg | lia]. }
  destruct todo as [|p rest].
  { rewrite forEach_from_past_end by (rewrite Hg, length_app; simpl; lia).
    cbn [updatePipes_rec fst snd].
    symmetry. apply set_state_id; [by rewrite Hg | lia]. }
  rewrite (forEach_from_present _ _ _ _ _ p) by (by rewrite Hg, list_lookup_middle).
  simpl in Hn. simpl updatePipes_rec. case_decide as Hoff.
  - rewrite (updatePipes_callback_removes _ _ _ _ Hg Hoff).
    destruct rest as [|q rest'].
    + rewrite forEach_from_past_end by (simpl; rewrite length_app; simpl; lia). done.
    + replace (S (length done)) with (length (done ++ [q]))
        by (rewrite length_app; simpl; lia).
      rewrite (IH (done ++ [q]) rest') by (simpl in *; rewrite <- ?app_assoc; done || lia).
      destruct (updatePipes_rec rest') as [l' k]. game_simpl.
      rewrite <- app_assoc. f_equal; lia || done.
  - rewrite (updatePipes_callback_keeps _ _ _ _ Hg Hoff).
    replace (S (length done)) with (length (done ++ [move p]))
      by (rewrite length_app; simpl; lia).
    rewrite (IH (done ++ [move p]) rest) by (simpl; rewrite <- ?app_assoc; done || lia).
    destruct (updatePipes_rec rest) as [l' k]. game_simpl.
    by rewrite <- app_assoc.
Qed.

(** The whole loop, as two assignments. *)
Lemma updatePipes_unfold g :
  updatePipes g
  = g |> set_pipes (updatePipes_rec (pipes g)).1
      |> set_score (score g + (updatePipes_rec (pipes g)).2).
Proof. unfold updatePipes, forEach. by apply (updatePipes_from _ []). Qed.

(** C1: [updatePipes], the [forEach] whose callback [splice]s the array it
    iterates, computes [updatePipes_rec] of the array and adds the number
    of removed pipes to the score; every other variable keeps its value. *)
Theorem updatePipes_is_rec g :
  updatePipes g
  = mkGame (birdY g) (birdVelocity g) (birdFlap g)
      (score g + (updatePipes_rec (pipes g)).2) (updatePipes_rec (pipes g)).1 (lastTime g).
Proof.
  unfold updatePipes, forEach. rewrite (updatePipes_from _ [] (pipes g)) by done.
  by destruct g.
Qed.

(** ** Recursion on the list, case by case *)

Lemma updatePipes_rec_last p : off_screen (move p) -> updatePipes_rec [p] = ([], 1).
Proof. intros. simpl. by rewrite decide_True. Qed.

Lemma updatePipes_rec_removed p q rest :
  off_screen (move p) ->
  updatePipes_rec (p :: q :: rest)
  = (q :: (updatePipes_rec rest).1, (updatePipes_rec rest).2 + 1).
Proof. intros. simpl. rewrite decide_True by done. by destruct (updatePipes_rec rest). Qed.

Lemma updatePipes_rec_kept p rest :
  ~ off_screen (move p) ->
  updatePipes_rec (p :: rest) = (move p :: (updatePipes_rec rest).1, (updatePipes_rec rest).2).
Proof. intros. simpl. rewrite decide_False by done. by destruct (updatePipes_rec rest). Qed.

(** Induction that follows the three ways [updatePipes_rec] consumes its
    argument. *)
Lemma updatePipes_rec_ind (P : list Pipe -> Prop) :
  P [] ->
  (forall p, off_screen (move p) -> P [p]) ->
  (forall p q rest, off_screen (move p) -> P rest -> P (p :: q :: rest)) ->
  (forall p rest, ~ off_screen (move p) -> P rest -> P (p :: rest)) ->
  forall l, P l.
Proof.
  intros Hnil Hlast Hremoved Hkept l.
  enough (forall n l, (length l <= n)%nat -> P l) as H by (by apply (H (length l))).
  clear l. induction n as [|n IH]; intros [|p [|q rest]] Hn; simpl in Hn; try done; try lia.
  - destruct (decide (off_screen (move p))); [by apply Hlast | by apply Hkept].
  - destruct (decide (off_screen (move p))).
    + apply Hremoved; [done | apply IH; lia].
    + apply Hkept; [done | apply IH; simpl; lia].
Qed.

End UpdatePipes.

Create Rewrite HintDb pipes.
#[export] Hint Rewrite @updatePipes_rec_last @updatePipes_rec_removed @updatePipes_rec_kept
  using done : pipes.

(** Unfold [updatePipes_rec] in each case of the induction. *)
Ltac rec_cases l :=
  induction l using updatePipes_rec_ind; autorewrite with pipes; simpl.

Section UpdatePipesFacts.
Context `{cv : Canvas}.
Implicit Types (g : Game) (l : list Pipe) (p q : Pipe).

(** The number [updatePipes_rec] reports is the number of pipes it
    removed; in particular it is not negative. *)
Lemma updatePipes_rec_count l :
  Z.of_nat (length l)
  = Z.of_nat (length (updatePipes_rec l).1) + (updatePipes_rec l).2
  /\ 0 <= (updatePipes_rec l).2.
Proof. rec_cases l; lia. Qed.

(** A property of pipes that survives a move holds of every pipe that is
    left. *)
Lemma updatePipes_rec_Forall (P : Pipe -> Prop) l :
  (forall p, P p -> P (move p)) -> Forall P l -> Forall P (updatePipes_rec l).1.
Proof.
  intros Hmove. rec_cases l; intros Hl; repeat (apply Forall_cons_1 in Hl as [? Hl]);
    repeat constructor; auto.
Qed.

(** No pipe that is left is off screen, if none was before. *)
Lemma updatePipes_rec_on_screen l :
  Forall (fun p => ~ off_screen p) l -> Forall (fun p => ~ off_screen p) (updatePipes_rec l).1.
Proof.
  rec_cases l; intros Hl; repeat (apply Forall_cons_1 in Hl as [? Hl]);
    repeat constructor; auto.
Qed.

(** When no pipe leaves, every pipe moves. *)
Lemma updatePipes_rec_no_exit l :
  Forall (fun p => ~ off_screen (move p)) l -> updatePipes_rec l = (map move l, 0).
Proof.
  rec_cases l; intros Hl; repeat (apply Forall_cons_1 in Hl as [? Hl]); try done.
  by rewrite IHl.
Qed.

(** ** Consequences for [updatePipes] *)

Lemma updatePipes_pipes g : pipes (updatePipes g) = (updatePipes_rec (pipes g)).1.
Proof. by rewrite updatePipes_unfold. Qed.

Lemma updatePipes_score g :
  score (updatePipes g) = score g + (updatePipes_rec (pipes g)).2.
Proof. by rewrite updatePipes_unfold. Qed.

Lemma updatePipes_birdY g : birdY (updatePipes g) = birdY g.
Proof. by rewrite updatePipes_unfold. Qed.

Lemma updatePipes_birdVelocity g : birdVelocity (updatePipes g) = birdVelocity g.
Proof. by rewrite updatePipes_unfold. Qed.

Lemma updatePipes_birdFlap g : birdFlap (updatePipes g) = birdFlap g.
Proof. by rewrite updatePipes_unfold. Qed.

Lemma updatePipes_lastTime g : lastTime (updatePipes g) = lastTime g.
Proof. by rewrite updatePipes_unfold. Qed.

(** The score never decreases. *)
Lemma updatePipes_score_le g : score g <= score (updatePipes g).
Proof. rewrite updatePipes_score. pose proof (updatePipes_rec_count (pipes g)). lia. Qed.

(** [updatePipes] adds to the score exactly the number of pipes that
    disappeared from the array: one point per pipe that left, none
    otherwise. *)
Lemma updatePipes_score_counts g :
  score (updatePipes g)
  = score g + (Z.of_nat (length (pipes g)) - Z.of_nat (length (pipes (updatePipes g)))).
Proof.
  rewrite updatePipes_score, updatePipes_pipes.
  pose proof (updatePipes_rec_count (pipes g)). lia.
Qed.

(** With no pipe on screen [updatePipes] changes nothing: the array stays
    empty and the score stays (the specification's idempotence property
    of [advance]). *)
Lemma updatePipes_empty g : pipes g = [] -> updatePipes g = g.
Proof. intros Hp. unfold updatePipes. by apply forEach_nil. Qed.

#[export] Instance updatePipes_proper : Proper (game_eq ==> game_eq) updatePipes.
Proof.
  intros g1 g2 Hg. rewrite !updatePipes_unfold.
  rewrite (pipes_proper _ _ Hg), (score_proper _ _ Hg). by rewrite Hg.
Qed.

Lemma updatePipes_set_lastTime (t : Q) g :
  updatePipes (set_lastTime t g) = set_lastTime t (updatePipes g).
Proof. by rewrite !updatePipes_unfold. Qed.

(** ** [drawPipes] *)

Lemma fold_indexed_draw l (k : nat) g (out : list HostCall) :
  fold_indexed (fun pipe (_ : nat) (st : Game * list HostCall) =>
                  (st.1, st.2 ++ drawPipes_callback pipe)) k l (g, out)
  = (g, out ++ concat (map drawPipes_callback l)).
Proof.
  revert k out. induction l as [|p l IH]; intros k out; simpl.
  - by rewrite app_nil_r.
  - rewrite IH. by rewrite <- app_assoc.
Qed.

(** [drawPipes] makes, for every pipe of the array in order, the three
    calls of its callback: the fill style, the rectangle above the gap and
    the rectangle below it. *)
Lemma drawPipes_concat g : drawPipes g = concat (map drawPipes_callback (pipes g)).
Proof.
  unfold drawPipes. rewrite forEach_fold by done. simpl.
  by rewrite fold_indexed_draw.
Qed.

(** ** [spawnPipe] *)

(** The height [spawnPipe] draws, as an integer. *)
Lemma spawn_height_eq (rnd : Q) :
  Qfloor (rnd * (canvas_height - PIPE_GAP)) = Qfloor (rnd * (canvas_height - PIPE_GAP)%Z).
Proof. by rewrite inject_Z_minus. Qed.

(** The height drawn for a new pipe is a row of the canvas that leaves room
    for the gap. *)
Lemma spawn_height_bounds (rnd : Q) :
  PIPE_GAP < canvas_height -> (0 <= rnd < 1)%Q ->
  0 <= Qfloor (rnd * (canvas_height - PIPE_GAP)) < canvas_height - PIPE_GAP.
Proof. intros Hh Hr. rewrite spawn_height_eq. apply Qfloor_scale_bounds; [done | lia]. Qed.

(** C14: on a canvas taller than the gap, [spawnPipe] appends one pipe, at
    the right edge, whose gap lies inside the canvas, strictly above the
    floor; the pipes already there and every other variable are as
    before. *)
Theorem spawnPipe_new_pipe (rnd : Q) g :
  PIPE_GAP < canvas_height -> (0 <= rnd < 1)%Q ->
  exists y, spawnPipe rnd g = set_pipes (pipes g ++ [mkPipe canvas_width y]) g
            /\ 0 <= y < canvas_height - PIPE_GAP.
Proof. intros Hh Hr. eexists. split; [done |]. by apply spawn_height_bounds. Qed.

(** C22: on a canvas lower than the gap, the gap of a spawned pipe starts
    above the canvas: for any positive draw its top is negative, between
    [canvas_height - PIPE_GAP] and -1. *)
Theorem spawnPipe_low_canvas (rnd : Q) g :
  canvas_height < PIPE_GAP -> (0 < rnd < 1)%Q ->
  exists y, pipes (spawnPipe rnd g) = pipes g ++ [mkPipe canvas_width y]
            /\ canvas_height - PIPE_GAP <= y < 0.
Proof.
  intros Hh [Hr0 Hr1]. eexists. split; [done |]. rewrite spawn_height_eq.
  set (n := canvas_height - PIPE_GAP) in *. split.
  - apply Qfloor_scale_nonpos; [split; lra | lia].
  - assert (Hn : (n < 0)%Q) by (subst n; rewrite Zlt_Qlt in Hh; qz).
    rewrite Zlt_Qlt. eapply Qle_lt_trans; [apply Qfloor_le |].
    change (inject_Z 0) with 0%Q. nra.
Qed.

Lemma spawnPipe_gap_in_canvas (rnd : Q) g :
  PIPE_GAP < canvas_height -> (0 <= rnd < 1)%Q ->
  Forall gap_in_canvas (pipes g) -> Forall gap_in_canvas (pipes (spawnPipe rnd g)).
Proof.
  intros Hh Hr Hg. pose proof (spawn_height_bounds rnd Hh Hr) as Hy.
  apply Forall_app. split; [done |]. constructor; [|done].
  unfold gap_in_canvas. cbn [pipe_y]. lia.
Qed.

#[export] Instance spawnPipe_proper : Proper (Qeq ==> game_eq ==> game_eq) spawnPipe.
Proof.
  intros r1 r2 Hr g1 g2 Hg. unfold spawnPipe. cbv zeta.
  rewrite Hr, (pipes_proper _ _ Hg). by apply set_pipes_proper.
Qed.

Lemma updatePipes_gap_in_canvas g :
  Forall gap_in_canvas (pipes g) -> Forall gap_in_canvas (pipes (updatePipes g)).
Proof. rewrite updatePipes_pipes. by apply updatePipes_rec_Forall. Qed.

End UpdatePipesFacts.

(** ** The theorems at concrete states *)

(** A draw of 1/2 on the portrait canvas. *)
Lemma spawnPipe_new_pipe_witness :
  exists y, @spawnPipe portrait_canvas 0.5 cruising
            = set_pipes (pipes cruising ++ [mkPipe 400 y]) cruising
            /\ 0 <= y < 500.
Proof. by apply (@spawnPipe_new_pipe portrait_canvas 0.5 cruising). Defined.

(** The initial state of the portrait canvas has no pipe. *)
Lemma updatePipes_empty_witness :
  updatePipes (@initial portrait_canvas) = @initial portrait_canvas.
Proof. by apply (updatePipes_empty (@initial portrait_canvas)). Defined.

(** A draw of 1/2 on the strip canvas, 15 pixels high. *)
Lemma spawnPipe_low_canvas_witness :
  exists y, pipes (@spawnPipe strip_canvas 0.5 cruising) = pipes cruising ++ [mkPipe 300 y]
            /\ -85 <= y < 0.
Proof. by apply (@spawnPipe_low_canvas strip_canvas 0.5 cruising). Defined.
