(* ===== verification/PipesOrder.v ===== *)
(** * PipesOrder: the order of the pipes on screen

    Pipes are spawned at the right edge, at most one per frame, and all
    move left by the same step, so [pipes] is in left-to-right order and
    only its first pipe can leave.  This file states that order
    ([pipes_ok]), proves that [updatePipes] followed by an optional
    [spawnPipe] keeps it, and derives what [updatePipes] does to an ordered
    array: at most the first pipe is removed, and in the frame that
    removes it the second pipe stands still while the others move. *)

From S2P Require Import Prelude JsArray Globals Pipes.

Section Order.
Context `{cv : Canvas}.

(** Consecutive pipes are at least one scroll step apart. *)
Fixpoint spaced (l : list Pipe) : Prop :=
  match l with
  | [] => True
  | p :: rest =>
      match rest with
      | [] => True
      | q :: _ => pipe_x p + 3 <= pipe_x q /\ spaced rest
      end
  end.

(** Left-to-right order.  The first two pipes may coincide: the second
    stood still in the frame that removed its predecessor. *)
Definition ordered (l : list Pipe) : Prop :=
  match l with
  | p :: (q :: _) as rest => pipe_x p <= pipe_x q /\ spaced rest
  | _ => True
  end.

(** A pipe that is on screen and not right of the canvas edge. *)
Definition on_canvas (p : Pipe) : Prop := ~ off_screen p /\ pipe_x p <= canvas_width.

(** The order of [pipes] between two frames. *)
Definition pipes_ok (l : list Pipe) : Prop := ordered l /\ Forall on_canvas l.

(** The order of [pipes] between [updatePipes] and [spawnPipe]: in
    addition every pipe but the first has moved since it was spawned. *)
Definition pipes_scrolled (l : list Pipe) : Prop :=
  pipes_ok l /\ Forall (fun p => pipe_x p <= canvas_width - 3) (tail l).

#[export] Instance spaced_decision l : Decision (spaced l).
Proof.
  induction l as [|p l IH]; [left; exact I |].
  destruct l as [|q l]; [left; exact I |]. simpl. apply and_dec; [apply _ | exact IH].
Defined.

#[export] Instance ordered_decision l : Decision (ordered l).
Proof.
  destruct l as [|p [|q l]]; [left; exact I | left; exact I |].
  apply and_dec; [apply _ | apply spaced_decision].
Defined.

#[export] Instance on_canvas_decision p : Decision (on_canvas p).
Proof. unfold on_canvas. apply _. Defined.

#[export] Instance pipes_ok_decision l : Decision (pipes_ok l).
Proof. unfold pipes_ok. apply _. Defined.

#[export] Instance pipes_scrolled_decision l : Decision (pipes_scrolled l).
Proof. unfold pipes_scrolled. apply _. Defined.

(** What [updatePipes] makes of an ordered array. *)
Definition updatePipes_ordered (l : list Pipe) : list Pipe * Z :=
  match l with
  | [] => ([], 0)
  | p :: rest =>
      if decide (off_screen (move p))
      then (match rest with [] => [] | q :: rest' => q :: map move rest' end, 1)
      else (map move l, 0)
  end.

(** [n] calls of [updatePipes_rec], the removals added up. *)
Fixpoint scroll (n : nat) (l : list Pipe) : list Pipe * Z :=
  match n with
  | O => (l, 0)
  | S n' => let '(l1, k1) := updatePipes_rec l in
            let '(l2, k2) := scroll n' l1 in (l2, k1 + k2)
  end.

(** The number of frames a pipe at [x] stays in the array: the least [n]
    with [x - 3n + PIPE_WIDTH <= 0]. *)
Definition frames_on_screen (x : Z) : Z := (x + PIPE_WIDTH + 2) / 3.

End Order.

Section OrderFacts.
Context `{cv : Canvas}.
Implicit Types (g : Game) (l rest : list Pipe) (p q : Pipe).

(** ** Bounds that follow from the order *)

Lemma spaced_tail p l : spaced (p :: l) -> spaced l.
Proof. destruct l; simpl; tauto. Qed.

Lemma spaced_above p l : spaced (p :: l) -> Forall (fun q => pipe_x p + 3 <= pipe_x q) l.
Proof.
  revert p. induction l as [|q l IH]; intros p Hs; [done |].
  destruct Hs as [Hpq Hs]. constructor; [done |].
  eapply Forall_impl; [by apply IH |]. simpl. lia.
Qed.

Lemma ordered_above p l : ordered (p :: l) -> Forall (fun q => pipe_x p <= pipe_x q) l.
Proof.
  destruct l as [|q l]; [done |]. intros [Hpq Hs]. constructor; [done |].
  eapply Forall_impl; [by apply spaced_above |]. simpl. lia.
Qed.

Lemma ordered_above_tail p q l :
  ordered (p :: q :: l) -> Forall (fun r => pipe_x p + 3 <= pipe_x r) l.
Proof.
  intros [Hpq Hs]. eapply Forall_impl; [by apply spaced_above |]. simpl. lia.
Qed.

Lemma spaced_ordered l : spaced l -> ordered l.
Proof. destruct l as [|p [|q l]]; simpl; try done. intros [? ?]. split; [lia | done]. Qed.

(** ** Moving keeps the order *)

Lemma move_x p : pipe_x (move p) = pipe_x p - 3.
Proof. done. Qed.

Lemma move_y p : pipe_y (move p) = pipe_y p.
Proof. done. Qed.

Lemma spaced_map_move l : spaced l -> spaced (map move l).
Proof.
  induction l as [|p [|q l] IH]; try done.
  intros [Hpq Hs]. split; [rewrite !move_x; lia | by apply IH].
Qed.

Lemma ordered_map_move l : ordered l -> ordered (map move l).
Proof.
  destruct l as [|p [|q l]]; try done.
  intros [Hpq Hs]. split; [rewrite !move_x; lia | by apply (spaced_map_move (q :: l))].
Qed.

(** A pipe at least 3 right of a pipe on screen is on screen after its
    move. *)
Lemma move_on_screen_above p l :
  ~ off_screen p -> Forall (fun q => pipe_x p + 3 <= pipe_x q) l ->
  Forall (fun q => ~ off_screen (move q)) l.
Proof.
  intros Hp Hl. eapply Forall_impl; [exact Hl |].
  intros q Hq. unfold off_screen in *. rewrite move_x. lia.
Qed.

(** When the first pipe stays, all stay. *)
Lemma move_on_screen_head p l :
  ordered (p :: l) -> ~ off_screen (move p) ->
  Forall (fun q => ~ off_screen (move q)) (p :: l).
Proof.
  intros Ho Hp. constructor; [done |].
  eapply Forall_impl; [by apply ordered_above |].
  unfold off_screen in *. intros q Hq. rewrite move_x in *. lia.
Qed.

(** ** [updatePipes] on an ordered array *)

Lemma updatePipes_rec_ordered l :
  pipes_ok l -> updatePipes_rec l = updatePipes_ordered l.
Proof.
  intros [Ho Hc]. destruct l as [|p rest]; [done |].
  apply Forall_cons_1 in Hc as [[Hp _] Hc]. unfold updatePipes_ordered.
  case_decide as Hoff.
  - destruct rest as [|q rest']; [by apply updatePipes_rec_last |].
    rewrite updatePipes_rec_removed by done.
    rewrite updatePipes_rec_no_exit; [done |].
    by eapply move_on_screen_above, ordered_above_tail.
  - by apply updatePipes_rec_no_exit, move_on_screen_head.
Qed.

(** C5: on an array in frame order [updatePipes] removes at most the
    first pipe and scores at most one point; when it removes the first
    pipe, the second keeps its place and only the pipes behind it move. *)
Theorem updatePipes_on_ordered g :
  pipes_ok (pipes g) ->
  updatePipes g
  = g |> set_pipes (updatePipes_ordered (pipes g)).1
      |> set_score (score g + (updatePipes_ordered (pipes g)).2).
Proof. intros Hok. by rewrite updatePipes_unfold, updatePipes_rec_ordered. Qed.

Lemma on_canvas_move p : ~ off_screen (move p) -> on_canvas p -> on_canvas (move p).
Proof. unfold on_canvas. rewrite move_x. intros ? [_ ?]. split; [done | lia]. Qed.

Lemma Forall_on_canvas_move l :
  Forall (fun q => ~ off_screen (move q)) l -> Forall on_canvas l ->
  Forall on_canvas (map move l)
  /\ Forall (fun q => pipe_x q <= canvas_width - 3) (map move l).
Proof.
  intros Hoff Hc. rewrite !Forall_map. split.
  - eapply Forall_impl; [exact (List.Forall_and Hoff Hc) |].
    intros q [? ?]. by apply on_canvas_move.
  - eapply Forall_impl; [exact Hc |]. intros q [_ ?]. rewrite move_x. lia.
Qed.

(** [updatePipes] takes an array in frame order to one in scrolled order. *)
Lemma updatePipes_rec_scrolled l : pipes_ok l -> pipes_scrolled (updatePipes_rec l).1.
Proof.
  intros Hok. rewrite updatePipes_rec_ordered by done. destruct Hok as [Ho Hc].
  destruct l as [|p rest]; [done |]. unfold updatePipes_ordered.
  pose proof Hc as [[Hp _] Hrest]%Forall_cons_1. case_decide as Hoff.
  - destruct rest as [|q rest']; [done |].
    pose proof Hrest as [Hq Hrest']%Forall_cons_1. destruct Ho as [Hpq Hs].
    assert (Forall (fun r => ~ off_screen (move r)) rest') as Hon
      by by eapply move_on_screen_above, (ordered_above_tail p q).
    destruct (Forall_on_canvas_move rest' Hon Hrest') as [Hc' Hs'].
    repeat split; simpl; [| by constructor | done].
    destruct rest' as [|r rest'']; [done |]. simpl in *.
    destruct Hs as [Hqr Hs]. split; [lia |].
    by apply (spaced_map_move (r :: rest'')).
  - pose proof (move_on_screen_head _ _ Ho Hoff) as Hon.
    destruct (Forall_on_canvas_move _ Hon Hc) as [Hc' Hs'].
    repeat split; [by apply ordered_map_move | done |].
    simpl in *. by apply Forall_cons_1 in Hs' as [_ ?].
Qed.

(** A scrolled array is in frame order, with or without a new pipe at the
    right edge. *)
Lemma pipes_scrolled_ok l : pipes_scrolled l -> pipes_ok l.
Proof. by intros [? _]. Qed.

Lemma spaced_push l p new :
  spaced (p :: l) -> Forall (fun q => pipe_x q + 3 <= pipe_x new) (p :: l) ->
  spaced (p :: push new l).
Proof.
  revert p. induction l as [|q l IH]; intros p Hs Hb.
  - apply Forall_cons_1 in Hb as [? _]. simpl. done.
  - destruct Hs as [Hpq Hs]. apply Forall_cons_1 in Hb as [_ Hb].
    split; [done | by apply IH].
Qed.

Lemma pipes_scrolled_push l y :
  (0 <= canvas_width)%Z -> pipes_scrolled l -> pipes_ok (push (mkPipe canvas_width y) l).
Proof.
  intros Hw [[Ho Hc] Hs]. split.
  - destruct l as [|p [|q l]]; try done.
    + apply Forall_cons_1 in Hc as [[_ ?] _]. simpl. done.
    + destruct Ho as [Hpq Hsp]. split; [done |].
      apply (spaced_push _ q); [done |]. simpl in Hs.
      eapply Forall_impl; [exact Hs |]. simpl. lia.
  - unfold push. apply Forall_app. split; [done |]. constructor; [|done].
    unfold on_canvas, off_screen, PIPE_WIDTH. simpl. lia.
Qed.

(** ** [updatePipes] against the specification's [advance] *)

Lemma advance_no_exit l :
  Forall (fun p => ~ off_screen (move p)) l -> advance l = (map move l, 0).
Proof.
  intros Hl. unfold advance. f_equal.
  - apply filter_all. by apply Forall_map.
  - rewrite filter_none; [done |]. by apply Forall_map.
Qed.

Lemma advance_cons_exit p l :
  off_screen (move p) -> advance (p :: l) = ((advance l).1, (advance l).2 + 1).
Proof.
  intros Hp. unfold advance. simpl.
  rewrite filter_cons_False by tauto. rewrite (filter_cons_True off_screen) by done.
  simpl. f_equal. lia.
Qed.

(** C13: in a frame in which the first pipe does not leave, [updatePipes]
    on an array in frame order implements the [advance] of the
    specification: every pipe moves, none is removed, the score stays. *)
Theorem updatePipes_advance g p rest :
  pipes g = p :: rest -> pipes_ok (pipes g) -> ~ off_screen (move p) ->
  (pipes (updatePipes g), score (updatePipes g) - score g) = advance (pipes g)
  /\ pipes (updatePipes g) = map move (pipes g).
Proof.
  intros Hg Hok Hp. rewrite updatePipes_pipes, updatePipes_score, Hg in *.
  pose proof (move_on_screen_head p rest (proj1 Hok) Hp) as Hon.
  rewrite updatePipes_rec_no_exit, advance_no_exit by done. split; [f_equal; simpl; lia | done].
Qed.

(** What [advance] does in the frame in which the first pipe leaves. *)
Lemma advance_exit p q rest :
  pipes_ok (p :: q :: rest) -> off_screen (move p) ->
  advance (p :: q :: rest)
  = if decide (off_screen (move q)) then (map move rest, 2)
    else (move q :: map move rest, 1).
Proof.
  intros [Ho Hc] Hoff. apply Forall_cons_1 in Hc as [[Hp _] Hc].
  pose proof (move_on_screen_above p rest Hp (ordered_above_tail _ _ _ Ho)) as Hrest.
  rewrite advance_cons_exit by done. case_decide as Hq.
  - rewrite advance_cons_exit by done. by rewrite advance_no_exit.
  - rewrite advance_no_exit; [done | by constructor].
Qed.

(** C6: in the frame in which the first pipe leaves, [updatePipes]
    differs from the specification's [advance]: the code keeps the second
    pipe where it was and scores one point; [advance] moves the second
    pipe (and removes and scores it too, if it stood at the same place as
    the first). *)
Theorem updatePipes_skips g p q rest :
  pipes g = p :: q :: rest -> pipes_ok (pipes g) -> off_screen (move p) ->
  pipes (updatePipes g) = q :: map move rest
  /\ score (updatePipes g) = score g + 1
  /\ advance (pipes g)
     = if decide (off_screen (move q)) then (map move rest, 2)
       else (move q :: map move rest, 1).
Proof.
  intros Hg Hok Hoff. rewrite updatePipes_pipes, updatePipes_score.
  rewrite updatePipes_rec_ordered by done. rewrite Hg in *. simpl.
  rewrite decide_True by done. by rewrite advance_exit.
Qed.

(** ** Several frames *)

Lemma scroll_S n l :
  scroll (S n) l
  = ((scroll n (updatePipes_rec l).1).1,
     (updatePipes_rec l).2 + (scroll n (updatePipes_rec l).1).2).
Proof.
  cbn [scroll]. destruct (updatePipes_rec l) as [l1 k1]. cbn [fst snd].
  by destruct (scroll n l1).
Qed.

Lemma scroll_add n m l :
  scroll (n + m) l
  = ((scroll m (scroll n l).1).1, (scroll n l).2 + (scroll m (scroll n l).1).2).
Proof.
  revert l. induction n as [|n IH]; intros l.
  - simpl. by destruct (scroll m l).
  - change (S n + m)%nat with (S (n + m)). rewrite !scroll_S, IH. simpl. f_equal. lia.
Qed.

(** [scroll] is what [n] calls of [updatePipes] do to the state. *)
Lemma iter_updatePipes n g :
  Nat.iter n updatePipes g
  = g |> set_pipes (scroll n (pipes g)).1 |> set_score (score g + (scroll n (pipes g)).2).
Proof.
  revert g. induction n as [|n IH]; intros g.
  - simpl. symmetry. apply set_state_id; [done | lia].
  - rewrite Nat.iter_succ_r, IH, scroll_S, updatePipes_unfold. game_simpl. f_equal. lia.
Qed.

(** [n] calls that remove nothing change the array only. *)
Lemma iter_updatePipes_quiet n g l :
  scroll n (pipes g) = (l, 0) -> Nat.iter n updatePipes g = set_pipes l g.
Proof.
  intros Hs. rewrite iter_updatePipes, Hs. cbn [fst snd].
  destruct g. unfold set_pipes, set_score. simpl. f_equal. lia.
Qed.

Lemma updatePipes_rec_single_stays x y :
  0 < x - 3 + PIPE_WIDTH -> updatePipes_rec [mkPipe x y] = ([mkPipe (x - 3) y], 0).
Proof. intros. rewrite updatePipes_rec_kept; [done |]. unfold off_screen. simpl. lia. Qed.

Lemma scroll_single_stays n x y :
  0 < x - 3 * Z.of_nat n + PIPE_WIDTH ->
  scroll n [mkPipe x y] = ([mkPipe (x - 3 * Z.of_nat n) y], 0).
Proof.
  revert x. induction n as [|n IH]; intros x Hx.
  - simpl. do 2 f_equal. f_equal. lia.
  - rewrite scroll_S, updatePipes_rec_single_stays by lia. cbn [fst snd].
    rewrite IH by lia. simpl. do 2 f_equal. f_equal. lia.
Qed.

(** The frame that removes a pipe alone on screen. *)
Lemma scroll_single_leaves x y :
  0 < x + PIPE_WIDTH -> scroll (Z.to_nat (frames_on_screen x)) [mkPipe x y] = ([], 1).
Proof.
  intros Hx. unfold frames_on_screen, PIPE_WIDTH in *.
  remember ((x + 60 + 2) / 3) as n eqn:Hn.
  replace (Z.to_nat n) with (Z.to_nat (n - 1) + 1)%nat by lia_div.
  rewrite scroll_add, scroll_single_stays by (unfold PIPE_WIDTH; lia_div).
  cbn [fst snd]. rewrite scroll_S, updatePipes_rec_last; [done |].
  unfold off_screen, PIPE_WIDTH. simpl. lia_div.
Qed.

(** C8: the life of a pipe that is alone on screen at [x]: for
    [frames_on_screen x] calls of [updatePipes] less one it moves left by
    3 per call and the score stays; the next call removes it and scores
    one point. *)
Theorem pipe_lifetime g x y :
  pipes g = [mkPipe x y] -> 0 < x + PIPE_WIDTH ->
  Nat.iter (Z.to_nat (frames_on_screen x)) updatePipes g
  = g |> set_pipes [] |> set_score (score g + 1)
  /\ forall k, Z.of_nat k < frames_on_screen x ->
       Nat.iter k updatePipes g = set_pipes [mkPipe (x - 3 * Z.of_nat k) y] g.
Proof.
  intros Hg Hx. split.
  - by rewrite iter_updatePipes, Hg, scroll_single_leaves.
  - intros k Hk. apply iter_updatePipes_quiet. rewrite Hg.
    apply scroll_single_stays. unfold frames_on_screen, PIPE_WIDTH in *. lia_div.
Qed.

(** C15: the specification's end-to-end scenario does not hold of the
    code: [ceil(width / 3)] calls of [updatePipes] after a pipe was
    spawned at the right edge it is still in the array, its left edge
    within 3 pixels of the canvas's left edge, and nothing was scored.
    The pipe needs 20 more frames to leave. *)
Theorem pipe_at_left_edge g y :
  pipes g = [mkPipe canvas_width y] -> 0 <= canvas_width ->
  let n := (canvas_width + 2) / 3 in
  Nat.iter (Z.to_nat n) updatePipes g = set_pipes [mkPipe (canvas_width - 3 * n) y] g
  /\ -3 < canvas_width - 3 * n <= 0
  /\ frames_on_screen canvas_width = n + 20.
Proof.
  intros Hg Hw n. subst n. split; [|unfold frames_on_screen, PIPE_WIDTH; lia_div].
  apply iter_updatePipes_quiet. rewrite Hg.
  rewrite scroll_single_stays by (unfold PIPE_WIDTH; lia_div).
  do 3 f_equal. lia_div.
Qed.

End OrderFacts.

(** ** The theorems at concrete states, on the portrait canvas *)

(** In [leaving] the first pipe leaves: the second stays at 140, the third
    moves from 338 to 335, the score goes from 2 to 3. *)
Lemma updatePipes_on_ordered_witness :
  updatePipes leaving
  = leaving |> set_pipes [mkPipe 140 200; mkPipe 335 90] |> set_score 3.
Proof. apply (@updatePipes_on_ordered portrait_canvas leaving). compute_done. Defined.

(** The same frame against [advance], which moves the second pipe to
    137. *)
Lemma updatePipes_skips_witness :
  pipes (updatePipes leaving) = [mkPipe 140 200; mkPipe 335 90]
  /\ score (updatePipes leaving) = 3
  /\ advance (pipes leaving) = ([mkPipe 137 200; mkPipe 335 90], 1).
Proof.
  apply (@updatePipes_skips portrait_canvas leaving (mkPipe (-58) 120) (mkPipe 140 200)
           [mkPipe 338 90]); [done | compute_done | compute_done].
Defined.

(** In [cruising] no pipe leaves and the code agrees with [advance]. *)
Lemma updatePipes_advance_witness :
  (pipes (updatePipes cruising), score (updatePipes cruising) - 2) = advance (pipes cruising)
  /\ pipes (updatePipes cruising) = [mkPipe 37 200; mkPipe 247 100].
Proof.
  apply (@updatePipes_advance portrait_canvas cruising (mkPipe 40 200) [mkPipe 250 100]);
    [done | compute_done | compute_done].
Defined.

(** A pipe spawned at 400 is removed by the 154th call. *)
Lemma pipe_lifetime_witness :
  Nat.iter 154 updatePipes lone_pipe = lone_pipe |> set_pipes [] |> set_score 1
  /\ forall k : nat, Z.of_nat k < 154 ->
       Nat.iter k updatePipes lone_pipe = set_pipes [mkPipe (400 - 3 * Z.of_nat k) 250] lone_pipe.
Proof. by apply (@pipe_lifetime lone_pipe 400 250). Defined.

(** After 134 calls, the count of the specification's scenario, the same
    pipe is at [-2]. *)
Lemma pipe_at_left_edge_witness :
  Nat.iter 134 updatePipes lone_pipe = set_pipes [mkPipe (-2) 250] lone_pipe
  /\ -3 < -2 <= 0
  /\ frames_on_screen 400 = 154.
Proof. by apply (@pipe_at_left_edge portrait_canvas lone_pipe 250). Defined.
