(* ===== verification/Field.v ===== *)
(** * Field: the obstacle field as an interface, the program against the
    specification

    The specification (section 4.2) gives the obstacle field a contract:
    it owns the pipes, [spawn]s one at the right edge when due, and its
    [advance] moves every pipe, removes those that left and reports their
    number.  [ObstacleField] is that contract as a type class.  The
    program's field ([pipes] and [score] under [updatePipes] and
    [spawnPipe]) and the specification's ([advance]) are its two
    instances.  They are not equal: the program moves the pipe behind a
    removed one a frame late.  [lag] is the relation that holds between
    them all the same, frame after frame: the program's first pipe is at
    most one step behind, and so is its score. *)

From S2P Require Import Prelude JsArray Globals Pipes PipesOrder.

(** ** The interface *)

Class ObstacleField (F : Type) := {
  (** the pipes on screen, in spawn order *)
  obstacles : F -> list Pipe;
  (** the pipes that left so far *)
  passed : F -> Z;
  (** a new pipe enters *)
  spawn : Pipe -> F -> F;
  (** one frame of scrolling *)
  scroll_field : F -> F;
}.

Section Fields.
Context `{cv : Canvas}.

(** The field of the program: the variables [pipes] and [score], scrolled
    by [updatePipes]. *)
#[export] Instance code_field : ObstacleField Game := {|
  obstacles := pipes;
  passed := score;
  spawn p g := set_pipes (push p (pipes g)) g;
  scroll_field := updatePipes;
|}.

(** The field of the specification: a sequence and a counter, scrolled by
    [advance]. *)
#[export] Instance spec_field : ObstacleField (list Pipe * Z) := {|
  obstacles := fst;
  passed := snd;
  spawn p f := (push p f.1, f.2);
  scroll_field f := ((advance f.1).1, f.2 + (advance f.1).2);
|}.

(** The pipe [spawnPipe] makes of a random draw (lines 50-51). *)
Definition new_pipe (rnd : Q) : Pipe :=
  mkPipe canvas_width (Qfloor (rnd * (canvas_height - PIPE_GAP))).

(** The field's part of a frame: scroll, then spawn if a draw is given
    (lines 101 and 115). *)
Definition field_frame `{ObstacleField F} (o : option Q) (f : F) : F :=
  let f := scroll_field f in
  match o with
  | Some rnd => spawn (new_pipe rnd) f
  | None => f
  end.

(** A sequence of frames, each with the draw of its spawn if it has one. *)
Definition field_run `{ObstacleField F} (os : list (option Q)) (f : F) : F :=
  foldl (fun f o => field_frame o f) f os.

(** What an observer sees of a field. *)
Definition field_view `{ObstacleField F} (f : F) : list Pipe * Z := (obstacles f, passed f).

(** ** The relation between the two fields

    [lag_shape c s d]: the program's pipes [c] against the
    specification's [s], the specification's counter being [d] ahead.
    Either the two agree; or they agree but for the first pipe, which the
    program has one step further right; or the program still holds, as
    its first pipe, a pipe that the specification removed in the frame
    before and that the program removes in the next. *)
Inductive lag_shape : list Pipe -> list Pipe -> Z -> Prop :=
| lag_none l : lag_shape l l 0
| lag_head h t : lag_shape (h :: t) (move h :: t) 0
| lag_extra e l :
    ~ off_screen e -> off_screen (move e) ->
    Forall (fun q => pipe_x e <= pipe_x q) l ->
    lag_shape (e :: l) l 1.

Definition lag (c s : list Pipe * Z) : Prop := lag_shape c.1 s.1 (s.2 - c.2).

(** The specification's sequence between two frames: pipes of different
    frames, all on the canvas. *)
Definition field_ok (l : list Pipe) : Prop := spaced l /\ Forall on_canvas l.

(** The same between scroll and spawn: every pipe has moved. *)
Definition field_scrolled (l : list Pipe) : Prop :=
  spaced l /\ Forall (fun p => on_canvas p /\ pipe_x p <= canvas_width - 3) l.

(** One scroll of the program's field, on what an observer sees. *)
Definition code_scroll (c : list Pipe * Z) : list Pipe * Z :=
  ((updatePipes_rec c.1).1, c.2 + (updatePipes_rec c.1).2).

(** One frame of the program's field, on what an observer sees. *)
Definition code_frame (o : option Q) (c : list Pipe * Z) : list Pipe * Z :=
  let c := code_scroll c in
  match o with
  | Some rnd => (push (new_pipe rnd) c.1, c.2)
  | None => c
  end.

(** The relation between two frames, with what makes it last. *)
Definition lag_inv (c s : list Pipe * Z) : Prop := lag c s /\ field_ok s.1.

(** The number of frames of a schedule that spawn. *)
Definition spawns (os : list (option Q)) : nat := length (omap id os).

End Fields.

(** ** The laws of the contract

    What a client of the field may rely on, whichever field it is given:
    a spawned pipe enters at the end and is not counted; scrolling loses
    no pipe and counts none twice, every pipe that is no longer on screen
    has been counted once; the count does not decrease. *)
Class FieldLaws (F : Type) `{ObstacleField F} : Prop := {
  spawn_obstacles p f : obstacles (spawn p f) = push p (obstacles f);
  spawn_passed p f : passed (spawn p f) = passed f;
  scroll_conserves f :
    passed (scroll_field f) + Z.of_nat (length (obstacles (scroll_field f)))
    = passed f + Z.of_nat (length (obstacles f));
  scroll_passed f : passed f <= passed (scroll_field f);
}.

(** The pipes on screen and the pipes counted, together. *)
Definition census `{ObstacleField F} (f : F) : Z :=
  passed f + Z.of_nat (length (obstacles f)).

(** ** Example: four frames on the portrait canvas, pipes spawned in the
    first two *)
Definition two_spawns : list (option Q) := [Some 0.5%Q; Some 0.25%Q; None; None].

Section FieldFacts.
Context `{cv : Canvas}.
Implicit Types (g : Game) (l t : list Pipe) (h e p q : Pipe) (c s : list Pipe * Z).

(** ** The program's instance is the program *)

Lemma spawnPipe_spawn (rnd : Q) g : spawnPipe rnd g = spawn (new_pipe rnd) g.
Proof. done. Qed.

Lemma field_view_updatePipes g : field_view (updatePipes g) = code_scroll (field_view g).
Proof. unfold field_view, code_scroll. simpl. by rewrite updatePipes_pipes, updatePipes_score. Qed.

Lemma field_view_frame (o : option Q) g :
  field_view (field_frame o g) = code_frame o (field_view g).
Proof.
  unfold field_frame, code_frame. cbv zeta. destruct o as [rnd|].
  - rewrite <- field_view_updatePipes. done.
  - apply field_view_updatePipes.
Qed.

(** ** Scrolling a well-formed sequence *)

Lemma field_ok_tail p l : field_ok (p :: l) -> field_ok l.
Proof. intros [Hs Hc]. split; [by eapply spaced_tail | by apply Forall_cons_1 in Hc as [_ ?]]. Qed.

Lemma field_scrolled_ok l : field_scrolled l -> field_ok l.
Proof. intros [Hs Hc]. split; [done |]. eapply Forall_impl; [exact Hc |]. by intros ? [? _]. Qed.

Lemma field_scrolled_map_move l :
  field_ok l -> Forall (fun q => ~ off_screen (move q)) l -> field_scrolled (map move l).
Proof.
  intros [Hs Hc] Hon. split; [by apply spaced_map_move |].
  destruct (Forall_on_canvas_move l Hon Hc) as [H1 H2].
  apply List.Forall_and; done.
Qed.

(** In a well-formed sequence the pipes behind the first stay on screen. *)
Lemma field_ok_tail_stays h t :
  field_ok (h :: t) -> Forall (fun q => ~ off_screen (move q)) t.
Proof.
  intros [Hs Hc]. apply Forall_cons_1 in Hc as [[Hh _] _].
  by eapply move_on_screen_above, spaced_above.
Qed.

(** Only the first pipe can leave. *)
Lemma advance_field_ok h t :
  field_ok (h :: t) ->
  advance (h :: t)
  = if decide (off_screen (move h)) then (map move t, 1) else (map move (h :: t), 0).
Proof.
  intros Hok. pose proof (field_ok_tail_stays h t Hok) as Ht. case_decide as Hoff.
  - rewrite advance_cons_exit by done. by rewrite advance_no_exit.
  - apply advance_no_exit. by constructor.
Qed.

Lemma advance_scrolled l : field_ok l -> field_scrolled (advance l).1.
Proof.
  intros Hok. destruct l as [|h t]; [by split |].
  pose proof (field_ok_tail_stays h t Hok) as Ht.
  rewrite advance_field_ok by done. case_decide as Hoff; cbn [fst].
  - by eapply field_scrolled_map_move; [eapply field_ok_tail |].
  - apply field_scrolled_map_move; [done | by constructor].
Qed.

Lemma spaced_snoc l p :
  spaced l -> Forall (fun q => pipe_x q + 3 <= pipe_x p) l -> spaced (push p l).
Proof. destruct l as [|p0 l]; [done |]. apply spaced_push. Qed.

Lemma field_scrolled_push l p :
  0 <= canvas_width -> pipe_x p = canvas_width -> field_scrolled l -> field_ok (push p l).
Proof.
  intros Hw Hp [Hs Hc]. split.
  - apply spaced_snoc; [done |]. eapply Forall_impl; [exact Hc |]. intros q [_ ?]. lia.
  - apply Forall_app. split; [eapply Forall_impl; [exact Hc |]; by intros q [? _] |].
    constructor; [|done]. unfold on_canvas, off_screen, PIPE_WIDTH. lia.
Qed.

(** ** Scrolling the program's sequence *)

Lemma spaced_above_le h t : spaced (h :: t) -> Forall (fun q => pipe_x h <= pipe_x q) t.
Proof. intros. by apply ordered_above, spaced_ordered. Qed.

Lemma updatePipes_rec_stay h t :
  ~ off_screen (move h) -> Forall (fun q => pipe_x h <= pipe_x q) t ->
  updatePipes_rec (h :: t) = (map move (h :: t), 0).
Proof.
  intros Hh Ht. apply updatePipes_rec_no_exit. constructor; [done |].
  eapply Forall_impl; [exact Ht |]. intros q Hq. unfold off_screen in *.
  rewrite move_x in *. lia.
Qed.

Lemma updatePipes_rec_leave e q t :
  ~ off_screen e -> off_screen (move e) -> Forall (fun r => pipe_x e + 3 <= pipe_x r) t ->
  updatePipes_rec (e :: q :: t) = (q :: map move t, 1).
Proof.
  intros He Hoff Ht. rewrite updatePipes_rec_removed by done.
  by rewrite updatePipes_rec_no_exit by by eapply move_on_screen_above.
Qed.

(** ** The relation lasts *)

Lemma lag_intro c s d : lag_shape c.1 s.1 d -> s.2 - c.2 = d -> lag c s.
Proof. unfold lag. by intros ? ->. Qed.

Lemma lag_scroll_none l n m :
  field_ok l -> m - n = 0 -> lag (code_scroll (l, n)) (scroll_field (l, m)).
Proof.
  intros Hok Hd. destruct l as [|h t]; [apply (lag_intro _ _ 0); [constructor | simpl; lia] |].
  unfold code_scroll. cbn [scroll_field spec_field fst snd].
  rewrite advance_field_ok by done. pose proof Hok as [Hs Hc]. case_decide as Hoff.
  - destruct t as [|q r].
    + rewrite updatePipes_rec_last by done. apply (lag_intro _ _ 0); [constructor | simpl; lia].
    + apply Forall_cons_1 in Hc as [[Hh _] _].
      rewrite updatePipes_rec_leave by (done || by apply (ordered_above_tail h q r), spaced_ordered).
      apply (lag_intro _ _ 0); [apply lag_head | simpl; lia].
  - rewrite updatePipes_rec_stay by (done || by apply spaced_above_le).
    apply (lag_intro _ _ 0); [constructor | simpl; lia].
Qed.

Lemma lag_scroll_head h t n m :
  field_ok (move h :: t) -> m - n = 0 ->
  lag (code_scroll (h :: t, n)) (scroll_field (move h :: t, m)).
Proof.
  intros Hok Hd. pose proof Hok as [Hs Hc]. apply Forall_cons_1 in Hc as [[Hh _] _].
  assert (Forall (fun q => pipe_x h <= pipe_x q) t) as Ht.
  { eapply Forall_impl; [by apply spaced_above |]. intros q. rewrite move_x. simpl. lia. }
  unfold code_scroll. cbn [scroll_field spec_field fst snd].
  rewrite advance_field_ok by done. rewrite updatePipes_rec_stay by done.
  case_decide as Hoff.
  - apply (lag_intro _ _ 1); [|simpl; lia]. cbn [fst map]. apply lag_extra; [done | done |].
    rewrite Forall_map. eapply Forall_impl; [exact Ht |]. intros q. cbv beta.
    rewrite !move_x. lia.
  - apply (lag_intro _ _ 0); [apply lag_head | simpl; lia].
Qed.

Lemma lag_scroll_extra e l n m :
  ~ off_screen e -> off_screen (move e) -> Forall (fun q => pipe_x e <= pipe_x q) l ->
  field_ok l -> m - n = 1 ->
  lag (code_scroll (e :: l, n)) (scroll_field (l, m)).
Proof.
  intros He Hoff Hl Hok Hd. unfold code_scroll. cbn [scroll_field spec_field fst snd].
  destruct l as [|q r].
  { rewrite updatePipes_rec_last by done. apply (lag_intro _ _ 0); [constructor | simpl; lia]. }
  pose proof Hok as [Hs Hc]. apply Forall_cons_1 in Hl as [Hq _].
  apply Forall_cons_1 in Hc as [[Hqon _] _].
  assert (Forall (fun r' => pipe_x q + 3 <= pipe_x r') r) as Hr by by apply spaced_above.
  rewrite updatePipes_rec_leave by (done || (eapply Forall_impl; [exact Hr |]; simpl; lia)).
  rewrite advance_field_ok by done. case_decide as Hqoff.
  - apply (lag_intro _ _ 1); [|simpl; lia]. cbn [fst]. apply lag_extra; [done | done |].
    rewrite Forall_map. eapply Forall_impl; [exact Hr |]. intros r'. cbv beta.
    rewrite move_x. lia.
  - apply (lag_intro _ _ 0); [apply lag_head | simpl; lia].
Qed.

Lemma lag_scroll c s : lag_inv c s -> lag (code_scroll c) (scroll_field s).
Proof.
  destruct c as [C n], s as [S m]. intros [Hl Hok]. unfold lag in Hl. simpl in Hl, Hok.
  inversion Hl; subst;
    eauto using lag_scroll_none, lag_scroll_head, lag_scroll_extra, eq_sym.
Qed.

Lemma lag_spawn p c s :
  0 <= canvas_width -> pipe_x p = canvas_width ->
  lag c s -> lag (push p c.1, c.2) (spawn p s).
Proof.
  intros Hw Hp. destruct c as [C n], s as [S m]. unfold lag. simpl.
  inversion 1; subst; try by constructor.
  apply lag_extra; [done | done |]. apply Forall_app. split; [done |].
  constructor; [|done]. unfold off_screen, PIPE_WIDTH in *. rewrite move_x in *. lia.
Qed.

Lemma lag_frame `{!CanvasSize cv} (o : option Q) c s :
  lag_inv c s -> lag_inv (code_frame o c) (field_frame o s).
Proof.
  intros Hinv. pose proof (lag_scroll c s Hinv) as Hl.
  pose proof (advance_scrolled s.1 (proj2 Hinv)) as Hs.
  unfold code_frame, field_frame. cbv zeta. destruct o as [rnd|].
  - split; [by apply lag_spawn; [apply canvas_width_nonneg | |] |].
    by apply field_scrolled_push; [apply canvas_width_nonneg | |].
  - split; [done | by apply field_scrolled_ok].
Qed.

(** The relation holds after any sequence of frames, from any two related
    fields. *)
Lemma field_run_lag `{!CanvasSize cv} (os : list (option Q)) g s :
  lag_inv (field_view g) s -> lag_inv (field_view (field_run os g)) (field_run os s).
Proof.
  revert g s. induction os as [|o os IH]; intros g s Hinv; [done |].
  cbn [field_run foldl]. apply IH. rewrite field_view_frame. by apply lag_frame.
Qed.

(** What an observer can tell from the relation. *)
Lemma lag_observed c s :
  lag c s -> s.2 - 1 <= c.2 <= s.2 /\ (tail c.1 = tail s.1 \/ tail c.1 = s.1).
Proof.
  destruct c as [C n], s as [S m]. unfold lag. simpl.
  inversion 1; subst; (split; [lia | auto]).
Qed.

(** ** The program's field against the specification's *)

(** Two empty fields with the same count are related. *)
Lemma lag_inv_empty g : pipes g = [] -> lag_inv (field_view g) ([], score g).
Proof.
  intros Hg. split; [|by split].
  unfold lag, field_view. simpl. rewrite Hg, Z.sub_diag. constructor.
Qed.

(** C25: from an empty field and under any schedule of spawns, at most one
    per frame, the program's field and the specification's stay related by
    [lag]: after every frame they hold the same pipes at the same places,
    except that the program's first pipe may be one step (3 pixels)
    behind, or be a pipe the specification has just removed and counted. *)
Theorem field_refines_with_lag `{!CanvasSize cv} (os : list (option Q)) g :
  pipes g = [] ->
  lag (field_view (field_run os g)) (field_run os ([], score g)).
Proof. intros Hg. by apply field_run_lag, lag_inv_empty. Qed.

(** What a player can see of the difference: after any number of frames
    the score of the program is the specification's count of passed
    pipes or one less, and behind the first pipe the two sequences of
    pipes are the same. *)
Lemma field_score_lag `{!CanvasSize cv} (os : list (option Q)) g :
  pipes g = [] ->
  let c := field_run os g in
  let s := field_run os (([] : list Pipe), score g) in
  passed s - 1 <= score c <= passed s
  /\ (tail (pipes c) = tail (obstacles s) \/ tail (pipes c) = obstacles s).
Proof.
  intros Hg c s.
  exact (lag_observed (field_view c) s (proj1 (field_run_lag os g _ (lag_inv_empty g Hg)))).
Qed.

(** ** The laws, for both fields *)

#[export] Instance code_field_laws : FieldLaws Game.
Proof.
  split; try done; intros g; cbn [passed obstacles scroll_field code_field].
  - rewrite updatePipes_score, updatePipes_pipes.
    pose proof (updatePipes_rec_count (pipes g)). lia.
  - apply updatePipes_score_le.
Qed.

Lemma advance_count l :
  Z.of_nat (length l) = Z.of_nat (length (advance l).1) + (advance l).2 /\ 0 <= (advance l).2.
Proof.
  unfold advance. cbn [fst snd]. split; [|lia].
  rewrite <- (length_map move l) at 1.
  rewrite <- (Permutation_length (filter_app_complement off_screen (map move l))).
  rewrite length_app. lia.
Qed.

#[export] Instance spec_field_laws : FieldLaws (list Pipe * Z).
Proof.
  split; try done; intros [l n]; cbn [passed obstacles scroll_field spec_field fst snd];
    pose proof (advance_count l); lia.
Qed.

(** ** What the laws give a client *)

Section Laws.
Context `{FieldLaws F}.
Implicit Types (f : F) (o : option Q) (os : list (option Q)).

Lemma spawns_cons o os :
  spawns (o :: os) = ((if o is Some _ then 1 else 0) + spawns os)%nat.
Proof. by destruct o. Qed.

Lemma field_frame_census o f :
  census (field_frame o f) = census f + (if o is Some _ then 1 else 0)
  /\ passed f <= passed (field_frame o f).
Proof.
  unfold field_frame, census. cbv zeta. pose proof (scroll_conserves f).
  pose proof (scroll_passed f). destruct o as [rnd|]; [|lia].
  rewrite spawn_obstacles, spawn_passed. unfold push. rewrite length_app. simpl. lia.
Qed.

Lemma field_run_census os f :
  census (field_run os f) = census f + Z.of_nat (spawns os)
  /\ passed f <= passed (field_run os f).
Proof.
  revert f. induction os as [|o os IH]; intros f; [unfold spawns; simpl; lia |].
  cbn [field_run foldl]. destruct (IH (field_frame o f)) as [IH1 IH2].
  destruct (field_frame_census o f) as [H1 H2]. unfold field_run in *.
  rewrite IH1, H1, spawns_cons. split; [destruct o |]; lia.
Qed.

End Laws.

(** C38: over any sequence of frames of the program's field, whatever it
    spawns, no pipe is lost and none is counted twice: the score plus the
    number of pipes in the array grows by exactly the number of pipes
    spawned, so every pipe that is no longer in the array has scored one
    point; and the score does not decrease. *)
Theorem field_run_conserves (os : list (option Q)) g :
  score (field_run os g) + Z.of_nat (length (pipes (field_run os g)))
  = score g + Z.of_nat (length (pipes g)) + Z.of_nat (spawns os)
  /\ score g <= score (field_run os g).
Proof. exact (field_run_census os g). Qed.

End FieldFacts.

(** ** The theorems on the portrait canvas, for the schedule [two_spawns] *)

Lemma field_refines_with_lag_witness :
  lag (field_view (field_run (cv := portrait_canvas) two_spawns (@initial portrait_canvas)))
      (field_run (cv := portrait_canvas) two_spawns ([], 0)).
Proof.
  by apply (@field_refines_with_lag portrait_canvas portrait_size two_spawns
              (@initial portrait_canvas)).
Defined.

Lemma field_score_lag_witness :
  let c := field_run (cv := portrait_canvas) two_spawns (@initial portrait_canvas) in
  let s := field_run (cv := portrait_canvas) two_spawns (([] : list Pipe), 0) in
  passed s - 1 <= score c <= passed s
  /\ (tail (pipes c) = tail (obstacles s) \/ tail (pipes c) = obstacles s).
Proof.
  by apply (@field_score_lag portrait_canvas portrait_size two_spawns
              (@initial portrait_canvas)).
Defined.
