(* ===== verification/Collision.v ===== *)
(** * Collision: the collision detector ([checkCollisions])

    Lines 75-88 of [Index.ts]: a [for ... of] over [pipes] that returns
    [true] at the first pipe whose gap the bird is outside of and whose
    column the bird overlaps, and [false] when the loop ends.  The loop
    body changes nothing, so the live iteration of [for ... of] is the
    iteration over the list. *)

From S2P Require Import Prelude Globals.

Section Collision.
Context `{cv : Canvas}.

(** The test of lines 79-80: the bird, at height [y], is not inside the
    gap of [pipe]. *)
Definition outside_gap (y : Q) (pipe : Pipe) : Prop :=
  (y < pipe_y pipe \/ y + bird_height > pipe_y pipe + PIPE_GAP)%Q.

(** The test of line 82: the bird's column overlaps the pipe's. *)
Definition in_column (pipe : Pipe) : Prop :=
  bird_x + bird_width > pipe_x pipe /\ bird_x < pipe_x pipe + PIPE_WIDTH.

#[export] Instance outside_gap_decision y pipe : Decision (outside_gap y pipe).
Proof. unfold outside_gap. apply _. Defined.

#[export] Instance in_column_decision pipe : Decision (in_column pipe).
Proof. unfold in_column. apply _. Defined.

(** The loop of lines 77-86 over the pipes still to visit. *)
Fixpoint checkCollisions_loop (y : Q) (l : list Pipe) : bool :=
  match l with
  | [] => false
  | pipe :: rest =>
      if decide (outside_gap y pipe) then
        if decide (in_column pipe) then true
        else checkCollisions_loop y rest
      else checkCollisions_loop y rest
  end.

(** [checkCollisions()], lines 75-88. *)
Definition checkCollisions (g : Game) : bool :=
  checkCollisions_loop (birdY g) (pipes g).

(** The bird at height [y] hits [pipe]. *)
Definition hits (y : Q) (pipe : Pipe) : Prop := in_column pipe /\ outside_gap y pipe.

End Collision.

Arguments checkCollisions : simpl never.

(** The bird 10 pixels below the gap of the pipe of the specification's
    example. *)
Definition below_gap : Game := mkGame 190 0 false 0 [mkPipe 40 100] 0.

Section CollisionFacts.
Context `{cv : Canvas}.
Implicit Types (g : Game) (l : list Pipe) (pipe : Pipe) (y : Q).

Lemma checkCollisions_loop_spec y l :
  checkCollisions_loop y l = true <-> Exists (hits y) l.
Proof.
  unfold hits. induction l as [|pipe rest IH]; simpl.
  - split; [done | by inversion 1].
  - rewrite Exists_cons. repeat case_decide; rewrite ?IH; intuition.
Qed.

(** C3: [checkCollisions] answers [true] exactly when some pipe of the
    array overlaps the bird's column while the bird is outside its gap. *)
Theorem checkCollisions_spec g :
  checkCollisions g = true <-> exists pipe, pipe ∈ pipes g /\ hits (birdY g) pipe.
Proof. unfold checkCollisions. rewrite checkCollisions_loop_spec. apply Exists_exists. Qed.

(** With a single pipe the answer is the test on that pipe. *)
Lemma checkCollisions_single g pipe :
  pipes g = [pipe] -> checkCollisions g = true <-> hits (birdY g) pipe.
Proof.
  intros Hp. unfold checkCollisions. rewrite checkCollisions_loop_spec, Hp.
  rewrite Exists_cons, Exists_nil. tauto.
Qed.

(** The pipes whose column the bird overlaps are those with
    [-10 < x < 70]. *)
Lemma in_column_range pipe : in_column pipe <-> -10 < pipe_x pipe < 70.
Proof. unfold in_column, bird_x, bird_width, PIPE_WIDTH. lia. Qed.

(** The bird is inside the gap when it is at or below its top and its
    lower edge is at or above the gap's bottom. *)
Lemma outside_gap_iff y pipe :
  ~ outside_gap y pipe <-> (pipe_y pipe <= y <= pipe_y pipe + 80%Z)%Q.
Proof. unfold outside_gap, bird_height, PIPE_GAP. split; intros; qz. Qed.

(** The specification's worked example: with one pipe at [x = 40] whose
    gap starts at 100, the bird collides exactly when [y < 100] or
    [y > 180]. *)
Lemma checkCollisions_example g :
  pipes g = [mkPipe 40 100] ->
  checkCollisions g = true <-> (birdY g < 100 \/ birdY g > 180)%Q.
Proof.
  intros Hp. rewrite (checkCollisions_single g _ Hp). unfold hits.
  rewrite in_column_range. unfold outside_gap, bird_height, PIPE_GAP. simpl.
  split; [intros [_ [?|?]]; [left | right]; qz |].
  intros Hy. split; [lia |]. destruct Hy; [left | right]; qz.
Qed.

(** With no pipe on screen nothing collides, wherever the bird is:
    touching the floor or the ceiling does not end the game. *)
Lemma checkCollisions_no_pipes g : pipes g = [] -> checkCollisions g = false.
Proof. intros Hp. unfold checkCollisions. by rewrite Hp. Qed.

(** The answer depends on the bird's height up to [==] only. *)
#[export] Instance checkCollisions_loop_proper :
  Proper (Qeq ==> eq ==> eq) checkCollisions_loop.
Proof.
  intros y1 y2 Hy l ? <-. apply eq_bool_prop_intro.
  rewrite !Is_true_true, !checkCollisions_loop_spec.
  apply Exists_proper; [|done]. intros pipe.
  unfold hits, outside_gap. by rewrite Hy.
Qed.

#[export] Instance checkCollisions_proper : Proper (game_eq ==> eq) checkCollisions.
Proof.
  intros g1 g2 Hg. unfold checkCollisions.
  by rewrite (pipes_proper _ _ Hg), (birdY_proper _ _ Hg).
Qed.

End CollisionFacts.

(** The example at [y = 190]: the bird collides. *)
Lemma checkCollisions_example_witness :
  checkCollisions below_gap = true <-> (190 < 100 \/ 190 > 180)%Q.
Proof. by apply (checkCollisions_example below_gap). Defined.
