(* ===== verification/Session.v ===== *)
(** * Session: the game loop, reset and the host's events

    Lines 90-136 of [Index.ts]: [gameLoop], [resetGame], the [keydown]
    listener and the first [requestAnimationFrame].  The host delivers
    animation frames and key events one at a time ([Event]); [handle] runs
    the callback registered for an event and [run] a sequence of events.
    A frame carries its time stamp and the two values [Math.random] would
    return in it. *)

From S2P Require Import Prelude JsArray Globals Bird Pipes PipesOrder Field Collision.

Local Open Scope Q_scope.

Section Session.
Context `{cv : Canvas}.

(** [resetGame()], lines 121-126. *)
Definition resetGame (g : Game) : Game :=
  g |> set_birdY (canvas_height / 2) |> set_birdVelocity 0
    |> set_pipes [] |> set_score 0.

(** The [keydown] listener, lines 129-133. *)
Definition keydown (key : string) (g : Game) : Game :=
  if decide (key = " "%string) then set_birdFlap true g else g.

(** [gameLoop(timestamp)], lines 93-118.  [random1] is the draw of line
    115 and [random2] the draw [spawnPipe] makes when it is called. *)
Definition gameLoop (timestamp random1 random2 : Q) (g : Game) : Game * list HostCall :=
  let deltaTime := timestamp - lastTime g in
  let g := set_lastTime timestamp g in
  let out := [clearRect 0 0 canvas_width canvas_height] in
  let g := update g in
  let out := out ++ draw g in
  let g := updatePipes g in
  let out := out ++ drawPipes g in
  let '(g, out) :=
    if checkCollisions g
    then (resetGame g, out ++ [alert ("Game Over! Your score: " ++ number_to_string (score g))])
    else (g, out) in
  let out := out ++ [font "20px Arial";
                     fillText ("Score: " ++ number_to_string (score g)) 10 30] in
  let g := if decide (random1 < 1 / SPAWN_RATE) then spawnPipe random2 g else g in
  (g, out ++ [requestAnimationFrame]).

(** The state and the calls when the script has run to its end (line 136):
    the first frame is requested. *)
Definition start : Game * list HostCall := (initial, [requestAnimationFrame]).

(** ** The host's events *)

Inductive Event :=
| AnimationFrame (timestamp random1 random2 : Q)
| KeyDown (key : string).

(** [Math.random()] returns a number in [0, 1). *)
Definition valid_event (e : Event) : Prop :=
  match e with
  | AnimationFrame _ random1 random2 => 0 <= random1 < 1 /\ 0 <= random2 < 1
  | KeyDown _ => True
  end.

Definition handle (e : Event) (g : Game) : Game * list HostCall :=
  match e with
  | AnimationFrame timestamp random1 random2 => gameLoop timestamp random1 random2 g
  | KeyDown key => (keydown key g, [])
  end.

(** The events in order, from the state [g]; the calls accumulate. *)
Fixpoint run (es : list Event) (g : Game) : Game * list HostCall :=
  match es with
  | [] => (g, [])
  | e :: es' =>
      let '(g1, out1) := handle e g in
      let '(g2, out2) := run es' g1 in
      (g2, out1 ++ out2)
  end.

(** One event of the host takes the game from one state to the next. *)
Inductive step : Game -> Event -> Game -> Prop :=
| step_handle g e : valid_event e -> step g e (handle e g).1.

(** The states the game can be in between two events. *)
Inductive reachable : Game -> Prop :=
| reachable_initial : reachable initial
| reachable_step g e g' : reachable g -> step g e g' -> reachable g'.

(** ** The state part of a frame

    What [gameLoop] does to the variables, without the drawing. *)
Definition frame_state (timestamp random1 random2 : Q) (g : Game) : Game :=
  let g := g |> set_lastTime timestamp |> update |> updatePipes in
  let g := if checkCollisions g then resetGame g else g in
  if decide (random1 < 1 / SPAWN_RATE) then spawnPipe random2 g else g.

(** The frame found a collision. *)
Definition collides (timestamp : Q) (g : Game) : bool :=
  checkCollisions (g |> set_lastTime timestamp |> update |> updatePipes).

(** ** The invariant of the session *)

(** The canvas is taller than a gap (hence than twice the bird). *)
Class Playable := {
  playable_size :: CanvasSize cv;
  playable_height : (PIPE_GAP < canvas_height)%Z;
}.

Definition game_ok (g : Game) : Prop :=
  bird_in_canvas g /\ (0 <= score g)%Z /\ pipes_ok (pipes g) /\
  Forall gap_in_canvas (pipes g).

(** The same between [updatePipes] and [spawnPipe]. *)
Definition game_scrolled (g : Game) : Prop :=
  bird_in_canvas g /\ (0 <= score g)%Z /\ pipes_scrolled (pipes g) /\
  Forall gap_in_canvas (pipes g).

(** ** The calls of a frame, by part *)

(** The alert of line 106. *)
Definition game_over_alert (g : Game) : HostCall :=
  alert ("Game Over! Your score: " ++ number_to_string (score g)).

(** The score line of lines 111-112. *)
Definition score_line (g : Game) : list HostCall :=
  [font "20px Arial"; fillText ("Score: " ++ number_to_string (score g)) 10 30].

(** The call is a request for the next frame. *)
Definition is_request (c : HostCall) : bool :=
  match c with requestAnimationFrame => true | _ => false end.

(** The frames a sequence of calls has requested. *)
Definition requests (out : list HostCall) : nat := length (List.filter is_request out).

End Session.

Arguments resetGame : simpl never.

(** ** Example states and events *)

(** A frame at 16 ms whose first draw (0) spawns a pipe with the second
    draw (1/2). *)
Definition spawning_frame : Event := AnimationFrame 16 0 0.5.

(** A frame whose first draw (1/2) spawns nothing. *)
Definition quiet_frame : Event := AnimationFrame 32 0.5 0.5.

(** On the portrait canvas: the bird at the top with a pipe in its column
    whose gap starts at 200, so that the next frame collides. *)
Definition doomed : Game := mkGame 0 0 false 5 [mkPipe 40 200; mkPipe 250 100] 0.

Section SessionFacts.
Context `{cv : Canvas}.
Implicit Types (g : Game) (e : Event) (t r s : Q).

(** ** The state part of [gameLoop] *)

Lemma gameLoop_state t r s g : (gameLoop t r s g).1 = frame_state t r s g.
Proof. unfold gameLoop, frame_state. destruct (checkCollisions _); by case_decide. Qed.

Lemma frame_state_collision t r s g :
  collides t g = true ->
  frame_state t r s g
  = let g' := resetGame (g |> set_lastTime t |> update |> updatePipes) in
    if decide (r < 1 / SPAWN_RATE) then spawnPipe s g' else g'.
Proof. unfold collides, frame_state. by intros ->. Qed.

Lemma frame_state_no_collision t r s g :
  collides t g = false ->
  frame_state t r s g
  = let g' := g |> set_lastTime t |> update |> updatePipes in
    if decide (r < 1 / SPAWN_RATE) then spawnPipe s g' else g'.
Proof. unfold collides, frame_state. by intros ->. Qed.

(** The physics and the obstacle field do not read each other's
    variables: their order in the frame does not matter. *)
Lemma updatePipes_update_comm g : updatePipes (update g) = update (updatePipes g).
Proof.
  rewrite !updatePipes_unfold, update_pipes, update_score.
  by rewrite update_set_score, update_set_pipes.
Qed.

Lemma frame_normal t g :
  g |> set_lastTime t |> update |> updatePipes = set_lastTime t (updatePipes (update g)).
Proof. by rewrite update_set_lastTime, updatePipes_set_lastTime. Qed.

(** Compute the fields of a state after a frame. *)
Ltac frame_fields :=
  unfold spawnPipe, resetGame; game_simpl;
  rewrite ?updatePipes_birdY, ?updatePipes_birdVelocity, ?updatePipes_birdFlap,
    ?updatePipes_lastTime, ?updatePipes_score, ?updatePipes_pipes,
    ?update_consumes_flap, ?update_lastTime, ?update_score, ?update_pipes.

(** ** A frame that collides *)

(** C7: in a frame that finds a collision the bird is put back to
    mid-height with velocity 0 and the score is 0; the array holds no
    pipe, or the one pipe that the same frame spawned after the reset:
    the spawn of line 115 is not skipped by a game over. *)
Theorem frame_collision_resets t r s g :
  collides t g = true ->
  let g' := frame_state t r s g in
  birdY g' = canvas_height / 2 /\ birdVelocity g' = 0 /\ birdFlap g' = false /\
  score g' = 0%Z /\ lastTime g' = t /\
  pipes g' = if decide (r < 1 / SPAWN_RATE)
             then [mkPipe canvas_width (Qfloor (s * (canvas_height - PIPE_GAP)))]
             else [].
Proof.
  intros Hc. rewrite (frame_state_collision _ _ _ _ Hc). simpl.
  case_decide; frame_fields; done.
Qed.

(** ** A frame that does not collide *)

(** C9: in a frame without collision the bird is as [update] leaves it,
    the score is as [updatePipes] leaves it and so does not decrease, and
    the array is as [updatePipes] leaves it, with the spawned pipe at its
    end when the first draw is below [1 / SPAWN_RATE]. *)
Theorem frame_no_collision t r s g :
  collides t g = false ->
  let g' := frame_state t r s g in
  birdY g' = birdY (update g) /\ birdVelocity g' = birdVelocity (update g) /\
  birdFlap g' = false /\ lastTime g' = t /\
  score g' = score (updatePipes g) /\ (score g <= score g')%Z /\
  pipes g' = if decide (r < 1 / SPAWN_RATE)
             then push (mkPipe canvas_width (Qfloor (s * (canvas_height - PIPE_GAP))))
                    (pipes (updatePipes g))
             else pipes (updatePipes g).
Proof.
  intros Hc. rewrite (frame_state_no_collision _ _ _ _ Hc), frame_normal. simpl.
  pose proof (updatePipes_score_le g) as Hs. rewrite updatePipes_score in Hs.
  case_decide; frame_fields; done.
Qed.

(** On [pipes] and [score], a frame without collision is one frame of the
    obstacle field. *)
Lemma frame_state_field t r s g :
  collides t g = false ->
  field_view (frame_state t r s g)
  = code_frame (if decide (r < 1 / SPAWN_RATE) then Some s else None) (field_view g).
Proof.
  intros Hc. rewrite (frame_state_no_collision _ _ _ _ Hc), frame_normal. cbv zeta.
  unfold field_view, code_frame, code_scroll. case_decide; frame_fields; done.
Qed.

(** The time stamp of a frame is stored and otherwise unused: frames at
    different times differ in [lastTime] only. *)
Lemma frame_state_time t t' r s g :
  frame_state t r s g = set_lastTime t (frame_state t' r s g).
Proof.
  unfold frame_state. rewrite !frame_normal.
  assert (checkCollisions (set_lastTime t (updatePipes (update g)))
          = checkCollisions (set_lastTime t' (updatePipes (update g)))) as -> by done.
  destruct (checkCollisions _); by case_decide.
Qed.

(** ** Equivalent states *)

#[export] Instance resetGame_proper : Proper (game_eq ==> game_eq) resetGame.
Proof.
  intros g1 g2 (_ & _ & Hf & _ & _ & Ht). unfold resetGame. by repeat split.
Qed.

#[export] Instance keydown_proper : Proper (eq ==> game_eq ==> game_eq) keydown.
Proof.
  intros key ? <- g1 g2 Hg. unfold keydown. case_decide; [|done].
  by apply set_birdFlap_proper.
Qed.

Lemma spawn_test_proper r r' : r == r' -> bool_decide (r < 1 / SPAWN_RATE) = bool_decide (r' < 1 / SPAWN_RATE).
Proof. intros Hr. apply bool_decide_ext. by rewrite Hr. Qed.

(** A frame respects the equivalence of states: from states that
    agree up to the representation of their rational fields, with time
    stamps and random draws that are equal as rationals, [gameLoop]
    leaves states that agree in the same way.  What the model says of a
    frame does not depend on how a fraction is written. *)
Lemma frame_state_proper :
  Proper (Qeq ==> Qeq ==> Qeq ==> game_eq ==> game_eq) frame_state.
Proof.
  intros t1 t2 Ht r1 r2 Hr s1 s2 Hs g1 g2 Hg. unfold frame_state. cbv zeta.
  assert (g1 |> set_lastTime t1 |> update |> updatePipes
          ≡g g2 |> set_lastTime t2 |> update |> updatePipes) as Hmid
    by by apply updatePipes_proper, update_proper, set_lastTime_proper.
  rewrite (checkCollisions_proper _ _ Hmid).
  rewrite !(decide_bool_decide (_ < _)), (spawn_test_proper _ _ Hr).
  destruct (checkCollisions _), (bool_decide _);
    try apply spawnPipe_proper; try apply resetGame_proper; done.
Qed.

(** ** Key events *)

Lemma keydown_space g : keydown " " g = set_birdFlap true g.
Proof. done. Qed.

Lemma keydown_other key g : key <> " "%string -> keydown key g = g.
Proof. intros. unfold keydown. by rewrite decide_False. Qed.

(** The flap flag is edge triggered: any number of presses of the space
    key before a frame are one flap request, which that frame consumes,
    starting the bird at [FLAP_STRENGTH + GRAVITY]. *)
Lemma flaps_collapse (n : nat) g :
  Nat.iter (S n) (keydown " ") g = keydown " " g
  /\ birdVelocity (update (keydown " " g)) = FLAP_STRENGTH + GRAVITY
  /\ birdFlap (update (keydown " " g)) = false.
Proof.
  split; [|split; [by rewrite update_velocity | apply update_consumes_flap]].
  induction n as [|n IH]; [done |]. rewrite Nat.iter_succ, IH. by destruct g.
Qed.

(** ** The calls of a frame *)

Lemma gameLoop_calls t r s g :
  let g2 := g |> set_lastTime t |> update |> updatePipes in
  (gameLoop t r s g).2
  = [clearRect 0 0 canvas_width canvas_height]
    ++ draw (update (set_lastTime t g)) ++ drawPipes g2
    ++ (if checkCollisions g2
        then game_over_alert g2 :: score_line (resetGame g2)
        else score_line g2)
    ++ [requestAnimationFrame].
Proof.
  unfold gameLoop. simpl. destruct (checkCollisions _); simpl; by rewrite <- !app_assoc.
Qed.

Lemma requests_app out1 out2 : requests (out1 ++ out2) = (requests out1 + requests out2)%nat.
Proof. unfold requests. by rewrite List.filter_app, length_app. Qed.

Lemma requests_drawPipes g : requests (drawPipes g) = 0%nat.
Proof.
  unfold drawPipes. apply (forEach_invariant _ (fun st => requests st.2 = 0%nat)); [|done].
  intros p i st Hst _. cbn [snd]. by rewrite requests_app, Hst.
Qed.

Lemma requests_gameLoop t r s g : requests (gameLoop t r s g).2 = 1%nat.
Proof.
  rewrite gameLoop_calls. cbv zeta.
  rewrite !requests_app, requests_drawPipes. by destruct (checkCollisions _).
Qed.

(** Every frame makes exactly one request for the next frame, and it
    is its last call: the loop never stops and never doubles. *)
Lemma gameLoop_requests_frame t r s g :
  requests (gameLoop t r s g).2 = 1%nat
  /\ last (gameLoop t r s g).2 = Some requestAnimationFrame.
Proof.
  split; [apply requests_gameLoop |].
  rewrite gameLoop_calls. cbv zeta. by rewrite !app_assoc, last_snoc.
Qed.

(** C17: when the frame collides, the alert shows the score reached,
    counting a pipe that left in this very frame, and the score line drawn
    after it already shows 0. *)
Theorem game_over_calls t r s g :
  collides t g = true ->
  alert ("Game Over! Your score: " ++ number_to_string (score (updatePipes g)))
    ∈ (gameLoop t r s g).2
  /\ fillText "Score: 0" 10 30 ∈ (gameLoop t r s g).2.
Proof.
  intros Hc. rewrite gameLoop_calls. cbv zeta. unfold collides in Hc. rewrite Hc.
  split; do 3 (apply elem_of_app; right); apply elem_of_app; left.
  - unfold game_over_alert. frame_fields. apply list_elem_of_here.
  - do 2 apply list_elem_of_further. apply list_elem_of_here.
Qed.

(** ** Sequences of events *)

Lemma run_cons e es g :
  run (e :: es) g = ((run es (handle e g).1).1, (handle e g).2 ++ (run es (handle e g).1).2).
Proof.
  cbn [run]. destruct (handle e g) as [g1 out1]. cbn [fst snd]. by destruct (run es g1).
Qed.

Lemma run_app es1 es2 g :
  run (es1 ++ es2) g
  = ((run es2 (run es1 g).1).1, (run es1 g).2 ++ (run es2 (run es1 g).1).2).
Proof.
  revert g. induction es1 as [|e es1 IH]; intros g.
  - simpl. by destruct (run es2 g).
  - rewrite <- app_comm_cons, !run_cons, IH. simpl. by rewrite app_assoc.
Qed.

(** What [run] computes is a path of the step relation. *)
Lemma run_reachable es g :
  Forall valid_event es -> reachable g -> reachable (run es g).1.
Proof.
  intros Hes. revert g. induction Hes as [|e es He Hes IH]; intros g Hg; [done |].
  rewrite run_cons. simpl. apply IH. eapply reachable_step; [done | by constructor].
Qed.

(** ** The invariant, operation by operation *)

Section Invariant.
Context `{pl : !Playable}.

Lemma canvas_fits_bird : (bird_height <= canvas_height)%Z.
Proof. pose proof playable_height. unfold bird_height, PIPE_GAP in *. lia. Qed.

Lemma initial_ok : game_ok initial.
Proof.
  pose proof playable_height as Hh. unfold PIPE_GAP in Hh.
  repeat split; simpl; try done; unfold bird_height; qz.
Qed.

Lemma resetGame_ok g : game_ok (resetGame g).
Proof. destruct initial_ok as ((? & ?) & ? & ? & ?). by repeat split. Qed.

Lemma set_lastTime_ok t g : game_ok g -> game_ok (set_lastTime t g).
Proof. done. Qed.

Lemma keydown_ok key g : game_ok g -> game_ok (keydown key g).
Proof. unfold keydown. by case_decide. Qed.

Lemma update_ok g : game_ok g -> game_ok (update g).
Proof.
  intros (_ & ? & ? & ?). unfold game_ok. rewrite update_score, update_pipes.
  split; [apply update_clamped, canvas_fits_bird | done].
Qed.

Lemma updatePipes_ok g : game_ok g -> game_scrolled (updatePipes g).
Proof.
  intros (Hb & Hs & Hp & Hg). split; [|split; [|split]].
  - unfold bird_in_canvas. by rewrite updatePipes_birdY.
  - pose proof (updatePipes_score_le g). lia.
  - rewrite updatePipes_pipes. by apply updatePipes_rec_scrolled.
  - by apply updatePipes_gap_in_canvas.
Qed.

Lemma resetGame_scrolled g : game_scrolled (resetGame g).
Proof.
  destruct (resetGame_ok g) as (? & ? & ? & ?).
  split; [done | split; [done | split; [|done]]]. split; [done | constructor].
Qed.

Lemma spawnPipe_ok s g : 0 <= s < 1 -> game_scrolled g -> game_ok (spawnPipe s g).
Proof.
  intros Hr (Hb & Hs & Hp & Hg). split; [done | split; [done | split]].
  - by apply pipes_scrolled_push; [apply canvas_width_nonneg |].
  - by apply spawnPipe_gap_in_canvas; [apply playable_height | |].
Qed.

Lemma game_scrolled_ok g : game_scrolled g -> game_ok g.
Proof. intros (? & ? & ? & ?). split; [done | split; [done | split; [|done]]].
  by apply pipes_scrolled_ok. Qed.

(** A frame with valid random draws keeps the invariant of the session. *)
Lemma frame_state_ok t r s g :
  0 <= s < 1 -> game_ok g -> game_ok (frame_state t r s g).
Proof.
  intros Hr Hg. unfold frame_state.
  assert (game_scrolled (g |> set_lastTime t |> update |> updatePipes)) as Hs
    by by apply updatePipes_ok, update_ok, set_lastTime_ok.
  destruct (checkCollisions _); case_decide;
    auto using spawnPipe_ok, game_scrolled_ok, resetGame_scrolled, resetGame_ok.
Qed.

Lemma step_ok g e g' : game_ok g -> step g e g' -> game_ok g'.
Proof.
  intros Hg Hstep. destruct Hstep as [g e Hv]. destruct e as [t r1 r2 | key]; simpl.
  - rewrite gameLoop_state. apply frame_state_ok; [apply Hv | done].
  - by apply keydown_ok.
Qed.


End Invariant.

End SessionFacts.

(** ** The theorems at concrete states, on the portrait canvas *)

Lemma portrait_playable : @Playable portrait_canvas.
Proof. split; [apply portrait_size | done]. Qed.


(** The frame after [doomed] collides, resets and spawns. *)
Lemma frame_collision_resets_witness :
  let g' := @frame_state portrait_canvas 16 0 0.5 doomed in
  birdY g' = 600%Z / 2 /\ birdVelocity g' = 0 /\ birdFlap g' = false /\
  score g' = 0%Z /\ lastTime g' = 16 /\ pipes g' = [mkPipe 400 250].
Proof. by apply (@frame_collision_resets portrait_canvas 16 0 0.5 doomed). Defined.

(** The frame after [lone_pipe] does not collide and does not spawn. *)
Lemma frame_no_collision_witness :
  let g' := @frame_state portrait_canvas 32 0.5 0.5 lone_pipe in
  birdY g' = birdY (@update portrait_canvas lone_pipe) /\
  birdVelocity g' = birdVelocity (@update portrait_canvas lone_pipe) /\
  birdFlap g' = false /\ lastTime g' = 32 /\
  score g' = score (updatePipes lone_pipe) /\ (score lone_pipe <= score g')%Z /\
  pipes g' = pipes (updatePipes lone_pipe).
Proof. by apply (@frame_no_collision portrait_canvas 32 0.5 0.5 lone_pipe). Defined.

(** The same frame after [doomed], its inputs written as other fractions. *)
Lemma frame_state_proper_witness :
  @frame_state portrait_canvas 16 0 0.5 doomed
  ≡g @frame_state portrait_canvas (32 # 2) (0 # 3) (1 # 2) doomed.
Proof. by apply (@frame_state_proper portrait_canvas). Defined.

(** The calls of the frame after [doomed], whose score is 5. *)
Lemma game_over_calls_witness :
  alert "Game Over! Your score: 5" ∈ (@gameLoop portrait_canvas 16 0 0.5 doomed).2
  /\ fillText "Score: 0" 10 30 ∈ (@gameLoop portrait_canvas 16 0 0.5 doomed).2.
Proof. by apply (@game_over_calls portrait_canvas 16 0 0.5 doomed). Defined.
