(* ===== verification/Render.v ===== *)
(** * Render: what the calls of a frame draw

    The program draws by calls on the 2D context of the canvas.  This file
    gives the two facts about the context that the calls depend on (a
    rectangle is given by its corner and its sides; the fill style that
    was assigned last stays in effect) and derives what a frame draws:
    every rectangle lies between the top and the bottom edge of the
    canvas, and the score is written in the colour of whatever was drawn
    before it. *)

From S2P Require Import Prelude JsArray Globals Bird Pipes PipesOrder Field Collision Session.

Local Open Scope Q_scope.

Section Render.
Context `{cv : Canvas}.

(** The fill style after a call, [style] being the one before it. *)
Definition style_step (style : string) (c : HostCall) : string :=
  match c with
  | fillStyle color => color
  | _ => style
  end.

(** The fill style in effect after a sequence of calls. *)
Definition style_after (style : string) (out : list HostCall) : string :=
  foldl style_step style out.

(** A rectangle with top edge [y] and height [h] lies between the top and
    the bottom edge of the canvas. *)
Definition rect_in_rows (y h : Q) : Prop := 0 <= y /\ 0 <= h /\ y + h <= canvas_height.

(** A call that draws or clears a rectangle does so between the top and
    the bottom edge, with sides that are not negative. *)
Definition call_in_rows (c : HostCall) : Prop :=
  match c with
  | clearRect _ y w h | fillRect _ y w h => 0 <= w /\ rect_in_rows y h
  | _ => True
  end.

(** The calls of a frame before the collision test (lines 97-102). *)
Definition scene (t : Q) (g : Game) : list HostCall :=
  let g1 := update (set_lastTime t g) in
  [clearRect 0 0 canvas_width canvas_height] ++ draw g1 ++ drawPipes (updatePipes g1).

(** The calls of a frame from the collision test on (lines 105-117). *)
Definition overlay (t : Q) (g : Game) : list HostCall :=
  let g2 := g |> set_lastTime t |> update |> updatePipes in
  (if checkCollisions g2 then game_over_alert g2 :: score_line (resetGame g2)
   else score_line g2) ++ [requestAnimationFrame].

End Render.

Section RenderFacts.
Context `{cv : Canvas}.
Implicit Types (g : Game) (p : Pipe) (t r s : Q) (out : list HostCall) (style : string).

Lemma gameLoop_scene t r s g : (gameLoop t r s g).2 = scene t g ++ overlay t g.
Proof. rewrite gameLoop_calls. unfold scene, overlay. cbv zeta. by rewrite <- !app_assoc. Qed.

(** ** Fill styles *)

Lemma style_after_app style out1 out2 :
  style_after style (out1 ++ out2) = style_after (style_after style out1) out2.
Proof. apply foldl_app. Qed.

Lemma style_after_pipes style (l : list Pipe) :
  style_after style (concat (map drawPipes_callback l))
  = if decide (l = []) then style else "green"%string.
Proof.
  revert style. induction l as [|p l IH]; intros style; [done |].
  cbn [map concat]. rewrite style_after_app, IH. by case_decide.
Qed.

Lemma style_after_overlay style t g : style_after style (overlay t g) = style.
Proof. unfold overlay. cbv zeta. by destruct (checkCollisions _). Qed.

(** ** Rectangles *)

Lemma pipe_in_rows p : gap_in_canvas p -> Forall call_in_rows (drawPipes_callback p).
Proof.
  intros [Hy0 Hy1]. unfold PIPE_GAP in *. rewrite Zle_Qle in Hy0, Hy1.
  repeat constructor; unfold PIPE_WIDTH, PIPE_GAP; qz.
Qed.

Lemma drawPipes_in_rows g :
  Forall gap_in_canvas (pipes g) -> Forall call_in_rows (drawPipes g).
Proof.
  rewrite drawPipes_concat. induction 1 as [|p l Hp Hl IH]; [done |].
  cbn [map concat]. apply Forall_app. split; [by apply pipe_in_rows | done].
Qed.

Lemma draw_in_rows g : bird_in_canvas g -> Forall call_in_rows (draw g).
Proof.
  intros [Hy0 Hy1]. unfold bird_height in *.
  repeat constructor; unfold bird_width, bird_height; qz.
Qed.

Lemma overlay_in_rows t g : Forall call_in_rows (overlay t g).
Proof. unfold overlay. cbv zeta. destruct (checkCollisions _); by repeat constructor. Qed.


(** The score line is written in the fill style the pipes left, green,
    or, when no pipe is on screen after [updatePipes], in the bird's
    yellow: the program never sets a style for its text.  The style is
    still the same when the frame ends. *)
Lemma score_text_style style t r s g :
  let g2 := g |> set_lastTime t |> update |> updatePipes in
  style_after style (scene t g) = (if decide (pipes g2 = []) then bird_color else "green"%string)
  /\ style_after style (gameLoop t r s g).2 = style_after style (scene t g).
Proof.
  intros g2. split.
  - unfold scene. cbv zeta. rewrite !style_after_app, drawPipes_concat.
    by rewrite style_after_pipes.
  - by rewrite gameLoop_scene, style_after_app, style_after_overlay.
Qed.

End RenderFacts.

(** ** The theorems at concrete states, on the portrait canvas *)

