(* ===== verification/Picture.v ===== *)
(** * Picture: what the canvas shows after the calls

    The 2D context keeps a fill style, a font and a bitmap.  This file
    gives the colour of every point of the plane after a sequence of the
    program's calls: [clearRect] makes the points of its rectangle
    transparent, [fillRect] gives them the fill style, [fillText] gives
    the fill style to the points the glyphs cover.  Which points the
    glyphs of a text cover is the browser's and is a parameter
    ([Glyphs]); how the bitmap samples the plane into pixels is not
    modelled.

    On this the file derives the picture of a frame (the score over the
    pipes over the bird, and nothing of what was shown before), that
    [checkCollisions] is true exactly when the bird's square and a pipe
    share a point as they are drawn, and the picture after a whole run. *)

From S2P Require Import Prelude JsArray Globals Bird Pipes PipesOrder Collision Session Render.

Local Open Scope Q_scope.

(** ** Points and rectangles *)

(** A point of the plane of the canvas: [px] grows to the right, [py]
    downwards. *)
Record Point := mkPoint { px : Q; py : Q }.

(** The rectangle of [fillRect(x, y, w, h)]. *)
Record Rect := mkRect { rect_x : Q; rect_y : Q; rect_w : Q; rect_h : Q }.

(** [t] is on the side that starts at [a] and is [d] long; a side of
    negative length runs back from [a], one of length 0 holds no point. *)
Definition spans (a d t : Q) : Prop := a <= t < a + d \/ a + d <= t < a.

#[export] Instance rect_elem_of : ElemOf Point Rect := fun p r =>
  spans (rect_x r) (rect_w r) (px p) /\ spans (rect_y r) (rect_h r) (py p).

#[export] Instance rect_elem_of_decision : RelDecision (∈@{Rect}).
Proof. intros p r. unfold elem_of, rect_elem_of, spans. apply _. Defined.

(** ** The context and its bitmap *)

(** Where the glyphs fall: [ink font text x y p] holds when
    [fillText(text, x, y)] in the font [font] paints the point [p]. *)
Class Glyphs := { ink : string -> string -> Q -> Q -> Point -> bool }.

(** The fill style, the font, and the colour each point shows ([None]
    for a transparent point). *)
Record Bitmap := mkBitmap {
  ctx_fillStyle : string;
  ctx_font : string;
  shows : Point -> option string;
}.

(** A context as [getContext('2d')] returns it. *)
Definition blank : Bitmap := mkBitmap "#000000" "10px sans-serif" (fun _ => None).

Section Picture.
Context `{cv : Canvas} `{gl : Glyphs}.

(** The context after one call. *)
Definition paint (b : Bitmap) (c : HostCall) : Bitmap :=
  match c with
  | clearRect x y w h =>
      mkBitmap (ctx_fillStyle b) (ctx_font b)
        (fun p => if decide (p ∈ mkRect x y w h) then None else shows b p)
  | fillStyle color => mkBitmap color (ctx_font b) (shows b)
  | fillRect x y w h =>
      mkBitmap (ctx_fillStyle b) (ctx_font b)
        (fun p => if decide (p ∈ mkRect x y w h) then Some (ctx_fillStyle b) else shows b p)
  | font value => mkBitmap (ctx_fillStyle b) value (shows b)
  | fillText text x y =>
      mkBitmap (ctx_fillStyle b) (ctx_font b)
        (fun p => if ink (ctx_font b) text x y p then Some (ctx_fillStyle b) else shows b p)
  | alert _ | requestAnimationFrame => b
  end.

(** The context after a sequence of calls. *)
Definition paints (b : Bitmap) (out : list HostCall) : Bitmap := foldl paint b out.

(** The points of the bitmap of the canvas. *)
Definition on_canvas (p : Point) : Prop :=
  0 <= px p < canvas_width /\ 0 <= py p < canvas_height.

(** ** What the program draws *)

(** The bird, line 44. *)
Definition bird_square (g : Game) : Rect := mkRect bird_x (birdY g) bird_width bird_height.

(** The two parts of a pipe, lines 68 and 70. *)
Definition pipe_top (pipe : Pipe) : Rect := mkRect (pipe_x pipe) 0 PIPE_WIDTH (pipe_y pipe).

Definition pipe_bottom (pipe : Pipe) : Rect :=
  mkRect (pipe_x pipe) (pipe_y pipe + PIPE_GAP) PIPE_WIDTH
    (canvas_height - pipe_y pipe - PIPE_GAP).

Definition on_pipe (p : Point) (pipe : Pipe) : Prop := p ∈ pipe_top pipe \/ p ∈ pipe_bottom pipe.

#[export] Instance on_pipe_decision p pipe : Decision (on_pipe p pipe).
Proof. unfold on_pipe. apply _. Defined.

(** The bird, as drawn, and a pipe, as drawn, share a point. *)
Definition overlap (g : Game) : Prop :=
  exists p, p ∈ bird_square g /\ Exists (on_pipe p) (pipes g).

(** The state whose score the score line shows. *)
Definition scored (t : Q) (g : Game) : Game :=
  let g2 := g |> set_lastTime t |> update |> updatePipes in
  if checkCollisions g2 then resetGame g2 else g2.

(** The picture of the frame at time [t] from the state [g]: the score,
    over the pipes as [updatePipes] left them, over the bird as
    [bird.update] left it. *)
Definition picture (t : Q) (g : Game) (p : Point) : option string :=
  let g1 := update (set_lastTime t g) in
  let g2 := updatePipes g1 in
  if ink "20px Arial" ("Score: " ++ number_to_string (score (scored t g))) 10 30 p
  then Some (if decide (pipes g2 = []) then bird_color else "green"%string)
  else if decide (Exists (on_pipe p) (pipes g2)) then Some "green"%string
  else if decide (p ∈ bird_square g1) then Some bird_color
  else None.

End Picture.

(** A font whose glyphs are boxes 10 wide that stand 20 high on the base
    line. *)
Definition box_font : Glyphs :=
  {| ink _ text x y p :=
       bool_decide (x <= px p < x + 10 * Z.of_nat (String.length text) /\ y - 20 <= py p < y) |}.

(** A bird near the top of the canvas, behind where the score is
    written, with a pipe far to its right. *)
Definition high_flier : Game := mkGame 5 0 false 2 [mkPipe 250 100] 0.

Section PictureFacts.
Context `{cv : Canvas} `{gl : Glyphs}.
Implicit Types (g : Game) (pipe : Pipe) (p : Point) (b : Bitmap) (out : list HostCall) (t r s : Q).

(** ** Sequences of calls *)

Lemma paints_app b out1 out2 : paints b (out1 ++ out2) = paints (paints b out1) out2.
Proof. apply foldl_app. Qed.

(** The fill style of the context is the one [style_after] follows. *)
Lemma paints_style b out : ctx_fillStyle (paints b out) = style_after (ctx_fillStyle b) out.
Proof.
  unfold paints, style_after. revert b.
  induction out as [|c out IH]; intros b; cbn [foldl]; [done |]. rewrite IH. by destruct c.
Qed.

Lemma style_after_scene style t g :
  style_after style (scene t g)
  = if decide (pipes (updatePipes (update (set_lastTime t g))) = []) then bird_color
    else "green"%string.
Proof.
  unfold scene. cbv zeta. rewrite !style_after_app, drawPipes_concat.
  by rewrite style_after_pipes.
Qed.

(** ** The parts of a frame *)

Lemma shows_clear b p :
  on_canvas p -> shows (paints b [clearRect 0 0 canvas_width canvas_height]) p = None.
Proof.
  intros [Hx Hy]. cbn. case_decide as Hin; [done |]. contradict Hin.
  split; left; cbn; qz.
Qed.

Lemma shows_draw b g p :
  shows (paints b (draw g)) p
  = if decide (p ∈ bird_square g) then Some bird_color else shows b p.
Proof. done. Qed.

Lemma shows_pipe b pipe p :
  shows (paints b (drawPipes_callback pipe)) p
  = if decide (on_pipe p pipe) then Some "green"%string else shows b p.
Proof.
  cbn. fold (pipe_top pipe) (pipe_bottom pipe). unfold on_pipe.
  repeat case_decide; tauto.
Qed.

Lemma shows_pipes b (l : list Pipe) p :
  shows (paints b (concat (map drawPipes_callback l))) p
  = if decide (Exists (on_pipe p) l) then Some "green"%string else shows b p.
Proof.
  revert b. induction l as [|pipe l IH]; intros b; cbn [map concat].
  - case_decide as H; [by apply Exists_nil in H | done].
  - rewrite paints_app, IH, shows_pipe.
    repeat case_decide; try done; rewrite Exists_cons in *; tauto.
Qed.

Lemma shows_scene b t g p :
  on_canvas p ->
  shows (paints b (scene t g)) p
  = if decide (Exists (on_pipe p) (pipes (updatePipes (update (set_lastTime t g)))))
    then Some "green"%string
    else if decide (p ∈ bird_square (update (set_lastTime t g))) then Some bird_color
    else None.
Proof.
  intros Hp. unfold scene. cbv zeta.
  by rewrite !paints_app, drawPipes_concat, shows_pipes, shows_draw, shows_clear.
Qed.

Lemma shows_overlay b t g p :
  shows (paints b (overlay t g)) p
  = if ink "20px Arial" ("Score: " ++ number_to_string (score (scored t g))) 10 30 p
    then Some (ctx_fillStyle b) else shows b p.
Proof. unfold overlay, scored. cbv zeta. by destruct (checkCollisions _). Qed.

(** ** Collisions are overlaps *)

(** Two sides that run forward meet exactly when each starts before the
    other ends and neither is empty. *)
Lemma spans_meet a d a' d' :
  0 <= d -> 0 <= d' ->
  (exists t, spans a d t /\ spans a' d' t) <-> a < a' + d' /\ a' < a + d /\ 0 < d /\ 0 < d'.
Proof.
  intros Hd Hd'. unfold spans. split.
  - intros (t & [?|?] & [?|?]); lra.
  - intros (? & ? & ? & ?). exists (if decide (a <= a') then a' else a).
    case_decide; split; left; lra.
Qed.

(** Two rectangles share a point exactly when their sides meet in both
    directions. *)
Lemma rect_meet (r1 r2 : Rect) :
  (exists p, p ∈ r1 /\ p ∈ r2)
  <-> (exists t, spans (rect_x r1) (rect_w r1) t /\ spans (rect_x r2) (rect_w r2) t)
      /\ (exists t, spans (rect_y r1) (rect_h r1) t /\ spans (rect_y r2) (rect_h r2) t).
Proof.
  split.
  - intros (p & [? ?] & [? ?]). split; [by exists (px p) | by exists (py p)].
  - intros [(tx & ? & ?) (ty & ? & ?)]. by exists (mkPoint tx ty).
Qed.

(** The bird at a height inside the canvas hits a pipe whose gap is
    inside the canvas exactly when its square meets one of the two parts
    of the pipe. *)
Lemma hits_overlap y pipe :
  0 <= y <= canvas_height - bird_height -> gap_in_canvas pipe ->
  hits y pipe <-> exists p, p ∈ mkRect bird_x y bird_width bird_height /\ on_pipe p pipe.
Proof.
  intros Hy [Hg0 Hg1]. rewrite Zle_Qle in Hg0, Hg1.
  transitivity ((exists p, p ∈ mkRect bird_x y bird_width bird_height /\ p ∈ pipe_top pipe)
                \/ (exists p, p ∈ mkRect bird_x y bird_width bird_height /\ p ∈ pipe_bottom pipe));
    [| unfold on_pipe; split;
       [intros [(p & ? & ?)|(p & ? & ?)]; exists p; auto
       | intros (p & ? & [?|?]); [left | right]; by exists p]].
  unfold pipe_top, pipe_bottom, bird_x, bird_width, bird_height, PIPE_WIDTH, PIPE_GAP in *.
  rewrite !rect_meet. cbn [rect_x rect_y rect_w rect_h].
  rewrite !spans_meet by qz.
  unfold hits, in_column, outside_gap, bird_x, bird_width, bird_height, PIPE_WIDTH, PIPE_GAP.
  rewrite Z.gt_lt_iff, !Zlt_Qlt. split.
  - intros [[? ?] [?|?]]; [left | right]; split_and?; qz.
  - intros [H|H]; destruct H as ((? & ? & _) & (? & ? & _)); (split; [split; qz |]);
      [left | right]; qz.
Qed.

(** The loop of [checkCollisions] finds a pipe exactly when the square
    of the bird meets one. *)
Lemma checkCollisions_overlap g :
  bird_in_canvas g -> Forall gap_in_canvas (pipes g) ->
  checkCollisions g = true <-> overlap g.
Proof.
  intros Hb Hgaps. unfold checkCollisions, overlap, bird_square.
  rewrite checkCollisions_loop_spec, Exists_exists. split.
  - intros (pipe & Hin & Hhit). rewrite Forall_forall in Hgaps.
    apply hits_overlap in Hhit as (p & Hp & Hon); [| done | by apply Hgaps].
    exists p. split; [done |]. apply Exists_exists. by exists pipe.
  - intros (p & Hp & Hex). apply Exists_exists in Hex as (pipe & Hin & Hon).
    exists pipe. split; [done |]. rewrite Forall_forall in Hgaps.
    apply hits_overlap; [done | by apply Hgaps | by exists p].
Qed.

(** ** The picture of a frame *)

Lemma shows_frame b t r s g p :
  on_canvas p -> shows (paints b (gameLoop t r s g).2) p = picture t g p.
Proof.
  intros Hp. rewrite gameLoop_scene, paints_app, shows_overlay, paints_style.
  by rewrite style_after_scene, shows_scene.
Qed.

(** Key events draw nothing. *)
Lemma run_keys (keys : list string) g : (run (KeyDown <$> keys) g).2 = [].
Proof.
  revert g. induction keys as [|key keys IH]; intros g; [done |].
  by rewrite fmap_cons, run_cons, IH.
Qed.

(** The points of the bird's square are points of a canvas that is wide
    enough. *)
Lemma bird_square_on_canvas g p :
  bird_in_canvas g -> (bird_x + bird_width <= canvas_width)%Z -> p ∈ bird_square g -> on_canvas p.
Proof.
  intros [Hy0 Hy1] Hw [Hx Hy]. unfold bird_square, spans in *. cbn in Hx, Hy.
  unfold bird_x, bird_width, bird_height in *. split; split; qz.
Qed.

Section Playing.
Context `{pl : !Playable}.

(** The state the collision test of a frame sees. *)
Lemma tested_ok t g :
  game_ok g ->
  bird_in_canvas (updatePipes (update (set_lastTime t g)))
  /\ Forall gap_in_canvas (pipes (updatePipes (update (set_lastTime t g)))).
Proof.
  intros Hg. pose proof (updatePipes_ok _ (update_ok _ (set_lastTime_ok t g Hg))) as (? & _ & _ & ?).
  done.
Qed.


(** In a frame that finds a collision, on a canvas that holds the bird's
    column, a point of the bird's square shows the green of a pipe: the
    pipes are drawn over the bird. *)
Lemma collision_shows b t r s g :
  game_ok g -> (bird_x + bird_width <= canvas_width)%Z -> collides t g = true ->
  exists p, p ∈ bird_square (update (set_lastTime t g))
    /\ shows (paints b (gameLoop t r s g).2) p = Some "green"%string.
Proof.
  intros Hg Hw Hc. destruct (tested_ok t g Hg) as [Hb Hgaps].
  apply checkCollisions_overlap in Hc as (p & Hp & Hex); [| done..].
  unfold bird_square in Hp. rewrite updatePipes_birdY in Hp. exists p. split; [done |].
  rewrite shows_frame by (eapply bird_square_on_canvas; [apply update_ok, set_lastTime_ok, Hg | done..]).
  unfold picture. cbv zeta. destruct (ink _ _ _ _ _).
  - rewrite decide_False; [done |]. intros Hnil. rewrite Hnil in Hex. by apply Exists_nil in Hex.
  - by rewrite decide_True.
Qed.

(** In a frame that finds no collision every point of the bird's square
    that the score does not cover shows the bird. *)
Lemma clear_shows_bird b t r s g p :
  game_ok g -> on_canvas p -> collides t g = false ->
  p ∈ bird_square (update (set_lastTime t g)) ->
  ink "20px Arial" ("Score: " ++ number_to_string (score (scored t g))) 10 30 p = false ->
  shows (paints b (gameLoop t r s g).2) p = Some bird_color.
Proof.
  intros Hg Hp Hc Hin Hink. destruct (tested_ok t g Hg) as [Hb Hgaps].
  rewrite shows_frame by done. unfold picture. cbv zeta. rewrite Hink.
  rewrite decide_False, decide_True; [done.. |]. intros Hex.
  apply not_true_iff_false in Hc. apply Hc, checkCollisions_overlap; [done.. |].
  exists p. split; [| done]. unfold bird_square. by rewrite updatePipes_birdY.
Qed.

End Playing.

(** C28: what the canvas shows.  After any sequence of events whose last
    frame is [gameLoop(t)], and any key events since, every point of the
    canvas shows the picture of that frame alone, whatever the canvas
    showed before: the score of the state the frame leaves, in the fill
    style the pipes left (green, or the bird's yellow when no pipe is on
    screen: the program sets no style for its text); under it the pipes
    as [updatePipes] left them; under them the bird as [bird.update] left
    it; everything else is transparent. *)
Theorem run_picture b es t r s (keys : list string) g p :
  on_canvas p ->
  shows (paints b (run (es ++ AnimationFrame t r s :: (KeyDown <$> keys)) g).2) p
  = picture t (run es g).1 p.
Proof.
  intros Hp. rewrite run_app, run_cons. cbn [fst snd handle].
  by rewrite run_keys, app_nil_r, paints_app, shows_frame.
Qed.

End PictureFacts.

(** ** The theorems at concrete states, on the portrait canvas *)


(** After a frame that spawns, a frame that does not, and a press of the
    space key, the point (60, 310) shows the picture of the second
    frame. *)
Lemma run_picture_witness :
  shows (@paints box_font blank
           (@run portrait_canvas
              ([spawning_frame] ++ AnimationFrame 32 0.5 0.5 :: (KeyDown <$> [" "%string]))
              (@initial portrait_canvas)).2) (mkPoint 60 310)
  = @picture portrait_canvas box_font 32 (@run portrait_canvas [spawning_frame] (@initial portrait_canvas)).1
      (mkPoint 60 310).
Proof.
  apply (@run_picture portrait_canvas box_font blank [spawning_frame] 32 0.5 0.5
           [" "%string] (@initial portrait_canvas) (mkPoint 60 310)).
  repeat split; compute_done.
Defined.

(** That point is the bird's, two frames into its fall. *)
Lemma picture_shows_bird :
  @picture portrait_canvas box_font 32 (@run portrait_canvas [spawning_frame] (@initial portrait_canvas)).1
    (mkPoint 60 310) = Some "yellow"%string.
Proof. by vm_compute. Qed.

(** The score is written over the bird, in the green of the pipes: in
    the frame after [high_flier] the point (60, 20) is the bird's and no
    pipe's, and shows green. *)
Lemma score_over_bird :
  mkPoint 60 20 ∈ bird_square (@update portrait_canvas (set_lastTime 16 high_flier))
  /\ ~ Exists (@on_pipe portrait_canvas (mkPoint 60 20))
        (pipes (updatePipes (@update portrait_canvas (set_lastTime 16 high_flier))))
  /\ @picture portrait_canvas box_font 16 high_flier (mkPoint 60 20) = Some "green"%string.
Proof. split_and!; [compute_done | compute_done | by vm_compute]. Qed.
