(* ===== verification/Host.v ===== *)
(** * Host: the script as an interaction tree

    [Session] gives [gameLoop] its two draws of [Math.random] as
    arguments and returns the calls it makes as a list.  Here the program
    is written with its effects where the source has them: an
    interaction tree over the events [HostE], in which [Math.random()]
    (lines 50 and 115) asks the host for a number, every call on the
    context, [alert] and [requestAnimationFrame] is an event in the order
    of the source, and [Await] is the script returning to the host, which
    then calls back: [gameLoop] with a time stamp, or the [keydown]
    listener with a key.  The script never ends: [script] is the request
    of line 136 followed by [event_loop], a tree without leaves.

    [host_handler] is a host: a schedule of callbacks, a generator of
    random numbers, the frames it owes, and the calls it has received.
    It delivers a frame only when one was requested, and when its
    schedule is exhausted it leaves the script waiting.

    The theorems run a prefix of the loop against [Session.run], show of
    all the calls the script ever makes, under whatever host, what
    [Render] shows of one frame, carry that from the tree to the log of
    the host, and give the picture the log paints ([Picture]). *)

From ITree Require Import ITree ITreeFacts Events.State Events.StateFacts.
From ITree Require Import Props.HasPost Props.Leaf Props.Finite.
From Paco Require Import paco.
From S2P Require Import Prelude JsArray Globals Bird Pipes PipesOrder Collision Session Render.
From S2P Require Import Picture.

Local Open Scope Q_scope.

Declare Scope host_scope.
Delimit Scope host_scope with host.

(** Sequencing, as the source sequences its statements. *)
Notation "'let*' x ':=' t 'in' k" := (ITree.bind t (fun x => k))
  (at level 10, x name, t at level 100, k at level 200, only parsing) : host_scope.

Local Open Scope host_scope.

(** ** The events *)

(** What the host calls back with: [gameLoop] and its time stamp, or the
    [keydown] listener and the key. *)
Inductive Callback :=
| FrameCallback (timestamp : Q)
| KeyCallback (key : string).

(** What the script does to the host: it returns and waits to be called
    back; it calls [Math.random()]; it makes a call. *)
Variant HostE : Type -> Type :=
| Await : HostE Callback
| Math_random : HostE Q
| Host (c : HostCall) : HostE unit.

Definition call (c : HostCall) : itree HostE unit := ITree.trigger (Host c).

(** Calls one after the other. *)
Fixpoint calls (l : list HostCall) : itree HostE unit :=
  match l with
  | [] => Ret tt
  | c :: l' => let* _ := call c in calls l'
  end.

(** ** The program *)

Section Program.
Context `{cv : Canvas}.

(** [spawnPipe()], lines 49-52. *)
Definition spawnPipe_tree (g : Game) : itree HostE Game :=
  let* rnd := ITree.trigger Math_random in
  Ret (spawnPipe rnd g).

(** [gameLoop(timestamp)], lines 93-118. *)
Definition gameLoop_tree (timestamp : Q) (g : Game) : itree HostE Game :=
  let deltaTime := timestamp - lastTime g in
  let g := set_lastTime timestamp g in
  let* _ := call (clearRect 0 0 canvas_width canvas_height) in
  let g := update g in
  let* _ := calls (draw g) in
  let g := updatePipes g in
  let* _ := calls (drawPipes g) in
  let* g := (if checkCollisions g
             then let* _ := call (game_over_alert g) in
                  Ret (resetGame g)
             else Ret g) in
  let* _ := call (font "20px Arial") in
  let* _ := call (fillText ("Score: " ++ number_to_string (score g)) 10 30) in
  let* random1 := ITree.trigger Math_random in
  let* g := (if decide (random1 < 1 / SPAWN_RATE) then spawnPipe_tree g else Ret g) in
  let* _ := call requestAnimationFrame in
  Ret g.

(** What a callback runs: [gameLoop], or the listener of lines 129-133. *)
Definition on_callback (cb : Callback) (g : Game) : itree HostE Game :=
  match cb with
  | FrameCallback timestamp => gameLoop_tree timestamp g
  | KeyCallback key => Ret (keydown key g)
  end.

(** The script between two callbacks, for ever. *)
Definition event_loop : Game -> itree HostE void :=
  ITree.iter (fun g =>
    let* cb := ITree.trigger Await in
    let* g := on_callback cb g in
    Ret (inl g)).

(** The script as the page loads it: the variables are initialised and
    the first frame is requested (line 136). *)
Definition script : itree HostE void :=
  let* _ := call requestAnimationFrame in
  event_loop initial.

(** The first [n] callbacks, and the script up to them. *)
Fixpoint callbacks (n : nat) (g : Game) : itree HostE Game :=
  match n with
  | O => Ret g
  | S n' =>
      let* cb := ITree.trigger Await in
      let* g := on_callback cb g in
      callbacks n' g
  end.

Definition script_prefix (n : nat) : itree HostE Game :=
  let* _ := call requestAnimationFrame in
  callbacks n initial.

End Program.

(** ** A host *)

Record HostState := mkHost {
  host_schedule : list Callback;
  host_random : nat -> Q;
  host_draws : nat;
  host_pending : nat;
  host_calls : list HostCall;
}.

(** The host can make the callback: a frame must have been requested. *)
Definition deliverable (cb : Callback) (h : HostState) : bool :=
  match cb with
  | FrameCallback _ => bool_decide (0 < host_pending h)%nat
  | KeyCallback _ => true
  end.

(** The host after it made the callback [cb], the first of its schedule. *)
Definition delivered (cb : Callback) (h : HostState) : HostState :=
  mkHost (tail (host_schedule h)) (host_random h) (host_draws h)
    (match cb with FrameCallback _ => host_pending h - 1 | KeyCallback _ => host_pending h end)
    (host_calls h).

(** The host after it answered [draws] calls of [Math.random()] and
    received the calls [out]. *)
Definition served (draws : nat) (out : list HostCall) (h : HostState) : HostState :=
  mkHost (host_schedule h) (host_random h) (host_draws h + draws)
    (host_pending h + requests out) (host_calls h ++ out).

(** The host answers the script.  With nothing to deliver it does not
    call back, and the script waits for ever. *)
Definition host_handler : HostE ~> Monads.stateT HostState (itree void1) :=
  fun _ e h =>
    match e with
    | Await =>
        match host_schedule h with
        | cb :: _ => if deliverable cb h then Ret (delivered cb h, cb) else ITree.spin
        | [] => ITree.spin
        end
    | Math_random => Ret (served 1 [] h, host_random h (host_draws h))
    | Host c => Ret (served 0 [c] h, tt)
    end.

(** ** The schedule of the host as events of [Session] *)

(** The calls of [Math.random()] in a frame whose first draw is [random1]:
    one for the test of line 115, one more in [spawnPipe]. *)
Definition draws_of (random1 : Q) : nat :=
  if decide (random1 < 1 / SPAWN_RATE) then 2 else 1.

Definition event_draws (e : Event) : nat :=
  match e with
  | AnimationFrame _ random1 _ => draws_of random1
  | KeyDown _ => 0
  end.

Section Feed.
Context `{cv : Canvas}.

(** The event of [Session] that a callback is when the generator has
    answered [n] times. *)
Definition callback_event (random : nat -> Q) (n : nat) (cb : Callback) : Event :=
  match cb with
  | FrameCallback timestamp => AnimationFrame timestamp (random n) (random (S n))
  | KeyCallback key => KeyDown key
  end.

(** The callbacks [cbs] from the state [g] as events: the second draw of
    a frame is the first of the next unless the frame spawns. *)
Fixpoint feed (random : nat -> Q) (n : nat) (cbs : list Callback) (g : Game) : list Event :=
  match cbs with
  | [] => []
  | cb :: cbs' =>
      let e := callback_event random n cb in
      e :: feed random (n + event_draws e) cbs' (handle e g).1
  end.

End Feed.

(** The draws of a sequence of events. *)
Definition draws (es : list Event) : nat := sum_list (map event_draws es).

(** ** What holds of every call, for ever

    [always P Q t]: whatever the host calls back with and whatever
    numbers in [0, 1) [Math.random()] returns, every call that [t] makes
    satisfies [P], and if [t] ends its result satisfies [Q].  The trees
    can be infinite, so the predicate is the greatest one closed under
    [alwaysF]. *)

Variant alwaysF (P : HostCall -> Prop) {R} (Q : R -> Prop) (sim : itree HostE R -> Prop) :
  itree' HostE R -> Prop :=
| always_ret x : Q x -> alwaysF P Q sim (RetF x)
| always_tau t : sim t -> alwaysF P Q sim (TauF t)
| always_await k : (forall cb, sim (k cb)) -> alwaysF P Q sim (VisF Await k)
| always_random k :
    (forall rnd, 0 <= rnd < 1 -> sim (k rnd)) -> alwaysF P Q sim (VisF Math_random k)
| always_call c k : P c -> sim (k tt) -> alwaysF P Q sim (VisF (Host c) k).

Definition always_ (P : HostCall -> Prop) {R} (Q : R -> Prop) (sim : itree HostE R -> Prop)
    (t : itree HostE R) : Prop :=
  alwaysF P Q sim (observe t).

Definition always (P : HostCall -> Prop) {R} (Q : R -> Prop) : itree HostE R -> Prop :=
  paco1 (always_ P Q) bot1.

(** A host of which [always] speaks: its generator answers in [0, 1),
    and the calls it has received so far satisfy [P]. *)
Definition host_ok (P : HostCall -> Prop) (h : HostState) : Prop :=
  Forall P (host_calls h) /\ forall n, 0 <= host_random h n < 1.

(** ** What the host has after serving the script *)

Lemma served_served d1 d2 out1 out2 h :
  served d2 out2 (served d1 out1 h) = served (d1 + d2) (out1 ++ out2) h.
Proof.
  unfold served. cbn. f_equal; [lia | rewrite requests_app; lia | by rewrite app_assoc].
Qed.

Lemma served_nothing h : served 0 [] h = h.
Proof. destruct h. unfold served. cbn. f_equal; [lia | lia | apply app_nil_r]. Qed.

(** ** Running the pieces of a frame *)

Section Run.
Context `{cv : Canvas}.
Implicit Types (g : Game) (h : HostState) (c : HostCall) (out : list HostCall) (t : Q).

Lemma call_run c h : interp_state host_handler (call c) h ≈ Ret (served 0 [c] h, tt).
Proof. unfold call. by rewrite interp_state_trigger. Qed.

Lemma random_run h :
  interp_state host_handler (ITree.trigger Math_random) h
  ≈ Ret (served 1 [] h, host_random h (host_draws h)).
Proof. by rewrite interp_state_trigger. Qed.

Lemma calls_run out h : interp_state host_handler (calls out) h ≈ Ret (served 0 out h, tt).
Proof.
  revert h. induction out as [|c out IH]; intros h; cbn [calls].
  - by rewrite interp_state_ret, served_nothing.
  - rewrite interp_state_bind, call_run, bind_ret_l. cbn. by rewrite IH, served_served.
Qed.

(** Lines 105-108. *)
Lemma collision_block_run g h :
  interp_state host_handler
    (if checkCollisions g
     then let* _ := call (game_over_alert g) in
          Ret (resetGame g)
     else Ret g) h
  ≈ Ret (served 0 (if checkCollisions g then [game_over_alert g] else []) h,
         if checkCollisions g then resetGame g else g).
Proof.
  destruct (checkCollisions g).
  - by rewrite interp_state_bind, call_run, bind_ret_l, interp_state_ret.
  - by rewrite interp_state_ret, served_nothing.
Qed.

(** Line 115, after the draw [random1]. *)
Lemma spawn_block_run random1 g h :
  interp_state host_handler
    (if decide (random1 < 1 / SPAWN_RATE) then spawnPipe_tree g else Ret g) h
  ≈ Ret (served (draws_of random1 - 1) [] h,
         if decide (random1 < 1 / SPAWN_RATE)
         then spawnPipe (host_random h (host_draws h)) g else g).
Proof.
  unfold draws_of, spawnPipe_tree. case_decide.
  - by rewrite interp_state_bind, random_run, bind_ret_l, interp_state_ret.
  - by rewrite interp_state_ret, served_nothing.
Qed.

(** Steps through a sequence of statements. *)
Ltac run_step :=
  first
    [ rewrite interp_state_bind
    | rewrite call_run | rewrite calls_run | rewrite random_run
    | rewrite collision_block_run | rewrite spawn_block_run
    | rewrite interp_state_ret | rewrite bind_ret_l ];
  cbn [fst snd].

(** A frame: the state is the one [Session.gameLoop] returns for the two
    numbers the generator gives next, the calls are the calls it lists,
    and the generator has answered once, or twice when a pipe was
    spawned. *)
Lemma gameLoop_tree_run t g h :
  let random1 := host_random h (host_draws h) in
  let random2 := host_random h (S (host_draws h)) in
  interp_state host_handler (gameLoop_tree t g) h
  ≈ Ret (served (draws_of random1) (gameLoop t random1 random2 g).2 h,
         frame_state t random1 random2 g).
Proof.
  intros random1 random2. unfold gameLoop_tree. cbv zeta. repeat run_step.
  rewrite !served_served. cbn [served host_random host_draws].
  rewrite ?Nat.add_0_l, ?Nat.add_0_r, Nat.add_1_r. fold random1 random2.
  unfold frame_state. rewrite gameLoop_calls, frame_normal. cbv zeta.
  change (checkCollisions (set_lastTime t ?x)) with (checkCollisions x).
  apply eqit_Ret. do 2 f_equal.
  - unfold draws_of. case_decide; lia.
  - by destruct (checkCollisions _).
Qed.

(** ** Running the first callbacks *)

Lemma await_run cb cbs h :
  host_schedule h = cb :: cbs -> deliverable cb h = true ->
  interp_state host_handler (ITree.trigger Await) h ≈ Ret (delivered cb h, cb).
Proof. intros Hs Hd. rewrite interp_state_trigger. cbn. by rewrite Hs, Hd. Qed.

(** One callback: the state and the calls are those of [Session.handle]
    on the event the callback is. *)
Lemma callback_run cb cbs g h :
  host_schedule h = cb :: cbs -> (0 < host_pending h)%nat ->
  let e := callback_event (host_random h) (host_draws h) cb in
  interp_state host_handler (let* cb := ITree.trigger Await in on_callback cb g) h
  ≈ Ret (mkHost cbs (host_random h) (host_draws h + event_draws e) (host_pending h)
           (host_calls h ++ (handle e g).2), (handle e g).1).
Proof.
  intros Hs Hp e. assert (deliverable cb h = true) as Hd
    by (destruct cb; [by apply bool_decide_eq_true_2 | done]).
  rewrite interp_state_bind, (await_run cb cbs h Hs Hd), bind_ret_l. cbn [fst snd].
  subst e. destruct cb as [t | key]; cbn [on_callback callback_event handle event_draws].
  - rewrite gameLoop_tree_run. cbn [delivered host_random host_draws]. apply eqit_Ret.
    rewrite gameLoop_state. f_equal. unfold served. cbn. rewrite Hs, requests_gameLoop.
    f_equal. lia.
  - rewrite interp_state_ret. apply eqit_Ret. f_equal. unfold delivered. rewrite Hs. cbn.
    f_equal; [lia | by rewrite app_nil_r].
Qed.

Lemma callbacks_S n g :
  callbacks (S n) g
  ≅ (let* g' := (let* cb := ITree.trigger Await in on_callback cb g) in callbacks n g').
Proof. cbn [callbacks]. by rewrite bind_bind. Qed.

Lemma draws_cons e es : draws (e :: es) = (event_draws e + draws es)%nat.
Proof. done. Qed.

Lemma callbacks_run_from cbs g h :
  host_schedule h = cbs -> (0 < host_pending h)%nat ->
  let es := feed (host_random h) (host_draws h) cbs g in
  interp_state host_handler (callbacks (length cbs) g) h
  ≈ Ret (mkHost [] (host_random h) (host_draws h + draws es) (host_pending h)
           (host_calls h ++ (run es g).2), (run es g).1).
Proof.
  revert g h. induction cbs as [|cb cbs IH]; intros g h Hs Hp es; subst es.
  - cbn. rewrite interp_state_ret. apply eqit_Ret. destruct h. cbn in *. subst.
    do 2 f_equal; [lia | by rewrite app_nil_r].
  - cbn [length feed]. rewrite callbacks_S, interp_state_bind, (callback_run cb cbs g h Hs Hp).
    rewrite bind_ret_l. cbn [fst snd]. rewrite IH by done. cbn [host_random host_draws].
    apply eqit_Ret. rewrite run_cons, draws_cons. cbn. do 2 f_equal; [lia | by rewrite app_assoc].
Qed.

(** The script up to the last callback of a schedule. *)
Lemma script_prefix_run cbs random :
  let es := feed random 0 cbs initial in
  interp_state host_handler (script_prefix (length cbs)) (mkHost cbs random 0 0 [])
  ≈ Ret (mkHost [] random (draws es) 1 (requestAnimationFrame :: (run es initial).2),
         (run es initial).1).
Proof.
  intros es. unfold script_prefix.
  rewrite interp_state_bind, call_run, bind_ret_l. cbn [fst snd].
  by rewrite callbacks_run_from by (cbn; done || lia).
Qed.

(** ** Schedules in parts *)

Lemma feed_app random n cbs1 cbs2 g :
  feed random n (cbs1 ++ cbs2) g
  = feed random n cbs1 g
    ++ feed random (n + draws (feed random n cbs1 g)) cbs2 (run (feed random n cbs1 g) g).1.
Proof.
  revert n g. induction cbs1 as [|cb cbs1 IH]; intros n g; cbn [app feed].
  - by rewrite Nat.add_0_r.
  - rewrite IH, draws_cons, run_cons, Nat.add_assoc. done.
Qed.

Lemma feed_keys random n (keys : list string) g :
  feed random n (KeyCallback <$> keys) g = KeyDown <$> keys.
Proof.
  revert n g. induction keys as [|key keys IH]; intros n g; [done |].
  rewrite !fmap_cons. cbn [feed callback_event]. by rewrite IH.
Qed.

(** ** What the canvas shows under the host

    When the host has made the callbacks of a schedule whose last frame
    is at time [t], the calls it has received paint the picture of that
    frame, from the state the callbacks before it led to. *)
Lemma script_shows `{gl : Glyphs} cbs t (keys : list string) random p :
  on_canvas p ->
  let schedule := cbs ++ FrameCallback t :: (KeyCallback <$> keys) in
  exists h g,
    interp_state host_handler (script_prefix (length schedule)) (mkHost schedule random 0 0 [])
    ≈ Ret (h, g)
    /\ shows (paints blank (host_calls h)) p
       = picture t (run (feed random 0 cbs initial) initial).1 p.
Proof.
  intros Hp schedule. eexists _, _. split; [apply script_prefix_run |].
  cbn [host_calls]. unfold schedule. rewrite feed_app. cbn [feed callback_event].
  rewrite feed_keys, run_app, run_cons. cbn [fst snd handle].
  change (paints blank (requestAnimationFrame :: ?out)) with (paints blank out).
  by rewrite run_keys, app_nil_r, paints_app, shows_frame.
Qed.

(** ** The loop *)

(** The loop is its first [n] callbacks and the loop again. *)
Lemma event_loop_callbacks n g :
  event_loop g ≈ (let* g' := callbacks n g in event_loop g').
Proof.
  revert g. induction n as [|n IH]; intros g; [cbn; by rewrite bind_ret_l |].
  rewrite callbacks_S. unfold event_loop at 1. rewrite unfold_iter, !bind_bind.
  eapply eutt_clo_bind; [reflexivity |]. intros cb ? <-. rewrite bind_bind.
  eapply eutt_clo_bind; [reflexivity |]. intros g' ? <-. rewrite bind_ret_l. cbn.
  rewrite tau_eutt. apply IH.
Qed.

(** C18: the script under a host.  For every schedule of callbacks and
    every generator of random numbers, the script is its run up to the
    last callback of the schedule followed by the loop from the state
    reached; and that run ends: the host has made every callback, the
    variables and the calls are those of [Session.run] on the events the
    callbacks are ([feed]: each frame takes its first draw where the
    frame before stopped, and a second one only when it spawns), the
    first call is the request of line 136, the generator has answered
    [draws] times and exactly one frame is owed. *)
Theorem script_runs cbs random :
  let es := feed random 0 cbs initial in
  script ≈ (let* g := script_prefix (length cbs) in event_loop g)
  /\ interp_state host_handler (script_prefix (length cbs)) (mkHost cbs random 0 0 [])
     ≈ Ret (mkHost [] random (draws es) 1 (requestAnimationFrame :: (run es initial).2),
            (run es initial).1).
Proof.
  intros es. unfold script, script_prefix. split.
  - rewrite bind_bind. eapply eutt_clo_bind; [reflexivity |]. intros _ _ _.
    apply event_loop_callbacks.
  - apply script_prefix_run.
Qed.

End Run.

(** ** Every call the script ever makes *)

Section Always.
Context (P : HostCall -> Prop).

Lemma always_mon {R} (Q : R -> Prop) : monotone1 (always_ P Q).
Proof. intros t r r' H LE. unfold always_ in *. destruct H; constructor; auto. Qed.

#[local] Hint Resolve always_mon : paco.

Lemma always_bind {R S} (Q : R -> Prop) (Q' : S -> Prop) r t (k : R -> itree HostE S) :
  always P Q t -> (forall x, Q x -> paco1 (always_ P Q') r (k x)) ->
  paco1 (always_ P Q') r (ITree.bind t k).
Proof.
  intros Ht Hk. revert t Ht. pcofix CIH. intros t Ht. punfold Ht. unfold always_ in Ht.
  pfold. unfold always_. rewrite observe_bind.
  destruct Ht as [x Hx | t0 H0 | k0 H0 | k0 H0 | c k0 Hc H0]; cbn; pclearbot.
  - assert (paco1 (always_ P Q') r0 (k x)) as Hk'
      by (eapply paco1_mon; [by apply Hk | apply CIH0]).
    by punfold Hk'.
  - constructor. right. apply CIH. exact H0.
  - constructor. intros cb. right. apply CIH. exact (H0 cb).
  - constructor. intros rnd Hr. right. apply CIH. exact (H0 rnd Hr).
  - constructor; [done |]. right. apply CIH. exact H0.
Qed.

Lemma always_weaken {R} (Q Q' : R -> Prop) t :
  (forall x, Q x -> Q' x) -> always P Q t -> always P Q' t.
Proof.
  intros HQ. revert t. pcofix CIH. intros t Ht. punfold Ht. unfold always_ in Ht.
  pfold. unfold always_.
  destruct Ht as [x Hx | t0 H0 | k0 H0 | k0 H0 | c k0 Hc H0]; pclearbot.
  - constructor. by apply HQ.
  - constructor. right. apply CIH. exact H0.
  - constructor. intros cb. right. apply CIH. exact (H0 cb).
  - constructor. intros rnd Hr. right. apply CIH. exact (H0 rnd Hr).
  - constructor; [done |]. right. apply CIH. exact H0.
Qed.

(** What the predicate says of the first node of a tree. *)
Lemma alwaysF_node {R} (Q : R -> Prop) sim (ot : itree' HostE R) :
  alwaysF P Q sim ot ->
  match ot with
  | VisF e _ => match e with Host c => P c | _ => True end
  | _ => True
  end.
Proof. by destruct 1. Qed.

(** The rules of the statements of the script. *)
Lemma always_Ret {R} (Q : R -> Prop) r x : Q x -> paco1 (always_ P Q) r (Ret x).
Proof. intros Hx. pfold. by constructor. Qed.

Lemma always_call_tree c : P c -> always P (fun _ => True) (call c).
Proof. intros Hc. pfold. constructor; [done |]. left. by apply always_Ret. Qed.

Lemma always_calls l : Forall P l -> always P (fun _ => True) (calls l).
Proof.
  induction 1 as [|c l Hc Hl IH]; cbn [calls]; [by apply always_Ret |].
  apply (always_bind (fun _ => True)); [by apply always_call_tree | done].
Qed.

Lemma always_random_tree : always P (fun rnd => 0 <= rnd < 1) (ITree.trigger Math_random).
Proof. pfold. constructor. intros rnd Hr. left. by apply always_Ret. Qed.

Lemma always_await_tree : always P (fun _ => True) (ITree.trigger Await).
Proof. pfold. constructor. intros cb. left. by apply always_Ret. Qed.

(** The rule of a loop: an invariant of its body holds for ever. *)
Lemma always_iter {I R} (Inv : I -> Prop) (Q : R -> Prop) (body : I -> itree HostE (I + R)) :
  (forall i, Inv i ->
     always P (fun lr => match lr with inl i' => Inv i' | inr x => Q x end) (body i)) ->
  forall i, Inv i -> always P Q (ITree.iter body i).
Proof.
  intros Hbody. pcofix CIH. intros i Hi.
  assert (paco1 (always_ P Q) r
            (ITree.bind (body i) (fun lr => ITree.on_left lr l (Tau (ITree.iter body l))))) as H.
  { eapply always_bind; [by apply Hbody |]. intros [i' | x] Hx.
    - pfold. constructor. right. by apply CIH.
    - by apply always_Ret. }
  pfold. exact (paco1_unfold (always_mon Q) H).
Qed.

(** ** The predicate under the host

    What [always] promises is kept by [host_handler]: when a tree that
    satisfies [always P Q] runs to its end under a host, every call in
    the log of the host satisfies [P] and the result satisfies [Q]. *)

Lemma served_ok d out h : host_ok P h -> Forall P out -> host_ok P (served d out h).
Proof. intros [Hc Hr] Hout. split; [by apply Forall_app | done]. Qed.

Lemma delivered_ok cb h : host_ok P h -> host_ok P (delivered cb h).
Proof. by intros [Hc Hr]. Qed.

(** A script that waits for a callback that never comes ends in no
    state. *)
Lemma waiting_has_post {S T} (k : S -> itree void1 T) (Q : T -> Prop) :
  has_post (ITree.bind ITree.spin k) Q.
Proof.
  apply has_post_Leaf_equiv. intros x Hx. apply Leaf_bind_inv in Hx as (a & Ha & _).
  by apply spin_empty_Leaf in Ha.
Qed.

Lemma always_has_post {R} (Q : R -> Prop) t h :
  always P Q t -> host_ok P h ->
  has_post (interp_state host_handler t h) (fun x => host_ok P x.1 /\ Q x.2).
Proof.
  set (post := fun x : HostState * R => host_ok P x.1 /\ Q x.2).
  revert t h. unfold has_post. ginit. gcofix CIH. intros t h Ht Hh.
  rewrite unfold_interp_state. punfold Ht. unfold always_ in Ht.
  destruct Ht as [x Hx | t0 H0 | k0 H0 | k0 H0 | c k0 Hc H0]; cbn; pclearbot.
  - gstep. by constructor.
  - gstep. constructor. gfinal. left. by apply CIH.
  - destruct (host_schedule h) as [|cb ?]; [| destruct (deliverable cb h)].
    + gfinal. right. eapply paco2_mon_bot; [apply (waiting_has_post _ post) | auto].
    + rewrite bind_ret_l. gstep. constructor. gfinal. left.
      apply CIH; [apply H0 | by apply delivered_ok].
    + gfinal. right. eapply paco2_mon_bot; [apply (waiting_has_post _ post) | auto].
  - rewrite bind_ret_l. gstep. constructor. gfinal. left.
    apply CIH; [apply H0, Hh | by apply served_ok].
  - rewrite bind_ret_l. gstep. constructor. gfinal. left.
    apply CIH; [apply H0 | apply served_ok; [done | by constructor]].
Qed.

Lemma always_log {R} (Q : R -> Prop) t h h' x :
  always P Q t -> host_ok P h -> interp_state host_handler t h ≈ Ret (h', x) ->
  host_ok P h' /\ Q x.
Proof.
  intros Ht Hh Hrun.
  apply (has_post_Leaf (interp_state host_handler t h) (fun y => host_ok P y.1 /\ Q y.2) (h', x));
    [by apply always_has_post |].
  rewrite Hrun. apply Leaf_Ret.
Qed.

End Always.

#[export] Hint Resolve always_mon : paco.

(** ** The rectangles of the script *)

Section Rows.
Context `{cv : Canvas} `{pl : !Playable}.
Implicit Types (g : Game) (t : Q).

Lemma clearRect_in_rows : call_in_rows (clearRect 0 0 canvas_width canvas_height).
Proof.
  pose proof canvas_width_nonneg. pose proof canvas_height_nonneg.
  repeat split; qz.
Qed.

(** One statement that makes calls, then the rest. *)
Ltac always_calls_then :=
  eapply (always_bind _ (fun _ => True));
  [ first [ apply always_call_tree | apply always_calls ] | intros _ _ ].

Lemma collision_block_always g :
  game_scrolled g ->
  always call_in_rows game_scrolled
    (if checkCollisions g
     then let* _ := call (game_over_alert g) in
          Ret (resetGame g)
     else Ret g).
Proof.
  intros Hg. destruct (checkCollisions g); [| by apply always_Ret].
  always_calls_then; [done |]. apply always_Ret, resetGame_scrolled.
Qed.

Lemma spawn_block_always random1 g :
  game_scrolled g ->
  always call_in_rows game_ok
    (if decide (random1 < 1 / SPAWN_RATE) then spawnPipe_tree g else Ret g).
Proof.
  intros Hg. case_decide; [| by apply always_Ret, game_scrolled_ok].
  eapply always_bind; [apply always_random_tree |]. intros rnd Hr.
  by apply always_Ret, spawnPipe_ok.
Qed.

(** A frame from a state that satisfies the invariant of the session
    draws inside the rows of the canvas and returns such a state. *)
Lemma gameLoop_tree_always t g :
  game_ok g -> always call_in_rows game_ok (gameLoop_tree t g).
Proof.
  intros Hg. pose proof (update_ok _ (set_lastTime_ok t g Hg)) as Hu.
  pose proof (updatePipes_ok _ Hu) as Hs. unfold gameLoop_tree. cbv zeta.
  always_calls_then; [apply clearRect_in_rows |].
  always_calls_then; [apply draw_in_rows, Hu |].
  always_calls_then; [apply drawPipes_in_rows, Hs |].
  eapply always_bind; [by apply collision_block_always |]. intros g' Hg'.
  always_calls_then; [done |]. always_calls_then; [done |].
  eapply always_bind; [apply always_random_tree |]. intros random1 _.
  eapply always_bind; [by apply spawn_block_always |]. intros g'' Hg''.
  always_calls_then; [done |]. by apply always_Ret.
Qed.

Lemma on_callback_always cb g :
  game_ok g -> always call_in_rows game_ok (on_callback cb g).
Proof.
  intros Hg. destruct cb as [t | key]; [by apply gameLoop_tree_always |].
  by apply always_Ret, keydown_ok.
Qed.

Lemma callbacks_always n g : game_ok g -> always call_in_rows game_ok (callbacks n g).
Proof.
  revert g. induction n as [|n IH]; intros g Hg; cbn [callbacks]; [by apply always_Ret |].
  eapply always_bind; [apply always_await_tree |]. intros cb _.
  eapply always_bind; [by apply on_callback_always |]. intros g' Hg'. by apply IH.
Qed.

(** The log of a host: whenever the script has run up to its [n]-th
    callback under a host whose generator answers in [0, 1), every
    rectangle in the log of the host lies in the rows of the canvas, and
    the variables satisfy the invariant of the session. *)
Lemma script_log_in_rows n h h' g :
  host_ok call_in_rows h ->
  interp_state host_handler (script_prefix n) h ≈ Ret (h', g) ->
  Forall call_in_rows (host_calls h') /\ game_ok g.
Proof.
  intros Hh Hrun. eapply always_log in Hrun as [[Hc _] Hg]; [done | | done].
  unfold script_prefix. always_calls_then; [done |]. by apply callbacks_always, initial_ok.
Qed.


End Rows.

(** ** The theorems at concrete states, on the portrait canvas *)

(** A frame, a key and a frame, and a generator that answers 0, 0 and
    then 1/2: the first frame spawns and draws twice, the second starts
    at the third number and draws once. *)
Definition two_frames : list Callback :=
  [FrameCallback 16; KeyCallback " "; FrameCallback 33].

Definition spawn_once (n : nat) : Q := if decide (n < 2)%nat then 0 else 1 # 2.

Lemma two_frames_feed :
  @feed portrait_canvas spawn_once 0 two_frames (@initial portrait_canvas)
  = [AnimationFrame 16 0 0; KeyDown " "; AnimationFrame 33 (1 # 2) (1 # 2)]
  /\ draws (@feed portrait_canvas spawn_once 0 two_frames (@initial portrait_canvas)) = 3%nat.
Proof. by vm_compute. Qed.


(** The property can fail: a script that fills a rectangle above the top
    edge does not satisfy it. *)
Lemma always_refutes :
  ~ always (@call_in_rows portrait_canvas) (fun _ => True) (call (fillRect 0 (-1) 1 1)).
Proof.
  intros H. punfold H. apply alwaysF_node in H. cbn in H. unfold rect_in_rows in H. lra.
Qed.
