(* ===== verification/Machine.v ===== *)
(** * Machine: the session of the specification, and [gameLoop] against it

    The specification (section 4.4) gives the session as a machine with
    one state, Playing, and one transition per frame: physics, the
    field's [advance] with its score delta, the collision test; on a
    collision a game-over notification that carries the final score and a
    reset, otherwise the spawn.  [tick] is that transition on the
    program's variables, [Notification] what the handler of section 6
    receives.

    [gameLoop] is compared with it frame by frame.  What the program
    tells the host is text: [notification] reads the alert back, so the
    comparison is on the number the handler would receive.  The two agree
    in every frame in which [updatePipes] skips no pipe ([no_skip]), but
    for the pipe that the program spawns in a frame that collided.  Over
    whole runs without collision ([collision_free]) the program's field
    stays within [Field.lag] of the specification's. *)

From S2P Require Import Prelude JsArray Globals Text Bird Pipes PipesOrder Field Collision Session.

Local Open Scope Q_scope.

(** What the game-over handler receives (specification, section 6). *)
Inductive Notification := GameOver (finalScore : Z).

Section Machine.
Context `{cv : Canvas}.

(** The field's [advance] on the variables [pipes] and [score]. *)
Definition advance_field (g : Game) : Game :=
  g |> set_pipes (advance (pipes g)).1 |> set_score (score g + (advance (pipes g)).2)%Z.

(** The per-frame transition of section 4.4. *)
Definition tick (random1 random2 : Q) (g : Game) : Game * list Notification :=
  let g := advance_field (update g) in
  if checkCollisions g then (resetGame g, [GameOver (score g)])
  else (if decide (random1 < 1 / SPAWN_RATE) then spawnPipe random2 g else g, []).

(** The notification a call of the program makes, if it makes one: the
    number written in the alert of line 106. *)
Definition notification (c : HostCall) : option Notification :=
  match c with
  | alert message => GameOver <$> read_after "Game Over! Your score: " message
  | _ => None
  end.

Definition notifications (out : list HostCall) : list Notification := omap notification out.

(** The score a call of the program shows, if it shows one: the number
    written by the [fillText] of line 112. *)
Definition shown_score (c : HostCall) : option Z :=
  match c with
  | fillText text _ _ => read_after "Score: " text
  | _ => None
  end.

(** [updatePipes] skips no pipe: the first pipe does not leave while
    another is behind it. *)
Definition no_skip (l : list Pipe) : Prop :=
  match l with
  | p :: _ :: _ => ~ off_screen (move p)
  | _ => True
  end.

#[export] Instance no_skip_decision l : Decision (no_skip l).
Proof. destruct l as [|p [|q l]]; simpl; apply _. Defined.

(** The call is a rectangle or a style: it carries no text. *)
Definition is_paint (c : HostCall) : bool :=
  match c with
  | clearRect _ _ _ _ | fillStyle _ | fillRect _ _ _ _ | font _ => true
  | _ => false
  end.

(** ** Whole runs *)

(** What an event does to the field: a frame scrolls it and spawns if its
    first draw is below [1 / SPAWN_RATE] (line 115); a key event does
    nothing to it. *)
Definition spawn_of (e : Event) : option (option Q) :=
  match e with
  | AnimationFrame _ random1 random2 =>
      Some (if decide (random1 < 1 / SPAWN_RATE) then Some random2 else None)
  | KeyDown _ => None
  end.

(** The frames of a run, as the field sees them. *)
Definition schedule (es : list Event) : list (option Q) := omap spawn_of es.

(** No frame of the run finds a collision. *)
Fixpoint collision_free (es : list Event) (g : Game) : bool :=
  match es with
  | [] => true
  | e :: es' =>
      match e with
      | AnimationFrame timestamp _ _ => negb (collides timestamp g)
      | KeyDown _ => true
      end && collision_free es' (handle e g).1
  end.

End Machine.

Section MachineFacts.
Context `{cv : Canvas}.
Implicit Types (g : Game) (l : list Pipe) (t r s : Q) (out : list HostCall).

(** ** The field *)

(** Where no pipe is skipped, [updatePipes_rec] is [advance]. *)
Lemma updatePipes_rec_no_skip l : pipes_ok l -> no_skip l -> updatePipes_rec l = advance l.
Proof.
  intros Hok Hskip. rewrite updatePipes_rec_ordered by done. destruct Hok as [Ho _].
  destruct l as [|p [|q rest]]; [done | |]; unfold updatePipes_ordered.
  - case_decide; [by rewrite advance_cons_exit | by rewrite advance_no_exit by by constructor].
  - rewrite decide_False by done. symmetry. by apply advance_no_exit, move_on_screen_head.
Qed.

Lemma updatePipes_advance_field g :
  pipes_ok (pipes g) -> no_skip (pipes g) -> updatePipes g = advance_field g.
Proof.
  intros Hok Hskip. by rewrite updatePipes_unfold, updatePipes_rec_no_skip.
Qed.

(** ** The texts *)

Lemma notification_alert g : notification (game_over_alert g) = Some (GameOver (score g)).
Proof. unfold game_over_alert, notification. by rewrite read_after_concat. Qed.

Lemma shown_score_line g : omap shown_score (score_line g) = [score g].
Proof. unfold score_line. cbn [omap list_omap shown_score]. by rewrite read_after_concat. Qed.

Lemma omap_cons_None {A} (f : HostCall -> option A) c out :
  f c = None -> omap f (c :: out) = omap f out.
Proof. intros Hc. cbn [omap list_omap]. by rewrite Hc. Qed.

(** Rectangles and styles are neither a notification nor a score. *)
Lemma omap_paint {A} (f : HostCall -> option A) out :
  (forall c, is_paint c = true -> f c = None) -> Forall (fun c => is_paint c = true) out ->
  omap f out = [].
Proof.
  intros Hf Hout. induction Hout as [|c out Hc _ IH]; [done |].
  cbn [omap list_omap]. by rewrite (Hf c Hc).
Qed.

Lemma notification_paint c : is_paint c = true -> notification c = None.
Proof. by destruct c. Qed.

Lemma shown_score_paint c : is_paint c = true -> shown_score c = None.
Proof. by destruct c. Qed.

Lemma draw_paint g : Forall (fun c => is_paint c = true) (draw g).
Proof. by repeat constructor. Qed.

Lemma drawPipes_paint g : Forall (fun c => is_paint c = true) (drawPipes g).
Proof.
  rewrite drawPipes_concat. apply Forall_concat, Forall_map, Forall_true.
  intros p. by repeat constructor.
Qed.

(** The calls of a frame before the collision test carry no text. *)
Lemma omap_scene {A} (f : HostCall -> option A) t g :
  (forall c, is_paint c = true -> f c = None) ->
  omap f ([clearRect 0 0 canvas_width canvas_height]
          ++ draw (update (set_lastTime t g))
          ++ drawPipes (g |> set_lastTime t |> update |> updatePipes)) = [].
Proof.
  intros Hf. apply omap_paint; [done |]. rewrite !Forall_app. split_and!.
  - by repeat constructor.
  - apply draw_paint.
  - apply drawPipes_paint.
Qed.

(** The notifications of a frame: the score [updatePipes] left, when the
    frame collides. *)
Lemma notifications_gameLoop t r s g :
  notifications (gameLoop t r s g).2
  = if collides t g then [GameOver (score (updatePipes g))] else [].
Proof.
  rewrite gameLoop_calls. cbv zeta. unfold notifications, collides.
  rewrite 2!app_assoc, <- (app_assoc [_]), omap_app, omap_scene by apply notification_paint.
  destruct (checkCollisions _); [|done]. cbn [app omap list_omap].
  rewrite notification_alert, frame_normal, updatePipes_update_comm. cbn.
  by rewrite update_score.
Qed.

(** The frame shows one score, the value of the variable when the frame
    ends: 0 in a frame that collided. *)
Lemma shown_score_gameLoop t r s g :
  omap shown_score (gameLoop t r s g).2 = [score (gameLoop t r s g).1].
Proof.
  rewrite gameLoop_state, gameLoop_calls. cbv zeta. unfold frame_state.
  rewrite 2!app_assoc, <- (app_assoc [_]), omap_app, omap_scene by apply shown_score_paint.
  rewrite omap_app. cbn [app omap list_omap shown_score]. rewrite app_nil_r.
  destruct (checkCollisions _); [rewrite omap_cons_None by done |];
    rewrite shown_score_line; by case_decide.
Qed.

(** ** The frame against the transition *)

Lemma updatePipes_update_score g : score (updatePipes (update g)) = score (updatePipes g).
Proof. by rewrite updatePipes_update_comm, update_score. Qed.

Lemma checkCollisions_set_lastTime t g :
  checkCollisions (set_lastTime t g) = checkCollisions g.
Proof. done. Qed.

(** C36: in a frame in which [updatePipes] skips no pipe, [gameLoop]
    implements the transition of the specification's session: the handler
    receives the same final score, read from the alert, when the frame
    collides and nothing otherwise, and the variables are those of the
    transition with the time stamp stored, but for one case: in a frame
    that collides and whose draw is below [1 / SPAWN_RATE] the program
    spawns a pipe after the reset, the specification does not. *)
Theorem gameLoop_refines_tick t r s g :
  pipes_ok (pipes g) -> no_skip (pipes g) ->
  notifications (gameLoop t r s g).2 = (tick r s g).2
  /\ (gameLoop t r s g).1
     = let m := set_lastTime t (tick r s g).1 in
       if collides t g && bool_decide (r < 1 / SPAWN_RATE) then spawnPipe s m else m.
Proof.
  intros Hok Hskip. rewrite notifications_gameLoop, gameLoop_state.
  unfold tick, frame_state, collides. rewrite frame_normal, checkCollisions_set_lastTime.
  rewrite <- (updatePipes_advance_field (update g)) by by rewrite update_pipes.
  destruct (checkCollisions (updatePipes (update g))); cbn [fst snd andb]; split; try done.
  - by rewrite updatePipes_update_score.
  - case_bool_decide; [rewrite decide_True by done | rewrite decide_False by done]; done.
  - by case_decide.
Qed.


(** ** A run without collision, against the field of the specification *)

(** A key event leaves the field alone. *)
Lemma field_view_keydown key g : field_view (keydown key g) = field_view g.
Proof. unfold keydown. by case_decide. Qed.

(** One event of a run that does not collide keeps the two fields
    related. *)
Lemma handle_lag `{!CanvasSize cv} e g (s : list Pipe * Z) :
  lag_inv (field_view g) s -> collision_free [e] g = true ->
  lag_inv (field_view (handle e g).1)
    (match spawn_of e with Some o => field_frame o s | None => s end).
Proof.
  intros Hinv Hfree. destruct e as [t r rnd | key]; cbn [handle spawn_of fst].
  - cbn [collision_free] in Hfree. rewrite andb_true_r, negb_true_iff in Hfree.
    rewrite gameLoop_state, frame_state_field by done. by apply lag_frame.
  - by rewrite field_view_keydown.
Qed.

Lemma run_lag `{!CanvasSize cv} es g (s : list Pipe * Z) :
  lag_inv (field_view g) s -> collision_free es g = true ->
  lag_inv (field_view (run es g).1) (field_run (schedule es) s).
Proof.
  revert g s. induction es as [|e es IH]; intros g s Hinv Hfree; [done |].
  cbn [collision_free] in Hfree. apply andb_true_iff in Hfree as [He Hes].
  rewrite run_cons. cbn [fst]. unfold schedule. cbn [omap list_omap].
  assert (collision_free [e] g = true) as He1 by (cbn [collision_free]; by rewrite He).
  pose proof (handle_lag e g s Hinv He1) as Hstep.
  destruct (spawn_of e) as [o|]; by apply IH.
Qed.

(** C40: as long as no frame collides, a whole run of the program, key
    events and frames in any order, keeps its pipes and its score within
    [lag] of the field of the specification run on the same spawns: the
    score a player sees is the specification's count or one less, and
    the pipes are the same but for the first. *)
Theorem run_refines_field `{!CanvasSize cv} es g :
  pipes g = [] -> collision_free es g = true ->
  let c := (run es g).1 in
  let s := field_run (schedule es) (([] : list Pipe), score g) in
  lag (field_view c) s
  /\ (passed s - 1 <= score c <= passed s)%Z
  /\ (tail (pipes c) = tail (obstacles s) \/ tail (pipes c) = obstacles s).
Proof.
  intros Hg Hfree c s.
  pose proof (proj1 (run_lag es g _ (lag_inv_empty g Hg) Hfree)) as Hlag.
  split; [done |]. exact (lag_observed (field_view c) s Hlag).
Qed.

End MachineFacts.

(** ** The theorems at concrete states, on the portrait canvas *)

(** In [cruising] the bird is below the gap of the first pipe: the frame
    collides, the handler receives 2, and with a first draw of 0 the
    program's state holds a pipe that the specification's does not. *)
Lemma gameLoop_refines_tick_witness :
  notifications (@gameLoop portrait_canvas 16 0 0.5 cruising).2
  = (@tick portrait_canvas 0 0.5 cruising).2
  /\ (@gameLoop portrait_canvas 16 0 0.5 cruising).1
     = let m := set_lastTime 16 (@tick portrait_canvas 0 0.5 cruising).1 in
       if @collides portrait_canvas 16 cruising && bool_decide (0 < 1 / SPAWN_RATE)
       then @spawnPipe portrait_canvas 0.5 m else m.
Proof.
  apply (@gameLoop_refines_tick portrait_canvas 16 0 0.5 cruising); compute_done.
Defined.

(** A frame that spawns, a key press and a frame that does not, from the
    initial state. *)
Lemma run_refines_field_witness :
  let es := [spawning_frame; KeyDown " "; quiet_frame] in
  let c := (@run portrait_canvas es (@initial portrait_canvas)).1 in
  let s := field_run (cv := portrait_canvas) (schedule es) (([] : list Pipe), 0%Z) in
  lag (field_view c) s
  /\ (passed s - 1 <= score c <= passed s)%Z
  /\ (tail (pipes c) = tail (obstacles s) \/ tail (pipes c) = obstacles s).
Proof.
  apply (@run_refines_field portrait_canvas portrait_size
           [spawning_frame; KeyDown " "; quiet_frame] (@initial portrait_canvas));
    [done | by vm_compute].
Defined.
