(* ===== verification/Page.v ===== *)
(** * Page: loading the script, and the host that calls it back

    Lines 4-5 and 129-136 of [Index.ts].  The script looks its canvas up
    by id and casts the result, asks the canvas for a 2D context, and at
    its end registers the [keydown] listener and requests the first
    frame.  Neither result is tested: with no element of that id, or with
    an element that is not a canvas, line 5 throws and nothing is
    registered; with a canvas that gives no context the script loads, and
    the first call of [gameLoop] throws at line 97, after it has stored
    the time stamp and before it requests the next frame.

    [Page] is the loaded script: its canvas, whether it has a context, its
    variables, and the number of frame callbacks the host still owes it.
    The host delivers a frame only when one was requested. *)

From S2P Require Import Prelude JsArray Globals Bird Pipes PipesOrder Field Collision Session.

(** ** The document *)

(** What [getElementById] can find: a canvas, with its size and whether
    [getContext('2d')] gives a context, or an element of another kind. *)
Inductive Element :=
| CanvasElement (size : Canvas) (context2d : bool)
| OtherElement.

Record Document := { getElementById : string -> option Element }.

(** ** Exceptions *)

(** A [TypeError]: the line that throws and the property it was reading. *)
Inductive Exception := TypeError (line : nat) (reading : string).

(** How a script or a callback ends. *)
Inductive Outcome := Returned | Threw (e : Exception).

(** ** The loaded script *)

Record Page := mkPage {
  page_canvas : Canvas;
  page_ctx : bool;
  page_game : Game;
  page_pending : nat;
}.

(** The script from its first line to its last.  When line 5 throws there
    is no page: no listener and no frame callback was registered. *)
Definition load (document : Document) : option Page * Outcome * list HostCall :=
  match getElementById document "gameCanvas" with
  | Some (CanvasElement size context2d) =>
      (Some (mkPage size context2d (@initial size) 1), Returned, [requestAnimationFrame])
  | Some OtherElement | None => (None, Threw (TypeError 5 "getContext"), [])
  end.

(** [gameLoop] as the host calls it.  Without a context the call ends at
    line 97: [lastTime] is assigned, nothing is drawn, no frame is
    requested. *)
Definition frame (timestamp random1 random2 : Q) (p : Page) : Page * Outcome * list HostCall :=
  let cv := page_canvas p in
  if page_ctx p then
    let '(g, out) := @gameLoop cv timestamp random1 random2 (page_game p) in
    (mkPage cv true g (page_pending p - 1 + requests out), Returned, out)
  else
    (mkPage cv false (set_lastTime timestamp (page_game p)) (page_pending p - 1),
     Threw (TypeError 97 "clearRect"), []).

(** The host delivers a frame only if one is owed; key events always. *)
Definition enabled (e : Event) (p : Page) : bool :=
  match e with
  | AnimationFrame _ _ _ => bool_decide (0 < page_pending p)%nat
  | KeyDown _ => true
  end.

Definition deliver (e : Event) (p : Page) : Page * Outcome * list HostCall :=
  match e with
  | AnimationFrame timestamp random1 random2 => frame timestamp random1 random2 p
  | KeyDown key =>
      (mkPage (page_canvas p) (page_ctx p) (keydown key (page_game p)) (page_pending p),
       Returned, [])
  end.

(** A schedule of events, if the host can deliver it: the page it leaves
    and the calls made. *)
Fixpoint page_run (es : list Event) (p : Page) : option (Page * list HostCall) :=
  match es with
  | [] => Some (p, [])
  | e :: es' =>
      if enabled e p then
        match page_run es' (deliver e p).1.1 with
        | Some (p', out) => Some (p', (deliver e p).2 ++ out)
        | None => None
        end
      else None
  end.

(** The frames of a schedule. *)
Definition is_frame (e : Event) : bool :=
  match e with AnimationFrame _ _ _ => true | KeyDown _ => false end.

Definition frames (es : list Event) : nat := length (List.filter is_frame es).

(** The variables that only a frame that runs to its end can change. *)
Definition untouched `{cv : Canvas} (g : Game) : Prop :=
  birdY g = birdY initial /\ birdVelocity g = birdVelocity initial /\
  score g = 0 /\ pipes g = [].

(** ** Example documents *)

Definition document_with (element : option Element) : Document :=
  {| getElementById id := if decide (id = "gameCanvas"%string) then element else None |}.

(** A page with a portrait canvas; the same whose canvas gives no context;
    a page whose [gameCanvas] is not a canvas; a page without it. *)
Definition portrait_document : Document :=
  document_with (Some (CanvasElement portrait_canvas true)).
Definition contextless_document : Document :=
  document_with (Some (CanvasElement portrait_canvas false)).
Definition miscast_document : Document := document_with (Some OtherElement).
Definition empty_document : Document := document_with None.

(** Two frames around a key press. *)
Definition short_schedule : list Event := [spawning_frame; KeyDown " "; quiet_frame].

Section PageFacts.
Implicit Types (p : Page) (e : Event) (es : list Event) (g : Game) (out : list HostCall).

Lemma page_run_cons e es p :
  page_run (e :: es) p
  = if enabled e p then
      match page_run es (deliver e p).1.1 with
      | Some (p', out) => Some (p', (deliver e p).2 ++ out)
      | None => None
      end
    else None.
Proof. done. Qed.

(** ** A page with a context *)

(** With a context and one frame owed, every schedule can be delivered;
    it leaves one frame owed, and the variables and the calls are those
    of the session. *)
Lemma live_page_run (cv : Canvas) es g :
  page_run es (mkPage cv true g 1)
  = Some (mkPage cv true (@run cv es g).1 1, (@run cv es g).2).
Proof.
  revert g. induction es as [|e es IH]; intros g; [done |].
  rewrite page_run_cons, run_cons. destruct e as [t r s | key]; cbn [enabled deliver].
  - unfold frame. cbn [page_ctx page_canvas page_game page_pending handle].
    pose proof (@requests_gameLoop cv t r s g) as Hreq.
    destruct (gameLoop t r s g) as [g1 out1]. cbn [fst snd] in *.
    rewrite Hreq. cbn [bool_decide decide_rel]. by rewrite IH.
  - cbn [page_ctx page_canvas page_game page_pending handle fst snd]. by rewrite IH.
Qed.

(** ** A page without a context *)

Lemma untouched_keydown `{cv : Canvas} key g : untouched g -> untouched (keydown key g).
Proof. unfold keydown. by case_decide. Qed.

(** Without a context a schedule can be delivered only if it has no more
    frames than are owed; no call is made, and the bird, the pipes and the
    score stay as they are. *)
Lemma dead_page_run (cv : Canvas) es g n p out :
  page_run es (mkPage cv false g n) = Some (p, out) ->
  out = [] /\ (frames es <= n)%nat /\ page_pending p = (n - frames es)%nat
  /\ page_ctx p = false /\ (@untouched cv g -> @untouched cv (page_game p)).
Proof.
  revert g n. induction es as [|e es IH]; intros g n Hrun.
  { injection Hrun as <- <-. unfold frames. cbn. split_and!; try done; lia. }
  rewrite page_run_cons in Hrun. destruct e as [t r s | key]; cbn [enabled deliver] in Hrun.
  - case_bool_decide as Hn; [|done]. unfold frame in Hrun.
    cbn [page_ctx page_canvas page_game page_pending fst snd] in Hrun.
    destruct (page_run es _) as [[p' out']|] eqn:Hes; [|done].
    injection Hrun as <- <-. apply IH in Hes as (-> & Hle & -> & Hctx & Hg).
    unfold frames in *. cbn in *. split_and!; try done; lia.
  - cbn [page_ctx page_canvas page_game page_pending fst snd] in Hrun.
    destruct (page_run es _) as [[p' out']|] eqn:Hes; [|done].
    injection Hrun as <- <-. apply IH in Hes as (-> & Hle & -> & Hctx & Hg).
    split_and!; try done. intros Hu. by apply Hg, untouched_keydown.
Qed.

(** ** From the document *)

(** C29: when the canvas gives no 2D context the script loads, but the
    game never runs: whatever the host delivers, at most one frame is
    called (it throws at line 97 and requests no other), no call is made
    on the canvas, and the bird, the pipes and the score keep their
    initial values. *)
Theorem contextless_page_is_dead document size es :
  getElementById document "gameCanvas" = Some (CanvasElement size false) ->
  exists p0, load document = (Some p0, Returned, [requestAnimationFrame])
    /\ forall p out, page_run es p0 = Some (p, out) ->
         out = [] /\ (frames es <= 1)%nat /\ page_pending p = (1 - frames es)%nat
         /\ @untouched size (page_game p).
Proof.
  intros Hdoc. unfold load. rewrite Hdoc. eexists. split; [done |].
  intros p out Hrun. apply dead_page_run in Hrun as (? & ? & ? & _ & Hg).
  split_and!; try done; by apply Hg.
Qed.

(** C30: when the canvas gives a context, the host can deliver every
    schedule of key events and frames: after each event exactly one frame
    is owed (the loop never stops and never doubles), and the variables
    and the calls are those of the session run from its initial state. *)
Theorem page_refines_session document size es :
  getElementById document "gameCanvas" = Some (CanvasElement size true) ->
  exists p0, load document = (Some p0, Returned, [requestAnimationFrame])
             /\ page_run es p0
                = Some (mkPage size true (@run size es (@initial size)).1 1,
                        (@run size es (@initial size)).2).
Proof.
  intros Hdoc. unfold load. rewrite Hdoc. eexists. split; [done |]. apply live_page_run.
Qed.


End PageFacts.

(** ** The theorems on the example documents *)

(** The two documents on which the script throws at line 5. *)
Lemma load_without_canvas :
  load miscast_document = (None, Threw (TypeError 5 "getContext"), [])
  /\ load empty_document = (None, Threw (TypeError 5 "getContext"), []).
Proof. done. Qed.

(** A key press and a frame on the page whose canvas gives no context. *)
Lemma contextless_page_is_dead_witness :
  exists p0, load contextless_document = (Some p0, Returned, [requestAnimationFrame])
    /\ forall p out, page_run [KeyDown " "; spawning_frame] p0 = Some (p, out) ->
         out = [] /\ (frames [KeyDown " "; spawning_frame] <= 1)%nat
         /\ page_pending p = (1 - frames [KeyDown " "; spawning_frame])%nat
         /\ @untouched portrait_canvas (page_game p).
Proof.
  by apply (contextless_page_is_dead contextless_document portrait_canvas
              [KeyDown " "; spawning_frame]).
Defined.

(** The schedule [short_schedule] on the page with a portrait canvas. *)

Lemma page_refines_session_witness :
  exists p0, load portrait_document = (Some p0, Returned, [requestAnimationFrame])
    /\ page_run short_schedule p0
       = Some (mkPage portrait_canvas true
                 (@run portrait_canvas short_schedule (@initial portrait_canvas)).1 1,
               (@run portrait_canvas short_schedule (@initial portrait_canvas)).2).
Proof. by apply (page_refines_session portrait_document portrait_canvas short_schedule). Defined.
