(* ===== verification/Game64.v ===== *)
(** * Game64: the whole program on binary64 numbers

    Every variable of [Index.ts] is a JavaScript [number] or an array of
    objects with [number] fields.  [Game64] holds them as binary64 values
    and the operations of lines 49-62, 75-88 and 93-133 are repeated on
    them: [spawnPipe64], [updatePipes64] (the same [forEach] as in
    [Pipes]), [checkCollisions64], [resetGame64], [keydown64] and
    [gameLoop64], with [update64] of [Binary64] for the bird.

    The pipes and the score stand for integers and the program computes
    with them exactly ([models] relates them to the pipes and the score
    of [Game]); the bird does not, and the collision test, which involves
    it, answers as the test on rationals up to half a step of the numbers
    next to the canvas height ([clear_of_gap]).  The spawn test of line
    115 is exact.  [sane64] is the invariant of the binary64 program: no
    NaN and no infinity is ever stored. *)

From Stdlib Require Import SpecFloat Qpower Qfield Qround.
From S2P Require Import Prelude JsArray Globals Bird Pipes Field Collision Session.
From S2P Require Import Binary64 Rounding Arith64 Exact64 Scale64 Floor64.

Local Open Scope Q_scope.

(** ** The variables *)

(** An element of [pipes]. *)
Record Pipe64 := mkPipe64 {
  pipe_x64 : number;
  pipe_y64 : number;
}.

Record Game64 := mkGame64 {
  bird64 : Bird64;
  score64 : number;
  pipes64 : list Pipe64;
  lastTime64 : number;
}.

Definition set_bird64 (b : Bird64) (g : Game64) : Game64 :=
  mkGame64 b (score64 g) (pipes64 g) (lastTime64 g).
Definition set_score64 (v : number) (g : Game64) : Game64 :=
  mkGame64 (bird64 g) v (pipes64 g) (lastTime64 g).
Definition set_pipes64 (v : list Pipe64) (g : Game64) : Game64 :=
  mkGame64 (bird64 g) (score64 g) v (lastTime64 g).
Definition set_lastTime64 (v : number) (g : Game64) : Game64 :=
  mkGame64 (bird64 g) (score64 g) (pipes64 g) v.

(** [Math.floor(x)]: the greatest integer at or below a finite number;
    zeros, infinities and NaN are returned as they are. *)
Definition Math_floor (x : number) : number :=
  match x with
  | S754_finite _ _ _ => of_Z (Qfloor (Qval x))
  | _ => x
  end.

(** The literal [1 / SPAWN_RATE] of line 115. *)
Definition SPAWN_CHANCE64 : number := div (of_Z 1) (of_Z SPAWN_RATE).

Section Game64.
Context `{cv : Canvas}.

Definition width64 : number := of_Z canvas_width.

Definition initial_game64 : Game64 := mkGame64 initial64 (of_Z 0) [] (of_Z 0).

(** ** The operations *)

(** [spawnPipe()], lines 49-52; [rnd] is the value of [Math.random()]. *)
Definition spawnPipe64 (rnd : number) (g : Game64) : Game64 :=
  let pipeHeight := Math_floor (mul rnd (sub height64 (of_Z PIPE_GAP))) in
  set_pipes64 (push (mkPipe64 width64 pipeHeight) (pipes64 g)) g.

(** The test of line 57. *)
Definition off_screen64 (pipe : Pipe64) : bool :=
  le (add (pipe_x64 pipe) (of_Z PIPE_WIDTH)) (of_Z 0).

(** [pipe.x -= 3], line 56. *)
Definition move64 (pipe : Pipe64) : Pipe64 :=
  mkPipe64 (sub (pipe_x64 pipe) (of_Z 3)) (pipe_y64 pipe).

(** The callback of lines 55-61; [score++] is [score + 1]. *)
Definition updatePipes_callback64 (pipe : Pipe64) (index : nat) (g : Game64) : Game64 :=
  let pipe := move64 pipe in
  let g := set_pipes64 (<[index := pipe]> (pipes64 g)) g in
  if off_screen64 pipe
  then g |> set_pipes64 (splice index 1 (pipes64 g)) |> set_score64 (add (score64 g) (of_Z 1))
  else g.

(** [updatePipes()], lines 54-62. *)
Definition updatePipes64 (g : Game64) : Game64 := forEach pipes64 updatePipes_callback64 g.

(** The tests of lines 79-80 and of line 82. *)
Definition outside_gap64 (y : number) (pipe : Pipe64) : bool :=
  lt y (pipe_y64 pipe)
  || gt (add y (of_Z bird_height)) (add (pipe_y64 pipe) (of_Z PIPE_GAP)).

Definition in_column64 (pipe : Pipe64) : bool :=
  gt (add (of_Z bird_x) (of_Z bird_width)) (pipe_x64 pipe)
  && lt (of_Z bird_x) (add (pipe_x64 pipe) (of_Z PIPE_WIDTH)).

(** The loop of lines 77-86. *)
Fixpoint checkCollisions_loop64 (y : number) (l : list Pipe64) : bool :=
  match l with
  | [] => false
  | pipe :: rest =>
      if outside_gap64 y pipe then
        if in_column64 pipe then true
        else checkCollisions_loop64 y rest
      else checkCollisions_loop64 y rest
  end.

(** [checkCollisions()], lines 75-88. *)
Definition checkCollisions64 (g : Game64) : bool :=
  checkCollisions_loop64 (birdY64 (bird64 g)) (pipes64 g).

(** [resetGame()], lines 121-126. *)
Definition resetGame64 (g : Game64) : Game64 :=
  g |> set_bird64 (mkBird64 (div height64 (of_Z 2)) (of_Z 0) (birdFlap64 (bird64 g)))
    |> set_pipes64 [] |> set_score64 (of_Z 0).

(** The [keydown] listener, lines 129-133. *)
Definition keydown64 (key : string) (g : Game64) : Game64 :=
  if decide (key = " "%string)
  then set_bird64 (mkBird64 (birdY64 (bird64 g)) (birdVelocity64 (bird64 g)) true) g
  else g.

(** What [gameLoop(timestamp)], lines 93-118, does to the variables. *)
Definition gameLoop64 (timestamp random1 random2 : number) (g : Game64) : Game64 :=
  let deltaTime := sub timestamp (lastTime64 g) in
  let g := set_lastTime64 timestamp g in
  let g := set_bird64 (update64 (bird64 g)) g in
  let g := updatePipes64 g in
  let g := if checkCollisions64 g then resetGame64 g else g in
  if lt random1 SPAWN_CHANCE64 then spawnPipe64 random2 g else g.

(** ** The host's events *)

Inductive Event64 :=
| AnimationFrame64 (timestamp random1 random2 : number)
| KeyDown64 (key : string).

(** [Math.random()] returns a canonical number in [0, 1). *)
Definition draw64 (r : number) : Prop := denotes r (Qval r) /\ 0 <= Qval r < 1.

Definition valid_event64 (e : Event64) : Prop :=
  match e with
  | AnimationFrame64 _ random1 random2 => draw64 random1 /\ draw64 random2
  | KeyDown64 _ => True
  end.

Definition handle64 (e : Event64) (g : Game64) : Game64 :=
  match e with
  | AnimationFrame64 timestamp random1 random2 => gameLoop64 timestamp random1 random2 g
  | KeyDown64 key => keydown64 key g
  end.

Definition run64 (es : list Event64) (g : Game64) : Game64 := foldl (flip handle64) g es.

(** ** The integers behind the numbers *)

(** The pipe of the binary64 program stands for a pipe of integers. *)
Definition pipe_models (p64 : Pipe64) (p : Pipe) : Prop :=
  denotes (pipe_x64 p64) (inject_Z (pipe_x p)) /\ denotes (pipe_y64 p64) (inject_Z (pipe_y p)).

(** A pipe on which the arithmetic of the program is exact: not yet
    left, not right of the canvas, its gap inside the canvas. *)
Definition pipe_exact (p : Pipe) : Prop :=
  (- PIPE_WIDTH < pipe_x p <= canvas_width)%Z /\ gap_in_canvas p.

(** The bird at [y] is outside the gap of [p] by more than the rounding
    of line 80 can hide: above it, or below it by more than half a step
    of the numbers below [2 ^ h]. *)
Definition clear_of_gap (h : Z) (y : Q) (p : Pipe) : Prop :=
  y < inject_Z (pipe_y p)
  \/ pow2 (h - 53) < 2 * (y + inject_Z bird_height - inject_Z (pipe_y p + PIPE_GAP)).

(** The pipes and the score of the binary64 program are those of [g];
    [n] bounds the pipes spawned so far. *)
Definition models (n : Z) (g64 : Game64) (g : Game) : Prop :=
  Forall2 pipe_models (pipes64 g64) (pipes g)
  /\ denotes (score64 g64) (inject_Z (score g))
  /\ Forall pipe_exact (pipes g)
  /\ (0 <= score g)%Z /\ (score g + Z.of_nat (length (pipes g)) <= n)%Z.

(** The state between two events: the bird is [flying64], and the pipes
    and the score are integers. *)
Definition sane64 (n : Z) (g64 : Game64) : Prop :=
  flying64 (bird64 g64) /\ exists g, models n g64 g.

End Game64.

(** ** Example states, on the portrait canvas *)

(** The states [leaving] and [below_gap] in binary64. *)
Definition leaving64 : Game64 :=
  mkGame64 (@initial64 portrait_canvas) (of_Z 2)
    [mkPipe64 (of_Z (-58)) (of_Z 120); mkPipe64 (of_Z 140) (of_Z 200);
     mkPipe64 (of_Z 338) (of_Z 90)] (of_Z 0).

Definition below_gap64 : Game64 :=
  mkGame64 (mkBird64 (of_Z 190) (of_Z 0) false) (of_Z 0) [mkPipe64 (of_Z 40) (of_Z 100)] (of_Z 0).

(** The bird of [grazing] under a pipe whose gap ends at 512, on the
    square canvas: its lower edge is 2^-44 below the gap. *)
Definition grazing_gap64 : Game64 :=
  mkGame64 grazing (of_Z 0) [mkPipe64 (of_Z 40) (of_Z 412)] (of_Z 0).

(** Two frames around a key press; the second frame spawns a pipe with
    the draw 0.6. *)
Definition short_schedule64 : list Event64 :=
  [AnimationFrame64 (of_Z 16) GRAVITY64 (of_Z 0); KeyDown64 " ";
   AnimationFrame64 (of_Z 33) (of_Z 0) GRAVITY64].

(** A canvas on which the program plays in integers of 53 bits: at least
    as high as a gap, and leaving room for a pipe beyond its width. *)
Class Playable64 (cv : Canvas) : Prop := {
  width_53 : (0 <= canvas_width < 2 ^ 53 - PIPE_WIDTH)%Z;
  height_53 : (PIPE_GAP <= canvas_height < 2 ^ 53)%Z;
}.

(** Solves the goals that say that the numbers of an example state stand
    for its integers. *)
Ltac exact64 :=
  repeat first [ apply of_Z_denotes; done | progress (cbn [pipe_x pipe_y pipe_x64 pipe_y64])
               | constructor | done ].

#[export] Instance portrait_playable64 : Playable64 portrait_canvas.
Proof. by split. Qed.

#[export] Instance playable64_tall (cv : Canvas) : Playable64 cv -> Tall cv.
Proof. intros [_ [? ?]]. unfold PIPE_GAP in *. split; unfold bird_height; lia. Qed.

Section Pipes64.
Context `{cv : Canvas} `{!Playable64 cv}.
Implicit Types (gf : Game64) (g : Game) (pf : Pipe64) (p : Pipe) (n : Z) (x y : number).

(** ** One pipe *)

Lemma Zle_denotes x y a b :
  denotes x (inject_Z a) -> denotes y (inject_Z b) -> le x y = bool_decide (a <= b)%Z.
Proof.
  intros Hx Hy. apply eq_bool_prop_intro.
  rewrite Is_true_true, (le_denotes _ _ _ _ Hx Hy), <- Zle_Qle. by rewrite bool_decide_spec.
Qed.

Lemma Zlt_denotes x y a b :
  denotes x (inject_Z a) -> denotes y (inject_Z b) -> lt x y = bool_decide (a < b)%Z.
Proof.
  intros Hx Hy. apply eq_bool_prop_intro.
  rewrite Is_true_true, (lt_denotes _ _ _ _ Hx Hy), <- Zlt_Qlt. by rewrite bool_decide_spec.
Qed.

Lemma move64_models pf p : pipe_models pf p -> pipe_exact p -> pipe_models (move64 pf) (move p).
Proof.
  intros [Hx Hy] [Hb _]. pose proof width_53. unfold PIPE_WIDTH in *. split; [| done].
  apply (sub_Z _ _ _ 3 Hx); [by apply of_Z_denotes | lia].
Qed.

Lemma off_screen64_exact pf p :
  pipe_models pf p -> (- 2 ^ 53 < pipe_x p < 2 ^ 53 - PIPE_WIDTH)%Z ->
  off_screen64 pf = bool_decide (off_screen p).
Proof.
  intros [Hx _] Hb. unfold off_screen64, off_screen, PIPE_WIDTH in *.
  apply Zle_denotes; [| by apply of_Z_denotes].
  apply (add_Z _ _ _ 60 Hx); [by apply of_Z_denotes | lia].
Qed.

(** ** The callback and the loop *)

Lemma updatePipes_callback64_models n gf g i pf p :
  (n < 2 ^ 53)%Z -> models n gf g -> pipes64 gf !! i = Some pf -> pipes g !! i = Some p ->
  models n (updatePipes_callback64 pf i gf) (updatePipes_callback p i g).
Proof.
  intros Hn (H2 & Hs & He & H0 & Hc) Hpf Hp. pose proof width_53 as HW.
  pose proof (Forall2_lookup_lr _ _ _ _ _ _ H2 Hpf Hp) as Hm.
  pose proof (Forall_lookup_1 _ _ _ _ He Hp) as [Hx Hgap].
  pose proof (move64_models _ _ Hm (conj Hx Hgap)) as Hm'.
  pose proof (lookup_lt_Some _ _ _ Hp) as Hi.
  unfold updatePipes_callback64, updatePipes_callback. cbv zeta.
  rewrite (off_screen64_exact (move64 pf) (move p) Hm')
    by (unfold move, set_pipe_x, PIPE_WIDTH in *; cbn [pipe_x]; lia).
  unfold models. case_decide as Hoff; [rewrite bool_decide_true | rewrite bool_decide_false];
    try done; unfold set_pipes, set_score, set_pipes64, set_score64;
    cbn [pipes64 score64 pipes score].
  - rewrite !splice_insert, length_splice. split_and!; try lia.
    + by apply Forall2_splice.
    + apply (add_Z _ _ _ 1 Hs); [by apply of_Z_denotes | lia].
    + by apply Forall_splice.
  - rewrite length_insert. split_and!; try done.
    + by apply Forall2_insert.
    + apply Forall_insert; [done |].
      unfold pipe_exact, off_screen, move, set_pipe_x, PIPE_WIDTH in *. cbn [pipe_x] in *.
      split; [lia | done].
Qed.

Lemma updatePipes64_models n gf g :
  (n < 2 ^ 53)%Z -> models n gf g -> models n (updatePipes64 gf) (updatePipes g).
Proof.
  intros Hn. apply (forEach_simulation pipes64 pipes (models n)).
  - intros gf' g' (H2 & _). by apply Forall2_length in H2.
  - intros gf' g' i pf p. by apply updatePipes_callback64_models.
Qed.

End Pipes64.

Section Collision64.
Context `{cv : Canvas} `{!Playable64 cv}.
Implicit Types (gf : Game64) (g : Game) (pf : Pipe64) (p : Pipe) (n : Z) (x y : number).

(** ** The tests of [checkCollisions] *)

(** The test on the columns compares integers: it is exact. *)
Lemma in_column64_exact pf p :
  pipe_models pf p -> pipe_exact p -> in_column64 pf = bool_decide (in_column p).
Proof.
  intros [Hx _] [Hb _]. pose proof width_53. unfold in_column64, in_column, PIPE_WIDTH in *.
  change (gt ?a ?b) with (lt b a).
  rewrite (Zlt_denotes _ _ (pipe_x p) (bird_x + bird_width) Hx)
    by (apply add_Z; by try apply of_Z_denotes).
  rewrite (Zlt_denotes _ _ bird_x (pipe_x p + 60))
    by (by apply of_Z_denotes || (apply add_Z; [done | by apply of_Z_denotes | lia])).
  apply eq_bool_prop_intro. rewrite andb_True, !bool_decide_spec. lia.
Qed.

(** The test on the gap rounds [birdY + 20] before it compares: when it
    answers [true] the bird is outside the gap. *)
Lemma outside_gap64_sound y pf p :
  denotes y (Qval y) -> 0 <= Qval y -> 2 * (Qval y + 20 - inject_Z canvas_height) <= 1 ->
  pipe_models pf p -> pipe_exact p -> outside_gap64 y pf = true -> outside_gap (Qval y) p.
Proof.
  intros Hy H0 Hfl [_ Hpy] [_ Hgap] [Hlt | Hgt]%orb_true_iff; pose proof height_53 as HH;
    unfold outside_gap, gap_in_canvas, PIPE_GAP, bird_height in *.
  { left. by apply (lt_denotes _ _ _ _ Hy Hpy). }
  right. pose proof (add_denotes _ _ _ _ Hy (of_Z_denotes 20 ltac:(done))) as Hr.
  change (inject_Z 20) with 20 in *.
  assert (inject_Z canvas_height < pow2 53) as H53
    by (rewrite (pow2_Z 53), <- Zlt_Qlt by done; lia).
  assert (finite (add y (of_Z 20)) = true) as Hf by (apply (rounded_finite_53 _ _ Hr); lra).
  pose proof (add_Z _ _ _ 100 Hpy (of_Z_denotes 100 ltac:(done)) ltac:(lia)) as Hs.
  apply (gt_denotes _ _ _ _ (denotes_Qval _ Hf (rounded_valid _ _ Hr)) Hs) in Hgt.
  rewrite <- inject_Z_plus. apply (rounded_gt_inv _ _ _ Hr Hf); [lia | done].
Qed.

(** Conversely, it answers [true] when the bird is outside the gap by
    more than half a step of the numbers next to the canvas height. *)
Lemma outside_gap64_complete y pf p h :
  (canvas_height < 2 ^ h)%Z -> denotes y (Qval y) -> 0 <= Qval y ->
  2 * (Qval y + 20 - inject_Z canvas_height) <= 1 ->
  pipe_models pf p -> pipe_exact p -> clear_of_gap h (Qval y) p -> outside_gap64 y pf = true.
Proof.
  intros Hh Hy H0 Hfl [_ Hpy] [_ Hgap] Hc. pose proof height_53 as HH.
  apply orb_true_iff. unfold clear_of_gap, gap_in_canvas, PIPE_GAP, bird_height in *.
  destruct Hc as [Hlt | Hgt]; [left; by apply (lt_denotes _ _ _ _ Hy Hpy) | right].
  assert (0 <= h)%Z as Hh0 by (destruct (Z_le_gt_dec 0 h); [done | rewrite Z.pow_neg_r in Hh; lia]).
  pose proof (add_denotes _ _ _ _ Hy (of_Z_denotes 20 ltac:(done))) as Hr.
  change (inject_Z 20) with 20 in *.
  assert (inject_Z canvas_height < pow2 53) as H53
    by (rewrite (pow2_Z 53), <- Zlt_Qlt by done; lia).
  assert (finite (add y (of_Z 20)) = true) as Hf by (apply (rounded_finite_53 _ _ Hr); lra).
  pose proof (add_Z _ _ _ 100 Hpy (of_Z_denotes 100 ltac:(done)) ltac:(lia)) as Hs.
  destruct (gt _ _) eqn:E; [done | exfalso].
  assert (Qval (add y (of_Z 20)) <= inject_Z (pipe_y p + 100)) as Hle.
  { apply Qnot_lt_le. intros Hlt.
    apply (gt_denotes _ _ _ _ (denotes_Qval _ Hf (rounded_valid _ _ Hr)) Hs) in Hlt. congruence. }
  pose proof (rounded_below _ _ _ h Hr Hf ltac:(unfold EMIN; lia) ltac:(lra) Hle) as Hb.
  replace (F h) with (h - 53)%Z in Hb by (rewrite F_unfold; unfold EMIN; lia).
  assert (inject_Z (pipe_y p + 100) < pow2 h) as Hp
    by (rewrite pow2_Z, <- Zlt_Qlt by done; lia).
  specialize (Hb Hp). lra.
Qed.

Lemma checkCollisions_loop64_sound y lf l :
  denotes y (Qval y) -> 0 <= Qval y -> 2 * (Qval y + 20 - inject_Z canvas_height) <= 1 ->
  Forall2 pipe_models lf l -> Forall pipe_exact l ->
  checkCollisions_loop64 y lf = true -> checkCollisions_loop (Qval y) l = true.
Proof.
  intros Hy H0 Hfl Hm. induction Hm as [|pf p lf l Hp Hm IH]; [done |].
  intros [Hx Hl]%Forall_cons. cbn [checkCollisions_loop64 checkCollisions_loop].
  rewrite (in_column64_exact pf p Hp Hx).
  destruct (outside_gap64 y pf) eqn:E.
  - rewrite decide_True by by apply (outside_gap64_sound y pf p).
    case_bool_decide; [by rewrite decide_True | rewrite decide_False by done; by apply IH].
  - intros Hrest%IH; [| done]. rewrite Hrest. by repeat case_decide.
Qed.

Lemma checkCollisions_loop64_complete y lf l h :
  (canvas_height < 2 ^ h)%Z -> denotes y (Qval y) -> 0 <= Qval y ->
  2 * (Qval y + 20 - inject_Z canvas_height) <= 1 ->
  Forall2 pipe_models lf l -> Forall pipe_exact l ->
  Exists (fun p => in_column p /\ clear_of_gap h (Qval y) p) l ->
  checkCollisions_loop64 y lf = true.
Proof.
  intros Hh Hy H0 Hfl Hm. induction Hm as [|pf p lf l Hp Hm IH]; [by inversion 2 |].
  intros [Hx Hl]%Forall_cons Hex. cbn [checkCollisions_loop64].
  rewrite (in_column64_exact pf p Hp Hx).
  apply Exists_cons in Hex as [[Hcol Hclear] | Hex].
  - by rewrite (outside_gap64_complete y pf p h), bool_decide_eq_true_2.
  - rewrite IH by done. by destruct (outside_gap64 y pf), (bool_decide (in_column p)).
Qed.

End Collision64.

Section Frame64.
Context `{cv : Canvas} `{!Playable64 cv}.
Implicit Types (gf : Game64) (g : Game) (pf : Pipe64) (p : Pipe) (n : Z) (x y rnd : number).

(** ** [spawnPipe] *)

Lemma Math_floor_denotes x :
  denotes x (Qval x) -> (- 2 ^ 53 < Qfloor (Qval x) < 2 ^ 53)%Z ->
  denotes (Math_floor x) (inject_Z (Qfloor (Qval x))).
Proof.
  intros (Hf & Hv & _) Hb. destruct x as [s|s| |s m e]; try done.
  by apply of_Z_denotes.
Qed.

Lemma Qfloor_between (q : Q) (a b : Z) :
  inject_Z a <= q <= inject_Z b -> (a <= Qfloor q <= b)%Z.
Proof.
  intros [Ha Hb]. split; [rewrite <- (Qfloor_Z a) | rewrite <- (Qfloor_Z b)];
    by apply Qfloor_resp_le.
Qed.

(** The product of line 50 before [Math.floor]: a draw below 1 times the
    height left above a gap is a finite number between 0 and that height,
    at most one integer away from the exact product. *)
Lemma pipe_height_range rnd :
  draw64 rnd ->
  let v := Qval rnd * inject_Z (canvas_height - PIPE_GAP) in
  let x := mul rnd (sub height64 (of_Z PIPE_GAP)) in
  denotes x (Qval x)
  /\ (0 <= Qfloor (Qval x) <= canvas_height - PIPE_GAP)%Z
  /\ (Qfloor v <= Qfloor (Qval x) <= Qfloor v + 1)%Z.
Proof.
  intros [Hr [Hr0 Hr1]] v x. pose proof height_53 as HH. unfold PIPE_GAP in *.
  pose proof (sub_Z _ _ _ 100 height64_denotes (of_Z_denotes 100 ltac:(done)) ltac:(lia))
    as (HLf & HLv & HLq).
  assert (rounded v x) as Hx.
  { apply (rounded_proper (Qval rnd * Qval (sub height64 (of_Z 100)))); [by rewrite HLq |].
    apply mul_rounded; (done || apply Hr). }
  assert (0 <= inject_Z (canvas_height - 100) < pow2 53) as [HL0 HL1].
  { rewrite (pow2_Z 53), <- Zlt_Qlt by done. change 0 with (inject_Z 0). rewrite <- Zle_Qle.
    lia. }
  assert (0 <= v <= inject_Z (canvas_height - 100)) as [Hv0 Hv1].
  { subst v. revert HL0 Hr0 Hr1. generalize (Qval rnd), (inject_Z (canvas_height - 100)).
    intros; nra. }
  assert (finite x = true) as Hf by (apply (rounded_finite_53 _ _ Hx); lra).
  pose proof (Qfloor_le v) as Hfl. pose proof (Qlt_floor v) as Hfu.
  assert (0 <= Qfloor v <= canvas_height - 100)%Z as Hfb by (by apply Qfloor_between).
  split; [by apply denotes_Qval, (rounded_valid _ _ Hx) |]. split; apply Qfloor_between; split.
  - by apply (rounded_ge _ _ 0 Hx Hf).
  - apply (rounded_le _ _ _ Hx Hf); [lia | done].
  - apply (rounded_ge _ _ _ Hx Hf); [lia | done].
  - apply (rounded_le _ _ _ Hx Hf); [lia | lra].
Qed.

Lemma models_mono n n' gf g : (n <= n')%Z -> models n gf g -> models n' gf g.
Proof.
  intros Hn (H1 & H2 & H3 & H4 & H5). refine (conj H1 (conj H2 (conj H3 (conj H4 _)))). lia.
Qed.

(** The gap of the new pipe starts at the floor of the rounded product. *)
Lemma spawnPipe64_models_at n gf g rnd :
  draw64 rnd -> models n gf g ->
  let h := Qfloor (Qval (mul rnd (sub height64 (of_Z PIPE_GAP)))) in
  models (n + 1) (spawnPipe64 rnd gf) (set_pipes (push (mkPipe canvas_width h) (pipes g)) g).
Proof.
  intros Hr (H2 & Hs & He & H0 & Hc). cbv zeta. pose proof height_53 as HH.
  pose proof width_53 as HW. destruct (pipe_height_range rnd Hr) as (Hx & Hb & _).
  unfold PIPE_GAP, PIPE_WIDTH in *.
  unfold models, spawnPipe64, set_pipes64, set_pipes. cbn [pipes64 score64 pipes score].
  rewrite length_push. unfold push. refine (conj _ (conj Hs (conj _ (conj H0 _)))); [| | lia].
  - apply Forall2_app; [done |]. constructor; [| done].
    split; cbn [pipe_x64 pipe_y64 pipe_x pipe_y].
    + apply of_Z_denotes. lia.
    + apply Math_floor_denotes; [done | lia].
  - apply Forall_app. split; [done |]. apply Forall_singleton. unfold pipe_exact, gap_in_canvas.
    cbn [pipe_x pipe_y]. unfold PIPE_GAP, PIPE_WIDTH. lia.
Qed.

Lemma spawnPipe64_models n gf g rnd :
  draw64 rnd -> models n gf g ->
  let h0 := Qfloor (Qval rnd * inject_Z (canvas_height - PIPE_GAP)) in
  exists h, (h0 <= h <= h0 + 1)%Z /\ (0 <= h <= canvas_height - PIPE_GAP)%Z
    /\ models (n + 1) (spawnPipe64 rnd gf) (set_pipes (push (mkPipe canvas_width h) (pipes g)) g).
Proof.
  intros Hr Hg h0. destruct (pipe_height_range rnd Hr) as (_ & Hb & Hh).
  eexists. split; [exact Hh |]. split; [exact Hb |]. by apply spawnPipe64_models_at.
Qed.

(** ** The spawn test *)

(** The test of line 115 is exact: [1 / SPAWN_RATE] rounds up, to the
    number next above 1/90, and no number lies between 1/90 and that one;
    so a draw is below the one exactly when it is below the other. *)
Lemma spawn_test64_exact rnd :
  draw64 rnd -> lt rnd SPAWN_CHANCE64 = true <-> Qval rnd < 1 / inject_Z SPAWN_RATE.
Proof.
  intros [Hr _]. assert (denotes SPAWN_CHANCE64 (Qval SPAWN_CHANCE64)) as Hc by (by vm_compute).
  rewrite (lt_denotes _ _ _ _ Hr Hc).
  assert (1 / inject_Z SPAWN_RATE < Qval SPAWN_CHANCE64) as Hup by (by vm_compute).
  assert (inject_Z (Zpos (Pos.pred 6405119470038039)) * pow2 (-59) < 1 / inject_Z SPAWN_RATE)
    as Hdown by (by vm_compute).
  split; [| intros; by eapply Qlt_trans].
  intros Hlt. eapply Qle_lt_trans; [| exact Hdown].
  apply no_number_between; [done | done | done | apply Hr | exact Hlt].
Qed.

(** ** [resetGame] and the key *)

Lemma resetGame64_sane n gf : (0 <= n)%Z -> sane64 n (resetGame64 gf).
Proof.
  intros Hn. pose proof height_53 as HH. unfold PIPE_GAP in HH. split.
  - assert (flying64 initial64) as Hb by (apply initial64_flying; unfold bird_height; lia).
    exact Hb.
  - exists (mkGame 0 0 false 0 [] 0). unfold models, resetGame64, set_pipes64, set_score64.
    cbn [pipes64 score64 pipes score length].
    refine (conj _ (conj _ (conj _ (conj _ _)))); (done || by apply of_Z_denotes).
Qed.

Lemma keydown64_sane n gf key : sane64 n gf -> sane64 n (keydown64 key gf).
Proof.
  intros [Hb Hg]. unfold keydown64. case_decide; [| done]. split; [exact Hb | exact Hg].
Qed.

(** ** A frame *)

Lemma updatePipes64_bird gf : bird64 (updatePipes64 gf) = bird64 gf.
Proof.
  apply (forEach_invariant pipes64 (fun s => bird64 s = bird64 gf)); [| done].
  intros pf i s Hs _. unfold updatePipes_callback64. by destruct (off_screen64 _).
Qed.

Lemma gameLoop64_sane n gf timestamp random1 random2 :
  (n + 1 < 2 ^ 53)%Z -> draw64 random2 -> sane64 n gf ->
  sane64 (n + 1) (gameLoop64 timestamp random1 random2 gf).
Proof.
  intros Hn Hr [Hb [g Hg]]. unfold gameLoop64. cbv zeta.
  set (g1 := updatePipes64 _).
  assert (sane64 n g1) as [Hb1 [g' Hg1]].
  { split; [| exists (updatePipes g)].
    - subst g1. rewrite updatePipes64_bird. by apply update64_flying.
    - apply updatePipes64_models; [lia | done]. }
  assert (0 <= n)%Z as Hn0 by (destruct Hg1 as (_ & _ & _ & ? & ?); lia).
  assert (sane64 n (if checkCollisions64 g1 then resetGame64 g1 else g1)) as [Hb2 [g2 Hg2]]
    by (destruct (checkCollisions64 g1); [by apply resetGame64_sane | by split; [| exists g']]).
  destruct (lt random1 SPAWN_CHANCE64).
  - destruct (spawnPipe64_models n _ g2 random2 Hr Hg2) as (h & _ & _ & Hm).
    split; [done | by eexists].
  - split; [done |]. exists g2. apply (models_mono n); [lia | done].
Qed.

End Frame64.

Section Run64.
Context `{cv : Canvas} `{!Playable64 cv}.
Implicit Types (gf : Game64) (g : Game) (n : Z) (es : list Event64) (e : Event64).

Lemma sane64_mono n n' gf : (n <= n')%Z -> sane64 n gf -> sane64 n' gf.
Proof. intros Hn [Hb [g Hg]]. split; [done |]. exists g. by apply (models_mono n). Qed.

Lemma initial_game64_sane : sane64 0 initial_game64.
Proof.
  pose proof height_53 as HH. unfold PIPE_GAP in HH.
  split; [apply initial64_flying; unfold bird_height; lia |].
  exists (mkGame 0 0 false 0 [] 0). unfold models.
  cbn [pipes64 score64 pipes score length initial_game64].
  refine (conj _ (conj _ (conj _ (conj _ _)))); (done || by apply of_Z_denotes).
Qed.

Lemma handle64_sane n gf e :
  (n + 1 < 2 ^ 53)%Z -> valid_event64 e -> sane64 n gf -> sane64 (n + 1) (handle64 e gf).
Proof.
  intros Hn He Hg. destruct e as [timestamp random1 random2 | key]; cbn [handle64].
  - apply gameLoop64_sane; [done | apply He | done].
  - apply (sane64_mono n); [lia | by apply keydown64_sane].
Qed.

Lemma run64_sane_from es n gf :
  Forall valid_event64 es -> (n + Z.of_nat (length es) < 2 ^ 53)%Z -> sane64 n gf ->
  sane64 (n + Z.of_nat (length es)) (run64 es gf).
Proof.
  revert n gf. induction es as [|e es IH]; intros n gf Hes Hn Hg.
  { cbn. by rewrite Z.add_0_r. }
  apply Forall_cons in Hes as [He Hes]. cbn [length] in *. rewrite Nat2Z.inj_succ in *.
  replace (n + Z.succ (Z.of_nat (length es)))%Z with (n + 1 + Z.of_nat (length es))%Z by lia.
  apply IH; [done | lia |]. apply handle64_sane; [lia | done | done].
Qed.

(** C24: in binary64 [updatePipes] computes in integers: when the pipes
    and the score of the binary64 program stand for those of the integer
    model (every pipe not yet left and not right of the canvas, fewer than
    2^53 pipes spawned), they do so after [updatePipes]; no subtraction,
    sum or comparison of lines 56-59 rounds, and the bird is not
    touched. *)
Theorem updatePipes64_refines n gf g :
  (n < 2 ^ 53)%Z -> models n gf g ->
  models n (updatePipes64 gf) (updatePipes g) /\ bird64 (updatePipes64 gf) = bird64 gf.
Proof. intros Hn Hg. split; [by apply updatePipes64_models | apply updatePipes64_bird]. Qed.

(** C19: [checkCollisions] in binary64 against the exact arithmetic, with
    the pipes standing for integers and the bird between the top and half
    a pixel below the floor line.  It reports no collision that the exact
    tests at the exact value of [birdY] do not have; and on a canvas lower
    than 2^h it reports every collision in which the bird is above the
    gap, or below it by more than 2^(h-54), half a step of the numbers
    next to the canvas height.  (Closer to the gap it can miss:
    [checkCollisions64_misses].) *)
Theorem checkCollisions64_margin n gf g h :
  (canvas_height < 2 ^ h)%Z -> models n gf g -> flying64 (bird64 gf) ->
  birdY g == Qval (birdY64 (bird64 gf)) ->
  (checkCollisions64 gf = true -> checkCollisions g = true)
  /\ ((exists p, p ∈ pipes g /\ in_column p /\ clear_of_gap h (birdY g) p) ->
      checkCollisions64 gf = true).
Proof.
  intros Hh (H2 & _ & He & _) (((Hf & _) & Hv & _) & _ & H0 & Hfl) Hy.
  pose proof (denotes_Qval _ Hf Hv) as Hd. split.
  - intros Hc. unfold checkCollisions. rewrite Hy.
    by apply (checkCollisions_loop64_sound _ (pipes64 gf)).
  - intros (p & Hin & Hcol & Hclear).
    apply (checkCollisions_loop64_complete _ _ (pipes g) h); try done.
    apply Exists_exists. exists p. split_and!; [done.. |].
    unfold clear_of_gap in *. by rewrite <- Hy.
Qed.

(** C26: [spawnPipe] in binary64 against the exact product: for a draw in
    [0, 1) the new pipe is at [canvas.width] and its gap starts at an
    integer between 0 and [canvas.height - 100] that is the floor of the
    exact product or one more; when it is the floor, the pipes are those
    of [spawnPipe] on rationals. *)
Theorem spawnPipe64_refines n gf g rnd :
  draw64 rnd -> models n gf g ->
  exists dy, (0 <= dy <= 1)%Z
    /\ models (n + 1) (spawnPipe64 rnd gf)
         (set_pipes (push (mkPipe canvas_width (pipe_y (new_pipe (Qval rnd)) + dy)) (pipes g)) g)
    /\ (0 <= pipe_y (new_pipe (Qval rnd)) + dy <= canvas_height - PIPE_GAP)%Z
    /\ (dy = 0%Z -> models (n + 1) (spawnPipe64 rnd gf) (spawnPipe (Qval rnd) g)).
Proof.
  intros Hr Hg. destruct (spawnPipe64_models n gf g rnd Hr Hg) as (h & Hh & Hb & Hm).
  assert (pipe_y (new_pipe (Qval rnd)) = Qfloor (Qval rnd * inject_Z (canvas_height - PIPE_GAP)))
    as Hy by (unfold new_pipe; cbn [pipe_y]; apply Qfloor_comp; by rewrite inject_Z_minus).
  cbv zeta in Hh. rewrite <- Hy in Hh. exists (h - pipe_y (new_pipe (Qval rnd)))%Z.
  replace (pipe_y (new_pipe (Qval rnd)) + (h - pipe_y (new_pipe (Qval rnd))))%Z with h by lia.
  split; [lia |]. split; [done |]. split; [done |]. intros Hdy.
  replace h with (pipe_y (new_pipe (Qval rnd))) in Hm by lia. exact Hm.
Qed.

(** C32: the program is well typed in binary64: on a canvas at least as
    high as a gap whose width and height leave room in 53 bits, after any
    schedule of fewer than 2^53 key events and frames with draws in
    [0, 1), from the initial state, the position and the velocity of the
    bird are finite canonical numbers (the velocity between -12 and 2^53,
    the position between 0 and half a pixel below the floor line), and
    the pipes and the score stand for integers: no NaN and no infinity is
    ever stored, and no pipe coordinate or score is ever rounded. *)
Theorem run64_sane es :
  Forall valid_event64 es -> (Z.of_nat (length es) < 2 ^ 53)%Z ->
  sane64 (Z.of_nat (length es)) (run64 es initial_game64).
Proof.
  intros Hes Hn. apply (run64_sane_from es 0); [done | lia | apply initial_game64_sane].
Qed.

End Run64.

(** ** The theorems at concrete states *)

Lemma leaving64_models : @models portrait_canvas 10 leaving64 leaving.
Proof. unfold models, leaving64, leaving. cbn [pipes64 score64 pipes score]. exact64. Qed.

Lemma below_gap64_models : @models portrait_canvas 1 below_gap64 below_gap.
Proof. unfold models, below_gap64, below_gap. cbn [pipes64 score64 pipes score]. exact64. Qed.

Lemma below_gap64_flying : @flying64 portrait_canvas (bird64 below_gap64).
Proof. by vm_compute. Qed.

Lemma draws64 : draw64 GRAVITY64 /\ draw64 (of_Z 0).
Proof. by vm_compute. Qed.

(** The frame in which the first of three pipes leaves. *)
Lemma updatePipes64_refines_witness :
  @models portrait_canvas 10 (updatePipes64 leaving64) (updatePipes leaving)
  /\ bird64 (updatePipes64 leaving64) = bird64 leaving64.
Proof.
  apply (@updatePipes64_refines portrait_canvas _ 10 leaving64 leaving); [done |].
  apply leaving64_models.
Defined.

(** The bird 10 pixels below the gap, on the portrait canvas, lower
    than 2^10: both programs report the collision. *)
Lemma checkCollisions64_margin_witness :
  (checkCollisions64 below_gap64 = true -> checkCollisions below_gap = true)
  /\ ((exists p, p ∈ pipes below_gap /\ in_column p /\ clear_of_gap 10 (birdY below_gap) p) ->
      checkCollisions64 below_gap64 = true).
Proof.
  apply (@checkCollisions64_margin portrait_canvas _ 1 below_gap64 below_gap 10);
    [done | apply below_gap64_models | apply below_gap64_flying | by vm_compute].
Defined.

(** The margin holds of that bird. *)
Lemma below_gap_clear : in_column (mkPipe 40 100) /\ clear_of_gap 10 190 (mkPipe 40 100).
Proof. split; [by vm_compute | right; by vm_compute]. Qed.

(** The bird whose lower edge is 2^-44 below the gap of a pipe: the sum
    [birdY + 20] rounds to the end of the gap, and binary64 sees no
    collision where the exact arithmetic has one. *)
Lemma checkCollisions64_misses :
  checkCollisions64 grazing_gap64 = false
  /\ checkCollisions (mkGame (Qval (birdY64 grazing)) 0 false 0 [mkPipe 40 412] 0) = true.
Proof. by vm_compute. Qed.

(** The draw 0.6 on the portrait canvas: 0.6 is a little below 6/10 and
    the exact product is a little below 300, but it rounds to 300 before
    [Math.floor] sees it. *)
Lemma spawnPipe64_one_more :
  pipes64 (@spawnPipe64 portrait_canvas GRAVITY64 (@initial_game64 portrait_canvas))
  = [mkPipe64 (of_Z 400) (of_Z 300)]
  /\ pipe_y (@new_pipe portrait_canvas (Qval GRAVITY64)) = 299%Z.
Proof. by vm_compute. Qed.

(** At 2^53 the score stops: [score++] leaves it as it is. *)
Lemma score64_saturates : add (of_Z (2 ^ 53)) (of_Z 1) = of_Z (2 ^ 53).
Proof. by vm_compute. Qed.

Lemma spawnPipe64_refines_witness :
  exists dy, (0 <= dy <= 1)%Z
    /\ @models portrait_canvas (0 + 1)
         (@spawnPipe64 portrait_canvas GRAVITY64 (@initial_game64 portrait_canvas))
         (set_pipes (push (mkPipe (@canvas_width portrait_canvas)
                             (pipe_y (@new_pipe portrait_canvas (Qval GRAVITY64)) + dy))
                       (pipes (mkGame 0 0 false 0 [] 0))) (mkGame 0 0 false 0 [] 0))
    /\ (0 <= pipe_y (@new_pipe portrait_canvas (Qval GRAVITY64)) + dy
        <= @canvas_height portrait_canvas - PIPE_GAP)%Z
    /\ (dy = 0%Z -> @models portrait_canvas (0 + 1)
                      (@spawnPipe64 portrait_canvas GRAVITY64 (@initial_game64 portrait_canvas))
                      (@spawnPipe portrait_canvas (Qval GRAVITY64) (mkGame 0 0 false 0 [] 0))).
Proof.
  apply (@spawnPipe64_refines portrait_canvas _ 0 (@initial_game64 portrait_canvas)
           (mkGame 0 0 false 0 [] 0) GRAVITY64); [apply draws64 |].
  unfold models. cbn [pipes64 score64 pipes score initial_game64]. exact64.
Defined.

Lemma run64_sane_witness :
  @sane64 portrait_canvas (Z.of_nat (length short_schedule64))
    (@run64 portrait_canvas short_schedule64 (@initial_game64 portrait_canvas)).
Proof.
  apply (@run64_sane portrait_canvas _ short_schedule64); [| done].
  repeat constructor; apply draws64.
Defined.
