(* ===== verification/Run64.v ===== *)
(** * Run64: the binary64 program against the exact program

    [Session] models the program on integers and rationals, [Game64] on
    binary64 numbers.  This file runs the two side by side.  The pipes
    and the score are the same in both ([Game64.models]) and the birds
    are a drift apart ([Drift64.follows]), as long as no test of the
    program falls inside that drift: the collision test of lines 79-82
    must be clear of the edges of the gaps by the drift and half a step,
    and the product of line 50 must round to a number with the floor of
    the exact product.  (The test of line 115 is exact for every draw:
    [Game64.spawn_test64_exact].)  A run all of whose frames are
    [decisive] in that sense takes the same branches in both programs; a
    collision puts both birds in the middle of the canvas. *)

From Stdlib Require Import SpecFloat Qpower Qround.
From S2P Require Import Prelude JsArray Globals Bird Pipes Collision Session.
From S2P Require Import Binary64 Rounding Arith64 Exact64 Scale64 Floor64 Drift64 Game64.

Local Open Scope Q_scope.

(** The event of the exact program that an event of the binary64 program
    stands for. *)
Definition exact_event (e : Event64) : Event :=
  match e with
  | AnimationFrame64 timestamp random1 random2 =>
      AnimationFrame (Qval timestamp) (Qval random1) (Qval random2)
  | KeyDown64 key => KeyDown key
  end.

Section Run64.
Context `{cv : Canvas}.

(** The binary64 state tracks the exact state: the same pipes and score,
    the birds within [ey] and [ev]. *)
Definition tracks (n : Z) (ey ev : Q) (gf : Game64) (g : Game) : Prop :=
  models n gf g /\ flying64 (bird64 gf) /\ follows ey ev (bird64 gf) g.

(** The bird at [y] is outside, or inside, the gap of [p] by [e]. *)
Definition outside_by (e y : Q) (p : Pipe) : Prop :=
  y + e < inject_Z (pipe_y p) \/ inject_Z (pipe_y p + PIPE_GAP) + e < y + inject_Z bird_height.

Definition inside_by (e y : Q) (p : Pipe) : Prop :=
  inject_Z (pipe_y p) + e <= y /\ y + inject_Z bird_height + e <= inject_Z (pipe_y p + PIPE_GAP).

(** The collision test of [g] is clear by [e]: some pipe is hit by more
    than [e], or the bird is inside the gap of every pipe of its column by
    [e]. *)
Definition clear_collision (e : Q) (g : Game) : Prop :=
  Exists (fun p => in_column p /\ outside_by e (birdY g) p) (pipes g)
  \/ Forall (fun p => in_column p -> inside_by e (birdY g) p) (pipes g).

(** The product of line 50 rounds to a number with the floor of the exact
    product. *)
Definition floor_exact (r : number) : Prop :=
  Qfloor (Qval (mul r (sub height64 (of_Z PIPE_GAP))))
  = Qfloor (Qval r * (inject_Z canvas_height - inject_Z PIPE_GAP)).

(** A frame from [g] takes the same branches in both programs when the
    birds are within [e - 2 ^ (k - 54)] after it. *)
Definition decisive_event (k : Z) (e : Q) (ev : Event64) (g : Game) : Prop :=
  match ev with
  | KeyDown64 _ => True
  | AnimationFrame64 _ random1 random2 =>
      draw64 random1 /\ draw64 random2 /\ floor_exact random2
      /\ clear_collision e (updatePipes (update g))
      /\ launch_velocity g + e + 2 <= pow2 (k - 1)
  end.

Fixpoint decisive (k : Z) (e : Q) (es : list Event64) (g : Game) : Prop :=
  match es with
  | [] => True
  | ev :: es' => decisive_event k e ev g /\ decisive k e es' (handle (exact_event ev) g).1
  end.

End Run64.

Section Tracks.
Context `{cv : Canvas} `{!Playable64 cv}.
Implicit Types (gf : Game64) (g : Game) (p : Pipe) (n k : Z) (e ey ev : Q) (b : Bird64).

(** ** The relations read the fields they name *)

Lemma models_fields n gf gf' g g' :
  pipes64 gf' = pipes64 gf -> score64 gf' = score64 gf ->
  pipes g' = pipes g -> score g' = score g -> models n gf g -> models n gf' g'.
Proof. unfold models. by intros -> -> -> ->. Qed.

Lemma follows_fields ey ev b g g' :
  birdFlap g' = birdFlap g -> birdY g' = birdY g -> birdVelocity g' = birdVelocity g ->
  follows ey ev b g -> follows ey ev b g'.
Proof. unfold follows. by intros -> -> ->. Qed.

Lemma tracks_mono n n' ey ey' ev ev' gf g :
  (n <= n')%Z -> ey <= ey' -> ev <= ev' -> tracks n ey ev gf g -> tracks n' ey' ev' gf g.
Proof.
  intros Hn Hy Hv (Hm & Hfl & Hf).
  split_and!; [by apply (models_mono n) | done | by apply (follows_mono ey ev)].
Qed.

(** ** The collision test *)

Lemma outside_by_outside e y p : 0 <= e -> outside_by e y p -> outside_gap y p.
Proof.
  unfold outside_by, outside_gap. rewrite inject_Z_plus. intros He [H | H]; [left | right]; lra.
Qed.

Lemma inside_by_inside e y y' p :
  within e y' y -> inside_by e y p -> ~ outside_gap y' p.
Proof.
  unfold within, inside_by, outside_gap. rewrite inject_Z_plus. intros [H1 H2] [H3 H4] [H | H]; lra.
Qed.

Lemma outside_by_clear e ey y y' p k :
  within ey y' y -> ey + drift_unit k <= e -> outside_by e y p -> clear_of_gap k y' p.
Proof.
  unfold within, outside_by, clear_of_gap, drift_unit. intros [H1 H2] He.
  pose proof (pow2_double (k - 54)) as Hd. replace (k - 54 + 1)%Z with (k - 53)%Z in Hd by lia.
  pose proof (pow2_pos (k - 54)) as Hu. intros [H | H]; [left | right]; lra.
Qed.

(** A test that is clear by the distance of the birds and half a step has
    the same answer in both programs. *)
Lemma checkCollisions64_agrees n e ey gf g k :
  (canvas_height < 2 ^ k)%Z -> 0 <= ey -> ey + drift_unit k <= e ->
  models n gf g -> flying64 (bird64 gf) ->
  within ey (Qval (birdY64 (bird64 gf))) (birdY g) ->
  clear_collision e g -> checkCollisions64 gf = checkCollisions g.
Proof.
  intros Hk Hey He (H2 & _ & Hx & _) (((Hf & _) & Hv & _) & _ & H0 & Hfl) Hw Hclear.
  pose proof (denotes_Qval _ Hf Hv) as Hd. pose proof (pow2_pos (k - 54)) as Hu.
  fold (drift_unit k) in Hu. unfold checkCollisions64, checkCollisions.
  destruct Hclear as [Hhit | Hfree].
  - rewrite (checkCollisions_loop64_complete _ _ (pipes g) k); try done.
    + symmetry. apply checkCollisions_loop_spec, (Exists_impl _ _ _ Hhit).
      intros p [? ?]. split; [done |]. apply (outside_by_outside e); [lra | done].
    + apply (Exists_impl _ _ _ Hhit). intros p [? ?].
      split; [done |]. by apply (outside_by_clear e ey (birdY g)).
  - assert (forall y', within e y' (birdY g) -> checkCollisions_loop y' (pipes g) = false) as Hno.
    { intros y' Hy'. apply not_true_is_false. intros (p & Hp & Hcol & Hout)%
        checkCollisions_loop_spec%Exists_exists.
      rewrite Forall_forall in Hfree.
      by apply (inside_by_inside e (birdY g) y' p Hy' (Hfree p Hp Hcol)). }
    rewrite (Hno (birdY g)) by (unfold within; split; lra).
    apply not_true_is_false. intros Hc%(checkCollisions_loop64_sound _ _ (pipes g)); try done.
    rewrite Hno in Hc; [done |]. unfold within in *. split; lra.
Qed.

(** ** The steps of a frame *)

(** Lines 98 and 101: the bird moves, the pipes scroll. *)
Lemma scroll_tracks n ey ev gf g k t :
  (5 <= k <= 53)%Z -> (canvas_height <= 2 ^ (k - 1))%Z -> (n < 2 ^ 53)%Z ->
  0 <= ey -> 0 <= ev -> launch_velocity g + ev + 2 <= pow2 (k - 1) ->
  tracks n ey ev gf g ->
  tracks n (ey + ev + 2 * drift_unit k) (ev + drift_unit k)
    (updatePipes64 (set_bird64 (update64 (bird64 gf)) (set_lastTime64 t gf)))
    (updatePipes (update g)).
Proof.
  intros Hk HH Hn Hey Hev Hroom (Hm & Hfly & Hfol).
  split_and!; rewrite ?updatePipes64_bird; cbn [bird64 set_bird64].
  - apply updatePipes64_models; [done |].
    by apply (models_fields n gf _ g); rewrite ?update_pipes, ?update_score.
  - by apply update64_flying.
  - apply (follows_fields _ _ _ (update g));
      [apply updatePipes_birdFlap | apply updatePipes_birdY | apply updatePipes_birdVelocity |].
    by apply (update64_follows ey ev _ g k).
Qed.

(** Lines 121-126: both birds are put in the middle of the canvas, which
    is a number. *)
Lemma resetGame64_tracks n ey ev ey' ev' gf g :
  0 <= ey' -> 0 <= ev' -> tracks n ey ev gf g -> tracks n ey' ev' (resetGame64 gf) (resetGame g).
Proof.
  intros Hey Hev ((_ & _ & _ & Hs & Hn) & _ & Hflap & _).
  assert (0 <= n)%Z as Hn0 by (pose proof (Zle_0_nat (length (pipes g))); lia).
  destruct (resetGame64_sane n gf Hn0) as [Hfly _].
  assert (1 <= canvas_height < 2 ^ 53)%Z as HH by (pose proof height_53; unfold PIPE_GAP in *; lia).
  destruct (half_Z canvas_height HH) as (_ & _ & Hq).
  pose proof (of_Z_denotes 0 ltac:(done)) as H0. split_and!; [| done |].
  - unfold models, resetGame64, resetGame. cbn.
    refine (conj _ (conj H0 (conj _ (conj _ _)))); (done || lia).
  - unfold follows, within, resetGame64, resetGame. cbn. fold height64 in Hq. rewrite Hq.
    change (Qval (of_Z 0)) with 0. split_and!; [done | lra..].
Qed.

(** Line 115: the same draw spawns in both programs, and the same pipe. *)
Lemma spawn_tracks n ey ev gf g r1 r2 :
  draw64 r1 -> draw64 r2 -> floor_exact r2 -> tracks n ey ev gf g ->
  tracks (n + 1) ey ev (if lt r1 SPAWN_CHANCE64 then spawnPipe64 r2 gf else gf)
    (if decide (Qval r1 < 1 / inject_Z SPAWN_RATE) then spawnPipe (Qval r2) g else g).
Proof.
  intros Hr1 Hr2 Hfl (Hm & Hfly & Hfol). pose proof (spawn_test64_exact r1 Hr1) as Hlt.
  destruct (lt r1 SPAWN_CHANCE64).
  - rewrite decide_True by (by apply Hlt). split_and!; [| done | done].
    pose proof (spawnPipe64_models_at n gf g r2 Hr2 Hm) as Hs. cbv zeta in Hs.
    unfold floor_exact in Hfl. by rewrite Hfl in Hs.
  - rewrite decide_False by (intros ?%Hlt; done).
    split_and!; [by apply (models_mono n); [lia |] | done..].
Qed.

Lemma keydown64_tracks n ey ev gf g key :
  tracks n ey ev gf g -> tracks n ey ev (keydown64 key gf) (keydown key g).
Proof.
  intros (Hm & Hfly & Hflap & Hy & Hv). unfold keydown64, keydown.
  case_decide; [| done]. split_and!; done.
Qed.

(** ** A frame *)

Lemma gameLoop64_tracks k n e ey ev gf g t t' r1 r2 :
  (5 <= k <= 53)%Z -> (canvas_height <= 2 ^ (k - 1))%Z -> (n + 1 < 2 ^ 53)%Z ->
  0 <= ey -> 0 <= ev -> ev <= e -> ey + ev + 3 * drift_unit k <= e ->
  tracks n ey ev gf g -> decisive_event k e (AnimationFrame64 t r1 r2) g ->
  tracks (n + 1) (ey + ev + 2 * drift_unit k) (ev + drift_unit k)
    (gameLoop64 t r1 r2 gf) (frame_state t' (Qval r1) (Qval r2) g).
Proof.
  intros Hk HH Hn Hey Hev Hve He Ht (Hr1 & Hr2 & Hfl & Hclear & Hroom).
  destruct (drift_unit_half k ltac:(lia)) as [Hu _].
  pose proof (scroll_tracks n ey ev gf g k t Hk HH ltac:(lia) Hey Hev ltac:(lra) Ht) as H1.
  unfold gameLoop64, frame_state. cbv zeta. rewrite frame_normal.
  change (checkCollisions (set_lastTime t' ?x)) with (checkCollisions x).
  assert (canvas_height < 2 ^ k)%Z as HH' by (pose proof (Z.pow_lt_mono_r 2 (k - 1) k); lia).
  rewrite (checkCollisions64_agrees n e (ey + ev + 2 * drift_unit k) _ (updatePipes (update g)) k);
    [| done | lra | lra | apply H1 | apply H1 | apply H1 | done].
  apply spawn_tracks; try done. destruct (checkCollisions _).
  - apply (resetGame64_tracks n (ey + ev + 2 * drift_unit k) (ev + drift_unit k)); [lra.. |].
    exact H1.
  - exact H1.
Qed.

(** A frame in which no pipe is in the column of the bird is clear,
    wherever the bird is. *)
Lemma clear_no_column e g : Forall (fun p => ~ in_column p) (pipes g) -> clear_collision e g.
Proof. intros H. right. apply (Forall_impl _ _ _ H). by intros p Hp ?. Qed.

End Tracks.

(** ** A run *)

Section Runs.
Context `{cv : Canvas} `{!Playable64 cv}.
Context (k : Z) (e : Q) (Hk : (5 <= k <= 53)%Z) (HH : (canvas_height <= 2 ^ (k - 1))%Z).
Implicit Types (gf : Game64) (g : Game) (n : Z) (i : nat) (es : list Event64).

Lemma drift_step i :
  0 <= drift_y k i /\ 0 <= drift_v k i
  /\ drift_y k (S i) == drift_y k i + drift_v k i + 2 * drift_unit k
  /\ drift_v k (S i) == drift_v k i + drift_unit k.
Proof.
  destruct (drift_S k i) as [Ey Ev]. rewrite Ey, Ev. unfold drift_y, drift_v, drift_unit.
  pose proof (inject_Z_nat_nonneg i) as Hi. pose proof (pow2_pos (k - 55)) as H55.
  pose proof (pow2_pos (k - 54)) as H54. split_and!; [nra | nra | ring | ring].
Qed.

Lemma drift_mono i j : (i <= j)%nat -> drift_y k i <= drift_y k j /\ drift_v k i <= drift_v k j.
Proof.
  induction 1 as [|j _ [IHy IHv]]; [split; lra |].
  destruct (drift_step j) as (Hy & Hv & Ey & Ev). rewrite Ey, Ev.
  destruct (drift_unit_half k ltac:(lia)) as [Hu _]. split; lra.
Qed.

Lemma initial_tracks : tracks 0 (drift_y k 0) (drift_v k 0) initial_game64 initial.
Proof.
  destruct (drift_step 0) as (Hy & Hv & _). apply (tracks_mono 0 0 0 _ 0 _); [done.. |].
  assert (1 <= canvas_height < 2 ^ 53)%Z as H53
    by (pose proof height_53; unfold PIPE_GAP in *; lia).
  destruct (half_Z canvas_height H53) as (_ & _ & Hq).
  pose proof (of_Z_denotes 0 ltac:(done)) as H0. split_and!.
  - unfold models. cbn. refine (conj _ (conj H0 (conj _ (conj _ _)))); done.
  - apply initial64_flying. pose proof height_53. unfold bird_height, PIPE_GAP in *. lia.
  - unfold follows, within. cbn. fold height64 in Hq. rewrite Hq.
    change (Qval (of_Z 0)) with 0. split_and!; [done | lra..].
Qed.

Lemma handle64_tracks n i gf g ev :
  (n + 1 < 2 ^ 53)%Z -> drift_y k (S i) + drift_unit k <= e ->
  tracks n (drift_y k i) (drift_v k i) gf g -> decisive_event k e ev g ->
  tracks (n + 1) (drift_y k (S i)) (drift_v k (S i)) (handle64 ev gf)
    (handle (exact_event ev) g).1.
Proof.
  intros Hn He Ht Hd. destruct (drift_step i) as (Hy & Hv & Ey & Ev).
  destruct (drift_unit_half k ltac:(lia)) as [Hu _]. destruct ev as [t r1 r2 | key].
  - cbn [handle64 exact_event handle]. rewrite gameLoop_state.
    eapply tracks_mono;
      [| | | apply (gameLoop64_tracks k n e (drift_y k i) (drift_v k i)); try done];
      [lia | lra..].
  - cbn [handle64 exact_event handle fst].
    apply (tracks_mono n _ (drift_y k i) _ (drift_v k i)); [lia | lra | lra |].
    by apply keydown64_tracks.
Qed.

Lemma run64_tracks_from es i n gf g :
  (n + Z.of_nat (length es) < 2 ^ 53)%Z -> drift_y k (i + length es) + drift_unit k <= e ->
  tracks n (drift_y k i) (drift_v k i) gf g -> decisive k e es g ->
  tracks (n + Z.of_nat (length es)) (drift_y k (i + length es)) (drift_v k (i + length es))
    (run64 es gf) (run (map exact_event es) g).1.
Proof.
  revert i n gf g. induction es as [|ev es IH]; intros i n gf g Hn He Ht Hd.
  { cbn. by rewrite Z.add_0_r, Nat.add_0_r. }
  destruct Hd as [Hd Hds]. cbn [length] in *. rewrite Nat2Z.inj_succ in *.
  rewrite Nat.add_succ_r in *. change (S (i + length es)) with (S i + length es)%nat in *.
  replace (n + Z.succ (Z.of_nat (length es)))%Z with (n + 1 + Z.of_nat (length es))%Z in * by lia.
  cbn [map]. rewrite run_cons. cbn [fst]. apply IH; [done | done | | done].
  apply handle64_tracks; [lia | | done | done].
  destruct (drift_mono (S i) (S i + length es) ltac:(lia)). lra.
Qed.

(** C10: the binary64 program runs as the exact program does, on every
    schedule whose frames are decisive.  On a canvas at most 2^(k-1) high
    (k from 5 to 53), from the initial state, under a schedule of fewer
    than 2^53 key events and frames with draws in [0, 1): when in every
    frame, as the exact program runs it, the collision test is clear of
    the edges of the gaps by [e], the product of line 50 rounds to a
    number with the floor of the exact product and the launch velocity is
    below 2^(k-1) - e - 2, and when [e] covers the
    drift of that many frames and half a step, then after the schedule
    the pipes and the score of the binary64 program are those of the
    exact program, the same flap is pending, and the birds are within
    [drift_y] and [drift_v] of each other: both programs have taken the
    same branches, resets included. *)
Theorem run64_tracks es :
  (Z.of_nat (length es) < 2 ^ 53)%Z -> drift_y k (length es) + drift_unit k <= e ->
  decisive k e es initial ->
  tracks (Z.of_nat (length es)) (drift_y k (length es)) (drift_v k (length es))
    (run64 es initial_game64) (run (map exact_event es) initial).1.
Proof.
  intros Hn He Hd.
  apply (run64_tracks_from es 0 0 initial_game64 initial); [lia | done | | done].
  apply initial_tracks.
Qed.

End Runs.

(** ** The theorems at concrete states *)

(** A frame that spawns a pipe, a key press, a frame that does not spawn. *)
Definition decisive_schedule64 : list Event64 :=
  [AnimationFrame64 (of_Z 16) (of_Z 0) (of_Z 0); KeyDown64 " ";
   AnimationFrame64 (of_Z 33) GRAVITY64 (of_Z 0)].

Lemma decisive_schedule64_decisive :
  @decisive portrait_canvas 11 1 decisive_schedule64 (@initial portrait_canvas).
Proof.
  cbn [decisive decisive_schedule64 decisive_event exact_event].
  split_and!; try done; try (by vm_compute);
    apply clear_no_column, (bool_decide_unpack _); by vm_compute.
Qed.

(** The schedule on the portrait canvas, with a margin of one pixel: the
    binary64 program has the pipe and the score of the exact program, and
    its bird is within 18 * 2^-44 of the exact bird. *)
Lemma run64_tracks_witness :
  @tracks portrait_canvas (Z.of_nat (length decisive_schedule64))
    (drift_y 11 (length decisive_schedule64)) (drift_v 11 (length decisive_schedule64))
    (@run64 portrait_canvas decisive_schedule64 (@initial_game64 portrait_canvas))
    (@run portrait_canvas (map exact_event decisive_schedule64) (@initial portrait_canvas)).1.
Proof.
  apply (@run64_tracks portrait_canvas _ 11 1);
    [done | done | done | by vm_compute | apply decisive_schedule64_decisive].
Defined.

Lemma drift_three_events : drift_y 11 3 == 18 * pow2 (-44).
Proof. by vm_compute. Qed.

(** The condition on the second draw is needed: the draw 0.6 on the
    portrait canvas gives a gap that starts one pixel lower than the
    exact product says ([Game64.spawnPipe64_one_more]). *)
Lemma floor_not_exact : ~ @floor_exact portrait_canvas GRAVITY64.
Proof. by vm_compute. Qed.
